(** * agent-backport: the job record store and the backport workflow

    A shallow embedding of [src/lib/jobs.ts] (the in-memory job store, the
    Redis job store and the backport workflow) and of the [GET] handler of
    [src/app/api/jobs/route.ts], together with the properties the
    specification states about them and further properties of the code.

    Conventions of the embedding:
    - a JavaScript [Date] is its millisecond timestamp, a [Z];
    - every reading of the clock ([new Date()], [Date.now()]) and the random
      part of a generated id are explicit arguments of the operation;
    - [number] values are integers ([Z]); strings are [string];
    - an optional field [f?: T] is an [option T];
    - the Redis store is given at the types the source declares
      ([RedisStore]) and as it runs ([RedisClient]): the client hands out a
      stored text that is JSON as its JSON value. *)

From Stdlib Require Import ZArith List Sorted Permutation Lia Bool.
From Stdlib Require Import Ascii String DecimalString DecimalZ DecimalPos.
From stdpp Require Import base option gmap strings sorting.
Import ListNotations.

Local Open Scope string_scope.
Local Open Scope Z_scope.
Local Open Scope list_scope.

(** ** JavaScript helpers *)

(** [String(n)] / a number inside a template literal, for an integer. *)
Definition js_number_to_string (n : Z) : string :=
  NilZero.string_of_int (Z.to_int n).

(** [Date.prototype.toISOString] is a built-in whose text is never inspected
    by the program; it is an explicit parameter of the operations that call
    it. *)
Class JsDate := { toISOString : Z -> string }.

(** Truthiness of a string and of a number, as used by [if (options?.x)]. *)
Definition truthy_string (s : string) : bool := negb (String.eqb s "").
Definition truthy_number (n : Z) : bool := negb (n =? 0).

(** [Array.prototype.slice(0, e)] for an integer [e]: a negative end counts
    from the end of the array. *)
Definition slice0 {A : Type} (l : list A) (e : Z) : list A :=
  if e <? 0
  then firstn (Z.to_nat (Z.max 0 (Z.of_nat (List.length l) + e))) l
  else firstn (Z.to_nat e) l.

(** [Array.prototype.sort(cmp)] is a stable sort: an element [a] that comes
    before [b] in the array stays before it unless [cmp a b > 0].  Stable
    insertion sort is its executable reference. *)
Fixpoint sort_insert {A : Type} (cmp : A -> A -> Z) (x : A) (l : list A) : list A :=
  match l with
  | [] => [x]
  | y :: l' => if cmp x y <=? 0 then x :: y :: l' else y :: sort_insert cmp x l'
  end.

Fixpoint array_sort {A : Type} (cmp : A -> A -> Z) (l : list A) : list A :=
  match l with
  | [] => []
  | x :: l' => sort_insert cmp x (array_sort cmp l')
  end.

(** [s.includes(sub)]: [sub] occurs in [s]. *)
Definition contains (s sub : string) : Prop :=
  exists pre post : string, s = pre +:+ sub +:+ post.

(** ** The job record (interface [BackportJob]) *)

Inductive Status := pending | in_progress | completed | failed.

#[global] Instance Status_eq_dec : EqDecision Status.
Proof. solve_decision. Defined.

Definition Status_eqb (a b : Status) : bool := bool_decide (a = b).

Record BackportJob := mkJob {
  id : string;
  repository : string;
  installationId : Z;
  sourcePR : Z;
  targetBranch : string;
  status : Status;
  createdAt : Z;
  updatedAt : Z;
  requestedBy : string;
  commentId : Z;
  resultPR : option Z;
  error : option string;
  logs : list string
}.

(** [Omit<BackportJob, "id" | "status" | "createdAt" | "updatedAt" | "logs">],
    the argument of [createJob]. *)
Record JobParams := mkJobParams {
  p_repository : string;
  p_installationId : Z;
  p_sourcePR : Z;
  p_targetBranch : string;
  p_requestedBy : string;
  p_commentId : Z;
  p_resultPR : option Z;
  p_error : option string
}.

(** The argument of [listJobs]. *)
Record ListOptions := mkListOptions {
  o_repository : option string;
  o_status : option Status;
  o_limit : option Z
}.

(** [options?.repository] and [options?.status] guard a filter only when they
    are truthy; every status literal is a non-empty string. *)
Definition repository_filter (options : option ListOptions) : option string :=
  match options with
  | Some o =>
      match o_repository o with
      | Some r => if truthy_string r then Some r else None
      | None => None
      end
  | None => None
  end.

Definition status_filter (options : option ListOptions) : option Status :=
  match options with
  | Some o => o_status o
  | None => None
  end.

(** [options?.limit], when truthy. *)
Definition limit_option (options : option ListOptions) : option Z :=
  match options with
  | Some o =>
      match o_limit o with
      | Some n => if truthy_number n then Some n else None
      | None => None
      end
  | None => None
  end.

(** ** The in-memory store ([src/lib/jobs.ts], first version) *)

Module MemStore.

(** [const jobs = new Map<string, BackportJob>()]: a JavaScript [Map] iterates
    in insertion order, and [set] on a present key keeps its position. *)
Definition Jobs := list (string * BackportJob).

Fixpoint map_get (k : string) (m : Jobs) : option BackportJob :=
  match m with
  | [] => None
  | (k', v) :: m' => if String.eqb k' k then Some v else map_get k m'
  end.

Fixpoint map_set (k : string) (v : BackportJob) (m : Jobs) : Jobs :=
  match m with
  | [] => [(k, v)]
  | (k', v') :: m' =>
      if String.eqb k' k then (k, v) :: m' else (k', v') :: map_set k v m'
  end.

Definition map_values (m : Jobs) : list BackportJob := map snd m.

(** [generateJobId]: [now] is [Date.now()] and [rand] the text produced by
    [Math.random().toString(36).substring(2, 9)]. *)
Definition generateJobId (now : Z) (rand : string) : string :=
  "bp_" +:+ js_number_to_string now +:+ "_" +:+ rand.

(** [createJob]: [new Date()] is read twice. *)
Definition createJob (params : JobParams) (newId : string) (now1 now2 : Z)
    (jobs : Jobs) : BackportJob * Jobs :=
  let job := {|
    id := newId;
    repository := p_repository params;
    installationId := p_installationId params;
    sourcePR := p_sourcePR params;
    targetBranch := p_targetBranch params;
    status := pending;
    createdAt := now1;
    updatedAt := now2;
    requestedBy := p_requestedBy params;
    commentId := p_commentId params;
    resultPR := p_resultPR params;
    error := p_error params;
    logs := [] |} in
  (job, map_set (id job) job jobs).

Definition getJob (i : string) (jobs : Jobs) : option BackportJob :=
  map_get i jobs.

(** [Partial<Omit<BackportJob, "id" | "createdAt">>], the argument of
    [updateJob].  The type has no [id] and no [createdAt].  A required field is
    either left out ([None]) or given; an optional field ([resultPR], [error])
    is left out ([None]), given as [undefined] ([Some None]) or given a value. *)
Record JobUpdates := mkJobUpdates {
  u_repository : option string;
  u_installationId : option Z;
  u_sourcePR : option Z;
  u_targetBranch : option string;
  u_status : option Status;
  u_updatedAt : option Z;
  u_requestedBy : option string;
  u_commentId : option Z;
  u_resultPR : option (option Z);
  u_error : option (option string);
  u_logs : option (list string)
}.

Definition no_updates : JobUpdates :=
  mkJobUpdates None None None None None None None None None None None.

(** [{ ...job, ...updates, updatedAt: new Date() }] *)
Definition merge (job : BackportJob) (updates : JobUpdates) (now : Z) : BackportJob :=
  {| id := id job;
     repository := default (repository job) (u_repository updates);
     installationId := default (installationId job) (u_installationId updates);
     sourcePR := default (sourcePR job) (u_sourcePR updates);
     targetBranch := default (targetBranch job) (u_targetBranch updates);
     status := default (status job) (u_status updates);
     createdAt := createdAt job;
     updatedAt := now;
     requestedBy := default (requestedBy job) (u_requestedBy updates);
     commentId := default (commentId job) (u_commentId updates);
     resultPR := default (resultPR job) (u_resultPR updates);
     error := default (error job) (u_error updates);
     logs := default (logs job) (u_logs updates) |}.

Definition updateJob (i : string) (updates : JobUpdates) (now : Z)
    (jobs : Jobs) : option BackportJob * Jobs :=
  match map_get i jobs with
  | None => (None, jobs)
  | Some job =>
      let updated := merge job updates now in
      (Some updated, map_set i updated jobs)
  end.

(** The annotation of [updates] is checked by the compiler and erased from
    the program that runs: [updateJob] neither rejects nor strips a property
    of the object it is given.  [Erased] has the function on the objects a
    caller can pass at run time (from JavaScript, through a cast, or as an
    object with more properties than its static type), which may carry [id]
    and [createdAt] besides the fields of [JobUpdates]. *)
Module Erased.

Record Updates := mkUpdates {
  given_id : option string;
  given_createdAt : option Z;
  declared : JobUpdates
}.

(** An object of the declared type. *)
Definition typed (u : JobUpdates) : Updates := mkUpdates None None u.

(** [{ ...job, ...updates, updatedAt: new Date() }] *)
Definition merge (job : BackportJob) (updates : Updates) (now : Z) : BackportJob :=
  {| id := default (id job) (given_id updates);
     repository := default (repository job) (u_repository (declared updates));
     installationId := default (installationId job) (u_installationId (declared updates));
     sourcePR := default (sourcePR job) (u_sourcePR (declared updates));
     targetBranch := default (targetBranch job) (u_targetBranch (declared updates));
     status := default (status job) (u_status (declared updates));
     createdAt := default (createdAt job) (given_createdAt updates);
     updatedAt := now;
     requestedBy := default (requestedBy job) (u_requestedBy (declared updates));
     commentId := default (commentId job) (u_commentId (declared updates));
     resultPR := default (resultPR job) (u_resultPR (declared updates));
     error := default (error job) (u_error (declared updates));
     logs := default (logs job) (u_logs (declared updates)) |}.

Definition updateJob (i : string) (updates : Updates) (now : Z)
    (jobs : Jobs) : option BackportJob * Jobs :=
  match map_get i jobs with
  | None => (None, jobs)
  | Some job =>
      let updated := merge job updates now in
      (Some updated, map_set i updated jobs)
  end.

End Erased.

Section WithDate.
Context {D : JsDate}.

(** [addJobLog] mutates the stored object in place; [new Date()] is read once
    for the entry and once for [updatedAt]. *)
Definition addJobLog (i : string) (message : string) (now1 now2 : Z)
    (jobs : Jobs) : Jobs :=
  match map_get i jobs with
  | Some job =>
      map_set i
        {| id := id job;
           repository := repository job;
           installationId := installationId job;
           sourcePR := sourcePR job;
           targetBranch := targetBranch job;
           status := status job;
           createdAt := createdAt job;
           updatedAt := now2;
           requestedBy := requestedBy job;
           commentId := commentId job;
           resultPR := resultPR job;
           error := error job;
           logs := (logs job ++ ["[" +:+ toISOString now1 +:+ "] " +:+ message])%list |}
        jobs
  | None => jobs
  end.

End WithDate.

Definition filter_repository (r : option string) (l : list BackportJob) :=
  match r with
  | Some r => List.filter (fun j => String.eqb (repository j) r) l
  | None => l
  end.

Definition filter_status (s : option Status) (l : list BackportJob) :=
  match s with
  | Some s => List.filter (fun j => Status_eqb (status j) s) l
  | None => l
  end.

(** [(a, b) => b.createdAt.getTime() - a.createdAt.getTime()] *)
Definition by_createdAt_desc (a b : BackportJob) : Z := createdAt b - createdAt a.

Definition listJobs (options : option ListOptions) (jobs : Jobs) : list BackportJob :=
  let result := map_values jobs in
  let result := filter_repository (repository_filter options) result in
  let result := filter_status (status_filter options) result in
  let result := array_sort by_createdAt_desc result in
  match limit_option options with
  | Some n => slice0 result n
  | None => result
  end.

Definition listJobsForUser (accessToken : string) (limit : option Z) (jobs : Jobs) :=
  listJobs (Some (mkListOptions None None limit)) jobs.

End MemStore.

(** ** The Redis store ([src/lib/jobs.ts], second version)

    [RedisStore] has the store functions at the types the source declares:
    [hgetall<RedisBackportJob>] yields a record whose text fields are
    strings and [lrange<string>] a list of strings, each as it was written.
    The client returns a stored text as it was written when the text is no
    JSON text; what it returns otherwise, and the store functions on those
    values, are in [Json] and [RedisClient] below. *)

Module RedisStore.

Definition JOB_PREFIX : string := "job:".
Definition JOB_LOGS_SUFFIX : string := ":logs".
Definition JOB_INDEX : string := "jobs:all".

(** [type RedisBackportJob]: the object [hgetall] returns for a job key.  A
    hash holds whichever fields were ever written to it, so every field is
    optional at run time.  The ISO text of a date is represented by the
    timestamp it denotes ([new Date(d.toISOString())] is [d]). *)
Record RedisBackportJob := mkHash {
  r_id : option string;
  r_repository : option string;
  r_installationId : option Z;
  r_sourcePR : option Z;
  r_targetBranch : option string;
  r_status : option Status;
  r_createdAt : option Z;
  r_updatedAt : option Z;
  r_requestedBy : option string;
  r_commentId : option Z;
  r_resultPR : option Z;
  r_error : option string
}.

Definition empty_hash : RedisBackportJob :=
  mkHash None None None None None None None None None None None None.

(** [Object.keys(data).length === 0] *)
Definition hash_is_empty (h : RedisBackportJob) : bool :=
  match h with
  | mkHash None None None None None None None None None None None None => true
  | _ => false
  end.

(** The part of the Redis server the program uses: hashes, lists and sorted
    sets, each in its own key space. *)
Record Redis := mkRedis {
  hashes : gmap string RedisBackportJob;
  lists : gmap string (list string);
  zsets : gmap string (gmap string Z)
}.

Definition empty_redis : Redis := mkRedis ∅ ∅ ∅.

(** [hgetall<RedisBackportJob>]: the fields of the hash as they were
    written.  [RedisClient.hgetall] has what the client makes of them. *)
Definition hgetall (key : string) (r : Redis) : option RedisBackportJob :=
  hashes r !! key.

(** [{ ...old, ...new }] on hash fields: [HSET] overwrites the fields it is
    given and keeps the others. *)
Definition hash_merge (old new : RedisBackportJob) : RedisBackportJob :=
  {| r_id := r_id new ∪ r_id old;
     r_repository := r_repository new ∪ r_repository old;
     r_installationId := r_installationId new ∪ r_installationId old;
     r_sourcePR := r_sourcePR new ∪ r_sourcePR old;
     r_targetBranch := r_targetBranch new ∪ r_targetBranch old;
     r_status := r_status new ∪ r_status old;
     r_createdAt := r_createdAt new ∪ r_createdAt old;
     r_updatedAt := r_updatedAt new ∪ r_updatedAt old;
     r_requestedBy := r_requestedBy new ∪ r_requestedBy old;
     r_commentId := r_commentId new ∪ r_commentId old;
     r_resultPR := r_resultPR new ∪ r_resultPR old;
     r_error := r_error new ∪ r_error old |}.

Definition hset (key : string) (kv : RedisBackportJob) (r : Redis) : Redis :=
  {| hashes := <[key := hash_merge (default empty_hash (hashes r !! key)) kv]> (hashes r);
     lists := lists r;
     zsets := zsets r |}.

(** [lrange(key, 0, -1)] *)
Definition lrange_all (key : string) (r : Redis) : list string :=
  default [] (lists r !! key).

Definition rpush (key : string) (v : string) (r : Redis) : Redis :=
  {| hashes := hashes r;
     lists := <[key := (lrange_all key r ++ [v])%list]> (lists r);
     zsets := zsets r |}.

Definition zadd (key : string) (score : Z) (member : string) (r : Redis) : Redis :=
  {| hashes := hashes r;
     lists := lists r;
     zsets := <[key := <[member := score]> (default ∅ (zsets r !! key))]> (zsets r) |}.

(** A sorted set is ordered by score, members of equal score
    lexicographically. *)
Definition zset_cmp (a b : string * Z) : Z :=
  match Z.compare (snd a) (snd b) with
  | Lt => -1
  | Gt => 1
  | Eq =>
      match String.compare (fst a) (fst b) with
      | Lt => -1
      | Gt => 1
      | Eq => 0
      end
  end.

(** [zrange(key, 0, -1, { rev: true })]: all members, highest score first. *)
Definition zrange_rev_all (key : string) (r : Redis) : list string :=
  map fst (rev (array_sort zset_cmp (map_to_list (default ∅ (zsets r !! key))))).

(** The run-time shape of the [BackportJob] the Redis store hands out:
    [{ ...data, createdAt, updatedAt, logs }].  A date built from a missing
    field is an invalid date, [None]. *)
Record Job := mkRJob {
  data : RedisBackportJob;
  rlogs : list string
}.

Definition jobFromRedis (d : RedisBackportJob) (l : list string) : Job :=
  {| data := d; rlogs := l |}.

Definition jobToRedis (job : BackportJob) : RedisBackportJob :=
  {| r_id := Some (id job);
     r_repository := Some (repository job);
     r_installationId := Some (installationId job);
     r_sourcePR := Some (sourcePR job);
     r_targetBranch := Some (targetBranch job);
     r_status := Some (status job);
     r_createdAt := Some (createdAt job);
     r_updatedAt := Some (updatedAt job);
     r_requestedBy := Some (requestedBy job);
     r_commentId := Some (commentId job);
     r_resultPR := resultPR job;
     r_error := error job |}.

Definition job_key (i : string) : string := JOB_PREFIX +:+ i.
Definition logs_key (i : string) : string := JOB_PREFIX +:+ i +:+ JOB_LOGS_SUFFIX.

Definition generateJobId (now : Z) (rand : string) : string :=
  "bp_" +:+ js_number_to_string now +:+ "_" +:+ rand.

(** [createJob]: [new Date()] is read once. *)
Definition createJob (params : JobParams) (newId : string) (now : Z)
    (r : Redis) : BackportJob * Redis :=
  let job := {|
    id := newId;
    repository := p_repository params;
    installationId := p_installationId params;
    sourcePR := p_sourcePR params;
    targetBranch := p_targetBranch params;
    status := pending;
    createdAt := now;
    updatedAt := now;
    requestedBy := p_requestedBy params;
    commentId := p_commentId params;
    resultPR := p_resultPR params;
    error := p_error params;
    logs := [] |} in
  let r := hset (job_key (id job)) (jobToRedis job) r in
  let r := zadd JOB_INDEX now (id job) r in
  (job, r).

(** [getJob] at the declared types: the record as it was written.
    [RedisClient.getJob] is the function as it runs. *)
Definition getJob (i : string) (r : Redis) : option Job :=
  match hgetall (job_key i) r with
  | None => None
  | Some d =>
      if hash_is_empty d then None
      else Some (jobFromRedis d (lrange_all (logs_key i) r))
  end.

(** [Partial<Omit<BackportJob, "id" | "createdAt" | "logs">>].  A field is left
    out ([None]) or given a value.  What the REST client sends for a field
    given as [undefined] is not fixed by the source; such an update is outside
    this model. *)
Record JobUpdates := mkJobUpdates {
  u_repository : option string;
  u_installationId : option Z;
  u_sourcePR : option Z;
  u_targetBranch : option string;
  u_status : option Status;
  u_updatedAt : option Z;
  u_requestedBy : option string;
  u_commentId : option Z;
  u_resultPR : option Z;
  u_error : option string
}.

Definition no_updates : JobUpdates :=
  mkJobUpdates None None None None None None None None None None.

(** [{ ...existing, ...updates, updatedAt: new Date().toISOString() }] *)
Definition merge (existing : RedisBackportJob) (updates : JobUpdates) (now : Z)
    : RedisBackportJob :=
  {| r_id := r_id existing;
     r_repository := u_repository updates ∪ r_repository existing;
     r_installationId := u_installationId updates ∪ r_installationId existing;
     r_sourcePR := u_sourcePR updates ∪ r_sourcePR existing;
     r_targetBranch := u_targetBranch updates ∪ r_targetBranch existing;
     r_status := u_status updates ∪ r_status existing;
     r_createdAt := r_createdAt existing;
     r_updatedAt := Some now;
     r_requestedBy := u_requestedBy updates ∪ r_requestedBy existing;
     r_commentId := u_commentId updates ∪ r_commentId existing;
     r_resultPR := u_resultPR updates ∪ r_resultPR existing;
     r_error := u_error updates ∪ r_error existing |}.

Definition updateJob (i : string) (updates : JobUpdates) (now : Z)
    (r : Redis) : option Job * Redis :=
  match hgetall (job_key i) r with
  | None => (None, r)
  | Some existing =>
      if hash_is_empty existing then (None, r)
      else
        let updatedData := merge existing updates now in
        let r := hset (job_key i) updatedData r in
        (Some (jobFromRedis updatedData (lrange_all (logs_key i) r)), r)
  end.

Section WithDate.
Context {D : JsDate}.

(** [addJobLog] pushes and writes [updatedAt] without looking the job up;
    [new Date()] is read once for the entry and once for [updatedAt]. *)
Definition addJobLog (i : string) (message : string) (now1 now2 : Z)
    (r : Redis) : Redis :=
  let logEntry := "[" +:+ toISOString now1 +:+ "] " +:+ message in
  let r := rpush (logs_key i) logEntry r in
  hset (job_key i)
    (mkHash None None None None None None None (Some now2) None None None None) r.

End WithDate.

Definition is_some_eqb {A : Type} (eqb : A -> A -> bool) (o : option A) (x : A) : bool :=
  match o with
  | Some y => eqb y x
  | None => false
  end.

Definition filter_repository (f : option string) (l : list Job) : list Job :=
  match f with
  | Some x => List.filter (fun j => is_some_eqb String.eqb (r_repository (data j)) x) l
  | None => l
  end.

Definition filter_status (f : option Status) (l : list Job) : list Job :=
  match f with
  | Some x => List.filter (fun j => is_some_eqb Status_eqb (r_status (data j)) x) l
  | None => l
  end.

(** [jobs.filter((j) => j !== null)] *)
Definition non_null (l : list (option Job)) : list Job :=
  omap (fun o => o) l.

(** [const limit = options?.limit || 50] *)
Definition effective_limit (options : option ListOptions) : Z :=
  default 50 (limit_option options).

Definition listJobs (options : option ListOptions) (r : Redis) : list Job :=
  let limit := effective_limit options in
  let jobIds := zrange_rev_all JOB_INDEX r in
  match jobIds with
  | [] => []
  | _ =>
      let jobs := map (fun i => getJob i r) jobIds in
      let result := non_null jobs in
      let result := filter_repository (repository_filter options) result in
      let result := filter_status (status_filter options) result in
      slice0 result limit
  end.

Definition listJobsForUser (accessToken : string) (limit : option Z) (r : Redis) :=
  listJobs (Some (mkListOptions None None limit)) r.

End RedisStore.

(** ** JSON, as [JSON.parse] and [JSON.stringify] have it

    The Redis client reads and writes values through these two built-ins. *)

Module Json.

(** A JavaScript number: the double [m * 2^e], with [m] odd (or [m = 0] and
    [e = 0]; the sign of a zero is not kept), or an infinity. *)
Inductive Number :=
| Finite (m e : Z)
| Infinity (negative : bool).

#[local] Unset Elimination Schemes.
Inductive Value :=
| Null
| Bool (b : bool)
| Num (x : Number)
| Str (s : string)
| Arr (items : list Value)
| Obj (members : list (string * Value)).
#[local] Set Elimination Schemes.

Definition Number_eqb (x y : Number) : bool :=
  match x, y with
  | Finite m e, Finite m' e' => (m =? m') && (e =? e')
  | Infinity a, Infinity b => Bool.eqb a b
  | _, _ => false
  end.

(** *** Doubles *)

Fixpoint strip_twos (p : positive) (e : Z) : Z * Z :=
  match p with
  | xO p' => strip_twos p' (e + 1)
  | _ => (Zpos p, e)
  end.

Definition dyadic (m e : Z) : Number :=
  match m with
  | Z0 => Finite 0 0
  | Zpos p => let (m', e') := strip_twos p e in Finite m' e'
  | Zneg p => let (m', e') := strip_twos p e in Finite (- m') e'
  end.

(** [num / den] rounded to the nearest integer, a tie to the even one. *)
Definition round_half_even (num den : Z) : Z :=
  let q := num / den in
  match Z.compare (2 * (num mod den)) den with
  | Lt => q
  | Gt => q + 1
  | Eq => if Z.even q then q else q + 1
  end.

(** The largest [k] with [2^k <= p / q], for positive [p] and [q]. *)
Definition log2_ratio (p q : Z) : Z :=
  let k := Z.log2 p - Z.log2 q in
  if (if 0 <=? k then q * 2 ^ k <=? p else q <=? p * 2 ^ (- k)) then k else k - 1.

(** The double nearest to [p / q] (round to nearest, ties to even), for
    positive [p] and [q]: 53 bits of mantissa, the smallest exponent of a
    unit in the last place is -1074, and a result of [2^1024] or more is an
    infinity. *)
Definition nearest_double (negative : bool) (p q : Z) : Number :=
  let e2 := log2_ratio p q in
  let u := Z.max (e2 - 52) (-1074) in
  let mant := if 0 <=? u then round_half_even p (q * 2 ^ u)
              else round_half_even (p * 2 ^ (- u)) q in
  if (1024 <=? e2) || ((u =? 971) && (mant =? 2 ^ 53)) then Infinity negative
  else dyadic (if negative then - mant else mant) u.

Definition decimal_digits (m : Z) : Z :=
  Z.of_nat (String.length (js_number_to_string m)).

(** The double a decimal literal [m * 10^e] denotes ([0 <= m]).  A literal
    of [10^309] or more is an infinity and one below [10^-324] is zero,
    whatever its digits. *)
Definition decimal_to_double (negative : bool) (m e : Z) : Number :=
  if m =? 0 then Finite 0 0
  else
    let d := decimal_digits m in
    if 310 <=? d + e then Infinity negative
    else if d + e <=? -324 then Finite 0 0
    else if 0 <=? e then nearest_double negative (m * 10 ^ e) 1
    else nearest_double negative m (10 ^ (- e)).

Definition integer_value (x : Number) : option Z :=
  match x with
  | Finite m e => if 0 <=? e then Some (m * 2 ^ e) else None
  | Infinity _ => None
  end.

(** [Number.isSafeInteger] *)
Definition isSafeInteger (x : Number) : bool :=
  match integer_value x with
  | Some n => Z.abs n <=? 2 ^ 53 - 1
  | None => false
  end.

(** *** [Number.prototype.toString]

    The digits are those of the shortest decimal [s * 10^(n - k)] ([s] of
    [k] digits) that denotes the double, the closest one to it when there
    are several. *)

(** The [n] with [10^(n-1) <= p / q < 10^n]. *)
Definition magnitude (p q : Z) : Z :=
  if q <=? p then decimal_digits (p / q)
  else
    let j := decimal_digits q - decimal_digits p in
    if q <=? p * 10 ^ j then 1 - j else - j.

Definition of_decimal (c t : Z) : Number :=
  if 0 <=? t then nearest_double false (c * 10 ^ t) 1
  else nearest_double false c (10 ^ (- t)).

Definition digits_for (x : Number) (p q n0 k : Z) : option (Z * Z) :=
  let t := n0 - k in
  let num := if 0 <=? t then p else p * 10 ^ (- t) in
  let den := if 0 <=? t then q * 10 ^ t else q in
  let lo := num / den in
  let hi := lo + 1 in
  let ok_lo := Number_eqb (of_decimal lo t) x in
  let ok_hi := Number_eqb (of_decimal hi t) x in
  let hi_closer :=
    match Z.compare (2 * (num mod den)) den with
    | Lt => false
    | Gt => true
    | Eq => Z.odd lo
    end in
  let s :=
    if ok_lo && ok_hi then Some (if hi_closer then hi else lo)
    else if ok_lo then Some lo
    else if ok_hi then Some hi
    else None in
  match s with
  | Some s => Some (if s =? 10 ^ k then (10 ^ (k - 1), n0 + 1) else (s, n0))
  | None => None
  end.

Fixpoint shortest (x : Number) (p q n0 : Z) (more : nat) (k : Z) : Z * Z :=
  match more with
  | O => (0, 0)
  | S more' =>
      match digits_for x p q n0 k with
      | Some r => r
      | None => shortest x p q n0 more' (k + 1)
      end
  end.

Fixpoint zeros (n : nat) : string :=
  match n with
  | O => ""
  | S n' => String "0" (zeros n')
  end.

Definition number_to_string (x : Number) : string :=
  match x with
  | Infinity negative => if negative then "-Infinity" else "Infinity"
  | Finite m e =>
      if m =? 0 then "0"
      else
        let a := Z.abs m in
        let p := if 0 <=? e then a * 2 ^ e else a in
        let q := if 0 <=? e then 1 else 2 ^ (- e) in
        let (s, n) := shortest (Finite a e) p q (magnitude p q) 17 1 in
        let ds := js_number_to_string s in
        let k := Z.of_nat (String.length ds) in
        let body :=
          if (k <=? n) && (n <=? 21) then ds +:+ zeros (Z.to_nat (n - k))
          else if (0 <? n) && (n <=? 21)
          then substring 0 (Z.to_nat n) ds +:+ "."
               +:+ substring (Z.to_nat n) (Z.to_nat (k - n)) ds
          else if (-6 <? n) && (n <=? 0) then "0." +:+ zeros (Z.to_nat (- n)) +:+ ds
          else
            let mant :=
              if k =? 1 then ds
              else substring 0 1 ds +:+ "." +:+ substring 1 (Z.to_nat (k - 1)) ds in
            mant +:+ "e" +:+ (if n - 1 <? 0 then "-" else "+")
            +:+ js_number_to_string (Z.abs (n - 1)) in
        (if m <? 0 then "-" else "") +:+ body
  end.

(** *** [JSON.parse]

    The text is a string of bytes, UTF-8 for what is not ASCII.  White space
    is space, tab, line feed and carriage return. *)

Definition code (c : ascii) : Z := Z.of_N (N_of_ascii c).

Definition is_ws (c : ascii) : bool :=
  (code c =? 32) || (code c =? 9) || (code c =? 10) || (code c =? 13).

Fixpoint skip_ws (s : string) : string :=
  match s with
  | String c r => if is_ws c then skip_ws r else s
  | EmptyString => s
  end.

Definition digit (c : ascii) : option Z :=
  if (48 <=? code c) && (code c <=? 57) then Some (code c - 48) else None.

(** A run of digits: its value on top of [acc], its length on top of
    [count], and the rest of the text. *)
Fixpoint digits (acc count : Z) (s : string) : Z * Z * string :=
  match s with
  | String c r =>
      match digit c with
      | Some d => digits (10 * acc + d) (count + 1) r
      | None => (acc, count, s)
      end
  | EmptyString => (acc, count, s)
  end.

Definition starts_with (c : Z) (s : string) : option string :=
  match s with
  | String c' r => if code c' =? c then Some r else None
  | EmptyString => None
  end.

(** A number: an optional minus sign; the digit 0 or a run of digits that
    does not start with 0; optionally a point and at least one digit;
    optionally e or E, an optional sign and at least one digit. *)
Definition number (s : string) : option (Number * string) :=
  let negative := bool_decide (is_Some (starts_with 45 s)) in
  let s1 := default s (starts_with 45 s) in
  match s1 with
  | String c r =>
      match digit c with
      | None => None
      | Some d0 =>
          let '(int, _, s2) := if d0 =? 0 then (0, 1, r) else digits 0 0 s1 in
          let fraction :=
            match starts_with 46 s2 with
            | Some r2 =>
                let '(m, count, s3) := digits int 0 r2 in
                if count =? 0 then None else Some (m, count, s3)
            | None => Some (int, 0, s2)
            end in
          match fraction with
          | None => None
          | Some (m, count, s3) =>
              let exponent :=
                match s3 with
                | String c3 r3 =>
                    if (code c3 =? 101) || (code c3 =? 69) then
                      let minus := bool_decide (is_Some (starts_with 45 r3)) in
                      let s4 := default (default r3 (starts_with 43 r3)) (starts_with 45 r3) in
                      let '(ev, ecount, s5) := digits 0 0 s4 in
                      if ecount =? 0 then None
                      else Some (if minus then - ev else ev, s5)
                    else Some (0, s3)
                | EmptyString => Some (0, s3)
                end in
              match exponent with
              | None => None
              | Some (ev, s5) => Some (decimal_to_double negative m (ev - count), s5)
              end
          end
      end
  | EmptyString => None
  end.

(** The characters of a string literal: a byte of the text, or the code unit
    an escape denotes. *)
Inductive Character :=
| Raw (c : ascii)
| Escaped (u : Z).

Definition hex (c : ascii) : option Z :=
  if (48 <=? code c) && (code c <=? 57) then Some (code c - 48)
  else if (65 <=? code c) && (code c <=? 70) then Some (code c - 55)
  else if (97 <=? code c) && (code c <=? 102) then Some (code c - 87)
  else None.

Definition cons_unit (u : Character) (o : option (list Character * string))
    : option (list Character * string) :=
  match o with
  | Some (l, rest) => Some (u :: l, rest)
  | None => None
  end.

(** The text after an opening quote, up to the closing one.  A control
    character is not allowed in a string literal. *)
Fixpoint string_units (s : string) : option (list Character * string) :=
  match s with
  | EmptyString => None
  | String c r =>
      if code c =? 34 then Some ([], r)
      else if code c =? 92 then
        match r with
        | String e r' =>
            if code e =? 34 then cons_unit (Escaped 34) (string_units r')
            else if code e =? 92 then cons_unit (Escaped 92) (string_units r')
            else if code e =? 47 then cons_unit (Escaped 47) (string_units r')
            else if code e =? 98 then cons_unit (Escaped 8) (string_units r')
            else if code e =? 102 then cons_unit (Escaped 12) (string_units r')
            else if code e =? 110 then cons_unit (Escaped 10) (string_units r')
            else if code e =? 114 then cons_unit (Escaped 13) (string_units r')
            else if code e =? 116 then cons_unit (Escaped 9) (string_units r')
            else if code e =? 117 then
              match r' with
              | String h1 (String h2 (String h3 (String h4 r''))) =>
                  match hex h1, hex h2, hex h3, hex h4 with
                  | Some a, Some b, Some c', Some d =>
                      cons_unit (Escaped (4096 * a + 256 * b + 16 * c' + d))
                        (string_units r'')
                  | _, _, _, _ => None
                  end
              | _ => None
              end
            else None
        | EmptyString => None
        end
      else if code c <? 32 then None
      else cons_unit (Raw c) (string_units r)
  end.

Definition byte (n : Z) : ascii := ascii_of_N (Z.to_N n).

(** UTF-8 of a code point; a surrogate that stands alone is written like
    any other code point of three bytes. *)
Definition utf8 (cp : Z) : list ascii :=
  if cp <? 128 then [byte cp]
  else if cp <? 2048 then [byte (192 + cp / 64); byte (128 + cp mod 64)]
  else if cp <? 65536
  then [byte (224 + cp / 4096); byte (128 + (cp / 64) mod 64); byte (128 + cp mod 64)]
  else [byte (240 + cp / 262144); byte (128 + (cp / 4096) mod 64);
        byte (128 + (cp / 64) mod 64); byte (128 + cp mod 64)].

Definition high_surrogate (u : Z) : bool := (55296 <=? u) && (u <=? 56319).
Definition low_surrogate (u : Z) : bool := (56320 <=? u) && (u <=? 57343).

Fixpoint encode (l : list Character) : list ascii :=
  match l with
  | [] => []
  | Raw c :: l' => c :: encode l'
  | Escaped hi :: l' =>
      match l' with
      | Escaped lo :: l'' =>
          if high_surrogate hi && low_surrogate lo
          then utf8 (65536 + (hi - 55296) * 1024 + (lo - 56320)) ++ encode l''
          else utf8 hi ++ encode l'
      | _ => utf8 hi ++ encode l'
      end
  end.

Definition string_literal (s : string) : option (string * string) :=
  match string_units s with
  | Some (l, rest) => Some (string_of_list_ascii (encode l), rest)
  | None => None
  end.

(** The properties of an object are listed with the array indices first, in
    ascending order, and the other keys in the order they were created; a
    key that is repeated keeps its place and takes the later value. *)
Definition array_index (k : string) : option Z :=
  match digits 0 0 k with
  | (n, _, EmptyString) =>
      if String.eqb (js_number_to_string n) k && (n <=? 4294967294) then Some n else None
  | _ => None
  end.

Fixpoint has_key (k : string) (l : list (string * Value)) : bool :=
  match l with
  | [] => false
  | (k', _) :: l' => String.eqb k' k || has_key k l'
  end.

Fixpoint replace (k : string) (v : Value) (l : list (string * Value))
    : list (string * Value) :=
  match l with
  | [] => []
  | (k', v') :: l' => if String.eqb k' k then (k, v) :: l' else (k', v') :: replace k v l'
  end.

Fixpoint insert_index (n : Z) (k : string) (v : Value) (l : list (string * Value))
    : list (string * Value) :=
  match l with
  | [] => [(k, v)]
  | (k', v') :: l' =>
      match array_index k' with
      | Some n' => if n' <? n then (k', v') :: insert_index n k v l' else (k, v) :: l
      | None => (k, v) :: l
      end
  end.

Definition define (k : string) (v : Value) (l : list (string * Value))
    : list (string * Value) :=
  if has_key k l then replace k v l
  else
    match array_index k with
    | Some n => insert_index n k v l
    | None => l ++ [(k, v)]
    end.

Definition literal (word : string) (v : Value) (s : string) : option (Value * string) :=
  if String.prefix word s
  then Some (v, substring (String.length word) (String.length s - String.length word) s)
  else None.

(** A value at the head of [s] (no white space in front), and the text
    after it.  [n] bounds the depth of the recursion; [parse] gives it
    enough for any text, and the limit an engine has of its own for the
    depth of nesting is left out. *)
Fixpoint value (n : nat) (s : string) {struct n} : option (Value * string) :=
  match n with
  | O => None
  | S n' =>
      match s with
      | EmptyString => None
      | String c r =>
          if code c =? 110 then literal "ull" Null r
          else if code c =? 116 then literal "rue" (Bool true) r
          else if code c =? 102 then literal "alse" (Bool false) r
          else if code c =? 34 then
            match string_literal r with
            | Some (x, rest) => Some (Str x, rest)
            | None => None
            end
          else if code c =? 91 then
            match starts_with 93 (skip_ws r) with
            | Some rest => Some (Arr [], rest)
            | None => elements n' (skip_ws r) []
            end
          else if code c =? 123 then
            match starts_with 125 (skip_ws r) with
            | Some rest => Some (Obj [], rest)
            | None => members n' (skip_ws r) []
            end
          else
            match number s with
            | Some (x, rest) => Some (Num x, rest)
            | None => None
            end
      end
  end
with elements (n : nat) (s : string) (acc : list Value) {struct n}
    : option (Value * string) :=
  match n with
  | O => None
  | S n' =>
      match value n' s with
      | Some (v, r) =>
          match skip_ws r with
          | String c r' =>
              if code c =? 44 then elements n' (skip_ws r') (v :: acc)
              else if code c =? 93 then Some (Arr (rev (v :: acc)), r')
              else None
          | EmptyString => None
          end
      | None => None
      end
  end
with members (n : nat) (s : string) (acc : list (string * Value)) {struct n}
    : option (Value * string) :=
  match n with
  | O => None
  | S n' =>
      match starts_with 34 s with
      | None => None
      | Some r =>
          match string_literal r with
          | None => None
          | Some (k, r1) =>
              match starts_with 58 (skip_ws r1) with
              | None => None
              | Some r2 =>
                  match value n' (skip_ws r2) with
                  | None => None
                  | Some (v, r3) =>
                      match skip_ws r3 with
                      | String c r4 =>
                          if code c =? 44 then members n' (skip_ws r4) (define k v acc)
                          else if code c =? 125 then Some (Obj (define k v acc), r4)
                          else None
                      | EmptyString => None
                      end
                  end
              end
          end
      end
  end.

(** [JSON.parse(text)], [None] where it throws. *)
Definition parse (text : string) : option Value :=
  match value (2 * String.length text + 2) (skip_ws text) with
  | Some (v, rest) =>
      match skip_ws rest with
      | EmptyString => Some v
      | String _ _ => None
      end
  | None => None
  end.

(** *** [JSON.stringify] *)

Definition hex_digit (n : Z) : ascii :=
  if n <? 10 then byte (48 + n) else byte (87 + n).

Definition escape (u : Z) : string :=
  String "\" (String "u" (String (hex_digit (u / 4096)) (String (hex_digit ((u / 256) mod 16))
    (String (hex_digit ((u / 16) mod 16)) (String (hex_digit (u mod 16)) ""))))).

Fixpoint quote_chars (s : string) : string :=
  match s with
  | EmptyString => ""
  | String c r =>
      if code c =? 34 then String "\" (String c (quote_chars r))
      else if code c =? 92 then String "\" (String c (quote_chars r))
      else if code c =? 8 then String "\" (String "b" (quote_chars r))
      else if code c =? 12 then String "\" (String "f" (quote_chars r))
      else if code c =? 10 then String "\" (String "n" (quote_chars r))
      else if code c =? 13 then String "\" (String "r" (quote_chars r))
      else if code c =? 9 then String "\" (String "t" (quote_chars r))
      else if code c <? 32 then escape (code c) +:+ quote_chars r
      else if code c =? 237 then
        match r with
        | String c2 (String c3 r') =>
            if (160 <=? code c2) && (code c2 <=? 191)
            then escape (53248 + (code c2 - 128) * 64 + (code c3 - 128)) +:+ quote_chars r'
            else String c (quote_chars r)
        | _ => String c (quote_chars r)
        end
      else String c (quote_chars r)
  end.

Definition quote (s : string) : string :=
  String (byte 34) (quote_chars s) +:+ String (byte 34) "".

Fixpoint stringify (v : Value) : string :=
  match v with
  | Null => "null"
  | Bool b => if b then "true" else "false"
  | Num (Infinity _) => "null"
  | Num x => number_to_string x
  | Str s => quote s
  | Arr l =>
      "[" +:+ (fix items (l : list Value) : string :=
                 match l with
                 | [] => ""
                 | [x] => stringify x
                 | x :: l' => stringify x +:+ "," +:+ items l'
                 end) l +:+ "]"
  | Obj l =>
      "{" +:+ (fix properties (l : list (string * Value)) : string :=
                 match l with
                 | [] => ""
                 | [(k, x)] => quote k +:+ ":" +:+ stringify x
                 | (k, x) :: l' => quote k +:+ ":" +:+ stringify x +:+ "," +:+ properties l'
                 end) l +:+ "}"
  end.

(** [String(v)], as a template literal converts a value. *)
Fixpoint to_text (v : Value) : string :=
  match v with
  | Null => "null"
  | Bool b => if b then "true" else "false"
  | Num x => number_to_string x
  | Str s => s
  | Arr l =>
      (fix join (l : list Value) : string :=
         match l with
         | [] => ""
         | [x] => match x with Null => "" | _ => to_text x end
         | x :: l' => match x with Null => "" | _ => to_text x end +:+ "," +:+ join l'
         end) l
  | Obj _ => "[object Object]"
  end.

End Json.

(** ** The Redis client ([@upstash/redis]), as the store functions use it

    The client is a package the repository depends on.  It writes a string
    argument as it is and any other value as its JSON text, and it
    deserialises every value of a reply: what the store functions declare
    to be a string is, when the program runs, whatever its text
    deserialises to. *)

Module RedisClient.
Import RedisStore.

(** The value [hgetall] hands out for the text of a hash field: the JSON
    value when the text is JSON, the text itself otherwise.  A text that is
    a number but no safe integer is kept as it is. *)
Definition deserialize (text : string) : Json.Value :=
  match Json.parse text with
  | Some (Json.Num x) => if Json.isSafeInteger x then Json.Num x else Json.Str text
  | Some v => v
  | None => Json.Str text
  end.

(** The value [lrange] and [zrange] hand out for a text of the reply: the
    JSON value when the text is JSON, the text itself otherwise.  A number
    is kept as its text unless the text is the way the number is printed. *)
Definition parseResponse (text : string) : Json.Value :=
  match Json.parse text with
  | Some (Json.Num x) =>
      if String.eqb (Json.number_to_string x) text then Json.Num x else Json.Str text
  | Some v => v
  | None => Json.Str text
  end.

(** A command argument: a string as it is, any other value as its JSON
    text. *)
Definition serialize (v : Json.Value) : string :=
  match v with
  | Json.Str s => s
  | _ => Json.stringify v
  end.

(** The object [hgetall] hands out for a job key at run time.  The fields
    the store writes as strings come back as whatever their text
    deserialises to.  A number is written as its decimal text and read back
    as that number; a status and the ISO text of a date are no JSON texts
    and are read back as they were written. *)
Record Data := mkData {
  d_id : option Json.Value;
  d_repository : option Json.Value;
  d_installationId : option Z;
  d_sourcePR : option Z;
  d_targetBranch : option Json.Value;
  d_status : option Status;
  d_createdAt : option Z;
  d_updatedAt : option Z;
  d_requestedBy : option Json.Value;
  d_commentId : option Z;
  d_resultPR : option Z;
  d_error : option Json.Value
}.

Definition read (h : RedisBackportJob) : Data :=
  {| d_id := deserialize <$> r_id h;
     d_repository := deserialize <$> r_repository h;
     d_installationId := r_installationId h;
     d_sourcePR := r_sourcePR h;
     d_targetBranch := deserialize <$> r_targetBranch h;
     d_status := r_status h;
     d_createdAt := r_createdAt h;
     d_updatedAt := r_updatedAt h;
     d_requestedBy := deserialize <$> r_requestedBy h;
     d_commentId := r_commentId h;
     d_resultPR := r_resultPR h;
     d_error := deserialize <$> r_error h |}.

Definition write (d : Data) : RedisBackportJob :=
  {| r_id := serialize <$> d_id d;
     r_repository := serialize <$> d_repository d;
     r_installationId := d_installationId d;
     r_sourcePR := d_sourcePR d;
     r_targetBranch := serialize <$> d_targetBranch d;
     r_status := d_status d;
     r_createdAt := d_createdAt d;
     r_updatedAt := d_updatedAt d;
     r_requestedBy := serialize <$> d_requestedBy d;
     r_commentId := d_commentId d;
     r_resultPR := d_resultPR d;
     r_error := serialize <$> d_error d |}.

Definition hgetall (key : string) (r : Redis) : option Data :=
  read <$> RedisStore.hgetall key r.

Definition hset (key : string) (kv : Data) (r : Redis) : Redis :=
  RedisStore.hset key (write kv) r.

Definition lrange_all (key : string) (r : Redis) : list Json.Value :=
  map parseResponse (RedisStore.lrange_all key r).

Definition zrange_rev_all (key : string) (r : Redis) : list Json.Value :=
  map parseResponse (RedisStore.zrange_rev_all key r).

(** [Object.keys(data).length === 0] *)
Definition is_empty (d : Data) : bool :=
  match d with
  | mkData None None None None None None None None None None None None => true
  | _ => false
  end.

(** The [BackportJob] the store hands out at run time:
    [{ ...data, createdAt, updatedAt, logs }]. *)
Record Job := mkClientJob {
  c_data : Data;
  c_logs : list Json.Value
}.

Definition jobFromRedis (d : Data) (l : list Json.Value) : Job :=
  {| c_data := d; c_logs := l |}.

Definition getJob (i : string) (r : Redis) : option Job :=
  match hgetall (job_key i) r with
  | None => None
  | Some d =>
      if is_empty d then None
      else Some (jobFromRedis d (lrange_all (logs_key i) r))
  end.

(** The object [updateJob] is given at run time: its annotation is erased,
    so the object may carry [id] and [createdAt] besides the fields of
    [JobUpdates].  A [createdAt] is a [Date]; its JSON text is the ISO text
    of the date in quotes, which reads back as that date.  Any other
    property of the object becomes a field of the hash that no store
    function reads, and is left out. *)
Record Updates := mkUpdates {
  given_id : option string;
  given_createdAt : option Z;
  declared : JobUpdates
}.

Definition typed (u : JobUpdates) : Updates := mkUpdates None None u.

(** [{ ...existing, ...updates, updatedAt: new Date().toISOString() }] *)
Definition merge (existing : Data) (updates : Updates) (now : Z) : Data :=
  {| d_id := (Json.Str <$> given_id updates) ∪ d_id existing;
     d_repository := (Json.Str <$> u_repository (declared updates)) ∪ d_repository existing;
     d_installationId := u_installationId (declared updates) ∪ d_installationId existing;
     d_sourcePR := u_sourcePR (declared updates) ∪ d_sourcePR existing;
     d_targetBranch :=
       (Json.Str <$> u_targetBranch (declared updates)) ∪ d_targetBranch existing;
     d_status := u_status (declared updates) ∪ d_status existing;
     d_createdAt := given_createdAt updates ∪ d_createdAt existing;
     d_updatedAt := Some now;
     d_requestedBy :=
       (Json.Str <$> u_requestedBy (declared updates)) ∪ d_requestedBy existing;
     d_commentId := u_commentId (declared updates) ∪ d_commentId existing;
     d_resultPR := u_resultPR (declared updates) ∪ d_resultPR existing;
     d_error := (Json.Str <$> u_error (declared updates)) ∪ d_error existing |}.

Definition updateJob (i : string) (updates : Updates) (now : Z)
    (r : Redis) : option Job * Redis :=
  match hgetall (job_key i) r with
  | None => (None, r)
  | Some existing =>
      if is_empty existing then (None, r)
      else
        let updatedData := merge existing updates now in
        let r := hset (job_key i) updatedData r in
        (Some (jobFromRedis updatedData (lrange_all (logs_key i) r)), r)
  end.

(** [createJob] and [addJobLog] only write, and what they write are strings
    and numbers: they are [RedisStore.createJob] and [RedisStore.addJobLog]. *)

(** [j.repository === options.repository] *)
Definition is_string (o : option Json.Value) (x : string) : bool :=
  match o with
  | Some (Json.Str s) => String.eqb s x
  | _ => false
  end.

Definition filter_repository (f : option string) (l : list Job) : list Job :=
  match f with
  | Some x => List.filter (fun j => is_string (d_repository (c_data j)) x) l
  | None => l
  end.

Definition filter_status (f : option Status) (l : list Job) : list Job :=
  match f with
  | Some x => List.filter (fun j => is_some_eqb Status_eqb (d_status (c_data j)) x) l
  | None => l
  end.

Definition non_null (l : list (option Job)) : list Job :=
  omap (fun o => o) l.

(** The ids of the index are values of the reply; [getJob] uses its argument
    in template literals only, which convert it to a string. *)
Definition listJobs (options : option ListOptions) (r : Redis) : list Job :=
  let limit := effective_limit options in
  let jobIds := zrange_rev_all JOB_INDEX r in
  match jobIds with
  | [] => []
  | _ =>
      let jobs := map (fun i => getJob (Json.to_text i) r) jobIds in
      let result := non_null jobs in
      let result := filter_repository (repository_filter options) result in
      let result := filter_status (status_filter options) result in
      slice0 result limit
  end.

Definition listJobsForUser (accessToken : string) (limit : option Z) (r : Redis) :=
  listJobs (Some (mkListOptions None None limit)) r.

End RedisClient.

(** ** The job store the workflow imports from [@/lib/jobs]

    The workflow file calls [updateJob] and [addJobLog] of whichever of the
    two store modules is in place. *)

Inductive JobStore :=
| InMemory (jobs : MemStore.Jobs)
| Upstash (r : RedisStore.Redis).

Definition to_redis_updates (u : MemStore.JobUpdates) : RedisStore.JobUpdates :=
  {| RedisStore.u_repository := MemStore.u_repository u;
     RedisStore.u_installationId := MemStore.u_installationId u;
     RedisStore.u_sourcePR := MemStore.u_sourcePR u;
     RedisStore.u_targetBranch := MemStore.u_targetBranch u;
     RedisStore.u_status := MemStore.u_status u;
     RedisStore.u_updatedAt := MemStore.u_updatedAt u;
     RedisStore.u_requestedBy := MemStore.u_requestedBy u;
     RedisStore.u_commentId := MemStore.u_commentId u;
     RedisStore.u_resultPR := mjoin (MemStore.u_resultPR u);
     RedisStore.u_error := mjoin (MemStore.u_error u) |}.

Definition jobs_updateJob (i : string) (u : MemStore.JobUpdates) (now : Z)
    (s : JobStore) : JobStore :=
  match s with
  | InMemory jobs => InMemory (snd (MemStore.updateJob i u now jobs))
  | Upstash r => Upstash (snd (RedisStore.updateJob i (to_redis_updates u) now r))
  end.

Definition jobs_addJobLog {D : JsDate} (i : string) (message : string)
    (now1 now2 : Z) (s : JobStore) : JobStore :=
  match s with
  | InMemory jobs => InMemory (MemStore.addJobLog i message now1 now2 jobs)
  | Upstash r => Upstash (RedisStore.addJobLog i message now1 now2 r)
  end.

(** What a reader of the store sees of a job's outcome. *)
Definition job_exists (i : string) (s : JobStore) : bool :=
  match s with
  | InMemory jobs => bool_decide (is_Some (MemStore.getJob i jobs))
  | Upstash r => bool_decide (is_Some (RedisStore.getJob i r))
  end.

Definition job_status (i : string) (s : JobStore) : option Status :=
  match s with
  | InMemory jobs => status <$> MemStore.getJob i jobs
  | Upstash r => RedisStore.getJob i r ≫= (fun j => RedisStore.r_status (RedisStore.data j))
  end.

Definition job_resultPR (i : string) (s : JobStore) : option Z :=
  match s with
  | InMemory jobs => MemStore.getJob i jobs ≫= resultPR
  | Upstash r => RedisStore.getJob i r ≫= (fun j => RedisStore.r_resultPR (RedisStore.data j))
  end.

Definition job_error (i : string) (s : JobStore) : option string :=
  match s with
  | InMemory jobs => MemStore.getJob i jobs ≫= error
  | Upstash r => RedisStore.getJob i r ≫= (fun j => RedisStore.r_error (RedisStore.data j))
  end.

(** ** The backport workflow ([src/lib/jobs.ts], third part) *)

Module Workflow.

Record BackportParams := mkParams {
  jobId : string;
  bp_installationId : Z;
  bp_repository : string;
  prNumber : Z;
  bp_targetBranch : string;
  bp_commentId : Z
}.

Record BackportResult := mkResult {
  success : bool;
  br_resultPR : option Z;
  br_error : option string
}.

(** *** Thrown values and the source-control collaborator *)

(** A thrown value: an [Error] instance ([fatal] when it is a [FatalError] of
    the workflow package) or some other value. *)
Inductive Thrown :=
| JsError (fatal : bool) (message : string)
| NotAnError.

Definition FatalError (message : string) : Thrown := JsError true message.

Definition is_fatal (t : Thrown) : bool :=
  match t with
  | JsError f _ => f
  | NotAnError => false
  end.

Inductive Result (A : Type) :=
| Ok (a : A)
| Err (t : Thrown).
Arguments Ok {A} a.
Arguments Err {A} t.

(** The fields the workflow reads of the pull request, of a commit. *)
Record PullData := mkPull {
  pr_title : string;
  pr_body : option string;
  pr_base_ref : string;
  pr_head_ref : string;
  pr_head_sha : string;
  pr_merged : bool;
  pr_merge_commit_sha : option string
}.

Record CommitData := mkCommit {
  sha : string;
  message : string
}.

(** The requests the step functions send.  [repo] is the second component of
    [repository.split("/")], which is [undefined] when there is no slash. *)
Inductive Call :=
| GetInstallationOctokit (installation : Z)
| ReactionsCreateForIssueComment (owner : string) (repo : option string)
    (comment_id : Z) (content : string)
| PullsGet (owner : string) (repo : option string) (pull_number : Z)
| PullsListCommits (owner : string) (repo : option string) (pull_number : Z)
| PullsGetDiff (owner : string) (repo : option string) (pull_number : Z)
| ReposGetBranch (owner : string) (repo : option string) (branch : string)
| PullsCreate (owner : string) (repo : option string) (title : string)
    (head : option string) (base : string) (body : string)
| IssuesCreateComment (owner : string) (repo : option string)
    (issue_number : Z) (body : string).

(** The collaborator answers a request from the requests it has received so
    far (newest first) and the request itself: any deterministic
    collaborator. *)
Record Collaborator := mkCollaborator {
  answer_unit : list Call -> Call -> Result unit;
  answer_pull : list Call -> Call -> Result PullData;
  answer_commits : list Call -> Call -> Result (list CommitData);
  answer_text : list Call -> Call -> Result string;
  answer_number : list Call -> Call -> Result Z
}.

(** A step body: it reads and extends the request history. *)
Definition Collab (A : Type) : Type := list Call -> Result A * list Call.

Definition collab_ret {A : Type} (a : A) : Collab A := fun h => (Ok a, h).

Definition collab_throw {A : Type} (t : Thrown) : Collab A := fun h => (Err t, h).

Definition collab_bind {A B : Type} (m : Collab A) (f : A -> Collab B) : Collab B :=
  fun h =>
    match m h with
    | (Ok a, h') => f a h'
    | (Err t, h') => (Err t, h')
    end.

Definition collab_try {A : Type} (m : Collab A) (handler : Thrown -> Collab A) : Collab A :=
  fun h =>
    match m h with
    | (Ok a, h') => (Ok a, h')
    | (Err t, h') => handler t h'
    end.

Definition request {A : Type} (answer : list Call -> Call -> Result A) (c : Call) : Collab A :=
  fun h => (answer h c, c :: h).

#[global] Instance Collab_ret : MRet Collab := @collab_ret.
#[global] Instance Collab_bind : MBind Collab := fun A B f m => collab_bind m f.

(** [const [owner, repo] = repository.split("/")] *)
Fixpoint split_slash (s : string) : list string :=
  match s with
  | EmptyString => [""]
  | String c s' =>
      if Ascii.eqb c "/" then "" :: split_slash s'
      else
        match split_slash s' with
        | x :: r => String c x :: r
        | [] => [String c ""]
        end
  end.

Definition owner_repo (repository : string) : string * option string :=
  let parts := split_slash repository in
  (List.nth 0 parts "", List.nth_error parts 1).

(** A value inside a template literal: [undefined] prints as its name. *)
Definition template (o : option string) : string := default "undefined" o.

Definition nl : string := String "010" "".

(** *** Step implementations *)

Record PRDetails := mkDetails {
  title : string;
  body : option string;
  baseBranch : string;
  headBranch : string;
  headSha : string;
  commits : list CommitData;
  merged : bool;
  mergeCommitSha : option string;
  diff : string
}.

Record Analysis := mkAnalysis {
  complexity : string;
  filesChanged : Z;
  potentialConflicts : list string;
  recommendations : list string
}.

Record PerformResult := mkPerform {
  pb_success : bool;
  pb_branch : option string;
  pb_error : option string
}.

Section Steps.
Context (octo : Collaborator).

Definition getInstallationOctokit (installationId : Z) : Collab unit :=
  request (answer_unit octo) (GetInstallationOctokit installationId).

Definition acknowledgeRequest (installationId : Z) (repository : string)
    (commentId : Z) : Collab unit :=
  _ ← getInstallationOctokit installationId;
  let '(owner, repo) := owner_repo repository in
  request (answer_unit octo) (ReactionsCreateForIssueComment owner repo commentId "eyes").

Definition fetchPRDetails (installationId : Z) (repository : string)
    (prNumber : Z) : Collab PRDetails :=
  _ ← getInstallationOctokit installationId;
  let '(owner, repo) := owner_repo repository in
  pr ← request (answer_pull octo) (PullsGet owner repo prNumber);
  commits ← request (answer_commits octo) (PullsListCommits owner repo prNumber);
  diff ← request (answer_text octo) (PullsGetDiff owner repo prNumber);
  mret {| title := pr_title pr;
          body := pr_body pr;
          baseBranch := pr_base_ref pr;
          headBranch := pr_head_ref pr;
          headSha := pr_head_sha pr;
          commits := map (fun c => mkCommit (sha c) (message c)) commits;
          merged := pr_merged pr;
          mergeCommitSha := pr_merge_commit_sha pr;
          diff := diff |}.

Definition validateTargetBranch (installationId : Z) (repository : string)
    (targetBranch : string) : Collab unit :=
  _ ← getInstallationOctokit installationId;
  let '(owner, repo) := owner_repo repository in
  collab_try
    (request (answer_unit octo) (ReposGetBranch owner repo targetBranch))
    (fun _ =>
       collab_throw
         (FatalError ("Target branch '" +:+ targetBranch +:+ "' does not exist"))).

End Steps.

(** [/^diff --git/gm]: with the [m] flag [^] matches at the start of the text
    and after a line terminator (LF, CR, and U+2028 / U+2029, which are the
    bytes E2 80 A8 / E2 80 A9). *)
Definition line_terminator (p1 p2 c : ascii) : bool :=
  Ascii.eqb c "010" || Ascii.eqb c "013"
  || (Ascii.eqb p1 "226" && Ascii.eqb p2 "128"
      && (Ascii.eqb c "168" || Ascii.eqb c "169")).

Fixpoint count_diff_headers (at_start : bool) (p1 p2 : ascii) (s : string) : Z :=
  match s with
  | EmptyString => 0
  | String c s' =>
      (if at_start && String.prefix "diff --git" s then 1 else 0)
      + count_diff_headers (line_terminator p1 p2 c) p2 c s'
  end.

Definition analyzeChanges (prDetails : PRDetails) (targetBranch : string) : Collab Analysis :=
  let filesChanged := count_diff_headers true "000" "000" (diff prDetails) in
  mret {| complexity :=
            if 10 <? filesChanged then "high"
            else if 3 <? filesChanged then "medium" else "low";
          filesChanged := filesChanged;
          potentialConflicts := [];
          recommendations := [] |}.

(** The sandbox that carries out the git operations.  The workflow is written
    against its result type; the source ships the placeholder
    [performBackport] below. *)
Definition Sandbox : Type :=
  list Call -> Z -> string -> PRDetails -> string -> Analysis -> Result PerformResult.

Definition performBackport_with (sandbox : Sandbox) (installationId : Z)
    (repository : string) (prDetails : PRDetails) (targetBranch : string)
    (analysis : Analysis) : Collab PerformResult :=
  fun h => (sandbox h installationId repository prDetails targetBranch analysis, h).

Definition placeholder : Sandbox :=
  fun _ _ _ _ _ _ =>
    Ok {| pb_success := false;
          pb_branch := None;
          pb_error := Some "Backport execution not yet implemented (coming in Phase 6)" |}.

Definition performBackport := performBackport_with placeholder.

Section Steps2.
Context (octo : Collaborator).

Definition createBackportPR (installationId : Z) (repository : string)
    (sourcePR : Z) (targetBranch : string) (backportBranch : option string) : Collab Z :=
  _ ← getInstallationOctokit octo installationId;
  let '(owner, repo) := owner_repo repository in
  request (answer_number octo)
    (PullsCreate owner repo
       ("[Backport " +:+ targetBranch +:+ "] Changes from #" +:+ js_number_to_string sourcePR)
       backportBranch
       targetBranch
       ("This is an automated backport of #" +:+ js_number_to_string sourcePR
        +:+ " to `" +:+ targetBranch +:+ "`." +:+ nl +:+ nl
        +:+ "Created by agent-backport.")).

Definition reportSuccess (installationId : Z) (repository : string)
    (prNumber : Z) (resultPR : Z) (targetBranch : string) : Collab unit :=
  _ ← getInstallationOctokit octo installationId;
  let '(owner, repo) := owner_repo repository in
  request (answer_unit octo)
    (IssuesCreateComment owner repo prNumber
       ("✅ Successfully backported to `" +:+ targetBranch +:+ "`!" +:+ nl +:+ nl
        +:+ "See #" +:+ js_number_to_string resultPR)).

Definition reportFailure (installationId : Z) (repository : string)
    (prNumber : Z) (targetBranch : string) (error : option string) : Collab unit :=
  _ ← getInstallationOctokit octo installationId;
  let '(owner, repo) := owner_repo repository in
  request (answer_unit octo)
    (IssuesCreateComment owner repo prNumber
       ("❌ Failed to backport to `" +:+ targetBranch +:+ "`." +:+ nl +:+ nl
        +:+ "**Error:** " +:+ template error +:+ nl +:+ nl
        +:+ "Please try backporting manually.")).

End Steps2.

(** *** The step executor and the workflow engine *)

(** Modelled from the spec: the names of the durable steps, one per
    ["use step"] function of the source (section 4.4).  The step executor and
    the engine are supplied to the source by the workflow package through the
    ["use workflow"] and ["use step"] directives; their code is not part of
    the repository and is modelled from sections 4.2 and 4.3. *)
Inductive StepName :=
| Acknowledge | FetchPRDetails | ValidateTargetBranch | AnalyzeChanges
| PerformBackport | CreateBackportPR | ReportSuccess | ReportFailure.

#[global] Instance StepName_eq_dec : EqDecision StepName.
Proof. solve_decision. Defined.

Definition StepName_code (k : StepName) : nat :=
  match k with
  | Acknowledge => 0 | FetchPRDetails => 1 | ValidateTargetBranch => 2
  | AnalyzeChanges => 3 | PerformBackport => 4 | CreateBackportPR => 5
  | ReportSuccess => 6 | ReportFailure => 7
  end%nat.

Definition StepName_decode (n : nat) : option StepName :=
  match n with
  | 0 => Some Acknowledge | 1 => Some FetchPRDetails
  | 2 => Some ValidateTargetBranch | 3 => Some AnalyzeChanges
  | 4 => Some PerformBackport | 5 => Some CreateBackportPR
  | 6 => Some ReportSuccess | 7 => Some ReportFailure
  | _ => None
  end%nat.

#[global] Instance StepName_countable : Countable StepName.
Proof.
  apply (inj_countable StepName_code StepName_decode).
  intros []; reflexivity.
Defined.

(** Modelled from the spec: a persisted step result, "its return value (or
    thrown failure classification)" (section 4.2), with the number of times
    the step function was invoked. *)
Inductive StepValue :=
| VUnit
| VDetails (d : PRDetails)
| VAnalysis (a : Analysis)
| VPerform (r : PerformResult)
| VNumber (n : Z).

Inductive Recorded :=
| Returned (v : StepValue)
| Raised (t : Thrown).

Record Entry := mkEntry {
  attempts : nat;
  recorded : Recorded
}.

(** The state a run works on: the journal of durable step results, the
    requests the collaborator has received (newest first), the job store, the
    earlier states of the job store (newest first) as a polling reader may
    have seen them, and the number of clock readings so far. *)
Record RunState := mkState {
  journal : gmap StepName Entry;
  calls : list Call;
  store : JobStore;
  past : list JobStore;
  ticks : nat
}.

Inductive Outcome (A : Type) :=
| Returns (a : A)
| Throws (t : Thrown).
Arguments Returns {A} a.
Arguments Throws {A} t.

(** A run either finishes (with what is left of the interruption budget) or
    is interrupted; the state it leaves behind is durable in both cases. *)
Inductive Run (A : Type) :=
| Finished (o : Outcome A) (s : RunState) (budget : option nat)
| Interrupted (s : RunState).
Arguments Finished {A} o s budget.
Arguments Interrupted {A} s.

(** Workflow code: [budget] is the number of steps the process will still
    execute before it is restarted ([None]: it is never restarted). *)
Definition M (A : Type) : Type := option nat -> RunState -> Run A.

Definition ret {A : Type} (a : A) : M A := fun budget s => Finished (Returns a) s budget.

Definition throw {A : Type} (t : Thrown) : M A := fun budget s => Finished (Throws t) s budget.

Definition bind {A B : Type} (m : M A) (f : A -> M B) : M B :=
  fun budget s =>
    match m budget s with
    | Finished (Returns a) s' budget' => f a budget' s'
    | Finished (Throws t) s' budget' => Finished (Throws t) s' budget'
    | Interrupted s' => Interrupted s'
    end.

Definition try_catch {A : Type} (m : M A) (handler : Thrown -> M A) : M A :=
  fun budget s =>
    match m budget s with
    | Finished (Throws t) s' budget' => handler t budget' s'
    | r => r
    end.

#[global] Instance M_ret : MRet M := @ret.
#[global] Instance M_bind : MBind M := fun A B f m => bind m f.

(** Modelled from the spec: the retry policy of the engine (section 4.3).  The
    step function is invoked; a fatal error ends the step at once, any other
    error is retried until [retries] further attempts are used up, and the
    last error is then the step's failure.  The third component counts the
    invocations.  The waiting time between attempts is not modelled. *)
Fixpoint attempt {A : Type} (retries : nat) (fn : Collab A) (h : list Call)
    : Result A * list Call * nat :=
  match fn h with
  | (Ok a, h') => (Ok a, h', 1%nat)
  | (Err t, h') =>
      if is_fatal t then (Err t, h', 1%nat)
      else
        match retries with
        | O => (Err t, h', 1%nat)
        | S r => let '(x, h'', n) := attempt r fn h' in (x, h'', S n)
        end
  end.

Definition record_of {A : Type} (inj : A -> StepValue) (x : Result A) : Recorded :=
  match x with
  | Ok a => Returned (inj a)
  | Err t => Raised t
  end.

Definition outcome_of {A : Type} (x : Result A) : Outcome A :=
  match x with
  | Ok a => Returns a
  | Err t => Throws t
  end.

(** Modelled from the spec: the step executor (section 4.2).  A step whose
    result is in the journal returns it without invoking the step function.
    Otherwise the process may be restarted here (the budget is used up);
    if it is not, the step function runs under the retry policy and its
    result is recorded before the workflow continues. *)
Definition execute {A : Type} (maxRetries : nat) (name : StepName)
    (inj : A -> StepValue) (proj : StepValue -> option A) (fn : Collab A) : M A :=
  fun budget s =>
    match journal s !! name with
    | Some e =>
        match recorded e with
        | Returned v =>
            match proj v with
            | Some a => Finished (Returns a) s budget
            | None =>
                Finished (Throws (FatalError "recorded step result has another shape")) s budget
            end
        | Raised t => Finished (Throws t) s budget
        end
    | None =>
        match budget with
        | Some O => Interrupted s
        | _ =>
            let '(x, h', n) := attempt maxRetries fn (calls s) in
            Finished (outcome_of x)
              {| journal := <[name := mkEntry n (record_of inj x)]> (journal s);
                 calls := h';
                 store := store s;
                 past := past s;
                 ticks := ticks s |}
              (Nat.pred <$> budget)
        end
    end.

(** Modelled from the spec: the engine resumes an interrupted run by driving
    the workflow again on the durable state (section 4.3); [interruptions]
    gives the budget of each successive process. *)
Fixpoint drive {A : Type} (workflow : M A) (interruptions : list nat)
    (s : RunState) : Run A :=
  match interruptions with
  | [] => workflow None s
  | n :: rest =>
      match workflow (Some n) s with
      | Interrupted s' => drive workflow rest s'
      | r => r
      end
  end.

Definition final_state {A : Type} (r : Run A) : RunState :=
  match r with
  | Finished _ s _ => s
  | Interrupted s => s
  end.

(** The number of times the step function of [name] has been invoked. *)
Definition invocations (name : StepName) (s : RunState) : nat :=
  match journal s !! name with
  | Some e => attempts e
  | None => 0%nat
  end.

Definition proj_unit (v : StepValue) : option unit :=
  match v with VUnit => Some tt | _ => None end.
Definition proj_details (v : StepValue) : option PRDetails :=
  match v with VDetails d => Some d | _ => None end.
Definition proj_analysis (v : StepValue) : option Analysis :=
  match v with VAnalysis a => Some a | _ => None end.
Definition proj_perform (v : StepValue) : option PerformResult :=
  match v with VPerform r => Some r | _ => None end.
Definition proj_number (v : StepValue) : option Z :=
  match v with VNumber n => Some n | _ => None end.

Section Run.
Context {D : JsDate}.
Context (maxRetries : nat) (clock : nat -> Z) (octo : Collaborator).

(** The store operations as the workflow body calls them; the clock is read
    as often as the store operation reads it. *)
Definition addJobLog (i : string) (msg : string) : M unit :=
  fun budget s =>
    Finished (Returns tt)
      {| journal := journal s;
         calls := calls s;
         store := jobs_addJobLog i msg (clock (ticks s)) (clock (S (ticks s))) (store s);
         past := store s :: past s;
         ticks := S (S (ticks s)) |}
      budget.

Definition updateJob (i : string) (u : MemStore.JobUpdates) : M unit :=
  fun budget s =>
    Finished (Returns tt)
      {| journal := journal s;
         calls := calls s;
         store := jobs_updateJob i u (clock (ticks s)) (store s);
         past := store s :: past s;
         ticks := S (ticks s) |}
      budget.

Definition status_and_resultPR (st : Status) (n : Z) : MemStore.JobUpdates :=
  {| MemStore.u_repository := None; MemStore.u_installationId := None;
     MemStore.u_sourcePR := None; MemStore.u_targetBranch := None;
     MemStore.u_status := Some st; MemStore.u_updatedAt := None;
     MemStore.u_requestedBy := None; MemStore.u_commentId := None;
     MemStore.u_resultPR := Some (Some n); MemStore.u_error := None;
     MemStore.u_logs := None |}.

Definition status_and_error (st : Status) (e : option string) : MemStore.JobUpdates :=
  {| MemStore.u_repository := None; MemStore.u_installationId := None;
     MemStore.u_sourcePR := None; MemStore.u_targetBranch := None;
     MemStore.u_status := Some st; MemStore.u_updatedAt := None;
     MemStore.u_requestedBy := None; MemStore.u_commentId := None;
     MemStore.u_resultPR := None; MemStore.u_error := Some e;
     MemStore.u_logs := None |}.

(** [error instanceof Error ? error.message : "Unknown error"] *)
Definition error_message (t : Thrown) : string :=
  match t with
  | JsError _ m => m
  | NotAnError => "Unknown error"
  end.

Definition backportPullRequest_with (sandbox : Sandbox) (params : BackportParams)
    : M BackportResult :=
  let jobId := jobId params in
  let installationId := bp_installationId params in
  let repository := bp_repository params in
  let prNumber := prNumber params in
  let targetBranch := bp_targetBranch params in
  let commentId := bp_commentId params in
  try_catch
    (_ ← execute maxRetries Acknowledge (fun _ => VUnit) proj_unit
           (acknowledgeRequest octo installationId repository commentId);
     _ ← addJobLog jobId "Request acknowledged";
     _ ← addJobLog jobId "Fetching PR details...";
     prDetails ← execute maxRetries FetchPRDetails VDetails proj_details
           (fetchPRDetails octo installationId repository prNumber);
     _ ← addJobLog jobId ("PR title: " +:+ title prDetails);
     _ ← addJobLog jobId
           ("Commits: " +:+ js_number_to_string (Z.of_nat (List.length (commits prDetails))));
     _ ← addJobLog jobId ("Validating target branch: " +:+ targetBranch);
     _ ← execute maxRetries ValidateTargetBranch (fun _ => VUnit) proj_unit
           (validateTargetBranch octo installationId repository targetBranch);
     _ ← addJobLog jobId "Target branch exists";
     _ ← addJobLog jobId "Analyzing changes...";
     analysis ← execute maxRetries AnalyzeChanges VAnalysis proj_analysis
           (analyzeChanges prDetails targetBranch);
     _ ← addJobLog jobId ("Analysis complete. Complexity: " +:+ complexity analysis);
     _ ← addJobLog jobId "Performing backport in sandbox...";
     backportResult ← execute maxRetries PerformBackport VPerform proj_perform
           (performBackport_with sandbox installationId repository prDetails
              targetBranch analysis);
     if pb_success backportResult then
       _ ← addJobLog jobId "Backport successful, creating PR...";
       resultPR ← execute maxRetries CreateBackportPR VNumber proj_number
             (createBackportPR octo installationId repository prNumber targetBranch
                (pb_branch backportResult));
       _ ← execute maxRetries ReportSuccess (fun _ => VUnit) proj_unit
             (reportSuccess octo installationId repository prNumber resultPR targetBranch);
       _ ← updateJob jobId (status_and_resultPR completed resultPR);
       _ ← addJobLog jobId ("Backport PR created: #" +:+ js_number_to_string resultPR);
       mret {| success := true; br_resultPR := Some resultPR; br_error := None |}
     else
       _ ← addJobLog jobId ("Backport failed: " +:+ template (pb_error backportResult));
       _ ← execute maxRetries ReportFailure (fun _ => VUnit) proj_unit
             (reportFailure octo installationId repository prNumber targetBranch
                (pb_error backportResult));
       _ ← updateJob jobId (status_and_error failed (pb_error backportResult));
       mret {| success := false; br_resultPR := None;
               br_error := pb_error backportResult |})
    (fun error =>
       let errorMessage := error_message error in
       _ ← addJobLog jobId ("Workflow error: " +:+ errorMessage);
       _ ← updateJob jobId (status_and_error failed (Some errorMessage));
       throw error).

(** The workflow as the source has it, with the placeholder sandbox. *)
Definition backportPullRequest : BackportParams -> M BackportResult :=
  backportPullRequest_with placeholder.

End Run.

(** A fresh run on a store. *)
Definition start (st : JobStore) (h : list Call) : RunState :=
  {| journal := ∅; calls := h; store := st; past := []; ticks := 0 |}.

(** All states of the job store a run has gone through, oldest first. *)
Definition store_trace (s : RunState) : list JobStore := rev (store s :: past s).

End Workflow.

(** ** The jobs route ([src/app/api/jobs/route.ts]) *)

Module Route.

(** [auth()] resolves to the session or to [null]; a session may carry an
    access token. *)
Record Session := mkSession { accessToken : option string }.

(** [request.nextUrl.searchParams]: the name/value pairs of the query in
    their order; [get] returns the first value of a name, or [null]. *)
Definition SearchParams := list (string * string).

Fixpoint get (name : string) (q : SearchParams) : option string :=
  match q with
  | [] => None
  | (k, v) :: q' => if String.eqb k name then Some v else get name q'
  end.

(** [o || d] for a string that may be [null]. *)
Definition or_string (o : option string) (d : string) : string :=
  match o with
  | Some s => if truthy_string s then s else d
  | None => d
  end.

(** [parseInt(s, 10)].  Leading white space is skipped (TAB, LF, VT, FF, CR,
    SP and, in their UTF-8 encoding, U+00A0, U+1680, U+2000 to U+200A, U+2028,
    U+2029, U+202F, U+205F, U+3000 and U+FEFF), then a sign, then the longest
    run of decimal digits is read; without a digit the result is [NaN],
    here [None].  The value is exact up to 2^53, the range in which a
    [number] holds every integer. *)
Definition ascii_space (c : ascii) : bool :=
  Ascii.eqb c "009" || Ascii.eqb c "010" || Ascii.eqb c "011"
  || Ascii.eqb c "012" || Ascii.eqb c "013" || Ascii.eqb c " ".

Definition two_byte_space (c1 c2 : ascii) : bool :=
  Ascii.eqb c1 "194" && Ascii.eqb c2 "160".

Definition three_byte_space (c1 c2 c3 : ascii) : bool :=
  let n3 := N.to_nat (N_of_ascii c3) in
  (Ascii.eqb c1 "225" && Ascii.eqb c2 "154" && Ascii.eqb c3 "128")
  || (Ascii.eqb c1 "226" && Ascii.eqb c2 "128"
      && ((128 <=? n3)%nat && (n3 <=? 138)%nat
          || Ascii.eqb c3 "168" || Ascii.eqb c3 "169" || Ascii.eqb c3 "175"))
  || (Ascii.eqb c1 "226" && Ascii.eqb c2 "129" && Ascii.eqb c3 "159")
  || (Ascii.eqb c1 "227" && Ascii.eqb c2 "128" && Ascii.eqb c3 "128")
  || (Ascii.eqb c1 "239" && Ascii.eqb c2 "187" && Ascii.eqb c3 "191").

Fixpoint trim_start (s : string) : string :=
  match s with
  | EmptyString => EmptyString
  | String c1 s1 =>
      if ascii_space c1 then trim_start s1
      else
        match s1 with
        | EmptyString => s
        | String c2 s2 =>
            if two_byte_space c1 c2 then trim_start s2
            else
              match s2 with
              | EmptyString => s
              | String c3 s3 =>
                  if three_byte_space c1 c2 c3 then trim_start s3 else s
              end
        end
  end.

Definition digit_value (c : ascii) : option Z :=
  let n := Z.of_N (N_of_ascii c) in
  if (48 <=? n) && (n <=? 57) then Some (n - 48) else None.

Fixpoint read_digits (acc : Z) (s : string) : Z :=
  match s with
  | EmptyString => acc
  | String c s' =>
      match digit_value c with
      | Some d => read_digits (acc * 10 + d) s'
      | None => acc
      end
  end.

Definition unsigned_digits (s : string) : option Z :=
  match s with
  | EmptyString => None
  | String c _ =>
      match digit_value c with
      | Some _ => Some (read_digits 0 s)
      | None => None
      end
  end.

Definition parseInt (s : string) : option Z :=
  match trim_start s with
  | String "-" s' => Z.opp <$> unsigned_digits s'
  | String "+" s' => unsigned_digits s'
  | s' => unsigned_digits s'
  end.

(** [NextResponse.json(body, { status })]; the status is 200 when it is not
    given. *)
Inductive Body (J : Type) :=
| ErrorBody (error : string)
| JobBody (job : J)
| JobsBody (jobs : list J).
Arguments ErrorBody {J} error.
Arguments JobBody {J} job.
Arguments JobsBody {J} jobs.

Record Response (J : Type) := mkResponse {
  body : Body J;
  http_status : Z
}.
Arguments mkResponse {J} body http_status.
Arguments body {J} r.
Arguments http_status {J} r.

Section Handler.
(** The two functions the route imports from [@/lib/jobs], on the store as it
    is when the request arrives. *)
Context {J : Type}.
Context (getJob : string -> option J).
Context (listJobsForUser : string -> option Z -> list J).

(** [GET].  The limit handed to [listJobsForUser] is what [parseInt] yields;
    [None] stands for [NaN], which [listJobs] treats like a limit that is not
    given, since it reads the limit through a truthiness test only. *)
Definition GET (session : option Session) (searchParams : SearchParams) : Response J :=
  match session ≫= accessToken with
  | None => mkResponse (ErrorBody "Unauthorized") 401
  | Some token =>
      if negb (truthy_string token) then mkResponse (ErrorBody "Unauthorized") 401
      else
        let jobId := get "id" searchParams in
        match jobId with
        | Some i =>
            if truthy_string i then
              match getJob i with
              | None => mkResponse (ErrorBody "Job not found") 404
              | Some job => mkResponse (JobBody job) 200
              end
            else
              let limit := parseInt (or_string (get "limit" searchParams) "50") in
              mkResponse (JobsBody (listJobsForUser token limit)) 200
        | None =>
            let limit := parseInt (or_string (get "limit" searchParams) "50") in
            mkResponse (JobsBody (listJobsForUser token limit)) 200
        end
  end.

End Handler.

(** The route on each of the two stores. *)
Definition mem_GET (jobs : MemStore.Jobs) :=
  GET (fun i => MemStore.getJob i jobs)
      (fun token limit => MemStore.listJobsForUser token limit jobs).

Definition redis_GET (r : RedisStore.Redis) :=
  GET (fun i => RedisStore.getJob i r)
      (fun token limit => RedisStore.listJobsForUser token limit r).

End Route.

(** ** Concrete inputs used by the examples below *)

Module Examples.

(** A stand-in for the built-in date formatter: the timestamp in decimal. *)
Definition decimal_date : JsDate := {| toISOString := js_number_to_string |}.

Definition some_params (repo : string) : JobParams :=
  mkJobParams repo 7 42 "v1" "octocat" 1001 None None.

(** Three jobs created out of time order. *)
Definition mem_jobs : MemStore.Jobs :=
  let s := snd (MemStore.createJob (some_params "acme/app") "bp_100_a" 100 100 []) in
  let s := snd (MemStore.createJob (some_params "acme/lib") "bp_300_c" 300 300 s) in
  snd (MemStore.createJob (some_params "acme/app") "bp_200_b" 200 200 s).

Definition redis_jobs : RedisStore.Redis :=
  let s := snd (RedisStore.createJob (some_params "acme/app") "bp_100_a" 100
                  RedisStore.empty_redis) in
  let s := snd (RedisStore.createJob (some_params "acme/lib") "bp_300_c" 300 s) in
  snd (RedisStore.createJob (some_params "acme/app") "bp_200_b" 200 s).

(** A job whose target branch is named like a number. *)
Definition numeric_branch : RedisStore.Redis :=
  snd (RedisStore.createJob (mkJobParams "acme/app" 7 42 "1.0" "octocat" 1001 None None)
         "bp_500_e" 500 RedisStore.empty_redis).

Definition limit_only (n : Z) : option ListOptions :=
  Some (mkListOptions None None (Some n)).

(** A run of the workflow for the job [bp_100_a]. *)
Definition clock (n : nat) : Z := 1000 + Z.of_nat n.

Definition params : Workflow.BackportParams :=
  Workflow.mkParams "bp_100_a" 7 "acme/app" 42 "release-1.2" 1001.

(** A collaborator that accepts every request. *)
Definition cooperative : Workflow.Collaborator :=
  {| Workflow.answer_unit := fun _ _ => Workflow.Ok tt;
     Workflow.answer_pull := fun _ _ =>
       Workflow.Ok (Workflow.mkPull "Fix the parser" None "main" "fix-parser"
                      "c0ffee" true (Some "deadbeef"));
     Workflow.answer_commits := fun _ _ =>
       Workflow.Ok [Workflow.mkCommit "c0ffee" "Fix the parser"];
     Workflow.answer_text := fun _ _ => Workflow.Ok "diff --git a/x.go b/x.go";
     Workflow.answer_number := fun _ _ => Workflow.Ok 77 |}.

Definition is_get_branch (c : Workflow.Call) : bool :=
  match c with
  | Workflow.ReposGetBranch _ _ _ => true
  | _ => false
  end.

Definition is_reaction (c : Workflow.Call) : bool :=
  match c with
  | Workflow.ReactionsCreateForIssueComment _ _ _ _ => true
  | _ => false
  end.

(** The target branch does not exist: get-branch answers 404. *)
Definition missing_branch : Workflow.Collaborator :=
  {| Workflow.answer_unit := fun _ c =>
       if is_get_branch c then Workflow.Err (Workflow.JsError false "Not Found")
       else Workflow.Ok tt;
     Workflow.answer_pull := Workflow.answer_pull cooperative;
     Workflow.answer_commits := Workflow.answer_commits cooperative;
     Workflow.answer_text := Workflow.answer_text cooperative;
     Workflow.answer_number := Workflow.answer_number cooperative |}.

(** The target branch exists, but get-branch answers 502 to its first two
    requests. *)
Definition flaky_branch : Workflow.Collaborator :=
  {| Workflow.answer_unit := fun h c =>
       if is_get_branch c && (List.length (List.filter is_get_branch h) <? 2)%nat
       then Workflow.Err (Workflow.JsError false "Bad Gateway")
       else Workflow.Ok tt;
     Workflow.answer_pull := Workflow.answer_pull cooperative;
     Workflow.answer_commits := Workflow.answer_commits cooperative;
     Workflow.answer_text := Workflow.answer_text cooperative;
     Workflow.answer_number := Workflow.answer_number cooperative |}.

(** The reaction to the triggering comment is refused every time. *)
Definition no_reactions : Workflow.Collaborator :=
  {| Workflow.answer_unit := fun _ c =>
       if is_reaction c then Workflow.Err (Workflow.JsError false "Forbidden")
       else Workflow.Ok tt;
     Workflow.answer_pull := Workflow.answer_pull cooperative;
     Workflow.answer_commits := Workflow.answer_commits cooperative;
     Workflow.answer_text := Workflow.answer_text cooperative;
     Workflow.answer_number := Workflow.answer_number cooperative |}.

Definition is_comment (c : Workflow.Call) : bool :=
  match c with
  | Workflow.IssuesCreateComment _ _ _ _ => true
  | _ => false
  end.

(** Every comment on the pull request is refused. *)
Definition no_comments : Workflow.Collaborator :=
  {| Workflow.answer_unit := fun _ c =>
       if is_comment c then Workflow.Err (Workflow.JsError false "Forbidden")
       else Workflow.Ok tt;
     Workflow.answer_pull := Workflow.answer_pull cooperative;
     Workflow.answer_commits := Workflow.answer_commits cooperative;
     Workflow.answer_text := Workflow.answer_text cooperative;
     Workflow.answer_number := Workflow.answer_number cooperative |}.

Definition conflict : Workflow.Sandbox :=
  fun _ _ _ _ _ _ =>
    Workflow.Ok (Workflow.mkPerform false None (Some "merge conflict in x.go")).

Definition clean_backport : Workflow.Sandbox :=
  fun _ _ _ _ _ _ =>
    Workflow.Ok (Workflow.mkPerform true (Some "backport-42-to-v1") None).

Definition mem_start : Workflow.RunState :=
  Workflow.start (InMemory mem_jobs) [].

Definition redis_start : Workflow.RunState :=
  Workflow.start (Upstash redis_jobs) [].

End Examples.

(** * Properties *)

(** ** Sorting *)

Section Sorting.
Context {A : Type} (cmp : A -> A -> Z).

Definition in_order (a b : A) : Prop := cmp a b <= 0.

Lemma sort_insert_perm (x : A) (l : list A) :
  Permutation (sort_insert cmp x l) (x :: l).
Proof.
  induction l as [|y l IH]; simpl.
  - reflexivity.
  - destruct (cmp x y <=? 0).
    + reflexivity.
    + rewrite IH. apply perm_swap.
Qed.

Lemma array_sort_perm (l : list A) : Permutation (array_sort cmp l) l.
Proof.
  induction l as [|x l IH]; simpl.
  - reflexivity.
  - rewrite sort_insert_perm. now constructor.
Qed.

Hypothesis cmp_total : forall a b, 0 < cmp a b -> cmp b a <= 0.

Lemma sort_insert_sorted (x : A) (l : list A) :
  Sorted in_order l -> Sorted in_order (sort_insert cmp x l).
Proof.
  induction 1 as [|y l Hs IH Hhd]; simpl.
  - repeat constructor.
  - destruct (Z.leb_spec (cmp x y) 0) as [Hle|Hgt].
    + constructor; [constructor; assumption|]. constructor. exact Hle.
    + constructor; [exact IH|].
      destruct Hhd as [|z l' Hyz]; simpl.
      * constructor. apply cmp_total, Hgt.
      * destruct (cmp x z <=? 0); constructor;
          [apply cmp_total, Hgt | exact Hyz].
Qed.

Lemma array_sort_sorted (l : list A) : Sorted in_order (array_sort cmp l).
Proof.
  induction l as [|x l IH]; simpl.
  - constructor.
  - apply sort_insert_sorted, IH.
Qed.

End Sorting.

Lemma firstn_StronglySorted {A : Type} (R : A -> A -> Prop) (n : nat) (l : list A) :
  StronglySorted R l -> StronglySorted R (firstn n l).
Proof.
  intros H. revert n.
  induction H as [|x l Hs IH Hall]; intros [|n]; simpl; try constructor.
  - apply IH.
  - apply Forall_take, Hall.
Qed.

Lemma slice0_StronglySorted {A : Type} (R : A -> A -> Prop) (e : Z) (l : list A) :
  StronglySorted R l -> StronglySorted R (slice0 l e).
Proof. intros H. unfold slice0. destruct (e <? 0); now apply firstn_StronglySorted. Qed.

Lemma slice0_positive {A : Type} (l : list A) (e : Z) :
  0 < e -> slice0 l e = firstn (Z.to_nat e) l.
Proof. intros H. unfold slice0. destruct (Z.ltb_spec e 0); [lia|reflexivity]. Qed.

Lemma filter_StronglySorted {A : Type} (R : A -> A -> Prop) (f : A -> bool) (l : list A) :
  StronglySorted R l -> StronglySorted R (List.filter f l).
Proof.
  induction 1 as [|x l Hs IH Hall]; simpl; [constructor|].
  destruct (f x); [|exact IH].
  constructor; [exact IH|].
  apply List.Forall_forall. intros y Hy. apply List.filter_In in Hy as [Hy _].
  exact (proj1 (List.Forall_forall _ _) Hall y Hy).
Qed.

Lemma StronglySorted_rev {A : Type} (R : A -> A -> Prop) (l : list A) :
  StronglySorted R l -> StronglySorted (fun a b => R b a) (rev l).
Proof.
  induction 1 as [|x l Hs IH Hall]; simpl; [constructor|].
  apply StronglySorted_app; split; [|split].
  - intros a b Ha Hb. apply list_elem_of_singleton in Hb as ->.
    apply list_elem_of_In, List.in_rev in Ha.
    exact (proj1 (List.Forall_forall _ _) Hall a Ha).
  - exact IH.
  - repeat constructor.
Qed.

(** Sortedness carries over to the values a partial map yields. *)
Lemma omap_StronglySorted {A B : Type} (R : A -> A -> Prop) (R' : B -> B -> Prop)
    (f : A -> option B) (l : list A) :
  (forall a a' b b', a ∈ l -> a' ∈ l -> R a a' -> f a = Some b -> f a' = Some b' -> R' b b') ->
  StronglySorted R l -> StronglySorted R' (omap f l).
Proof.
  intros Hf H. induction H as [|x l Hs IH Hall]; simpl; [constructor|].
  assert (IH' : StronglySorted R' (omap f l)).
  { apply IH. intros a a' b b' Ha Ha'. apply Hf; now right. }
  destruct (f x) as [y|] eqn:E; [|exact IH'].
  constructor; [exact IH'|].
  apply Forall_forall. intros b' Hb'.
  apply list_elem_of_omap in Hb' as (a' & Ha' & Hfa').
  apply (Hf x a' y b'); [now left|now right| |exact E|exact Hfa'].
  exact (proj1 (Forall_forall _ _) Hall a' Ha').
Qed.

Lemma omap_map {A B C : Type} (f : A -> B) (g : B -> option C) (l : list A) :
  omap g (map f l) = omap (fun a => g (f a)) l.
Proof.
  induction l as [|a l IH]; simpl; [reflexivity|].
  destruct (g (f a)); [f_equal|]; exact IH.
Qed.

Lemma Sorted_extends' {A : Type} (R R' : A -> A -> Prop) (l : list A) :
  (forall a b, R a b -> R' a b) -> Sorted R l -> Sorted R' l.
Proof.
  intros HR. induction 1 as [|x l Hs IH Hhd]; constructor; [exact IH|].
  destruct Hhd; constructor; auto.
Qed.

(** ** The in-memory store *)

Module MemFacts.
Import MemStore.

Lemma map_get_set_eq (k : string) (v : BackportJob) (m : Jobs) :
  map_get k (map_set k v m) = Some v.
Proof.
  induction m as [|[k' v'] m IH]; simpl.
  - now rewrite String.eqb_refl.
  - destruct (String.eqb k' k) eqn:E; simpl.
    + now rewrite String.eqb_refl.
    + now rewrite E.
Qed.

Lemma map_get_set_ne (k k' : string) (v : BackportJob) (m : Jobs) :
  k' <> k -> map_get k' (map_set k v m) = map_get k' m.
Proof.
  intros Hne. induction m as [|[k0 v0] m IH]; simpl.
  - destruct (String.eqb_spec k k'); [congruence|reflexivity].
  - destruct (String.eqb_spec k0 k) as [->|Hk]; simpl.
    + destruct (String.eqb_spec k k'); [congruence|reflexivity].
    + destruct (String.eqb k0 k'); [reflexivity|exact IH].
Qed.

(** A merged field: the given value when the update names the field, the
    stored value otherwise. *)
Definition overlaid {A : Type} (given : option A) (old new : A) : Prop :=
  match given with
  | Some v => new = v
  | None => new = old
  end.

Lemma overlaid_default {A : Type} (given : option A) (old : A) :
  overlaid given old (default old given).
Proof. now destruct given. Qed.

(** What the specification asks of [updateJob] on the in-memory store. *)
Definition updateJob_spec (i : string) (u : JobUpdates) (now : Z) (jobs : Jobs) : Prop :=
  match getJob i jobs with
  | None => updateJob i u now jobs = (None, jobs)
  | Some job =>
      exists updated jobs',
        updateJob i u now jobs = (Some updated, jobs') /\
        getJob i jobs' = Some updated /\
        id updated = id job /\
        createdAt updated = createdAt job /\
        updatedAt updated = now /\
        overlaid (u_repository u) (repository job) (repository updated) /\
        overlaid (u_installationId u) (installationId job) (installationId updated) /\
        overlaid (u_sourcePR u) (sourcePR job) (sourcePR updated) /\
        overlaid (u_targetBranch u) (targetBranch job) (targetBranch updated) /\
        overlaid (u_status u) (status job) (status updated) /\
        overlaid (u_requestedBy u) (requestedBy job) (requestedBy updated) /\
        overlaid (u_commentId u) (commentId job) (commentId updated) /\
        overlaid (u_resultPR u) (resultPR job) (resultPR updated) /\
        overlaid (u_error u) (error job) (error updated) /\
        overlaid (u_logs u) (logs job) (logs updated) /\
        (forall i', i' <> i -> getJob i' jobs' = getJob i' jobs)
  end.

Lemma updateJob_meets_spec (i : string) (u : JobUpdates) (now : Z) (jobs : Jobs) :
  updateJob_spec i u now jobs.
Proof.
  unfold updateJob_spec, updateJob, getJob.
  destruct (map_get i jobs) as [job|] eqn:E; [|reflexivity].
  eexists _, _. split; [reflexivity|].
  split; [apply map_get_set_eq|].
  simpl. repeat (split; [first [reflexivity | apply overlaid_default]|]).
  intros i' Hne. now apply map_get_set_ne.
Qed.

(** What [updateJob] does at run time on the in-memory store. *)
Definition erased_updateJob_spec (i : string) (o : Erased.Updates) (now : Z)
    (jobs : Jobs) : Prop :=
  match getJob i jobs with
  | None => Erased.updateJob i o now jobs = (None, jobs)
  | Some job =>
      exists updated jobs',
        Erased.updateJob i o now jobs = (Some updated, jobs') /\
        getJob i jobs' = Some updated /\
        overlaid (Erased.given_id o) (id job) (id updated) /\
        overlaid (Erased.given_createdAt o) (createdAt job) (createdAt updated) /\
        updatedAt updated = now /\
        overlaid (u_repository (Erased.declared o)) (repository job)
          (repository updated) /\
        overlaid (u_installationId (Erased.declared o)) (installationId job)
          (installationId updated) /\
        overlaid (u_sourcePR (Erased.declared o)) (sourcePR job) (sourcePR updated) /\
        overlaid (u_targetBranch (Erased.declared o)) (targetBranch job)
          (targetBranch updated) /\
        overlaid (u_status (Erased.declared o)) (status job) (status updated) /\
        overlaid (u_requestedBy (Erased.declared o)) (requestedBy job)
          (requestedBy updated) /\
        overlaid (u_commentId (Erased.declared o)) (commentId job)
          (commentId updated) /\
        overlaid (u_resultPR (Erased.declared o)) (resultPR job) (resultPR updated) /\
        overlaid (u_error (Erased.declared o)) (error job) (error updated) /\
        overlaid (u_logs (Erased.declared o)) (logs job) (logs updated) /\
        (forall i', i' <> i -> getJob i' jobs' = getJob i' jobs)
  end.

Lemma erased_updateJob_meets_spec (i : string) (o : Erased.Updates) (now : Z)
    (jobs : Jobs) :
  erased_updateJob_spec i o now jobs.
Proof.
  unfold erased_updateJob_spec, Erased.updateJob, getJob.
  destruct (map_get i jobs) as [job|] eqn:E; [|reflexivity].
  eexists _, _. split; [reflexivity|].
  split; [apply map_get_set_eq|].
  simpl. repeat (split; [first [reflexivity | apply overlaid_default]|]).
  intros i' Hne. now apply map_get_set_ne.
Qed.

(** On an object of the declared type the function is [updateJob] as the
    annotation has it. *)
Lemma updateJob_at_declared_type (i : string) (u : JobUpdates) (now : Z) (jobs : Jobs) :
  updateJob i u now jobs = Erased.updateJob i (Erased.typed u) now jobs.
Proof. reflexivity. Qed.

Lemma addJobLog_absent {D : JsDate} (i msg : string) (t1 t2 : Z) (jobs : Jobs) :
  getJob i jobs = None -> addJobLog i msg t1 t2 jobs = jobs.
Proof. unfold addJobLog, getJob. now intros ->. Qed.

(** *** [listJobs] *)

(** The conjunction of the filters that are in force. *)
Definition matches (options : option ListOptions) (j : BackportJob) : bool :=
  match repository_filter options with
  | Some r => String.eqb (repository j) r
  | None => true
  end
  && match status_filter options with
     | Some s => Status_eqb (status j) s
     | None => true
     end.

Definition newest_first (a b : BackportJob) : Prop := createdAt b <= createdAt a.

(** Every matching job of the store, newest first. *)
Definition all_matching (options : option ListOptions) (jobs : Jobs) : list BackportJob :=
  array_sort by_createdAt_desc (List.filter (matches options) (map_values jobs)).

Lemma filter_filter {A : Type} (f g : A -> bool) (l : list A) :
  List.filter g (List.filter f l) = List.filter (fun x => f x && g x) l.
Proof.
  induction l as [|x l IH]; simpl; [reflexivity|].
  destruct (f x); simpl; [destruct (g x)|]; now rewrite IH.
Qed.

Lemma filter_true {A : Type} (l : list A) : List.filter (fun _ => true) l = l.
Proof. induction l as [|x l IH]; simpl; [reflexivity|]. now rewrite IH. Qed.

Lemma filters_matches (options : option ListOptions) (l : list BackportJob) :
  filter_status (status_filter options)
    (filter_repository (repository_filter options) l)
  = List.filter (matches options) l.
Proof.
  unfold matches, filter_status, filter_repository.
  destruct (repository_filter options) as [r|], (status_filter options) as [st|].
  - apply filter_filter.
  - apply List.filter_ext. intros j. now rewrite andb_true_r.
  - reflexivity.
  - symmetry. apply filter_true.
Qed.

Lemma listJobs_unfold (options : option ListOptions) (jobs : Jobs) :
  listJobs options jobs =
  match limit_option options with
  | Some n => slice0 (all_matching options jobs) n
  | None => all_matching options jobs
  end.
Proof. unfold listJobs, all_matching. now rewrite filters_matches. Qed.

Lemma newest_first_trans (a b c : BackportJob) :
  newest_first a b -> newest_first b c -> newest_first a c.
Proof. unfold newest_first. lia. Qed.

Lemma all_matching_sorted (options : option ListOptions) (jobs : Jobs) :
  StronglySorted newest_first (all_matching options jobs).
Proof.
  apply Sorted.Sorted_StronglySorted; [exact newest_first_trans|].
  assert (H := array_sort_sorted by_createdAt_desc
                 ltac:(unfold by_createdAt_desc; intros; lia)
                 (List.filter (matches options) (map_values jobs))).
  eapply Sorted_extends' with (R := in_order by_createdAt_desc); [|exact H].
  unfold in_order, by_createdAt_desc, newest_first. intros. lia.
Qed.

Lemma all_matching_perm (options : option ListOptions) (jobs : Jobs) :
  Permutation (all_matching options jobs)
    (List.filter (matches options) (map_values jobs)).
Proof. apply array_sort_perm. Qed.

Lemma filter_perm {A : Type} (f : A -> bool) (l l' : list A) :
  Permutation l l' -> Permutation (List.filter f l) (List.filter f l').
Proof.
  induction 1 as [|x l l' _ IH|x y l|l1 l2 l3 _ IH1 _ IH2]; simpl.
  - constructor.
  - destruct (f x); [now constructor|exact IH].
  - destruct (f x), (f y); try reflexivity. apply perm_swap.
  - now transitivity (List.filter f l2).
Qed.

Lemma listJobs_sorted (options : option ListOptions) (jobs : Jobs) :
  StronglySorted newest_first (listJobs options jobs).
Proof.
  rewrite listJobs_unfold. destruct (limit_option options).
  - apply slice0_StronglySorted, all_matching_sorted.
  - apply all_matching_sorted.
Qed.

(** The filter as the caller supplied it. *)
Definition supplied_repository (options : option ListOptions) : option string :=
  options ≫= o_repository.
Definition supplied_status (options : option ListOptions) : option Status :=
  options ≫= o_status.
Definition supplied_limit (options : option ListOptions) : option Z :=
  options ≫= o_limit.

(** Conjunctive exact match: the repository filter (when it is not the empty
    string) and the status filter both hold. *)
Definition satisfies (options : option ListOptions) (j : BackportJob) : Prop :=
  (forall r, supplied_repository options = Some r -> r <> "" -> repository j = r) /\
  (forall st, supplied_status options = Some st -> status j = st).

Lemma truthy_string_spec (r : string) : truthy_string r = true <-> r <> "".
Proof.
  unfold truthy_string. destruct (String.eqb_spec r ""); simpl; split; congruence.
Qed.

Lemma matches_satisfies (options : option ListOptions) (j : BackportJob) :
  matches options j = true <-> satisfies options j.
Proof.
  unfold matches, satisfies, supplied_repository, supplied_status,
    repository_filter, status_filter, Status_eqb.
  destruct options as [[r st l]|]; simpl.
  - rewrite andb_true_iff.
    assert (H1 : match (match r with
                        | Some r0 => if truthy_string r0 then Some r0 else None
                        | None => None
                        end) with
                 | Some r0 => String.eqb (repository j) r0
                 | None => true
                 end = true
                 <-> (forall r0, r = Some r0 -> r0 <> "" -> repository j = r0)).
    { destruct r as [r0|]; [|split; [intros _ ? [=]|reflexivity]].
      destruct (truthy_string r0) eqn:T.
      - rewrite String.eqb_eq. split; [intros -> ? [= <-] _; reflexivity|].
        intros H. apply H; [reflexivity|]. now apply truthy_string_spec.
      - split; [|reflexivity]. intros _ ? [= <-] Hne.
        apply truthy_string_spec in Hne. congruence. }
    assert (H2 : match st with
                 | Some s => bool_decide (status j = s)
                 | None => true
                 end = true
                 <-> (forall s, st = Some s -> status j = s)).
    { destruct st as [s|]; [|split; [intros _ ? [=]|reflexivity]].
      rewrite bool_decide_eq_true. split; [intros -> ? [= <-]; reflexivity|auto]. }
    now rewrite H1, H2.
  - split; [|reflexivity]. intros _. split; intros ? [=].
Qed.

Lemma all_matching_In (options : option ListOptions) (jobs : Jobs) (j : BackportJob) :
  In j (all_matching options jobs) <-> In j (map_values jobs) /\ satisfies options j.
Proof.
  rewrite <- matches_satisfies, <- List.filter_In.
  split; apply Permutation_in;
    [apply all_matching_perm | symmetry; apply all_matching_perm].
Qed.

Lemma all_matching_order_independent (options : option ListOptions) (jobs jobs' : Jobs) :
  Permutation (map_values jobs) (map_values jobs') ->
  Permutation (all_matching options jobs) (all_matching options jobs').
Proof.
  intros H. rewrite !all_matching_perm. now apply filter_perm.
Qed.

Lemma limit_option_positive (options : option ListOptions) (n : Z) :
  supplied_limit options = Some n -> 0 < n -> limit_option options = Some n.
Proof.
  unfold supplied_limit, limit_option, truthy_number.
  destruct options as [[r st [l|]]|]; simpl; intros [= ->] Hn.
  destruct (Z.eqb_spec n 0); [lia|reflexivity].
Qed.

Lemma limit_option_none (options : option ListOptions) :
  supplied_limit options = None \/ supplied_limit options = Some 0 ->
  limit_option options = None.
Proof.
  unfold supplied_limit, limit_option, truthy_number.
  destruct options as [[r st [l|]]|]; simpl; intros [[=]|[=]]; subst; reflexivity.
Qed.

End MemFacts.

(** ** The Redis store *)

Module RedisFacts.
Import RedisStore.

Lemma job_key_inj (i i' : string) : job_key i = job_key i' -> i = i'.
Proof. unfold job_key. apply String.app_inj. Qed.

Lemma union_absorb {A : Type} (a b : option A) : (a ∪ b) ∪ b = a ∪ b.
Proof. now destruct a, b. Qed.

Lemma union_same {A : Type} (a : option A) : a ∪ a = a.
Proof. now destruct a. Qed.

Lemma hash_merge_merge (existing : RedisBackportJob) (u : JobUpdates) (now : Z) :
  hash_merge existing (merge existing u now) = merge existing u now.
Proof.
  unfold hash_merge, merge; simpl.
  f_equal; first [apply union_absorb | apply union_same | now destruct (r_updatedAt existing)].
Qed.

Lemma merge_not_empty (existing : RedisBackportJob) (u : JobUpdates) (now : Z) :
  hash_is_empty (merge existing u now) = false.
Proof.
  unfold hash_is_empty, merge.
  repeat match goal with |- context [match ?o with _ => _ end] =>
    destruct o; try reflexivity end.
Qed.

Lemma hgetall_hset_eq (k : string) (kv : RedisBackportJob) (r : Redis) :
  hgetall k (hset k kv r) = Some (hash_merge (default empty_hash (hgetall k r)) kv).
Proof. unfold hgetall, hset; simpl. apply lookup_insert_eq. Qed.

Lemma hgetall_hset_ne (k k' : string) (kv : RedisBackportJob) (r : Redis) :
  k <> k' -> hgetall k' (hset k kv r) = hgetall k' r.
Proof. intros H. unfold hgetall, hset; simpl. now apply lookup_insert_ne. Qed.

(** A merged hash field. *)
Definition overlaid {A : Type} (given old new : option A) : Prop :=
  match given with
  | Some v => new = Some v
  | None => new = old
  end.

Lemma overlaid_union {A : Type} (given old : option A) :
  overlaid given old (given ∪ old).
Proof. now destruct given, old. Qed.

(** What the specification asks of [updateJob] on the Redis store. *)
Definition updateJob_spec (i : string) (u : JobUpdates) (now : Z) (r : Redis) : Prop :=
  match getJob i r with
  | None => updateJob i u now r = (None, r)
  | Some job =>
      exists updated r',
        updateJob i u now r = (Some updated, r') /\
        getJob i r' = Some updated /\
        r_id (data updated) = r_id (data job) /\
        r_createdAt (data updated) = r_createdAt (data job) /\
        r_updatedAt (data updated) = Some now /\
        overlaid (u_repository u) (r_repository (data job)) (r_repository (data updated)) /\
        overlaid (u_installationId u) (r_installationId (data job))
          (r_installationId (data updated)) /\
        overlaid (u_sourcePR u) (r_sourcePR (data job)) (r_sourcePR (data updated)) /\
        overlaid (u_targetBranch u) (r_targetBranch (data job))
          (r_targetBranch (data updated)) /\
        overlaid (u_status u) (r_status (data job)) (r_status (data updated)) /\
        overlaid (u_requestedBy u) (r_requestedBy (data job))
          (r_requestedBy (data updated)) /\
        overlaid (u_commentId u) (r_commentId (data job)) (r_commentId (data updated)) /\
        overlaid (u_resultPR u) (r_resultPR (data job)) (r_resultPR (data updated)) /\
        overlaid (u_error u) (r_error (data job)) (r_error (data updated)) /\
        rlogs updated = rlogs job /\
        lists r' = lists r /\ zsets r' = zsets r /\
        (forall i', i' <> i -> getJob i' r' = getJob i' r)
  end.

Lemma getJob_hset_ne (i i' : string) (kv : RedisBackportJob) (r : Redis) :
  i' <> i -> getJob i' (hset (job_key i) kv r) = getJob i' r.
Proof.
  intros Hne. unfold getJob.
  rewrite hgetall_hset_ne; [reflexivity|].
  intros E. apply job_key_inj in E. congruence.
Qed.

Lemma redis_updateJob_meets_spec (i : string) (u : JobUpdates) (now : Z) (r : Redis) :
  updateJob_spec i u now r.
Proof.
  unfold updateJob_spec, updateJob, getJob.
  destruct (hgetall (job_key i) r) as [existing|] eqn:E; [|reflexivity].
  destruct (hash_is_empty existing) eqn:Hemp; [reflexivity|].
  eexists _, _. split; [reflexivity|].
  rewrite hgetall_hset_eq, E.
  change (default empty_hash (Some existing)) with existing.
  rewrite hash_merge_merge, merge_not_empty.
  split; [reflexivity|].
  simpl. repeat (split; [first [reflexivity | apply overlaid_union]|]).
  intros i' Hne. now apply getJob_hset_ne.
Qed.

(** [addJobLog] writes [updatedAt] whether or not the job exists, so a read
    after it always finds a record. *)
Lemma getJob_addJobLog {D : JsDate} (i msg : string) (t1 t2 : Z) (r : Redis) :
  exists job,
    getJob i (addJobLog i msg t1 t2 r) = Some job /\
    r_updatedAt (data job) = Some t2 /\
    List.last (rlogs job) "" = "[" +:+ toISOString t1 +:+ "] " +:+ msg.
Proof.
  unfold getJob, addJobLog. rewrite hgetall_hset_eq.
  set (h := hash_merge _ _).
  assert (Hu : r_updatedAt h = Some t2).
  { subst h. simpl. now destruct (r_updatedAt _). }
  clearbody h.
  assert (Hne : hash_is_empty h = false).
  { destruct h; simpl in *. subst.
    repeat match goal with |- context [match ?o with _ => _ end] =>
      destruct o; try reflexivity end. }
  rewrite Hne. eexists. split; [reflexivity|]. split; [exact Hu|].
  simpl. unfold lrange_all, hset, rpush; simpl.
  rewrite lookup_insert_eq. simpl. apply List.last_last.
Qed.

(** *** [listJobs] *)

Definition matches (options : option ListOptions) (j : Job) : bool :=
  match repository_filter options with
  | Some x => is_some_eqb String.eqb (r_repository (data j)) x
  | None => true
  end
  && match status_filter options with
     | Some x => is_some_eqb Status_eqb (r_status (data j)) x
     | None => true
     end.

(** The time-ordered index [jobs:all]. *)
Definition index (r : Redis) : gmap string Z := default ∅ (zsets r !! JOB_INDEX).

(** Every indexed id has a record whose [createdAt] is its score: the state
    [createJob] establishes and the other operations keep. *)
Definition index_consistent (r : Redis) : Prop :=
  forall i sc, index r !! i = Some sc ->
    exists h, hgetall (job_key i) r = Some h /\ r_createdAt h = Some sc.

Definition index_consistentb (r : Redis) : bool :=
  forallb
    (fun p : string * Z =>
       match hgetall (job_key (fst p)) r with
       | Some h => bool_decide (r_createdAt h = Some (snd p))
       | None => false
       end)
    (map_to_list (index r)).

Definition newest_first (a b : Job) : Prop :=
  exists ta tb,
    r_createdAt (data a) = Some ta /\ r_createdAt (data b) = Some tb /\ tb <= ta.

(** Every matching job of the index, in index order. *)
Definition all_matching (options : option ListOptions) (r : Redis) : list Job :=
  List.filter (matches options)
    (non_null (map (fun i => getJob i r) (zrange_rev_all JOB_INDEX r))).

Lemma index_consistentb_spec (r : Redis) :
  index_consistentb r = true <-> index_consistent r.
Proof.
  unfold index_consistentb, index_consistent. rewrite forallb_forall. split.
  - intros H i sc Hi.
    assert (Hin : In (i, sc) (map_to_list (index r))).
    { apply list_elem_of_In, elem_of_map_to_list, Hi. }
    specialize (H (i, sc) Hin). simpl in H.
    destruct (hgetall (job_key i) r) as [h|]; [|discriminate].
    exists h. split; [reflexivity|]. now apply bool_decide_eq_true in H.
  - intros H [i sc] Hin. simpl.
    apply list_elem_of_In, elem_of_map_to_list in Hin.
    destruct (H i sc Hin) as (h & -> & Hc). now apply bool_decide_eq_true_2.
Qed.

Lemma redis_filters_matches (options : option ListOptions) (l : list Job) :
  filter_status (status_filter options)
    (filter_repository (repository_filter options) l)
  = List.filter (matches options) l.
Proof.
  unfold matches, filter_status, filter_repository.
  destruct (repository_filter options) as [x|], (status_filter options) as [st|].
  - apply MemFacts.filter_filter.
  - apply List.filter_ext. intros j. now rewrite andb_true_r.
  - reflexivity.
  - symmetry. apply MemFacts.filter_true.
Qed.

Lemma slice0_nil {A : Type} (e : Z) : slice0 (@nil A) e = [].
Proof. unfold slice0. destruct (e <? 0); apply firstn_nil. Qed.

Lemma redis_listJobs_unfold (options : option ListOptions) (r : Redis) :
  listJobs options r = slice0 (all_matching options r) (effective_limit options).
Proof.
  unfold listJobs, all_matching.
  destruct (zrange_rev_all JOB_INDEX r) as [|i ids] eqn:E.
  - simpl. now rewrite slice0_nil.
  - now rewrite redis_filters_matches.
Qed.

Lemma zset_cmp_total (a b : string * Z) : 0 < zset_cmp a b -> zset_cmp b a <= 0.
Proof.
  unfold zset_cmp. rewrite (Z.compare_antisym (snd a) (snd b)).
  rewrite (String.compare_antisym (fst b) (fst a)).
  destruct (snd a ?= snd b); simpl; try lia.
  destruct (fst a ?= fst b)%string; simpl; lia.
Qed.

Lemma zset_cmp_score (a b : string * Z) : zset_cmp a b <= 0 -> snd a <= snd b.
Proof.
  unfold zset_cmp. destruct (Z.compare_spec (snd a) (snd b)); try lia.
Qed.

Lemma zrange_pairs_sorted (m : gmap string Z) :
  StronglySorted (fun a b : string * Z => snd b <= snd a)
    (rev (array_sort zset_cmp (map_to_list m))).
Proof.
  apply (StronglySorted_rev (fun a b : string * Z => snd a <= snd b)).
  apply Sorted.Sorted_StronglySorted; [intros a b c; lia|].
  eapply Sorted_extends'; [|apply (array_sort_sorted zset_cmp zset_cmp_total)].
  exact zset_cmp_score.
Qed.

Lemma zrange_pairs_lookup (m : gmap string Z) (p : string * Z) :
  p ∈ rev (array_sort zset_cmp (map_to_list m)) -> m !! fst p = Some (snd p).
Proof.
  intros H. apply list_elem_of_In, List.in_rev in H.
  apply (Permutation_in _ (array_sort_perm zset_cmp (map_to_list m))) in H.
  destruct p as [i sc]. now apply elem_of_map_to_list, list_elem_of_In.
Qed.

Lemma redis_all_matching_sorted (options : option ListOptions) (r : Redis) :
  index_consistent r -> StronglySorted newest_first (all_matching options r).
Proof.
  intros Hc. unfold all_matching. apply filter_StronglySorted.
  unfold non_null, zrange_rev_all. rewrite map_map, omap_map.
  eapply omap_StronglySorted; [|apply (zrange_pairs_sorted (index r))].
  intros a a' j j' Ha Ha' Hle Hj Hj'. simpl in Hj, Hj'.
  apply zrange_pairs_lookup in Ha, Ha'.
  destruct (Hc _ _ Ha) as (h & Hh & Hcr), (Hc _ _ Ha') as (h' & Hh' & Hcr').
  unfold getJob in Hj, Hj'. rewrite Hh in Hj. rewrite Hh' in Hj'.
  destruct (hash_is_empty h); [discriminate|].
  destruct (hash_is_empty h'); [discriminate|].
  injection Hj as <-. injection Hj' as <-.
  exists (snd a), (snd a'). simpl. auto.
Qed.


(** *** The index stays consistent *)

Lemma empty_redis_consistent : index_consistent empty_redis.
Proof. intros i sc H. unfold index, empty_redis in H. simpl in H. now rewrite !lookup_empty in H. Qed.

Lemma index_hset (k : string) (kv : RedisBackportJob) (r : Redis) :
  index (hset k kv r) = index r.
Proof. reflexivity. Qed.

Lemma index_rpush (k v : string) (r : Redis) : index (rpush k v r) = index r.
Proof. reflexivity. Qed.

Lemma hgetall_rpush (k k' v : string) (r : Redis) :
  hgetall k (rpush k' v r) = hgetall k r.
Proof. reflexivity. Qed.

Lemma hgetall_zadd (k k' m : string) (sc : Z) (r : Redis) :
  hgetall k (zadd k' sc m r) = hgetall k r.
Proof. reflexivity. Qed.

Lemma index_zadd (m : string) (sc : Z) (r : Redis) :
  index (zadd JOB_INDEX sc m r) = <[m := sc]> (index r).
Proof. unfold index, zadd. simpl. now rewrite lookup_insert_eq. Qed.

Lemma hset_keeps_createdAt (k : string) (kv : RedisBackportJob) (r : Redis)
    (k' : string) (h : RedisBackportJob) (sc : Z) :
  (k' = k -> r_createdAt kv = None \/ r_createdAt kv = Some sc) ->
  hgetall k' r = Some h -> r_createdAt h = Some sc ->
  exists h', hgetall k' (hset k kv r) = Some h' /\ r_createdAt h' = Some sc.
Proof.
  intros Hkv Hh Hc. destruct (decide (k' = k)) as [->|Hne].
  - rewrite hgetall_hset_eq, Hh. eexists. split; [reflexivity|].
    simpl. rewrite Hc. destruct (Hkv eq_refl) as [-> | ->]; reflexivity.
  - rewrite hgetall_hset_ne by congruence. eauto.
Qed.

Lemma createJob_consistent (params : JobParams) (newId : string) (now : Z) (r : Redis) :
  index_consistent r -> index_consistent (snd (createJob params newId now r)).
Proof.
  intros Hc i sc. unfold createJob. simpl.
  rewrite index_zadd, index_hset, hgetall_zadd.
  destruct (decide (newId = i)) as [->|Hne].
  - rewrite lookup_insert_eq. intros [= <-].
    rewrite hgetall_hset_eq. eexists. split; [reflexivity|].
    simpl. now destruct (r_createdAt _).
  - rewrite lookup_insert_ne by exact Hne. intros Hi.
    destruct (Hc i sc Hi) as (h & Hh & Hcr).
    rewrite hgetall_hset_ne; [eauto|].
    intros E. apply job_key_inj in E. congruence.
Qed.

Lemma updateJob_consistent (i : string) (u : JobUpdates) (now : Z) (r : Redis) :
  index_consistent r -> index_consistent (snd (updateJob i u now r)).
Proof.
  intros Hc. unfold updateJob.
  destruct (hgetall (job_key i) r) as [existing|] eqn:E; [|exact Hc].
  destruct (hash_is_empty existing); [exact Hc|]. simpl.
  intros i' sc Hi. rewrite index_hset in Hi.
  destruct (Hc i' sc Hi) as (h & Hh & Hcr).
  apply (hset_keeps_createdAt _ _ _ _ h sc); [|exact Hh|exact Hcr].
  intros Hk. apply job_key_inj in Hk as ->. right. simpl. congruence.
Qed.

Lemma addJobLog_consistent {D : JsDate} (i msg : string) (t1 t2 : Z) (r : Redis) :
  index_consistent r -> index_consistent (addJobLog i msg t1 t2 r).
Proof.
  intros Hc i' sc Hi. unfold addJobLog in *.
  rewrite index_hset, index_rpush in Hi.
  destruct (Hc i' sc Hi) as (h & Hh & Hcr).
  apply (hset_keeps_createdAt _ _ _ _ h sc); [|exact Hh|exact Hcr].
  intros _. now left.
Qed.

Definition satisfies (options : option ListOptions) (j : Job) : Prop :=
  (forall x, MemFacts.supplied_repository options = Some x -> x <> "" ->
             r_repository (data j) = Some x) /\
  (forall st, MemFacts.supplied_status options = Some st ->
              r_status (data j) = Some st).

Lemma redis_matches_satisfies (options : option ListOptions) (j : Job) :
  matches options j = true <-> satisfies options j.
Proof.
  unfold matches, satisfies, MemFacts.supplied_repository, MemFacts.supplied_status,
    repository_filter, status_filter, Status_eqb, is_some_eqb.
  destruct options as [[x st l]|]; simpl.
  - rewrite andb_true_iff.
    assert (H1 : match (match x with
                        | Some r0 => if truthy_string r0 then Some r0 else None
                        | None => None
                        end) with
                 | Some r0 =>
                     match r_repository (data j) with
                     | Some y => String.eqb y r0
                     | None => false
                     end
                 | None => true
                 end = true
                 <-> (forall r0, x = Some r0 -> r0 <> "" ->
                                 r_repository (data j) = Some r0)).
    { destruct x as [r0|]; [|split; [intros _ ? [=]|reflexivity]].
      destruct (truthy_string r0) eqn:T.
      - destruct (r_repository (data j)) as [y|].
        + rewrite String.eqb_eq. split; [intros -> ? [= <-] _; reflexivity|].
          intros H. specialize (H r0 eq_refl).
          rewrite <- MemFacts.truthy_string_spec in H. specialize (H T). congruence.
        + split; [discriminate|]. intros H. specialize (H r0 eq_refl).
          rewrite <- MemFacts.truthy_string_spec in H. now specialize (H T).
      - split; [|reflexivity]. intros _ ? [= <-] Hne.
        apply MemFacts.truthy_string_spec in Hne. congruence. }
    assert (H2 : match st with
                 | Some s =>
                     match r_status (data j) with
                     | Some y => bool_decide (y = s)
                     | None => false
                     end
                 | None => true
                 end = true
                 <-> (forall s, st = Some s -> r_status (data j) = Some s)).
    { destruct st as [s0|]; [|split; [intros _ ? [=]|reflexivity]].
      destruct (r_status (data j)) as [y|].
      - rewrite bool_decide_eq_true. split; [intros -> ? [= <-]; reflexivity|].
        intros H. specialize (H s0 eq_refl). congruence.
      - split; [discriminate|]. intros H. now specialize (H s0 eq_refl). }
    now rewrite H1, H2.
  - split; [|reflexivity]. intros _. split; intros ? [=].
Qed.

(** The records of the indexed ids, in index order. *)
Definition indexed_jobs (r : Redis) : list Job :=
  non_null (map (fun i => getJob i r) (zrange_rev_all JOB_INDEX r)).


Lemma effective_limit_positive (options : option ListOptions) (n : Z) :
  MemFacts.supplied_limit options = Some n -> 0 < n -> effective_limit options = n.
Proof.
  intros H Hn. unfold effective_limit.
  now rewrite (MemFacts.limit_option_positive options n H Hn).
Qed.

Lemma effective_limit_default (options : option ListOptions) :
  MemFacts.supplied_limit options = None \/ MemFacts.supplied_limit options = Some 0 ->
  effective_limit options = 50.
Proof.
  intros H. unfold effective_limit. now rewrite (MemFacts.limit_option_none options H).
Qed.

End RedisFacts.

(** ** The Redis client *)

Module ClientFacts.
Import RedisStore.

(** A text that is no JSON text. *)
Definition plain (text : string) : Prop := Json.parse text = None.

Definition plainb (text : string) : bool :=
  match Json.parse text with
  | None => true
  | Some _ => false
  end.

Lemma plainb_spec (text : string) : plainb text = true <-> plain text.
Proof. unfold plainb, plain. destruct (Json.parse text); split; congruence. Qed.

Definition plain_opt (o : option string) : Prop :=
  match o with
  | Some s => plain s
  | None => True
  end.

(** The client returns a text that is no JSON text as it was written. *)
Lemma deserialize_plain (text : string) :
  plain text -> RedisClient.deserialize text = Json.Str text.
Proof. unfold plain, RedisClient.deserialize. now intros ->. Qed.

Lemma parseResponse_plain (text : string) :
  plain text -> RedisClient.parseResponse text = Json.Str text.
Proof. unfold plain, RedisClient.parseResponse. now intros ->. Qed.

(** A value that the client reads back from the text it writes for it. *)
Definition stable (o : option Json.Value) : Prop :=
  match o with
  | Some v => RedisClient.deserialize (RedisClient.serialize v) = v
  | None => True
  end.

Lemma stable_plain (o : option string) : plain_opt o -> stable (Json.Str <$> o).
Proof. destruct o as [s|]; simpl; [apply deserialize_plain|trivial]. Qed.

Lemma stable_read_plain (o : option string) :
  plain_opt o -> stable (RedisClient.deserialize <$> o).
Proof.
  destruct o as [s|]; simpl; [|trivial]. intros H.
  rewrite (deserialize_plain s H). simpl. now apply deserialize_plain.
Qed.

Lemma stable_union (a b : option Json.Value) : stable a -> stable b -> stable (a ∪ b).
Proof. now destruct a, b. Qed.

Definition reads_back (d : RedisClient.Data) : Prop :=
  stable (RedisClient.d_id d) /\ stable (RedisClient.d_repository d) /\
  stable (RedisClient.d_targetBranch d) /\ stable (RedisClient.d_requestedBy d) /\
  stable (RedisClient.d_error d).

Lemma stable_fmap (o : option Json.Value) :
  stable o -> RedisClient.deserialize <$> (RedisClient.serialize <$> o) = o.
Proof. destruct o as [v|]; simpl; [now intros ->|trivial]. Qed.

Lemma read_write (d : RedisClient.Data) :
  reads_back d -> RedisClient.read (RedisClient.write d) = d.
Proof.
  intros (H1 & H2 & H3 & H4 & H5). destruct d. unfold RedisClient.read, RedisClient.write.
  simpl in *. now rewrite !stable_fmap.
Qed.

(** The hash of a job whose text fields are no JSON texts, and an update
    with such texts. *)
Definition plain_hash (h : RedisBackportJob) : Prop :=
  plain_opt (r_id h) /\ plain_opt (r_repository h) /\ plain_opt (r_targetBranch h) /\
  plain_opt (r_requestedBy h) /\ plain_opt (r_error h).

Definition plain_updates (o : RedisClient.Updates) : Prop :=
  plain_opt (RedisClient.given_id o) /\
  plain_opt (u_repository (RedisClient.declared o)) /\
  plain_opt (u_targetBranch (RedisClient.declared o)) /\
  plain_opt (u_requestedBy (RedisClient.declared o)) /\
  plain_opt (u_error (RedisClient.declared o)).

(** The record the client hands out for a hash whose texts are no JSON
    texts reads back as it is written, and so does the record merged from a
    record that does and an update whose texts are no JSON texts. *)
Lemma reads_back_read (h : RedisBackportJob) :
  plain_hash h -> reads_back (RedisClient.read h).
Proof.
  intros (H1 & H2 & H3 & H4 & H5). unfold reads_back, RedisClient.read. simpl.
  repeat split; now apply stable_read_plain.
Qed.

Lemma reads_back_merge (d : RedisClient.Data) (o : RedisClient.Updates) (now : Z) :
  reads_back d -> plain_updates o -> reads_back (RedisClient.merge d o now).
Proof.
  intros (H1 & H2 & H3 & H4 & H5) (U1 & U2 & U3 & U4 & U5).
  unfold reads_back, RedisClient.merge. simpl.
  repeat split; apply stable_union; first [now apply stable_plain | assumption].
Qed.

(** The record the client hands out for a hash whose texts it returns as
    they were written. *)
Definition written (h : RedisBackportJob) : RedisClient.Data :=
  {| RedisClient.d_id := Json.Str <$> r_id h;
     RedisClient.d_repository := Json.Str <$> r_repository h;
     RedisClient.d_installationId := r_installationId h;
     RedisClient.d_sourcePR := r_sourcePR h;
     RedisClient.d_targetBranch := Json.Str <$> r_targetBranch h;
     RedisClient.d_status := r_status h;
     RedisClient.d_createdAt := r_createdAt h;
     RedisClient.d_updatedAt := r_updatedAt h;
     RedisClient.d_requestedBy := Json.Str <$> r_requestedBy h;
     RedisClient.d_commentId := r_commentId h;
     RedisClient.d_resultPR := r_resultPR h;
     RedisClient.d_error := Json.Str <$> r_error h |}.

Lemma plain_fmap (o : option string) :
  plain_opt o -> RedisClient.deserialize <$> o = Json.Str <$> o.
Proof. destruct o as [s|]; simpl; [intros H; now rewrite deserialize_plain|trivial]. Qed.

Lemma read_plain (h : RedisBackportJob) : plain_hash h -> RedisClient.read h = written h.
Proof.
  intros (H1 & H2 & H3 & H4 & H5). unfold RedisClient.read, written.
  now rewrite !plain_fmap.
Qed.

Lemma write_written (h : RedisBackportJob) : RedisClient.write (written h) = h.
Proof.
  destruct h as [a1 a2 a3 a4 a5 a6 a7 a8 a9 a10 a11 a12].
  unfold RedisClient.write, written. simpl.
  now destruct a1, a2, a5, a9, a12.
Qed.

Lemma is_empty_read (h : RedisBackportJob) :
  RedisClient.is_empty (RedisClient.read h) = hash_is_empty h.
Proof.
  destruct h as [a1 a2 a3 a4 a5 a6 a7 a8 a9 a10 a11 a12].
  unfold RedisClient.read. simpl.
  destruct a1, a2, a3, a4, a5, a6, a7, a8, a9, a10, a11, a12; reflexivity.
Qed.

Lemma is_empty_updatedAt (d : RedisClient.Data) (t : Z) :
  RedisClient.d_updatedAt d = Some t -> RedisClient.is_empty d = false.
Proof.
  destruct d as [a1 a2 a3 a4 a5 a6 a7 a8 a9 a10 a11 a12]. simpl. intros ->.
  destruct a1, a2, a3, a4, a5, a6, a7; reflexivity.
Qed.

(** A reader sees a job through the client where it sees one at the declared
    types, and nowhere else. *)
Lemma hgetall_read (k : string) (r : Redis) (h : RedisBackportJob) :
  RedisStore.hgetall k r = Some h -> RedisClient.hgetall k r = Some (RedisClient.read h).
Proof. unfold RedisClient.hgetall. now intros ->. Qed.

Lemma hgetall_none (k : string) (r : Redis) :
  RedisStore.hgetall k r = None -> RedisClient.hgetall k r = None.
Proof. unfold RedisClient.hgetall. now intros ->. Qed.

Lemma client_getJob_None (i : string) (r : Redis) :
  RedisClient.getJob i r = None <-> RedisStore.getJob i r = None.
Proof.
  unfold RedisClient.getJob, RedisStore.getJob.
  destruct (RedisStore.hgetall (job_key i) r) as [h|] eqn:E.
  - rewrite (hgetall_read _ _ _ E), is_empty_read.
    destruct (hash_is_empty h); split; congruence.
  - now rewrite (hgetall_none _ _ E).
Qed.

(** [HSET] with every field of the merged record replaces the record. *)
Lemma hash_merge_write (h : RedisBackportJob) (o : RedisClient.Updates) (now : Z) :
  hash_merge h (RedisClient.write (RedisClient.merge (RedisClient.read h) o now))
  = RedisClient.write (RedisClient.merge (RedisClient.read h) o now).
Proof.
  destruct h as [a1 a2 a3 a4 a5 a6 a7 a8 a9 a10 a11 a12].
  destruct o as [g1 g2 [u1 u2 u3 u4 u5 u6 u7 u8 u9 u10]].
  unfold hash_merge, RedisClient.write, RedisClient.merge, RedisClient.read. simpl.
  f_equal;
    repeat match goal with
           | a : option _ |- context [?b] => constr_eq a b; destruct a
           end; reflexivity.
Qed.

Lemma client_getJob_hset_ne (i i' : string) (kv : RedisClient.Data) (r : Redis) :
  i' <> i ->
  RedisClient.getJob i' (RedisClient.hset (job_key i) kv r) = RedisClient.getJob i' r.
Proof.
  intros Hne. unfold RedisClient.getJob, RedisClient.hgetall, RedisClient.hset.
  rewrite RedisFacts.hgetall_hset_ne; [reflexivity|].
  intros E. apply RedisFacts.job_key_inj in E. congruence.
Qed.

(** What [updateJob] does at run time on the Redis store. *)
Definition updateJob_spec (i : string) (o : RedisClient.Updates) (now : Z) (r : Redis)
    : Prop :=
  match RedisClient.getJob i r with
  | None => RedisClient.updateJob i o now r = (None, r)
  | Some job =>
      exists updated r',
        RedisClient.updateJob i o now r = (Some updated, r') /\
        RedisFacts.overlaid (Json.Str <$> RedisClient.given_id o)
          (RedisClient.d_id (RedisClient.c_data job))
          (RedisClient.d_id (RedisClient.c_data updated)) /\
        RedisFacts.overlaid (RedisClient.given_createdAt o)
          (RedisClient.d_createdAt (RedisClient.c_data job))
          (RedisClient.d_createdAt (RedisClient.c_data updated)) /\
        RedisClient.d_updatedAt (RedisClient.c_data updated) = Some now /\
        RedisFacts.overlaid (Json.Str <$> u_repository (RedisClient.declared o))
          (RedisClient.d_repository (RedisClient.c_data job))
          (RedisClient.d_repository (RedisClient.c_data updated)) /\
        RedisFacts.overlaid (u_installationId (RedisClient.declared o))
          (RedisClient.d_installationId (RedisClient.c_data job))
          (RedisClient.d_installationId (RedisClient.c_data updated)) /\
        RedisFacts.overlaid (u_sourcePR (RedisClient.declared o))
          (RedisClient.d_sourcePR (RedisClient.c_data job))
          (RedisClient.d_sourcePR (RedisClient.c_data updated)) /\
        RedisFacts.overlaid (Json.Str <$> u_targetBranch (RedisClient.declared o))
          (RedisClient.d_targetBranch (RedisClient.c_data job))
          (RedisClient.d_targetBranch (RedisClient.c_data updated)) /\
        RedisFacts.overlaid (u_status (RedisClient.declared o))
          (RedisClient.d_status (RedisClient.c_data job))
          (RedisClient.d_status (RedisClient.c_data updated)) /\
        RedisFacts.overlaid (Json.Str <$> u_requestedBy (RedisClient.declared o))
          (RedisClient.d_requestedBy (RedisClient.c_data job))
          (RedisClient.d_requestedBy (RedisClient.c_data updated)) /\
        RedisFacts.overlaid (u_commentId (RedisClient.declared o))
          (RedisClient.d_commentId (RedisClient.c_data job))
          (RedisClient.d_commentId (RedisClient.c_data updated)) /\
        RedisFacts.overlaid (u_resultPR (RedisClient.declared o))
          (RedisClient.d_resultPR (RedisClient.c_data job))
          (RedisClient.d_resultPR (RedisClient.c_data updated)) /\
        RedisFacts.overlaid (Json.Str <$> u_error (RedisClient.declared o))
          (RedisClient.d_error (RedisClient.c_data job))
          (RedisClient.d_error (RedisClient.c_data updated)) /\
        RedisClient.c_logs updated = RedisClient.c_logs job /\
        lists r' = lists r /\ zsets r' = zsets r /\
        (forall i', i' <> i -> RedisClient.getJob i' r' = RedisClient.getJob i' r) /\
        (reads_back (RedisClient.c_data job) -> plain_updates o ->
         RedisClient.getJob i r' = Some updated)
  end.

Lemma client_updateJob_meets_spec (i : string) (o : RedisClient.Updates) (now : Z) (r : Redis) :
  updateJob_spec i o now r.
Proof.
  unfold updateJob_spec, RedisClient.updateJob, RedisClient.getJob.
  destruct (RedisStore.hgetall (job_key i) r) as [h|] eqn:E;
    [|now rewrite (hgetall_none _ _ E)].
  rewrite (hgetall_read _ _ _ E).
  destruct (RedisClient.is_empty (RedisClient.read h)) eqn:Hemp; [reflexivity|].
  eexists _, _. split; [reflexivity|].
  cbn [RedisClient.c_data RedisClient.c_logs RedisClient.jobFromRedis].
  repeat (split; [first [reflexivity | apply RedisFacts.overlaid_union]|]).
  split; [intros i' Hne; apply (client_getJob_hset_ne i i' _ r Hne)|].
  intros Hjob Ho.
  pose proof (reads_back_merge _ o now Hjob Ho) as Hrb.
  assert (Hh : RedisStore.hgetall (job_key i)
                 (RedisClient.hset (job_key i)
                    (RedisClient.merge (RedisClient.read h) o now) r)
               = Some (RedisClient.write (RedisClient.merge (RedisClient.read h) o now))).
  { unfold RedisClient.hset. rewrite RedisFacts.hgetall_hset_eq, E.
    change (default empty_hash (Some h)) with h. now rewrite hash_merge_write. }
  rewrite (hgetall_read _ _ _ Hh), (read_write _ Hrb).
  now rewrite (is_empty_updatedAt _ now).
Qed.

End ClientFacts.

(** The store at run time against the store at the declared types. *)
Module ClientReads.
Import RedisStore ClientFacts.

(** What the client makes of a stored record. *)
Definition handed_out (j : RedisStore.Job) : RedisClient.Job :=
  {| RedisClient.c_data := RedisClient.read (data j);
     RedisClient.c_logs := map RedisClient.parseResponse (rlogs j) |}.

Lemma getJob_handed_out (i : string) (r : Redis) :
  RedisClient.getJob i r = handed_out <$> RedisStore.getJob i r.
Proof.
  unfold RedisClient.getJob, RedisStore.getJob.
  destruct (RedisStore.hgetall (job_key i) r) as [h|] eqn:E.
  - rewrite (hgetall_read _ _ _ E), is_empty_read.
    now destruct (hash_is_empty h).
  - now rewrite (hgetall_none _ _ E).
Qed.

(** The record as it was written: every text a string. *)
Definition as_written (j : RedisStore.Job) : RedisClient.Job :=
  {| RedisClient.c_data := written (data j);
     RedisClient.c_logs := map Json.Str (rlogs j) |}.

Lemma map_parseResponse_plain (l : list string) :
  Forall plain l -> map RedisClient.parseResponse l = map Json.Str l.
Proof.
  induction 1 as [|x l Hx _ IH]; [reflexivity|].
  simpl. now rewrite (parseResponse_plain x Hx), IH.
Qed.

Lemma handed_out_plain (j : RedisStore.Job) :
  plain_hash (data j) -> Forall plain (rlogs j) -> handed_out j = as_written j.
Proof.
  intros Hh Hl. unfold handed_out, as_written.
  now rewrite (read_plain _ Hh), (map_parseResponse_plain _ Hl).
Qed.

Lemma merge_written (h : RedisBackportJob) (u : JobUpdates) (now : Z) :
  RedisClient.merge (written h) (RedisClient.typed u) now = written (merge h u now).
Proof.
  destruct h as [a1 a2 a3 a4 a5 a6 a7 a8 a9 a10 a11 a12].
  destruct u as [u1 u2 u3 u4 u5 u6 u7 u8 u9 u10].
  unfold RedisClient.merge, written, merge, RedisClient.typed. simpl.
  f_equal;
    repeat match goal with
           | a : option _ |- context [?b] => constr_eq a b; destruct a
           end; reflexivity.
Qed.

(** On a record whose texts are no JSON texts, the write of [updateJob]
    through the client is the write at the declared types. *)
Lemma client_updateJob_typed (i : string) (u : JobUpdates) (now : Z) (r : Redis) :
  (forall h, RedisStore.hgetall (job_key i) r = Some h -> plain_hash h) ->
  snd (RedisClient.updateJob i (RedisClient.typed u) now r)
  = snd (RedisStore.updateJob i u now r).
Proof.
  intros Hp. unfold RedisClient.updateJob, RedisStore.updateJob.
  destruct (RedisStore.hgetall (job_key i) r) as [h|] eqn:E;
    [|now rewrite (hgetall_none _ _ E)].
  rewrite (hgetall_read _ _ _ E), is_empty_read.
  destruct (hash_is_empty h); [reflexivity|]. cbn [snd].
  unfold RedisClient.hset.
  now rewrite (read_plain h (Hp h eq_refl)), merge_written, write_written.
Qed.

End ClientReads.

(** ** What the workflow writes to the job store *)

Module JobFacts.
Import Workflow.

(** Two store states show the same outcome for every job; a job present in
    the first is present in the second. *)
Definition is_redis (st : JobStore) : bool :=
  match st with
  | InMemory _ => false
  | Upstash _ => true
  end.

Definition same_jobs (st st' : JobStore) : Prop :=
  is_redis st' = is_redis st /\
  forall i,
    job_status i st' = job_status i st /\
    job_resultPR i st' = job_resultPR i st /\
    job_error i st' = job_error i st /\
    (job_exists i st = true -> job_exists i st' = true).

Lemma same_jobs_refl (st : JobStore) : same_jobs st st.
Proof. split; [reflexivity|]. intros i. auto. Qed.

Lemma same_jobs_trans (st1 st2 st3 : JobStore) :
  same_jobs st1 st2 -> same_jobs st2 st3 -> same_jobs st1 st3.
Proof.
  intros [K12 H12] [K23 H23]. split; [congruence|]. intros i.
  destruct (H12 i) as (? & ? & ? & ?), (H23 i) as (? & ? & ? & ?).
  repeat split; try congruence. auto.
Qed.

(** The terminal writes of the workflow: [{ status: "completed", resultPR }]
    and [{ status: "failed", error }]. *)
Inductive TerminalUpdate :=
| Completed (n : Z)
| Failed (e : option string).

Definition update_of (u : TerminalUpdate) : MemStore.JobUpdates :=
  match u with
  | Completed n => status_and_resultPR completed n
  | Failed e => status_and_error failed e
  end.

(** The [error] of a job after [{ status: "failed", error: e }]: an [error]
    that is [undefined] clears the field of the in-memory record and is not
    written to the Redis hash. *)
Definition error_after (st0 : JobStore) (jobId : string) (e : option string)
    : option string :=
  match e with
  | Some m => Some m
  | None => if is_redis st0 then job_error jobId st0 else None
  end.

(** [st] shows job [jobId] of [st0] after the terminal write [u], and every
    other job as in [st0]. *)
Definition updated (jobId : string) (u : TerminalUpdate) (st0 st : JobStore) : Prop :=
  is_redis st = is_redis st0 /\
  (forall i, i <> jobId ->
     job_status i st = job_status i st0 /\
     job_resultPR i st = job_resultPR i st0 /\
     job_error i st = job_error i st0 /\
     (job_exists i st0 = true -> job_exists i st = true)) /\
  (job_exists jobId st0 = true ->
     job_exists jobId st = true /\
     match u with
     | Completed n =>
         job_status jobId st = Some completed /\
         job_resultPR jobId st = Some n /\
         job_error jobId st = job_error jobId st0
     | Failed e =>
         job_status jobId st = Some failed /\
         job_resultPR jobId st = job_resultPR jobId st0 /\
         job_error jobId st = error_after st0 jobId e
     end).

Lemma updated_after_same (jobId : string) (u : TerminalUpdate) (st0 st1 st2 : JobStore) :
  same_jobs st0 st1 -> updated jobId u st1 st2 -> updated jobId u st0 st2.
Proof.
  intros [K01 H01] (K & Ho & Hj). split; [congruence|]. split.
  - intros i Hi. destruct (H01 i) as (? & ? & ? & ?), (Ho i Hi) as (? & ? & ? & ?).
    repeat split; try congruence. auto.
  - intros He. destruct (H01 jobId) as (? & ? & Herr & Hex).
    destruct (Hj (Hex He)) as [? Hu]. split; [assumption|].
    destruct u as [n|e]; destruct Hu as (? & ? & Hu); repeat split; try congruence.
    rewrite Hu. unfold error_after. destruct e; [reflexivity|].
    rewrite K01. now destruct (is_redis st0).
Qed.

Lemma updated_then_same (jobId : string) (u : TerminalUpdate) (st0 st1 st2 : JobStore) :
  updated jobId u st0 st1 -> same_jobs st1 st2 -> updated jobId u st0 st2.
Proof.
  intros (K & Ho & Hj) [K12 H12]. split; [congruence|]. split.
  - intros i Hi. destruct (H12 i) as (? & ? & ? & ?), (Ho i Hi) as (? & ? & ? & ?).
    repeat split; try congruence. auto.
  - intros He. destruct (H12 jobId) as (? & ? & Herr & Hex).
    destruct (Hj He) as [? Hu]. split; [auto|].
    destruct u as [n|e]; destruct Hu as (? & ? & He'); repeat split; congruence.
Qed.

(** *** The in-memory store *)

Lemma mem_addJobLog_get {D : JsDate} (i msg : string) (t1 t2 : Z)
    (jobs : MemStore.Jobs) (i' : string) :
  match MemStore.getJob i' jobs with
  | Some j =>
      exists j', MemStore.getJob i' (MemStore.addJobLog i msg t1 t2 jobs) = Some j' /\
                 status j' = status j /\ resultPR j' = resultPR j /\ error j' = error j
  | None => MemStore.getJob i' (MemStore.addJobLog i msg t1 t2 jobs) = None
  end.
Proof.
  unfold MemStore.addJobLog, MemStore.getJob.
  destruct (MemStore.map_get i jobs) as [job|] eqn:E.
  - destruct (decide (i' = i)) as [->|Hne].
    + rewrite E, MemFacts.map_get_set_eq. eauto.
    + rewrite MemFacts.map_get_set_ne by exact Hne.
      destruct (MemStore.map_get i' jobs); eauto.
  - destruct (MemStore.map_get i' jobs); eauto.
Qed.

Lemma mem_updateJob_get (jobId : string) (u : TerminalUpdate) (now : Z)
    (jobs : MemStore.Jobs) (i' : string) :
  MemStore.getJob i' (snd (MemStore.updateJob jobId (update_of u) now jobs)) =
  match MemStore.getJob i' jobs with
  | Some j =>
      if decide (i' = jobId)
      then Some (MemStore.merge j (update_of u) now)
      else Some j
  | None => None
  end.
Proof.
  unfold MemStore.updateJob, MemStore.getJob.
  destruct (MemStore.map_get jobId jobs) as [job|] eqn:E; simpl.
  - destruct (decide (i' = jobId)) as [->|Hne].
    + now rewrite E, MemFacts.map_get_set_eq.
    + rewrite MemFacts.map_get_set_ne by exact Hne.
      now destruct (MemStore.map_get i' jobs).
  - destruct (decide (i' = jobId)) as [->|Hne].
    + now rewrite E.
    + now destruct (MemStore.map_get i' jobs).
Qed.

(** *** The Redis store *)

(** The hash behind a job as [getJob] sees it. *)
Definition hash_of (i : string) (r : RedisStore.Redis) : option RedisStore.RedisBackportJob :=
  match RedisStore.hgetall (RedisStore.job_key i) r with
  | Some h => if RedisStore.hash_is_empty h then None else Some h
  | None => None
  end.

Lemma getJob_hash_of (i : string) (r : RedisStore.Redis) :
  RedisStore.data <$> RedisStore.getJob i r = hash_of i r.
Proof.
  unfold RedisStore.getJob, hash_of.
  destruct (RedisStore.hgetall _ r) as [h|]; [|reflexivity].
  now destruct (RedisStore.hash_is_empty h).
Qed.

Lemma redis_field {B : Type} (f : RedisStore.RedisBackportJob -> option B)
    (i : string) (r : RedisStore.Redis) :
  RedisStore.getJob i r ≫= (fun j => f (RedisStore.data j)) = hash_of i r ≫= f.
Proof.
  rewrite <- getJob_hash_of. now destruct (RedisStore.getJob i r).
Qed.

Lemma redis_exists (i : string) (r : RedisStore.Redis) :
  job_exists i (Upstash r) = bool_decide (is_Some (hash_of i r)).
Proof.
  unfold job_exists. rewrite <- getJob_hash_of.
  apply bool_decide_ext. now rewrite fmap_is_Some.
Qed.

Lemma updatedAt_not_empty (h : RedisStore.RedisBackportJob) (t : Z) :
  RedisStore.r_updatedAt h = Some t -> RedisStore.hash_is_empty h = false.
Proof.
  destruct h; simpl. intros ->.
  repeat match goal with |- context [match ?o with _ => _ end] =>
    destruct o; try reflexivity end.
Qed.

Lemma hash_is_empty_true (h : RedisStore.RedisBackportJob) :
  RedisStore.hash_is_empty h = true -> h = RedisStore.empty_hash.
Proof.
  destruct h; simpl.
  repeat match goal with |- context [match ?o with _ => _ end] =>
    destruct o; try discriminate end.
  reflexivity.
Qed.

Lemma none_union {B : Type} (o : option B) : None ∪ o = o.
Proof. now destruct o. Qed.

Lemma some_union {B : Type} (b : B) (o : option B) : Some b ∪ o = Some b.
Proof. now destruct o. Qed.

(** The hash of a job after a write that carries [updatedAt]. *)
Lemma hash_of_hset (i : string) (kv : RedisStore.RedisBackportJob) (t : Z)
    (r : RedisStore.Redis) (i' : string) :
  RedisStore.r_updatedAt kv = Some t ->
  hash_of i' (RedisStore.hset (RedisStore.job_key i) kv r) =
  if decide (i' = i)
  then Some (RedisStore.hash_merge
               (default RedisStore.empty_hash
                  (RedisStore.hgetall (RedisStore.job_key i) r)) kv)
  else hash_of i' r.
Proof.
  intros Hu. unfold hash_of. destruct (decide (i' = i)) as [->|Hne].
  - rewrite RedisFacts.hgetall_hset_eq.
    rewrite (updatedAt_not_empty _ t); [reflexivity|].
    simpl. rewrite Hu. apply some_union.
  - rewrite RedisFacts.hgetall_hset_ne; [reflexivity|].
    intros E. apply RedisFacts.job_key_inj in E. congruence.
Qed.

Lemma hash_of_rpush (i k v : string) (r : RedisStore.Redis) :
  hash_of i (RedisStore.rpush k v r) = hash_of i r.
Proof. reflexivity. Qed.

Lemma default_hash_field {B : Type} (f : RedisStore.RedisBackportJob -> option B)
    (i : string) (r : RedisStore.Redis) :
  f RedisStore.empty_hash = None ->
  f (default RedisStore.empty_hash (RedisStore.hgetall (RedisStore.job_key i) r))
  = hash_of i r ≫= f.
Proof.
  intros Hf. unfold hash_of.
  destruct (RedisStore.hgetall _ r) as [h|]; simpl; [|exact Hf].
  destruct (RedisStore.hash_is_empty h) eqn:E; [|reflexivity].
  apply hash_is_empty_true in E. now subst.
Qed.

Lemma same_jobs_addJobLog {D : JsDate} (i msg : string) (t1 t2 : Z) (st : JobStore) :
  same_jobs st (jobs_addJobLog i msg t1 t2 st).
Proof.
  split; [now destruct st|].
  intros i'. destruct st as [jobs|r]; [simpl|].
  - pose proof (mem_addJobLog_get i msg t1 t2 jobs i') as H.
    destruct (MemStore.getJob i' jobs) as [j|].
    + destruct H as (j' & -> & Hs & Hr & He). simpl.
      repeat split; try congruence;
        intros _; apply bool_decide_eq_true_2; eauto.
    + rewrite H. auto.
  - unfold jobs_addJobLog, job_status, job_resultPR, job_error.
    rewrite !redis_field, !redis_exists. unfold RedisStore.addJobLog.
    rewrite (hash_of_hset _ _ t2) by reflexivity. rewrite hash_of_rpush.
    destruct (decide (i' = i)) as [->|Hne]; [|auto].
    simpl. rewrite !none_union.
    change (RedisStore.hgetall (RedisStore.job_key i) (RedisStore.rpush _ _ r))
      with (RedisStore.hgetall (RedisStore.job_key i) r).
    rewrite !default_hash_field by reflexivity.
    repeat split; intros _; apply bool_decide_eq_true_2; eauto.
Qed.

Lemma updated_updateJob (jobId : string) (u : TerminalUpdate) (now : Z) (st : JobStore) :
  updated jobId u st (jobs_updateJob jobId (update_of u) now st).
Proof.
  split; [now destruct st|].
  destruct st as [jobs|r]; [simpl|].
  - unfold error_after, job_status, job_resultPR, job_error, job_exists.
    split.
    + intros i Hi. rewrite mem_updateJob_get.
      destruct (MemStore.getJob i jobs) as [j|]; [|auto].
      destruct (decide (i = jobId)); [contradiction|auto].
    + rewrite mem_updateJob_get. intros He.
      apply bool_decide_eq_true_1 in He as [j Hj]. rewrite Hj.
      destruct (decide (jobId = jobId)); [|contradiction].
      split; [apply bool_decide_eq_true_2; eauto|].
      destruct u as [n|[m|]]; simpl; auto.
  - unfold error_after, jobs_updateJob, job_status, job_resultPR, job_error.
    assert (Hh : hash_of jobId r =
                 match RedisStore.hgetall (RedisStore.job_key jobId) r with
                 | Some h => if RedisStore.hash_is_empty h then None else Some h
                 | None => None
                 end) by reflexivity.
    unfold RedisStore.updateJob.
    destruct (RedisStore.hgetall (RedisStore.job_key jobId) r) as [existing|] eqn:E.
    2:{ simpl snd. split; [auto|]. rewrite redis_exists, Hh. discriminate. }
    destruct (RedisStore.hash_is_empty existing) eqn:Hemp.
    { simpl snd. split; [auto|]. rewrite redis_exists, Hh. discriminate. }
    simpl snd. split.
    + intros i Hi. rewrite !redis_field, !redis_exists.
      rewrite (hash_of_hset _ _ now) by reflexivity.
      destruct (decide (i = jobId)); [contradiction|auto].
    + intros _. rewrite redis_exists.
      assert (Hnew : hash_of jobId
                (RedisStore.hset (RedisStore.job_key jobId)
                   (RedisStore.merge existing (to_redis_updates (update_of u)) now) r)
              = Some (RedisStore.merge existing (to_redis_updates (update_of u)) now)).
      { rewrite (hash_of_hset _ _ now) by reflexivity.
        destruct (decide (jobId = jobId)); [|contradiction].
        rewrite E. change (default RedisStore.empty_hash (Some existing)) with existing.
        now rewrite RedisFacts.hash_merge_merge. }
      split; [rewrite Hnew; apply bool_decide_eq_true_2; eauto|].
      destruct u as [n|[m|]]; rewrite !redis_field, Hnew, Hh; simpl;
        rewrite ?some_union, ?none_union; auto.
Qed.

End JobFacts.

(** ** The store states a run goes through *)

Module TraceFacts.
Import Workflow JobFacts.

(** The store states of a run, newest first. *)
Definition hist (s : RunState) : list JobStore := store s :: past s.

(** From [s] to [s'] the run has only written log entries. *)
Definition quiet (s s' : RunState) : Prop :=
  exists new, hist s' = new ++ hist s /\ Forall (same_jobs (store s)) new.

(** From [s] to [s'] the run has written log entries, then the terminal
    update [u] of job [jobId], then log entries again. *)
Definition settled (jobId : string) (u : TerminalUpdate) (s s' : RunState) : Prop :=
  exists before after,
    hist s' = after ++ before ++ hist s /\
    Forall (same_jobs (store s)) before /\
    after <> [] /\
    Forall (updated jobId u (store s)) after.

Definition phase (jobId : string) (w : option TerminalUpdate) (s s' : RunState) : Prop :=
  match w with
  | None => quiet s s'
  | Some u => settled jobId u s s'
  end.

Lemma quiet_refl (s : RunState) : quiet s s.
Proof. exists []. split; [reflexivity|constructor]. Qed.

Lemma quiet_store (s s' : RunState) : quiet s s' -> same_jobs (store s) (store s').
Proof.
  intros (new & Hh & Hall). unfold hist in Hh. destruct new as [|st new]; simpl in Hh.
  - injection Hh as -> _. apply same_jobs_refl.
  - injection Hh as -> _. now inversion Hall.
Qed.

Lemma quiet_trans (s s1 s2 : RunState) : quiet s s1 -> quiet s1 s2 -> quiet s s2.
Proof.
  intros H1 H2. pose proof (quiet_store _ _ H1) as Hs.
  destruct H1 as (n1 & Hh1 & Ha1), H2 as (n2 & Hh2 & Ha2).
  exists (n2 ++ n1). split; [now rewrite Hh2, Hh1, app_assoc|].
  apply Forall_app. split; [|exact Ha1].
  eapply Forall_impl; [exact Ha2|]. intros st. now apply same_jobs_trans.
Qed.

Lemma settled_store (jobId : string) (u : TerminalUpdate) (s s' : RunState) :
  settled jobId u s s' -> updated jobId u (store s) (store s').
Proof.
  intros (lA & lB & Hh & _ & Hne & Hall). unfold hist in Hh.
  destruct lB as [|st lB]; [contradiction|]. simpl in Hh.
  injection Hh as -> _. now inversion Hall.
Qed.

Lemma quiet_settled (jobId : string) (u : TerminalUpdate) (s s1 s2 : RunState) :
  quiet s s1 -> settled jobId u s1 s2 -> settled jobId u s s2.
Proof.
  intros H1 H2. pose proof (quiet_store _ _ H1) as Hs.
  destruct H1 as (n1 & Hh1 & Ha1), H2 as (lA & lB & Hh2 & HA & Hne & HB).
  exists (lA ++ n1), lB. split; [now rewrite Hh2, Hh1, <- app_assoc|].
  split; [|split; [exact Hne|]].
  - apply Forall_app. split; [|exact Ha1].
    eapply Forall_impl; [exact HA|]. intros st. now apply same_jobs_trans.
  - eapply Forall_impl; [exact HB|]. intros st. now apply updated_after_same.
Qed.

Lemma settled_quiet (jobId : string) (u : TerminalUpdate) (s s1 s2 : RunState) :
  settled jobId u s s1 -> quiet s1 s2 -> settled jobId u s s2.
Proof.
  intros H1 H2. pose proof (settled_store _ _ _ _ H1) as Hs.
  destruct H1 as (lA & lB & Hh1 & HA & Hne & HB), H2 as (n2 & Hh2 & Ha2).
  exists lA, (n2 ++ lB). split; [now rewrite Hh2, Hh1, <- app_assoc|].
  split; [exact HA|]. split; [destruct n2; [exact Hne|discriminate]|].
  apply Forall_app. split; [|exact HB].
  eapply Forall_impl; [exact Ha2|]. intros st. now apply updated_then_same.
Qed.

Lemma quiet_phase (jobId : string) (w : option TerminalUpdate) (s s1 s2 : RunState) :
  quiet s s1 -> phase jobId w s1 s2 -> phase jobId w s s2.
Proof.
  destruct w as [u|]; simpl; [apply quiet_settled|apply quiet_trans].
Qed.

Lemma phase_rebase (jobId : string) (w : option TerminalUpdate) (s s1 s2 : RunState) :
  hist s1 = hist s -> phase jobId w s1 s2 -> phase jobId w s s2.
Proof.
  intros Hh. apply quiet_phase. exists []. split; [exact Hh|constructor].
Qed.

Section Results.
(** A property of the [error] a failing sandbox result carries. *)
Context (ok : option string -> Prop).

Definition result_ok (r : PerformResult) : Prop :=
  pb_success r = false -> ok (pb_error r).

Definition journal_ok (j : gmap StepName Entry) : Prop :=
  forall e r, j !! PerformBackport = Some e ->
    recorded e = Returned (VPerform r) -> result_ok r.

Definition sandbox_ok (sandbox : Sandbox) : Prop :=
  forall h i repo d t a r, sandbox h i repo d t a = Ok r -> result_ok r.

Lemma placeholder_ok :
  ok (Some "Backport execution not yet implemented (coming in Phase 6)") ->
  sandbox_ok placeholder.
Proof. intros H h i repo d t a r [= <-] _. exact H. Qed.

(** Workflow code that writes to the job store in the order log entries,
    at most one terminal update, log entries; [Q] relates its outcome to the
    terminal update it has made, if any. *)
Definition Writes {A : Type} (jobId : string) (p : M A)
    (Q : Outcome A -> option TerminalUpdate -> Prop) : Prop :=
  forall b s, journal_ok (journal s) ->
    match p b s with
    | Interrupted s1 => journal_ok (journal s1) /\ quiet s s1
    | Finished o s' _ =>
        journal_ok (journal s') /\ exists w, Q o w /\ phase jobId w s s'
    end.

Lemma writes_ret {A : Type} (jobId : string) (a : A)
    (Q : Outcome A -> option TerminalUpdate -> Prop) :
  Q (Returns a) None -> Writes jobId (ret a) Q.
Proof.
  intros HQ b s Hj. unfold ret. split; [exact Hj|].
  exists None. split; [exact HQ|apply quiet_refl].
Qed.

Lemma writes_bind {A B : Type} (jobId : string) (p : M A) (f : A -> M B)
    (Qp : Outcome A -> option TerminalUpdate -> Prop)
    (Q : Outcome B -> option TerminalUpdate -> Prop) :
  Writes jobId p Qp ->
  (forall o w, Qp o w -> w = None) ->
  (forall t, Qp (Throws t) None -> Q (Throws t) None) ->
  (forall a, Qp (Returns a) None -> Writes jobId (f a) Q) ->
  Writes jobId (bind p f) Q.
Proof.
  intros Hp Hquiet Hthrow Hf b s Hj. unfold bind.
  specialize (Hp b s Hj).
  destruct (p b s) as [[a|t] s1 b1|s1]; [| |exact Hp].
  - destruct Hp as (Hj1 & w & HQ & Hph).
    pose proof (Hquiet _ _ HQ) as ->. simpl in Hph.
    specialize (Hf a HQ b1 s1 Hj1).
    destruct (f a b1 s1) as [o s2 b2|s2].
    + destruct Hf as (Hj2 & w2 & HQ2 & Hph2).
      split; [exact Hj2|]. exists w2. split; [exact HQ2|].
      now apply (quiet_phase _ _ _ s1).
    + destruct Hf as (Hj2 & Hq2). split; [exact Hj2|].
      now apply (quiet_trans _ s1).
  - destruct Hp as (Hj1 & w & HQ & Hph).
    pose proof (Hquiet _ _ HQ) as ->.
    split; [exact Hj1|]. exists None. split; [now apply Hthrow|exact Hph].
Qed.

Lemma writes_try_catch {A : Type} (jobId : string) (p : M A) (h : Thrown -> M A)
    (Qp Q : Outcome A -> option TerminalUpdate -> Prop) :
  Writes jobId p Qp ->
  (forall a w, Qp (Returns a) w -> Q (Returns a) w) ->
  (forall t w, Qp (Throws t) w -> w = None) ->
  (forall t, Qp (Throws t) None -> Writes jobId (h t) Q) ->
  Writes jobId (try_catch p h) Q.
Proof.
  intros Hp Hret Hquiet Hh b s Hj. unfold try_catch.
  specialize (Hp b s Hj).
  destruct (p b s) as [[a|t] s1 b1|s1]; [| |exact Hp].
  - destruct Hp as (Hj1 & w & HQ & Hph). split; [exact Hj1|].
    exists w. split; [now apply Hret|exact Hph].
  - destruct Hp as (Hj1 & w & HQ & Hph).
    pose proof (Hquiet _ _ HQ) as ->. simpl in Hph.
    specialize (Hh t HQ b1 s1 Hj1).
    destruct (h t b1 s1) as [o s2 b2|s2].
    + destruct Hh as (Hj2 & w2 & HQ2 & Hph2).
      split; [exact Hj2|]. exists w2. split; [exact HQ2|].
      now apply (quiet_phase _ _ _ s1).
    + destruct Hh as (Hj2 & Hq2). split; [exact Hj2|].
      now apply (quiet_trans _ s1).
Qed.

Lemma attempt_ok {A : Type} (retries : nat) (fn : Collab A) (h : list Call)
    (a : A) (h' : list Call) (n : nat) :
  attempt retries fn h = (Ok a, h', n) -> exists h0, fn h0 = (Ok a, h').
Proof.
  revert h n. induction retries as [|r IH]; intros h n; simpl;
    destruct (fn h) as [[x|t] h1] eqn:E.
  - intros [= <- <- <-]. eauto.
  - destruct (is_fatal t); discriminate.
  - intros [= <- <- <-]. eauto.
  - destruct (is_fatal t); [discriminate|].
    destruct (attempt r fn h1) as [[x h2] k] eqn:E2.
    intros [= -> -> <-]. eauto.
Qed.

Section Rules.
Context {D : JsDate} (maxRetries : nat) (clock : nat -> Z).
Context (jobId : string).

Lemma writes_execute {A : Type} (name : StepName) (inj : A -> StepValue)
    (proj : StepValue -> option A) (fn : Collab A) (P : A -> Prop) :
  (forall e v a, recorded e = Returned v -> proj v = Some a ->
     (name = PerformBackport -> forall r, v = VPerform r -> result_ok r) -> P a) ->
  (forall h a h', fn h = (Ok a, h') ->
     P a /\ (name = PerformBackport -> forall r, inj a = VPerform r -> result_ok r)) ->
  Writes jobId (execute maxRetries name inj proj fn)
    (fun o w => w = None /\ forall a, o = Returns a -> P a).
Proof.
  intros Hreplay Hfresh b s Hj. unfold execute.
  destruct (journal s !! name) as [e|] eqn:Ee.
  - assert (Hok : name = PerformBackport -> forall r,
              recorded e = Returned (VPerform r) -> result_ok r).
    { intros -> r Hr. exact (Hj e r Ee Hr). }
    destruct (recorded e) as [v|t] eqn:Er; [destruct (proj v) as [a|] eqn:Ep|];
      (split; [exact Hj|]); exists None;
      (split; [split; [reflexivity|]|apply quiet_refl]);
      intros a' [=]; subst.
    apply (Hreplay e v a' Er Ep). intros Hn r ->. now apply Hok.
  - assert (Hrun : forall b' : unit,
              let '(x, h', k) := attempt maxRetries fn (calls s) in
              journal_ok (<[name := mkEntry k (record_of inj x)]> (journal s)) /\
              exists w, (w = None /\ forall a, outcome_of x = Returns a -> P a) /\
                phase jobId w s
                  {| journal := <[name := mkEntry k (record_of inj x)]> (journal s);
                     calls := h'; store := store s; past := past s;
                     ticks := ticks s |}).
    { intros _. destruct (attempt maxRetries fn (calls s)) as [[x h'] k] eqn:Ea.
      split.
      - intros e r. destruct (decide (name = PerformBackport)) as [->|Hne].
        + rewrite lookup_insert_eq. intros [= <-]. simpl.
          destruct x as [a|t]; simpl; [|discriminate].
          intros [= Hr]. destruct (attempt_ok _ _ _ _ _ _ Ea) as (h0 & Hfn).
          exact (proj2 (Hfresh _ _ _ Hfn) eq_refl r Hr).
        + rewrite lookup_insert_ne by exact Hne. apply Hj.
      - exists None.
        split; [split; [reflexivity|]|exists []; split; [reflexivity|constructor]].
        intros a Ho. destruct x as [a0|t]; simpl in Ho; [|discriminate].
        injection Ho as ->. destruct (attempt_ok _ _ _ _ _ _ Ea) as (h0 & Hfn).
        exact (proj1 (Hfresh _ _ _ Hfn)). }
    destruct b as [[|n]|]; [split; [exact Hj|apply quiet_refl]| |];
      specialize (Hrun tt);
      destruct (attempt maxRetries fn (calls s)) as [[x h'] k]; exact Hrun.
Qed.

Lemma writes_addJobLog (i msg : string) :
  Writes jobId (addJobLog clock i msg) (fun o w => w = None).
Proof.
  intros b s Hj. unfold addJobLog. split; [exact Hj|].
  exists None. split; [reflexivity|].
  eexists [_]. split; [reflexivity|].
  constructor; [apply same_jobs_addJobLog|constructor].
Qed.

Lemma writes_log_then {B : Type} (i msg : string) (f : unit -> M B)
    (Q : Outcome B -> option TerminalUpdate -> Prop) :
  Writes jobId (f tt) Q -> Writes jobId (bind (addJobLog clock i msg) f) Q.
Proof.
  intros Hf. apply (writes_bind _ _ _ (fun o w => w = None /\ o = Returns tt)).
  - intros b s Hj. unfold addJobLog. split; [exact Hj|].
    exists None. split; [now split|].
    eexists [_]. split; [reflexivity|].
    constructor; [apply same_jobs_addJobLog|constructor].
  - now intros o w [-> _].
  - intros t [_ [=]].
  - intros [] _. exact Hf.
Qed.

Lemma writes_step_then {A B : Type} (name : StepName) (inj : A -> StepValue)
    (proj : StepValue -> option A) (fn : Collab A) (f : A -> M B)
    (Q : Outcome B -> option TerminalUpdate -> Prop) :
  name <> PerformBackport ->
  (forall t, Q (Throws t) None) ->
  (forall a, Writes jobId (f a) Q) ->
  Writes jobId (bind (execute maxRetries name inj proj fn) f) Q.
Proof.
  intros Hne Hthrow Hf.
  apply (writes_bind _ _ _ (fun o w => w = None /\ forall a, o = Returns a -> True)).
  - apply writes_execute; [auto|]. intros h a h' _. split; [exact I|].
    intros E. contradiction.
  - now intros o w [-> _].
  - intros t _. apply Hthrow.
  - intros a _. apply Hf.
Qed.

Lemma writes_perform_then {B : Type} (sandbox : Sandbox) (i : Z) (repo : string)
    (d : PRDetails) (t : string) (a : Analysis) (f : PerformResult -> M B)
    (Q : Outcome B -> option TerminalUpdate -> Prop) :
  sandbox_ok sandbox ->
  (forall e, Q (Throws e) None) ->
  (forall r, result_ok r -> Writes jobId (f r) Q) ->
  Writes jobId
    (bind (execute maxRetries PerformBackport VPerform proj_perform
             (performBackport_with sandbox i repo d t a)) f) Q.
Proof.
  intros Hsb Hthrow Hf.
  apply (writes_bind _ _ _
           (fun o w => w = None /\ forall r, o = Returns r -> result_ok r)).
  - apply writes_execute.
    + intros e v r Hr Hp Hok. destruct v; try discriminate.
      injection Hp as ->. now apply Hok.
    + intros h r h'. unfold performBackport_with. intros [= Hs _].
      assert (result_ok r) by exact (Hsb _ _ _ _ _ _ _ Hs).
      split; [assumption|]. now intros _ r' [= <-].
  - now intros o w [-> _].
  - intros e _. apply Hthrow.
  - intros r [_ Hr]. apply Hf. now apply Hr.
Qed.

(** Code that runs after the terminal update: it only writes log entries,
    is never interrupted and leaves the journal alone. *)
Definition Tail {A : Type} (q : M A) (Qt : Outcome A -> Prop) : Prop :=
  forall b s, exists o s',
    q b s = Finished o s' b /\ Qt o /\ journal s' = journal s /\ quiet s s'.

Lemma tail_ret {A : Type} (a : A) : Tail (ret a) (fun o => o = Returns a).
Proof. intros b s. exists (Returns a), s. repeat split. apply quiet_refl. Qed.

Lemma tail_throw {A : Type} (t : Thrown) : Tail (@throw A t) (fun o => o = Throws t).
Proof. intros b s. exists (Throws t), s. repeat split. apply quiet_refl. Qed.

Lemma tail_log_then {A : Type} (i msg : string) (q : M A) (Qt : Outcome A -> Prop) :
  Tail q Qt -> Tail (bind (addJobLog clock i msg) (fun _ => q)) Qt.
Proof.
  intros Hq b s. unfold bind, addJobLog.
  match goal with |- context [q b ?s1] => destruct (Hq b s1) as (o & s' & -> & HQ & Hj & Hqt) end.
  exists o, s'. repeat split; [exact HQ|exact Hj|].
  eapply quiet_trans; [|exact Hqt].
  eexists [_]. split; [reflexivity|].
  constructor; [apply same_jobs_addJobLog|constructor].
Qed.

Lemma writes_update_tail {A : Type} (u : TerminalUpdate) (q : M A)
    (Qt : Outcome A -> Prop) (Q : Outcome A -> option TerminalUpdate -> Prop) :
  Tail q Qt ->
  (forall o, Qt o -> Q o (Some u)) ->
  Writes jobId (bind (updateJob clock jobId (update_of u)) (fun _ => q)) Q.
Proof.
  intros Hq HQ b s Hjs. unfold bind, updateJob.
  match goal with |- context [q b ?s1] =>
    destruct (Hq b s1) as (o & s' & -> & Ho & Hj & Hqt) end.
  split; [rewrite Hj; exact Hjs|].
  exists (Some u). split; [now apply HQ|]. simpl.
  eapply settled_quiet; [|exact Hqt].
  exists [], [jobs_updateJob jobId (update_of u) (clock (ticks s)) (store s)].
  split; [reflexivity|]. split; [constructor|]. split; [discriminate|].
  constructor; [apply updated_updateJob|constructor].
Qed.

End Rules.

(** The terminal update that goes with the outcome of the workflow. *)
Definition describes_result (r : BackportResult) (u : TerminalUpdate) : Prop :=
  (success r = true /\
   exists n, br_resultPR r = Some n /\ br_error r = None /\ u = Completed n) \/
  (success r = false /\ br_resultPR r = None /\ u = Failed (br_error r)).

Definition describes (o : Outcome BackportResult) (u : TerminalUpdate) : Prop :=
  match o with
  | Returns r => describes_result r u
  | Throws t => u = Failed (Some (error_message t))
  end.

Lemma describes_functional (o : Outcome BackportResult) (u u' : TerminalUpdate) :
  describes o u -> describes o u' -> u = u'.
Proof.
  destruct o as [r|t]; simpl; [|congruence].
  intros [(Hs & n & Hn & _ & ->)|(Hs & _ & ->)]
         [(Hs' & n' & Hn' & _ & ->)|(Hs' & _ & ->)]; congruence.
Qed.

Lemma writes_backportPullRequest {D : JsDate} (maxRetries : nat)
    (clock : nat -> Z) (octo : Collaborator) (sandbox : Sandbox)
    (params : BackportParams) :
  sandbox_ok sandbox ->
  Writes (jobId params)
    (backportPullRequest_with maxRetries clock octo sandbox params)
    (fun o w => exists u, w = Some u /\ describes o u /\
                forall r, o = Returns r -> success r = false -> ok (br_error r)).
Proof.
  intros Hsb. unfold backportPullRequest_with.
  apply (writes_try_catch _ _ _
           (fun o w => match o with
                       | Returns r =>
                           exists u, w = Some u /\ describes_result r u /\
                                     (success r = false -> ok (br_error r))
                       | Throws _ => w = None
                       end)).
  - apply writes_step_then; [discriminate|reflexivity|]. intros _.
    do 2 apply writes_log_then.
    apply writes_step_then; [discriminate|reflexivity|]. intros prDetails.
    do 3 apply writes_log_then.
    apply writes_step_then; [discriminate|reflexivity|]. intros _.
    do 2 apply writes_log_then.
    apply writes_step_then; [discriminate|reflexivity|]. intros analysis.
    do 2 apply writes_log_then.
    apply writes_perform_then; [exact Hsb|reflexivity|]. intros r Hr.
    destruct (pb_success r) eqn:Hs.
    + apply writes_log_then.
      apply writes_step_then; [discriminate|reflexivity|]. intros resultPR.
      apply writes_step_then; [discriminate|reflexivity|]. intros _.
      apply writes_update_tail with
        (u := Completed resultPR)
        (Qt := fun o => o = Returns (mkResult true (Some resultPR) None)).
      * apply tail_log_then, tail_ret.
      * intros o ->. eexists. split; [reflexivity|].
        split; [|discriminate]. left. simpl. eauto.
    + apply writes_log_then.
      apply writes_step_then; [discriminate|reflexivity|]. intros _.
      apply writes_update_tail with
        (u := Failed (pb_error r))
        (Qt := fun o => o = Returns (mkResult false None (pb_error r))).
      * apply tail_ret.
      * intros o ->. eexists. split; [reflexivity|].
        split; [right; simpl; auto|]. intros _. exact (Hr Hs).
  - intros a w (u & -> & Hd & Hok). exists u. split; [reflexivity|].
    split; [exact Hd|]. now intros r [= <-].
  - intros t w H. exact H.
  - intros t _. apply writes_log_then.
    apply writes_update_tail with
      (u := Failed (Some (error_message t))) (Qt := fun o => o = Throws t).
    + apply tail_throw.
    + intros o ->. eexists. split; [reflexivity|]. split; [reflexivity|discriminate].
Qed.

End Results.

End TraceFacts.

(** ** Replay of the workflow *)

Module ReplayFacts.
Import Workflow.

(** Two run states agree on the durable progress of the run: the journal and
    the requests the collaborator has received. *)
Definition same_progress (s s' : RunState) : Prop :=
  journal s = journal s' /\ calls s = calls s'.

Lemma same_progress_refl (s : RunState) : same_progress s s.
Proof. now split. Qed.

Lemma same_progress_trans (s1 s2 s3 : RunState) :
  same_progress s1 s2 -> same_progress s2 s3 -> same_progress s1 s3.
Proof. intros [? ?] [? ?]. split; congruence. Qed.

Lemma same_progress_sym (s1 s2 : RunState) : same_progress s1 s2 -> same_progress s2 s1.
Proof. intros [? ?]. now split. Qed.

(** Workflow code that can be driven again after an interruption. *)
Record Replayable {A : Type} (p : M A) : Prop := {
  rp_total : forall s, exists o s', p None s = Finished o s' None;
  rp_respects : forall s1 s2 o s1',
    same_progress s1 s2 -> p None s1 = Finished o s1' None ->
    exists s2', p None s2 = Finished o s2' None /\ same_progress s1' s2';
  rp_budget : forall n s o s' b',
    p (Some n) s = Finished o s' b' -> p None s = Finished o s' None;
  rp_grows : forall b s, journal s ⊆ journal (final_state (p b s));
  rp_stable : forall b s o s' b' s2,
    p b s = Finished o s' b' -> journal s' ⊆ journal s2 ->
    exists s2', p None s2 = Finished o s2' None /\ same_progress s2 s2';
  rp_resume : forall n s s1,
    p (Some n) s = Interrupted s1 ->
    exists o s2 s3,
      p None s1 = Finished o s2 None /\ p None s = Finished o s3 None /\
      same_progress s2 s3
}.

Lemma replayable_ret {A : Type} (a : A) : Replayable (ret a).
Proof.
  split; unfold ret.
  - eauto.
  - intros s1 s2 o s1' H [= <- <-]. eauto.
  - intros n s o s' b' [= <- <- <-]. reflexivity.
  - reflexivity.
  - intros b s o s' b' s2 [= <- <- <-] _. eauto using same_progress_refl.
  - discriminate.
Qed.

Lemma replayable_throw {A : Type} (t : Thrown) : Replayable (@throw A t).
Proof.
  split; unfold throw.
  - eauto.
  - intros s1 s2 o s1' H [= <- <-]. eauto.
  - intros n s o s' b' [= <- <- <-]. reflexivity.
  - reflexivity.
  - intros b s o s' b' s2 [= <- <- <-] _. eauto using same_progress_refl.
  - discriminate.
Qed.

Lemma finished_journal {A : Type} (p : M A) (b : option nat) (s : RunState)
    (o : Outcome A) (s' : RunState) (b' : option nat) :
  Replayable p -> p b s = Finished o s' b' -> journal s ⊆ journal s'.
Proof. intros Hp E. generalize (rp_grows p Hp b s). now rewrite E. Qed.

Lemma interrupted_journal {A : Type} (p : M A) (b : option nat) (s s' : RunState) :
  Replayable p -> p b s = Interrupted s' -> journal s ⊆ journal s'.
Proof. intros Hp E. generalize (rp_grows p Hp b s). now rewrite E. Qed.

Lemma never_interrupted {A : Type} (p : M A) (s s' : RunState) :
  Replayable p -> p None s <> Interrupted s'.
Proof. intros Hp E. destruct (rp_total p Hp s) as (o & s2 & E2). congruence. Qed.

Lemma replayable_bind {A B : Type} (p : M A) (f : A -> M B) :
  Replayable p -> (forall a, Replayable (f a)) -> Replayable (bind p f).
Proof.
  intros Hp Hf. split; unfold bind.
  - intros s. destruct (rp_total p Hp s) as (o & s' & ->).
    destruct o as [a|t]; [apply (rp_total _ (Hf a))|eauto].
  - intros s1 s2 o s1' Hs E.
    destruct (p None s1) as [[a|t] sa ba|] eqn:E1; [| |discriminate].
    + destruct (rp_total p Hp s1) as (o1 & sx & Ex).
      rewrite Ex in E1. injection E1 as -> -> <-.
      destruct (rp_respects p Hp _ _ _ _ Hs Ex) as (sb & -> & Hsb).
      exact (rp_respects _ (Hf a) _ _ _ _ Hsb E).
    + destruct (rp_total p Hp s1) as (o1 & sx & Ex).
      rewrite Ex in E1. injection E1 as -> -> <-.
      destruct (rp_respects p Hp _ _ _ _ Hs Ex) as (sb & -> & Hsb).
      injection E as <- <-. eauto.
  - intros n s o s' b' E.
    destruct (p (Some n) s) as [[a|t] sa ba|] eqn:E1; [| |discriminate].
    + rewrite (rp_budget p Hp _ _ _ _ _ E1).
      destruct ba as [m|]; [exact (rp_budget _ (Hf a) _ _ _ _ _ E)|].
      destruct (rp_total _ (Hf a) sa) as (o2 & s2 & E2).
      rewrite E2 in E. injection E as <- <- <-. exact E2.
    + rewrite (rp_budget p Hp _ _ _ _ _ E1). now injection E as <- <- <-.
  - intros b s.
    destruct (p b s) as [[a|t] sa ba|sa] eqn:E1; simpl.
    + transitivity (journal sa); [exact (finished_journal _ _ _ _ _ _ Hp E1)|].
      apply (rp_grows _ (Hf a)).
    + exact (finished_journal _ _ _ _ _ _ Hp E1).
    + exact (interrupted_journal _ _ _ _ Hp E1).
  - intros b s o s' b' s2 E Hsub.
    destruct (p b s) as [[a|t] sa ba|] eqn:E1; [| |discriminate].
    + assert (Hsa : journal sa ⊆ journal s2).
      { transitivity (journal s'); [|exact Hsub].
        exact (finished_journal _ _ _ _ _ _ (Hf a) E). }
      destruct (rp_stable p Hp _ _ _ _ _ _ E1 Hsa) as (sb & -> & Hsb).
      assert (Hsub' : journal s' ⊆ journal sb) by (destruct Hsb as [<- _]; exact Hsub).
      destruct (rp_stable _ (Hf a) _ _ _ _ _ _ E Hsub') as (sc & -> & Hsc).
      eauto using same_progress_trans.
    + injection E as <- <- <-.
      destruct (rp_stable p Hp _ _ _ _ _ _ E1 Hsub) as (sb & -> & Hsb). eauto.
  - intros n s s1 E.
    destruct (p (Some n) s) as [[a|t] sa ba|sa] eqn:E1; [|discriminate|].
    + rewrite (rp_budget p Hp _ _ _ _ _ E1).
      destruct ba as [m|]; [|now apply (never_interrupted _ _ _ (Hf a)) in E].
      destruct (rp_resume _ (Hf a) _ _ _ E) as (o & s2 & s3 & E2 & E3 & H23).
      assert (Hsa : journal sa ⊆ journal s1).
      { exact (interrupted_journal _ _ _ _ (Hf a) E). }
      destruct (rp_stable p Hp _ _ _ _ _ _ E1 Hsa) as (sb & -> & Hsb).
      destruct (rp_respects _ (Hf a) _ _ _ _ Hsb E2) as (sc & -> & Hsc).
      exists o, sc, s3. repeat split; try assumption;
        destruct Hsc as [? ?], H23 as [? ?]; congruence.
    + injection E as <-.
      destruct (rp_resume p Hp _ _ _ E1) as (o & s2 & s3 & -> & -> & H23).
      destruct o as [a|t]; [|eauto 6].
      destruct (rp_total _ (Hf a) s2) as (o2 & s2' & E2).
      destruct (rp_respects _ (Hf a) _ _ _ _ H23 E2) as (s3' & E3 & H23').
      eauto 6.
Qed.

Lemma replayable_try_catch {A : Type} (p : M A) (h : Thrown -> M A) :
  Replayable p -> (forall t, Replayable (h t)) -> Replayable (try_catch p h).
Proof.
  intros Hp Hh. split; unfold try_catch.
  - intros s. destruct (rp_total p Hp s) as (o & s' & ->).
    destruct o as [a|t]; [eauto|apply (rp_total _ (Hh t))].
  - intros s1 s2 o s1' Hs E.
    destruct (rp_total p Hp s1) as (o1 & sx & Ex). rewrite Ex in E.
    destruct (rp_respects p Hp _ _ _ _ Hs Ex) as (sb & -> & Hsb).
    destruct o1 as [a|t].
    + injection E as <- <-. eauto.
    + exact (rp_respects _ (Hh t) _ _ _ _ Hsb E).
  - intros n s o s' b' E.
    destruct (p (Some n) s) as [[a|t] sa ba|] eqn:E1; [| |discriminate].
    + rewrite (rp_budget p Hp _ _ _ _ _ E1). now injection E as <- <- <-.
    + rewrite (rp_budget p Hp _ _ _ _ _ E1).
      destruct ba as [m|]; [exact (rp_budget _ (Hh t) _ _ _ _ _ E)|].
      destruct (rp_total _ (Hh t) sa) as (o2 & s2 & E2).
      rewrite E2 in E. injection E as <- <- <-. exact E2.
  - intros b s.
    destruct (p b s) as [[a|t] sa ba|sa] eqn:E1; simpl.
    + exact (finished_journal _ _ _ _ _ _ Hp E1).
    + transitivity (journal sa); [exact (finished_journal _ _ _ _ _ _ Hp E1)|].
      apply (rp_grows _ (Hh t)).
    + exact (interrupted_journal _ _ _ _ Hp E1).
  - intros b s o s' b' s2 E Hsub.
    destruct (p b s) as [[a|t] sa ba|] eqn:E1; [| |discriminate].
    + injection E as <- <- <-.
      destruct (rp_stable p Hp _ _ _ _ _ _ E1 Hsub) as (sb & -> & Hsb). eauto.
    + assert (Hsa : journal sa ⊆ journal s2).
      { transitivity (journal s'); [|exact Hsub].
        exact (finished_journal _ _ _ _ _ _ (Hh t) E). }
      destruct (rp_stable p Hp _ _ _ _ _ _ E1 Hsa) as (sb & -> & Hsb).
      assert (Hsub' : journal s' ⊆ journal sb) by (destruct Hsb as [<- _]; exact Hsub).
      destruct (rp_stable _ (Hh t) _ _ _ _ _ _ E Hsub') as (sc & -> & Hsc).
      eauto using same_progress_trans.
  - intros n s s1 E.
    destruct (p (Some n) s) as [[a|t] sa ba|sa] eqn:E1; [discriminate| |].
    + rewrite (rp_budget p Hp _ _ _ _ _ E1).
      destruct ba as [m|]; [|now apply (never_interrupted _ _ _ (Hh t)) in E].
      destruct (rp_resume _ (Hh t) _ _ _ E) as (o & s2 & s3 & E2 & E3 & H23).
      assert (Hsa : journal sa ⊆ journal s1).
      { exact (interrupted_journal _ _ _ _ (Hh t) E). }
      destruct (rp_stable p Hp _ _ _ _ _ _ E1 Hsa) as (sb & -> & Hsb).
      destruct (rp_respects _ (Hh t) _ _ _ _ Hsb E2) as (sc & -> & Hsc).
      exists o, sc, s3. repeat split; try assumption;
        destruct Hsc as [? ?], H23 as [? ?]; congruence.
    + injection E as <-.
      destruct (rp_resume p Hp _ _ _ E1) as (o & s2 & s3 & -> & -> & H23).
      destruct o as [a|t]; [eauto 6|].
      destruct (rp_total _ (Hh t) s2) as (o2 & s2' & E2).
      destruct (rp_respects _ (Hh t) _ _ _ _ H23 E2) as (s3' & E3 & H23').
      eauto 6.
Qed.

Lemma replayable_if {A : Type} (c : bool) (p q : M A) :
  Replayable p -> Replayable q -> Replayable (if c then p else q).
Proof. now destruct c. Qed.

Section StoreOps.
Context {D : JsDate} (clock : nat -> Z).

Lemma replayable_addJobLog (i msg : string) : Replayable (addJobLog clock i msg).
Proof.
  split; unfold addJobLog.
  - eauto.
  - intros s1 s2 o s1' [Hj Hc] [= <- <-]. eexists. split; [reflexivity|].
    now split.
  - intros n s o s' b' [= <- <- <-]. reflexivity.
  - reflexivity.
  - intros b s o s' b' s2 [= <- <- <-] _. eexists. split; [reflexivity|].
    now split.
  - discriminate.
Qed.

Lemma replayable_updateJob (i : string) (u : MemStore.JobUpdates) :
  Replayable (updateJob clock i u).
Proof.
  split; unfold updateJob.
  - eauto.
  - intros s1 s2 o s1' [Hj Hc] [= <- <-]. eexists. split; [reflexivity|].
    now split.
  - intros n s o s' b' [= <- <- <-]. reflexivity.
  - reflexivity.
  - intros b s o s' b' s2 [= <- <- <-] _. eexists. split; [reflexivity|].
    now split.
  - discriminate.
Qed.

End StoreOps.

(** A step is replayable when what it records can be read back. *)
Lemma replayable_execute {A : Type} (maxRetries : nat) (name : StepName)
    (inj : A -> StepValue) (proj : StepValue -> option A) (fn : Collab A) :
  (forall a, proj (inj a) = Some a) ->
  Replayable (execute maxRetries name inj proj fn).
Proof.
  intros Hcodec. split; unfold execute.
  - intros s. destruct (journal s !! name) as [e|].
    + destruct (recorded e) as [v|t]; [destruct (proj v)|]; eauto.
    + destruct (attempt maxRetries fn (calls s)) as [[x h'] n]. eauto.
  - intros s1 s2 o s1' [Hj Hc]. rewrite <- Hj, <- Hc.
    destruct (journal s1 !! name) as [e|].
    + destruct (recorded e) as [v|t]; [destruct (proj v)|];
        intros [= <- <-]; eexists; (split; [reflexivity|now split]).
    + destruct (attempt maxRetries fn (calls s1)) as [[x h'] n].
      intros [= <- <-]. eexists. split; [reflexivity|]. now split.
  - intros n s o s' b'.
    destruct (journal s !! name) as [e|].
    + destruct (recorded e) as [v|t]; [destruct (proj v)|];
        now intros [= <- <- <-].
    + destruct n as [|n]; [discriminate|].
      destruct (attempt maxRetries fn (calls s)) as [[x h'] k].
      now intros [= <- <- <-].
  - intros b s.
    destruct (journal s !! name) as [e|] eqn:E.
    + destruct (recorded e) as [v|t]; [destruct (proj v)|]; reflexivity.
    + destruct b as [[|n]|]; try reflexivity;
        destruct (attempt maxRetries fn (calls s)) as [[x h'] k]; simpl;
        now apply insert_subseteq.
  - intros b s o s' b' s2 E Hsub.
    assert (Hrec : exists e, journal s' !! name = Some e /\
              o = match recorded e with
                  | Returned v =>
                      match proj v with
                      | Some a => Returns a
                      | None => Throws (FatalError "recorded step result has another shape")
                      end
                  | Raised t => Throws t
                  end).
    { destruct (journal s !! name) as [e|] eqn:Ee.
      - exists e.
        destruct (recorded e) as [v|t]; [destruct (proj v)|];
          injection E as <- <- <-; now split.
      - destruct b as [[|n]|]; [discriminate| |];
          destruct (attempt maxRetries fn (calls s)) as [[x h'] k];
          injection E as <- <- <-; simpl; rewrite lookup_insert_eq;
          (eexists; split; [reflexivity|]); simpl;
          destruct x; simpl; now rewrite ?Hcodec. }
    destruct Hrec as (e & He & ->).
    rewrite (lookup_weaken _ _ _ _ He Hsub).
    exists s2. split; [|apply same_progress_refl].
    destruct (recorded e) as [v|t]; [destruct (proj v)|]; reflexivity.
  - intros n s s1.
    destruct (journal s !! name) as [e|] eqn:Ee.
    + destruct (recorded e) as [v|t]; [destruct (proj v)|]; discriminate.
    + destruct n as [|n].
      * intros [= <-]. rewrite Ee.
        destruct (attempt maxRetries fn (calls s)) as [[x h'] k].
        eauto 6 using same_progress_refl.
      * destruct (attempt maxRetries fn (calls s)) as [[x h'] k]. discriminate.
Qed.

Lemma replayable_backportPullRequest {D : JsDate} (maxRetries : nat)
    (clock : nat -> Z) (octo : Collaborator) (sandbox : Sandbox)
    (params : BackportParams) :
  Replayable (backportPullRequest_with maxRetries clock octo sandbox params).
Proof.
  unfold backportPullRequest_with.
  repeat first
    [ apply replayable_try_catch
    | apply replayable_bind
    | apply replayable_if
    | apply replayable_ret
    | apply replayable_throw
    | apply replayable_addJobLog
    | apply replayable_updateJob
    | apply replayable_execute; intros []; reflexivity
    | apply replayable_execute; reflexivity
    | intros ? ].
Qed.

End ReplayFacts.

(** ** Driving the workflow through interruptions *)

Module DriveFacts.
Import Workflow JobFacts TraceFacts ReplayFacts.

Lemma drive_replays {A : Type} (p : M A) (interruptions : list nat) (s : RunState) :
  Replayable p ->
  exists o s' b' s0,
    drive p interruptions s = Finished o s' b' /\
    p None s = Finished o s0 None /\
    same_progress s' s0 /\
    journal s ⊆ journal s'.
Proof.
  intros Hp. revert s. induction interruptions as [|n l IH]; intros s; simpl.
  - destruct (rp_total p Hp s) as (o & s' & E). exists o, s', None, s'.
    repeat split; try assumption. exact (finished_journal _ _ _ _ _ _ Hp E).
  - destruct (p (Some n) s) as [o s' b'|s1] eqn:E.
    + exists o, s', b', s'. split; [reflexivity|].
      split; [exact (rp_budget p Hp _ _ _ _ _ E)|].
      split; [apply same_progress_refl|exact (finished_journal _ _ _ _ _ _ Hp E)].
    + destruct (IH s1) as (o & s' & b' & s0 & Ed & E0 & Hs & Hsub).
      destruct (rp_resume p Hp _ _ _ E) as (o2 & s2 & s3 & E2 & E3 & H23).
      rewrite E0 in E2. injection E2 as <- <-.
      exists o, s', b', s3. repeat split; try assumption.
      * destruct Hs, H23. congruence.
      * destruct Hs, H23. congruence.
      * transitivity (journal s1); [|exact Hsub].
        exact (interrupted_journal _ _ _ _ Hp E).
Qed.

Lemma drive_writes {A : Type} (ok : option string -> Prop) (jobId : string) (p : M A)
    (Q : Outcome A -> option TerminalUpdate -> Prop)
    (interruptions : list nat) (s : RunState) :
  Writes ok jobId p Q -> Replayable p -> journal_ok ok (journal s) ->
  exists o s' b' w,
    drive p interruptions s = Finished o s' b' /\ Q o w /\ phase jobId w s s'.
Proof.
  intros Hw Hp. revert s. induction interruptions as [|n l IH]; intros s Hj; simpl.
  - specialize (Hw None s Hj). destruct (rp_total p Hp s) as (o & s' & E).
    rewrite E in Hw. destruct Hw as (_ & w & HQ & Hph). eauto 8.
  - specialize (Hw (Some n) s Hj).
    destruct (p (Some n) s) as [o s' b'|s1] eqn:E.
    + destruct Hw as (_ & w & HQ & Hph). eauto 8.
    + destruct Hw as (Hj1 & Hq).
      destruct (IH s1 Hj1) as (o & s' & b' & w & Ed & HQ & Hph).
      exists o, s', b', w. repeat split; try assumption.
      now apply (quiet_phase _ _ _ s1).
Qed.

(** A replayed step returns what the journal holds and leaves the state,
    the collaborator included, as it is. *)
Lemma execute_recorded {A : Type} (maxRetries : nat) (name : StepName)
    (inj : A -> StepValue) (proj : StepValue -> option A) (fn : Collab A)
    (b : option nat) (s : RunState) (e : Entry) :
  journal s !! name = Some e ->
  exists o, execute maxRetries name inj proj fn b s = Finished o s b.
Proof.
  intros E. unfold execute. rewrite E.
  destruct (recorded e) as [v|t]; [destruct (proj v)|]; eauto.
Qed.

Lemma invocations_kept (s s' : RunState) (k : StepName) (e : Entry) :
  journal s ⊆ journal s' -> journal s !! k = Some e ->
  journal s' !! k = Some e /\ invocations k s' = attempts e.
Proof.
  intros Hsub E. pose proof (lookup_weaken _ _ _ _ E Hsub) as E'.
  split; [exact E'|]. unfold invocations. now rewrite E'.
Qed.

(** What the store shows of a job once its terminal update has been made. *)
Lemma updated_fields (jobId : string) (u : TerminalUpdate) (st0 st st' : JobStore) :
  job_exists jobId st0 = true ->
  updated jobId u st0 st -> updated jobId u st0 st' ->
  job_status jobId st = job_status jobId st' /\
  job_resultPR jobId st = job_resultPR jobId st' /\
  job_error jobId st = job_error jobId st'.
Proof.
  intros He (_ & _ & H) (_ & _ & H').
  destruct (H He) as [_ Hu], (H' He) as [_ Hu'].
  destruct u; destruct Hu as (? & ? & ?), Hu' as (? & ? & ?);
    repeat split; congruence.
Qed.

(** What the job store shows when an uninterrupted run has finished. *)
Lemma run_settles {D : JsDate} (maxRetries : nat) (clock : nat -> Z)
    (octo : Collaborator) (sandbox : Sandbox) (params : BackportParams)
    (st : JobStore) (h : list Call) (o : Outcome BackportResult) (s' : RunState)
    (b' : option nat) :
  backportPullRequest_with maxRetries clock octo sandbox params None (start st h)
  = Finished o s' b' ->
  exists u, describes o u /\ updated (jobId params) u st (store s').
Proof.
  intros E.
  assert (Hw := writes_backportPullRequest (fun _ => True) maxRetries
                  clock octo sandbox params ltac:(intros ? ? ? ? ? ? ? ? ?; exact I)).
  assert (Hj : journal_ok (fun _ => True) (journal (start st h))).
  { intros ? ? ? ? ?. exact I. }
  specialize (Hw None (start st h) Hj). rewrite E in Hw.
  destruct Hw as (_ & w & (u & -> & Hu & _) & Hph).
  exists u. split; [exact Hu|]. exact (settled_store _ _ _ _ Hph).
Qed.

Lemma failed_job (jobId : string) (e : string) (st st' : JobStore) :
  updated jobId (Failed (Some e)) st st' -> job_exists jobId st = true ->
  job_status jobId st' = Some failed /\ job_error jobId st' = Some e.
Proof. intros (_ & _ & Hu) Hex. now destruct (Hu Hex) as (_ & ? & _ & ?). Qed.

End DriveFacts.

(** ** The job state machine *)

Module StatusFacts.
Import Workflow JobFacts TraceFacts ReplayFacts.

(** [pending -> in_progress -> {completed | failed}]: a status may stay as
    it is or move to a later stage. *)
Definition moves_forward (a b : Status) : Prop :=
  match a, b with
  | pending, _ => True
  | in_progress, pending => False
  | in_progress, _ => True
  | completed, completed => True
  | failed, failed => True
  | _, _ => False
  end.

(** One observation of a job's status after another. *)
Definition status_step (a b : option Status) : Prop :=
  match a, b with
  | Some x, Some y => moves_forward x y
  | None, None => True
  | _, _ => False
  end.

Definition not_terminal (a : option Status) : Prop :=
  a = Some pending \/ a = Some in_progress.

(** [resultPR] and [error] agree with the status: exactly one of them when
    the status is terminal, none before. *)
Definition outcome_consistent (i : string) (st : JobStore) : Prop :=
  match job_status i st with
  | Some completed | Some failed =>
      (is_Some (job_resultPR i st) /\ job_error i st = None) \/
      (job_resultPR i st = None /\ is_Some (job_error i st))
  | Some pending | Some in_progress =>
      job_resultPR i st = None /\ job_error i st = None
  | None => True
  end.

Lemma status_step_refl (a : option Status) : status_step a a.
Proof. destruct a as [[]|]; exact I. Qed.

Lemma job_status_exists (i : string) (st : JobStore) (x : Status) :
  job_status i st = Some x -> job_exists i st = true.
Proof.
  destruct st as [jobs|r]; simpl; intros H; apply bool_decide_eq_true_2.
  - destruct (MemStore.getJob i jobs); [eauto|discriminate].
  - destruct (RedisStore.getJob i r); [eauto|discriminate].
Qed.

Lemma hdrel_constant {A : Type} (R : A -> A -> Prop) (a b : A) (l : list A) :
  R a b -> Forall (fun x => x = b) l -> HdRel R a l.
Proof. intros Hab [|x l' -> _]; now constructor. Qed.

Lemma sorted_constant {A : Type} (R : A -> A -> Prop) (b : A) (l : list A) :
  R b b -> Forall (fun x => x = b) l -> Sorted R l.
Proof.
  intros Hbb. induction 1 as [|x l' -> Hl IH]; constructor; [exact IH|].
  now apply (hdrel_constant R b b).
Qed.

Lemma sorted_two_blocks {A : Type} (R : A -> A -> Prop) (a b : A) (l1 l2 : list A) :
  R a a -> R b b -> R a b ->
  Forall (fun x => x = a) l1 -> Forall (fun x => x = b) l2 ->
  Sorted R (a :: l1 ++ l2).
Proof.
  intros Haa Hbb Hab H1 H2.
  induction H1 as [|x l1 -> _ IH]; simpl.
  - constructor; [now apply (sorted_constant R b)|now apply (hdrel_constant R a b)].
  - constructor; [exact IH|now constructor].
Qed.

(** The shape of the trace of a run that has made its terminal update. *)
Lemma settled_trace (jobId : string) (u : TerminalUpdate) (st : JobStore)
    (h : list Call) (s' : RunState) :
  settled jobId u (start st h) s' ->
  exists before after,
    store_trace s' = st :: before ++ after /\
    Forall (same_jobs st) before /\
    Forall (updated jobId u st) after.
Proof.
  intros (lA & lB & Hh & HA & _ & HB). unfold store_trace.
  change (store s' :: past s') with (hist s'). rewrite Hh.
  exists (rev lA), (rev lB). split.
  - unfold hist, start; simpl. rewrite !rev_app_distr. reflexivity.
  - split; apply Forall_forall; intros x Hx;
      apply list_elem_of_In, List.in_rev in Hx;
      [exact (proj1 (List.Forall_forall _ _) HA x Hx)
      |exact (proj1 (List.Forall_forall _ _) HB x Hx)].
Qed.

Lemma trace_moves_forward (jobId : string) (u : TerminalUpdate) (st : JobStore)
    (before after : list JobStore) (i : string) :
  not_terminal (job_status jobId st) ->
  Forall (same_jobs st) before -> Forall (updated jobId u st) after ->
  Sorted status_step (map (job_status i) (st :: before ++ after)).
Proof.
  intros Hnt HA HB. simpl. rewrite map_app.
  assert (Hex : job_exists jobId st = true).
  { destruct Hnt as [H|H]; exact (job_status_exists _ _ _ H). }
  set (b := if decide (i = jobId)
            then Some (match u with Completed _ => completed | Failed _ => failed end)
            else job_status i st).
  apply (sorted_two_blocks _ (job_status i st) b).
  - apply status_step_refl.
  - apply status_step_refl.
  - subst b. destruct (decide (i = jobId)) as [->|_]; [|apply status_step_refl].
    destruct Hnt as [-> | ->]; destruct u; exact I.
  - apply Forall_forall. intros x Hx. apply list_elem_of_In, List.in_map_iff in Hx.
    destruct Hx as (y & <- & Hy).
    destruct (proj1 (List.Forall_forall _ _) HA y Hy) as [_ Hs].
    now destruct (Hs i) as (-> & _).
  - apply Forall_forall. intros x Hx. apply list_elem_of_In, List.in_map_iff in Hx.
    destruct Hx as (y & <- & Hy).
    destruct (proj1 (List.Forall_forall _ _) HB y Hy) as (_ & Ho & Hj).
    subst b. destruct (decide (i = jobId)) as [->|Hne].
    + destruct (Hj Hex) as [_ Hu]. destruct u; now destruct Hu as (-> & _).
    + now destruct (Ho i Hne) as (-> & _).
Qed.

Lemma trace_consistent (jobId : string) (u : TerminalUpdate) (st : JobStore)
    (before after : list JobStore) (i : string) :
  not_terminal (job_status jobId st) ->
  match u with Completed _ => True | Failed e => is_Some e end ->
  outcome_consistent i st ->
  Forall (same_jobs st) before -> Forall (updated jobId u st) after ->
  Forall (outcome_consistent i) (st :: before ++ after).
Proof.
  intros Hnt Hu Hc HA HB.
  assert (Hex : job_exists jobId st = true).
  { destruct Hnt as [H|H]; exact (job_status_exists _ _ _ H). }
  constructor; [exact Hc|]. apply Forall_app. split.
  - eapply Forall_impl; [exact HA|]. intros x [_ Hs].
    destruct (Hs i) as (E1 & E2 & E3 & _). unfold outcome_consistent in *.
    now rewrite E1, E2, E3.
  - eapply Forall_impl; [exact HB|]. intros x (_ & Ho & Hj).
    destruct (decide (i = jobId)) as [->|Hne].
    + destruct (Hj Hex) as [_ Hx]. unfold outcome_consistent in *.
      assert (Hst : job_resultPR jobId st = None /\ job_error jobId st = None).
      { destruct Hnt as [E|E]; now rewrite E in Hc. }
      destruct Hst as [Hr He].
      destruct u as [n|e]; destruct Hx as (-> & Hx2 & Hx3).
      * left. rewrite Hx2, Hx3. split; [eauto|exact He].
      * right. rewrite Hx2, Hx3. split; [exact Hr|].
        destruct Hu as [m ->]. simpl. eauto.
    + destruct (Ho i Hne) as (E1 & E2 & E3 & _). unfold outcome_consistent in *.
      now rewrite E1, E2, E3.
Qed.

End StatusFacts.

(** ** Running the workflow step by step *)

Module StepFacts.
Import Workflow.

Lemma bind_returns {A B : Type} (m : M A) (f : A -> M B) (b : option nat)
    (s : RunState) (a : A) (s' : RunState) (b' : option nat) :
  m b s = Finished (Returns a) s' b' -> bind m f b s = f a b' s'.
Proof. unfold bind. now intros ->. Qed.

Lemma bind_throws {A B : Type} (m : M A) (f : A -> M B) (b : option nat)
    (s : RunState) (t : Thrown) (s' : RunState) (b' : option nat) :
  m b s = Finished (Throws t) s' b' -> bind m f b s = Finished (Throws t) s' b'.
Proof. unfold bind. now intros ->. Qed.

Lemma try_catch_throws {A : Type} (m : M A) (h : Thrown -> M A) (b : option nat)
    (s : RunState) (t : Thrown) (s' : RunState) (b' : option nat) :
  m b s = Finished (Throws t) s' b' -> try_catch m h b s = h t b' s'.
Proof. unfold try_catch. now intros ->. Qed.

Lemma try_catch_returns {A : Type} (m : M A) (h : Thrown -> M A) (b : option nat)
    (s : RunState) (a : A) (s' : RunState) (b' : option nat) :
  m b s = Finished (Returns a) s' b' ->
  try_catch m h b s = Finished (Returns a) s' b'.
Proof. unfold try_catch. now intros ->. Qed.

(** The state after a step has run and its result has been recorded. *)
Definition after_step {A : Type} (name : StepName) (inj : A -> StepValue)
    (x : Result A) (h' : list Call) (n : nat) (s : RunState) : RunState :=
  {| journal := <[name := mkEntry n (record_of inj x)]> (journal s);
     calls := h';
     store := store s;
     past := past s;
     ticks := ticks s |}.

Lemma execute_fresh {A : Type} (maxRetries : nat) (name : StepName)
    (inj : A -> StepValue) (proj : StepValue -> option A) (fn : Collab A)
    (s : RunState) (x : Result A) (h' : list Call) (n : nat) :
  journal s !! name = None ->
  attempt maxRetries fn (calls s) = (x, h', n) ->
  execute maxRetries name inj proj fn None s
  = Finished (outcome_of x) (after_step name inj x h' n s) None.
Proof. intros Hj Ha. unfold execute. now rewrite Hj, Ha. Qed.

Lemma execute_fresh_ok {A : Type} (maxRetries : nat) (name : StepName)
    (inj : A -> StepValue) (proj : StepValue -> option A) (fn : Collab A)
    (s : RunState) (a : A) (h' : list Call) (n : nat) :
  journal s !! name = None ->
  attempt maxRetries fn (calls s) = (Ok a, h', n) ->
  execute maxRetries name inj proj fn None s
  = Finished (Returns a) (after_step name inj (Ok a) h' n s) None.
Proof. intros Hj Ha. exact (execute_fresh _ _ _ _ _ _ _ _ _ Hj Ha). Qed.

Lemma execute_fresh_err {A : Type} (maxRetries : nat) (name : StepName)
    (inj : A -> StepValue) (proj : StepValue -> option A) (fn : Collab A)
    (s : RunState) (t : Thrown) (h' : list Call) (n : nat) :
  journal s !! name = None ->
  attempt maxRetries fn (calls s) = (Err t, h', n) ->
  execute maxRetries name inj proj fn None s
  = Finished (Throws t) (after_step name inj (Err t) h' n s) None.
Proof. intros Hj Ha. exact (execute_fresh _ _ _ _ _ _ _ _ _ Hj Ha). Qed.

(** The retry policy: how often the step function is invoked. *)
Lemma attempt_first_ok {A : Type} (retries : nat) (fn : Collab A) (h : list Call)
    (a : A) (h' : list Call) :
  fn h = (Ok a, h') -> attempt retries fn h = (Ok a, h', 1%nat).
Proof. intros E. destruct retries; simpl; now rewrite E. Qed.

Lemma attempt_fatal {A : Type} (retries : nat) (fn : Collab A) (h : list Call)
    (t : Thrown) (h' : list Call) :
  fn h = (Err t, h') -> is_fatal t = true ->
  attempt retries fn h = (Err t, h', 1%nat).
Proof. intros E F. destruct retries; simpl; now rewrite E, F. Qed.

Lemma attempt_invoked {A : Type} (retries : nat) (fn : Collab A) (h : list Call)
    (x : Result A) (h' : list Call) (n : nat) :
  attempt retries fn h = (x, h', n) -> (1 <= n <= S retries)%nat.
Proof.
  revert h n. induction retries as [|r IH]; intros h n; simpl;
    destruct (fn h) as [[a|t] h1].
  - intros [= <- <- <-]. lia.
  - destruct (is_fatal t); intros [= <- <- <-]; lia.
  - intros [= <- <- <-]. lia.
  - destruct (is_fatal t); [intros [= <- <- <-]; lia|].
    destruct (attempt r fn h1) as [[x2 h2] k] eqn:E2.
    intros [= <- <- <-]. specialize (IH _ _ E2). lia.
Qed.

(** Every request a step sends satisfies [P] when each invocation of its
    step function sends only such requests. *)
Lemma attempt_requests {A : Type} (P : Call -> Prop) (retries : nat)
    (fn : Collab A) (h : list Call) (x : Result A) (h' : list Call) (n : nat) :
  (forall h0 y h1, fn h0 = (y, h1) -> exists new, h1 = new ++ h0 /\ Forall P new) ->
  attempt retries fn h = (x, h', n) ->
  exists new, h' = new ++ h /\ Forall P new.
Proof.
  intros Hfn. revert h n. induction retries as [|r IH]; intros h n; simpl;
    destruct (fn h) as [[a|t] h1] eqn:E.
  - intros [= <- <- <-]. eauto.
  - destruct (is_fatal t); intros [= <- <- <-]; eauto.
  - intros [= <- <- <-]. eauto.
  - destruct (is_fatal t); [intros [= <- <- <-]; eauto|].
    destruct (attempt r fn h1) as [[x2 h2] k] eqn:E2.
    intros [= <- <- <-].
    destruct (Hfn _ _ _ E) as (n1 & -> & H1), (IH _ _ E2) as (n2 & -> & H2).
    exists (n2 ++ n1). split; [now rewrite app_assoc|now apply Forall_app].
Qed.

(** *** What the step functions request *)

Section StepFunctions.
Context (octo : Collaborator).

Lemma validateTargetBranch_missing (installationId : Z) (repository branch : string)
    (h : list Call) (t0 : Thrown) :
  answer_unit octo h (GetInstallationOctokit installationId) = Ok tt ->
  answer_unit octo (GetInstallationOctokit installationId :: h)
    (ReposGetBranch (fst (owner_repo repository)) (snd (owner_repo repository)) branch)
  = Err t0 ->
  validateTargetBranch octo installationId repository branch h
  = (Err (FatalError ("Target branch '" +:+ branch +:+ "' does not exist")),
     ReposGetBranch (fst (owner_repo repository)) (snd (owner_repo repository)) branch
     :: GetInstallationOctokit installationId :: h).
Proof.
  intros Ho Hb.
  unfold validateTargetBranch, mbind, Collab_bind, collab_bind,
    getInstallationOctokit, request.
  rewrite Ho. destruct (owner_repo repository) as [owner repo]. simpl in *.
  unfold collab_try, request. now rewrite Hb.
Qed.

Definition is_pulls_create (c : Call) : bool :=
  match c with
  | PullsCreate _ _ _ _ _ _ => true
  | _ => false
  end.

(** From [h0] to [h1] only requests that satisfy [P] were sent. *)
Definition sent (P : Call -> Prop) (h0 h1 : list Call) : Prop :=
  exists new, h1 = new ++ h0 /\ Forall P new.

Lemma sent_refl (P : Call -> Prop) (h : list Call) : sent P h h.
Proof. exists []. split; [reflexivity|constructor]. Qed.

Lemma sent_cons (P : Call -> Prop) (h0 h1 : list Call) (c : Call) :
  P c -> sent P h0 h1 -> sent P h0 (c :: h1).
Proof. intros Hc (new & -> & Hn). exists (c :: new). split; [reflexivity|now constructor]. Qed.

Lemma sent_trans (P : Call -> Prop) (h0 h1 h2 : list Call) :
  sent P h0 h1 -> sent P h1 h2 -> sent P h0 h2.
Proof.
  intros (n1 & -> & H1) (n2 & -> & H2). exists (n2 ++ n1).
  split; [now rewrite app_assoc|now apply Forall_app].
Qed.

Lemma attempt_sent {A : Type} (P : Call -> Prop) (retries : nat)
    (fn : Collab A) (h : list Call) (x : Result A) (h' : list Call) (n : nat) :
  (forall h0 y h1, fn h0 = (y, h1) -> sent P h0 h1) ->
  attempt retries fn h = (x, h', n) -> sent P h h'.
Proof. apply attempt_requests. Qed.

Ltac step_requests :=
  intros;
  repeat match goal with
         | H : context [match ?a with _ => _ end] |- _ => destruct a eqn:?
         | H : (_, _) = (_, _) |- _ => injection H as <- <-
         end;
  repeat (apply sent_cons; [reflexivity|]); apply sent_refl.

Lemma acknowledgeRequest_sent (i : Z) (repo : string) (c : Z) (h0 : list Call)
    (y : Result unit) (h1 : list Call) :
  acknowledgeRequest octo i repo c h0 = (y, h1) ->
  sent (fun c => is_pulls_create c = false) h0 h1.
Proof.
  unfold acknowledgeRequest, mbind, Collab_bind, collab_bind,
    getInstallationOctokit, request.
  step_requests.
Qed.

Lemma fetchPRDetails_sent (i : Z) (repo : string) (n : Z) (h0 : list Call)
    (y : Result PRDetails) (h1 : list Call) :
  fetchPRDetails octo i repo n h0 = (y, h1) ->
  sent (fun c => is_pulls_create c = false) h0 h1.
Proof.
  unfold fetchPRDetails, mbind, mret, Collab_bind, Collab_ret, collab_bind,
    collab_ret, getInstallationOctokit, request.
  step_requests.
Qed.

Lemma validateTargetBranch_sent (i : Z) (repo branch : string) (h0 : list Call)
    (y : Result unit) (h1 : list Call) :
  validateTargetBranch octo i repo branch h0 = (y, h1) ->
  sent (fun c => is_pulls_create c = false) h0 h1.
Proof.
  unfold validateTargetBranch, mbind, Collab_bind, collab_bind, collab_try,
    collab_throw, getInstallationOctokit, request.
  step_requests.
Qed.

Lemma reportFailure_sent (i : Z) (repo : string) (n : Z) (branch : string)
    (e : option string) (h0 : list Call) (y : Result unit) (h1 : list Call) :
  reportFailure octo i repo n branch e h0 = (y, h1) ->
  sent (fun c => is_pulls_create c = false) h0 h1.
Proof.
  unfold reportFailure, mbind, Collab_bind, collab_bind,
    getInstallationOctokit, request.
  step_requests.
Qed.

(** The comment [reportFailure] posts. *)
Definition failure_comment (branch : string) (e : option string) : string :=
  "❌ Failed to backport to `" +:+ branch +:+ "`." +:+ nl +:+ nl
  +:+ "**Error:** " +:+ template e +:+ nl +:+ nl
  +:+ "Please try backporting manually.".

Lemma reportFailure_posted (i : Z) (repo : string) (n : Z) (branch : string)
    (e : option string) (h0 h1 : list Call) :
  reportFailure octo i repo n branch e h0 = (Ok tt, h1) ->
  h1 = IssuesCreateComment (fst (owner_repo repo)) (snd (owner_repo repo)) n
         (failure_comment branch e)
       :: GetInstallationOctokit i :: h0.
Proof.
  unfold reportFailure, mbind, Collab_bind, collab_bind,
    getInstallationOctokit, request, failure_comment.
  destruct (answer_unit octo h0 (GetInstallationOctokit i)); [|discriminate].
  destruct (owner_repo repo) as [owner r]. now intros [= _ <-].
Qed.

End StepFunctions.

Lemma append_assoc (a b c : string) : (a +:+ b) +:+ c = a +:+ (b +:+ c).
Proof.
  induction a as [|x a IH]; [reflexivity|].
  change (String x ((a +:+ b) +:+ c) = String x (a +:+ (b +:+ c))).
  now rewrite IH.
Qed.

Lemma contains_here (sub post : string) : contains (sub +:+ post) sub.
Proof. exists "", post. reflexivity. Qed.

Lemma contains_later (a s sub : string) : contains s sub -> contains (a +:+ s) sub.
Proof.
  intros (pre & post & ->). exists (a +:+ pre), post. now rewrite append_assoc.
Qed.

Lemma failure_comment_contains (branch e : string) :
  contains (failure_comment branch (Some e)) e.
Proof.
  unfold failure_comment, template. simpl default.
  do 6 apply contains_later. apply contains_here.
Qed.

End StepFacts.

(** Symbolic execution of workflow code on a fresh journal. *)
Ltac fresh_lookup :=
  simpl; rewrite ?lookup_insert_ne by discriminate; apply lookup_empty.

Ltac state_normal :=
  cbn [Workflow.journal Workflow.calls Workflow.store Workflow.past
       Workflow.ticks StepFacts.after_step].

Ltac run_step H :=
  erewrite StepFacts.bind_returns;
  [|eapply StepFacts.execute_fresh_ok; [fresh_lookup|exact H]];
  state_normal.

Ltac run_logs :=
  repeat (erewrite StepFacts.bind_returns; [|reflexivity]; state_normal).

Ltac run_failing_step H :=
  apply StepFacts.bind_throws;
  eapply StepFacts.execute_fresh_err; [fresh_lookup|exact H].

Ltac run_tail :=
  cbv beta;
  unfold Workflow.bind, Workflow.addJobLog, Workflow.updateJob, Workflow.throw,
    Workflow.ret;
  state_normal.

(** * The claims of the specification *)

(** ** The job record store *)

(** C8 (as the code has it).  For an existing job id and any update,
    [updateJob] sets [updatedAt] to the current time, gives every field the
    update names its new value and leaves every other field as it was,
    returns the merged record, and does not touch any other job; for an id
    without a job it returns absent and leaves the store as it was.  [id]
    and [createdAt] are kept by every update of the declared type, which has
    no such fields; nothing rejects or ignores them when the program runs,
    and an update object that carries one of them overwrites the stored
    one.  On the in-memory store the merged record is the record stored.  On
    the Redis store the record is read and written back through the client,
    and the merged record is the record stored when the text fields of the
    record read back as they are written, as they do when they are no JSON
    texts, and the texts of the update are no JSON texts. *)
Theorem updateJob_frame (i : string) (now : Z) :
  (forall o jobs, MemFacts.erased_updateJob_spec i o now jobs) /\
  (forall u jobs,
     MemStore.updateJob i u now jobs
     = MemStore.Erased.updateJob i (MemStore.Erased.typed u) now jobs) /\
  (forall o r, ClientFacts.updateJob_spec i o now r) /\
  (forall h, ClientFacts.plain_hash h -> ClientFacts.reads_back (RedisClient.read h)).
Proof.
  split; [intros; apply MemFacts.erased_updateJob_meets_spec|].
  split; [intros; apply MemFacts.updateJob_at_declared_type|].
  split; [intros; apply ClientFacts.client_updateJob_meets_spec|].
  apply ClientFacts.reads_back_read.
Qed.

Lemma updateJob_frame_witness :
  let o := RedisClient.typed
             (RedisStore.mkJobUpdates None None None None (Some failed) None None None
                None (Some "conflict")) in
  exists updated r',
    RedisClient.updateJob "bp_100_a" o 900 Examples.redis_jobs = (Some updated, r') /\
    RedisClient.getJob "bp_100_a" r' = Some updated /\
    RedisClient.d_id (RedisClient.c_data updated) = Some (Json.Str "bp_100_a") /\
    RedisClient.d_targetBranch (RedisClient.c_data updated) = Some (Json.Str "v1") /\
    RedisClient.d_createdAt (RedisClient.c_data updated) = Some 100 /\
    RedisClient.d_updatedAt (RedisClient.c_data updated) = Some 900 /\
    RedisClient.d_status (RedisClient.c_data updated) = Some failed /\
    RedisClient.d_error (RedisClient.c_data updated) = Some (Json.Str "conflict").
Proof.
  intros o.
  generalize (proj1 (proj2 (proj2 (updateJob_frame "bp_100_a" 900))) o Examples.redis_jobs).
  unfold ClientFacts.updateJob_spec.
  destruct (RedisClient.getJob "bp_100_a" Examples.redis_jobs) as [job|] eqn:E;
    [|vm_compute in E; discriminate].
  intros (updated & r' & Hu & _ & _ & _ & _ & _ & _ & _ & _ & _ & _ & _ & _ & _ & _ & _ & _
          & Hback).
  exists updated, r'. split; [exact Hu|].
  split.
  - apply Hback; [|vm_compute; repeat split].
    vm_compute in E. injection E as <-. vm_compute. repeat split.
  - vm_compute in Hu. injection Hu as <- <-. repeat split.
Defined.

(** C8 as stated fails: an update object that carries [id] and [createdAt]
    is neither rejected nor ignored, on either store, and the record stored
    under the job's key takes both.  On the Redis store a field the update
    does not name is written back as the client read it: the target branch
    stored as the text 1.0 is read as the number 1 and is stored as the text
    1 after an update of the status. *)
Lemma supplied_id_and_createdAt_are_written :
  let o := MemStore.Erased.mkUpdates (Some "bp_other") (Some 5) MemStore.no_updates in
  let m := MemStore.Erased.updateJob "bp_100_a" o 900 Examples.mem_jobs in
  let o' := RedisClient.mkUpdates (Some "bp_other") (Some 5) RedisStore.no_updates in
  let r := RedisClient.updateJob "bp_100_a" o' 900 Examples.redis_jobs in
  let status_only :=
    RedisClient.typed
      (RedisStore.mkJobUpdates None None None None (Some in_progress) None None None
         None None) in
  let r1 := RedisClient.updateJob "bp_500_e" status_only 900 Examples.numeric_branch in
  (id <$> MemStore.getJob "bp_100_a" Examples.mem_jobs = Some "bp_100_a" /\
   createdAt <$> MemStore.getJob "bp_100_a" Examples.mem_jobs = Some 100 /\
   id <$> MemStore.getJob "bp_100_a" (snd m) = Some "bp_other" /\
   createdAt <$> MemStore.getJob "bp_100_a" (snd m) = Some 5 /\
   id <$> fst m = Some "bp_other") /\
  (RedisStore.hgetall (RedisStore.job_key "bp_100_a") Examples.redis_jobs
   ≫= RedisStore.r_id = Some "bp_100_a" /\
   RedisStore.hgetall (RedisStore.job_key "bp_100_a") (snd r)
   ≫= RedisStore.r_id = Some "bp_other" /\
   RedisStore.hgetall (RedisStore.job_key "bp_100_a") (snd r)
   ≫= RedisStore.r_createdAt = Some 5) /\
  (RedisStore.hgetall (RedisStore.job_key "bp_500_e") Examples.numeric_branch
   ≫= RedisStore.r_targetBranch = Some "1.0" /\
   RedisClient.getJob "bp_500_e" Examples.numeric_branch
   ≫= (fun j => RedisClient.d_targetBranch (RedisClient.c_data j))
   = Some (Json.Num (Json.Finite 1 0)) /\
   RedisStore.hgetall (RedisStore.job_key "bp_500_e") (snd r1)
   ≫= RedisStore.r_targetBranch = Some "1").
Proof. vm_compute. repeat split. Qed.

(** C10. [addJobLog] on an id that has no job: the in-memory store is left as
    it was, but the Redis store writes the log entry and an [updatedAt] field
    without looking the job up, so that [getJob] returns a record for the id
    afterwards. *)
Theorem addJobLog_absent_job {D : JsDate} (i msg : string) (t1 t2 : Z) :
  (forall jobs, match MemStore.getJob i jobs with
                | None => MemStore.addJobLog i msg t1 t2 jobs = jobs
                | Some _ => True
                end) /\
  RedisStore.getJob i RedisStore.empty_redis = None /\
  RedisStore.getJob i (RedisStore.addJobLog i msg t1 t2 RedisStore.empty_redis)
  = Some {| RedisStore.data :=
              RedisStore.mkHash None None None None None None None (Some t2)
                None None None None;
            RedisStore.rlogs := ["[" +:+ toISOString t1 +:+ "] " +:+ msg] |}.
Proof.
  split; [|split].
  - intros jobs. destruct (MemStore.getJob i jobs) eqn:E; [exact I|].
    now apply MemFacts.addJobLog_absent.
  - reflexivity.
  - unfold RedisStore.getJob, RedisStore.addJobLog.
    rewrite RedisFacts.hgetall_hset_eq. simpl.
    unfold RedisStore.lrange_all, RedisStore.hset, RedisStore.rpush. simpl.
    now rewrite lookup_insert_eq.
Qed.

(** C9 (as the code has it).  [listJobs] lists the matching jobs newest
    [createdAt] first, whatever the order in which they were inserted.  The
    repository filter (when it is not the empty string) and the status filter
    are conjunctive and exact.  A positive limit keeps the first [limit]
    entries of that order.  A limit that is absent or 0 does not truncate on
    the in-memory store and keeps the first 50 entries on the Redis store.
    On the Redis store the order is that of the index, which agrees with
    [createdAt] in every state the store operations produce. *)
Theorem listJobs_newest_first (options : option ListOptions) :
  (forall jobs : MemStore.Jobs,
     StronglySorted MemFacts.newest_first (MemFacts.all_matching options jobs) /\
     Permutation (MemFacts.all_matching options jobs)
       (List.filter (MemFacts.matches options) (MemStore.map_values jobs)) /\
     (forall j, MemFacts.matches options j = true <-> MemFacts.satisfies options j) /\
     (forall jobs',
        Permutation (MemStore.map_values jobs) (MemStore.map_values jobs') ->
        Permutation (MemFacts.all_matching options jobs)
          (MemFacts.all_matching options jobs')) /\
     (forall n, MemFacts.supplied_limit options = Some n -> 0 < n ->
        MemStore.listJobs options jobs
        = firstn (Z.to_nat n) (MemFacts.all_matching options jobs)) /\
     (MemFacts.supplied_limit options = None \/ MemFacts.supplied_limit options = Some 0 ->
        MemStore.listJobs options jobs = MemFacts.all_matching options jobs))
  /\
  (forall r : RedisStore.Redis,
     RedisFacts.index_consistentb r = true ->
     StronglySorted RedisFacts.newest_first (RedisFacts.all_matching options r) /\
     RedisFacts.all_matching options r
     = List.filter (RedisFacts.matches options) (RedisFacts.indexed_jobs r) /\
     (forall j, RedisFacts.matches options j = true <-> RedisFacts.satisfies options j) /\
     (forall n, MemFacts.supplied_limit options = Some n -> 0 < n ->
        RedisStore.listJobs options r
        = firstn (Z.to_nat n) (RedisFacts.all_matching options r)) /\
     (MemFacts.supplied_limit options = None \/ MemFacts.supplied_limit options = Some 0 ->
        RedisStore.listJobs options r = firstn 50 (RedisFacts.all_matching options r))).
Proof.
  split.
  - intros jobs. split; [apply MemFacts.all_matching_sorted|].
    split; [apply MemFacts.all_matching_perm|].
    split; [apply MemFacts.matches_satisfies|].
    split; [apply MemFacts.all_matching_order_independent|].
    split.
    + intros n Hs Hn. rewrite MemFacts.listJobs_unfold.
      rewrite (MemFacts.limit_option_positive _ _ Hs Hn).
      now apply slice0_positive.
    + intros H. rewrite MemFacts.listJobs_unfold.
      now rewrite (MemFacts.limit_option_none _ H).
  - intros r Hc. apply RedisFacts.index_consistentb_spec in Hc.
    split; [now apply RedisFacts.redis_all_matching_sorted|].
    split; [reflexivity|].
    split; [apply RedisFacts.redis_matches_satisfies|].
    split.
    + intros n Hs Hn. rewrite RedisFacts.redis_listJobs_unfold.
      rewrite (RedisFacts.effective_limit_positive _ _ Hs Hn).
      now apply slice0_positive.
    + intros H. rewrite RedisFacts.redis_listJobs_unfold.
      rewrite (RedisFacts.effective_limit_default _ H).
      now apply slice0_positive.
Qed.

Lemma listJobs_newest_first_witness :
  RedisFacts.index_consistentb Examples.redis_jobs = true /\
  RedisStore.listJobs (Examples.limit_only 2) Examples.redis_jobs
  = firstn 2 (RedisFacts.all_matching (Examples.limit_only 2) Examples.redis_jobs).
Proof.
  split; [vm_compute; reflexivity|].
  destruct (proj2 (listJobs_newest_first (Examples.limit_only 2))
              Examples.redis_jobs ltac:(vm_compute; reflexivity))
    as (_ & _ & _ & Hlimit & _).
  apply (Hlimit 2); [reflexivity | lia].
Defined.

(** C9 as stated fails for a limit of 0: the in-memory store holds three jobs
    and [listJobs] with [limit = 0] returns all three, not the first 0. *)
Lemma listJobs_limit_zero_not_truncated :
  MemStore.listJobs (Examples.limit_only 0) Examples.mem_jobs
  <> firstn 0 (MemStore.listJobs None Examples.mem_jobs).
Proof. vm_compute. discriminate. Qed.

(** ** The workflow *)

(** C1.  A step whose result is in the journal returns it without invoking
    its step function: the run state, and with it the collaborator, is left
    as it is.  And however often a run of the backport workflow is
    interrupted before a step and driven again, it finishes with the outcome
    of the uninterrupted run: the same return value or error, the same
    journal (so each step function was invoked as often as without the
    interruptions, and the entries present at the start are unchanged), the
    same requests to the collaborator, and the same status, [resultPR] and
    [error] of the job. *)
Theorem replay_reaches_same_outcome {D : JsDate} (maxRetries : nat)
    (clock : nat -> Z) (octo : Workflow.Collaborator) (sandbox : Workflow.Sandbox)
    (params : Workflow.BackportParams) :
  (forall (A : Type) name inj proj (fn : Workflow.Collab A) b s e,
     Workflow.journal s !! name = Some e ->
     exists o, Workflow.execute maxRetries name inj proj fn b s
               = Workflow.Finished o s b) /\
  (forall (interruptions : list nat) (s : Workflow.RunState),
     job_exists (Workflow.jobId params) (Workflow.store s) = true ->
     exists o s' b' s0,
       Workflow.drive
         (Workflow.backportPullRequest_with maxRetries clock octo sandbox params)
         interruptions s = Workflow.Finished o s' b' /\
       Workflow.backportPullRequest_with maxRetries clock octo sandbox params None s
       = Workflow.Finished o s0 None /\
       (forall k e, Workflow.journal s !! k = Some e ->
          Workflow.journal s' !! k = Some e /\
          Workflow.invocations k s' = Workflow.attempts e) /\
       Workflow.journal s' = Workflow.journal s0 /\
       Workflow.calls s' = Workflow.calls s0 /\
       job_status (Workflow.jobId params) (Workflow.store s')
       = job_status (Workflow.jobId params) (Workflow.store s0) /\
       job_resultPR (Workflow.jobId params) (Workflow.store s')
       = job_resultPR (Workflow.jobId params) (Workflow.store s0) /\
       job_error (Workflow.jobId params) (Workflow.store s')
       = job_error (Workflow.jobId params) (Workflow.store s0)).
Proof.
  split; [intros A name inj proj fn b s e He;
          exact (DriveFacts.execute_recorded _ _ _ _ _ _ _ _ He)|].
  intros interruptions s Hex.
  pose proof (ReplayFacts.replayable_backportPullRequest maxRetries clock octo
                sandbox params) as Hp.
  assert (Hw := TraceFacts.writes_backportPullRequest (fun _ => True) maxRetries
                  clock octo sandbox params ltac:(intros ? ? ? ? ? ? ? ? ?; exact I)).
  assert (Hj : TraceFacts.journal_ok (fun _ => True) (Workflow.journal s)).
  { intros ? ? ? ? ?. exact I. }
  destruct (DriveFacts.drive_replays _ interruptions s Hp)
    as (o & s' & b' & s0 & Ed & E0 & [Hjj Hcc] & Hsub).
  destruct (DriveFacts.drive_writes _ _ _ _ interruptions s Hw Hp Hj)
    as (o1 & s1 & b1 & w & Ed1 & (u & -> & Hu & _) & Hph).
  rewrite Ed in Ed1. injection Ed1 as <- <- <-.
  destruct (DriveFacts.drive_writes _ _ _ _ [] s Hw Hp Hj)
    as (o2 & s2 & b2 & w & Ed2 & (u2 & -> & Hu2 & _) & Hph2).
  simpl in Ed2. rewrite E0 in Ed2. injection Ed2 as <- <- <-.
  pose proof (TraceFacts.describes_functional _ _ _ Hu Hu2) as <-.
  exists o, s', b', s0. split; [exact Ed|]. split; [exact E0|].
  split; [intros k e; now apply DriveFacts.invocations_kept|].
  split; [exact Hjj|]. split; [exact Hcc|].
  apply (DriveFacts.updated_fields _ u (Workflow.store s)); [exact Hex| |];
    now apply TraceFacts.settled_store.
Qed.

Lemma replay_reaches_same_outcome_witness :
  job_exists (Workflow.jobId Examples.params) (Workflow.store Examples.mem_start) = true /\
  exists o s' b' s0,
    Workflow.drive
      (Workflow.backportPullRequest_with (D := Examples.decimal_date) 3
         Examples.clock Examples.cooperative Examples.clean_backport Examples.params)
      [2%nat; 1%nat; 4%nat] Examples.mem_start = Workflow.Finished o s' b' /\
    Workflow.backportPullRequest_with (D := Examples.decimal_date) 3
      Examples.clock Examples.cooperative Examples.clean_backport Examples.params
      None Examples.mem_start = Workflow.Finished o s0 None /\
    Workflow.calls s' = Workflow.calls s0 /\
    job_status "bp_100_a" (Workflow.store s') = job_status "bp_100_a" (Workflow.store s0).
Proof.
  split; [vm_compute; reflexivity|].
  destruct (proj2 (replay_reaches_same_outcome (D := Examples.decimal_date) 3
                     Examples.clock Examples.cooperative Examples.clean_backport
                     Examples.params)
              [2%nat; 1%nat; 4%nat] Examples.mem_start
              ltac:(vm_compute; reflexivity))
    as (o & s' & b' & s0 & Ed & E0 & _ & _ & Hc & Hs & _).
  exists o, s', b', s0. auto.
Defined.

(** C7.  A run of the backport workflow, interrupted and driven again any
    number of times, on a job that is [pending] or [in_progress]: from one
    state of the job store to the next, the status of every job stays as it
    is or moves forward along pending, in_progress, completed or failed; it
    never goes back to [pending] and never changes between [completed] and
    [failed]. *)
Theorem status_moves_forward {D : JsDate} (maxRetries : nat) (clock : nat -> Z)
    (octo : Workflow.Collaborator) (sandbox : Workflow.Sandbox)
    (params : Workflow.BackportParams) (interruptions : list nat)
    (st : JobStore) (h : list Workflow.Call) :
  StatusFacts.not_terminal (job_status (Workflow.jobId params) st) ->
  exists o s' b',
    Workflow.drive
      (Workflow.backportPullRequest_with maxRetries clock octo sandbox params)
      interruptions (Workflow.start st h) = Workflow.Finished o s' b' /\
    forall i,
      Sorted StatusFacts.status_step (map (job_status i) (Workflow.store_trace s')).
Proof.
  intros Hnt.
  pose proof (ReplayFacts.replayable_backportPullRequest maxRetries clock octo
                sandbox params) as Hp.
  assert (Hw := TraceFacts.writes_backportPullRequest (fun _ => True) maxRetries
                  clock octo sandbox params ltac:(intros ? ? ? ? ? ? ? ? ?; exact I)).
  assert (Hj : TraceFacts.journal_ok (fun _ => True)
                 (Workflow.journal (Workflow.start st h))).
  { intros ? ? ? ? ?. exact I. }
  destruct (DriveFacts.drive_writes _ _ _ _ interruptions _ Hw Hp Hj)
    as (o & s' & b' & w & Ed & (u & -> & _ & _) & Hph).
  exists o, s', b'. split; [exact Ed|]. intros i.
  destruct (StatusFacts.settled_trace _ _ _ _ _ Hph) as (lA & lB & -> & HA & HB).
  now apply (StatusFacts.trace_moves_forward (Workflow.jobId params) u).
Qed.

Lemma status_moves_forward_witness :
  exists o s' b',
    Workflow.drive
      (Workflow.backportPullRequest_with (D := Examples.decimal_date) 3
         Examples.clock Examples.missing_branch Workflow.placeholder Examples.params)
      [1%nat] Examples.redis_start = Workflow.Finished o s' b' /\
    forall i,
      Sorted StatusFacts.status_step (map (job_status i) (Workflow.store_trace s')).
Proof.
  apply (status_moves_forward (D := Examples.decimal_date) 3 Examples.clock
           Examples.missing_branch Workflow.placeholder Examples.params [1%nat]
           (Upstash Examples.redis_jobs) []).
  left. vm_compute. reflexivity.
Defined.

(** C2.  A run of the backport workflow, interrupted and driven again any
    number of times, on a job that is [pending] or [in_progress], with a
    sandbox that names an error whenever it reports a failure: every job
    whose [resultPR] and [error] agree with its status at the start (exactly
    one of them when the status is terminal, neither before) keeps that
    agreement in every state of the job store the run goes through, and the
    job of the run ends in a terminal status. *)
Theorem outcome_fields_consistent {D : JsDate} (maxRetries : nat) (clock : nat -> Z)
    (octo : Workflow.Collaborator) (sandbox : Workflow.Sandbox)
    (params : Workflow.BackportParams) (interruptions : list nat)
    (st : JobStore) (h : list Workflow.Call) :
  TraceFacts.sandbox_ok is_Some sandbox ->
  StatusFacts.not_terminal (job_status (Workflow.jobId params) st) ->
  exists o s' b',
    Workflow.drive
      (Workflow.backportPullRequest_with maxRetries clock octo sandbox params)
      interruptions (Workflow.start st h) = Workflow.Finished o s' b' /\
    (forall i, StatusFacts.outcome_consistent i st ->
       Forall (StatusFacts.outcome_consistent i) (Workflow.store_trace s')) /\
    (job_status (Workflow.jobId params) (Workflow.store s') = Some completed \/
     job_status (Workflow.jobId params) (Workflow.store s') = Some failed).
Proof.
  intros Hsb Hnt.
  pose proof (ReplayFacts.replayable_backportPullRequest maxRetries clock octo
                sandbox params) as Hp.
  assert (Hw := TraceFacts.writes_backportPullRequest is_Some maxRetries
                  clock octo sandbox params Hsb).
  assert (Hj : TraceFacts.journal_ok is_Some (Workflow.journal (Workflow.start st h))).
  { intros e r He. simpl in He. now rewrite lookup_empty in He. }
  destruct (DriveFacts.drive_writes _ _ _ _ interruptions _ Hw Hp Hj)
    as (o & s' & b' & w & Ed & (u & -> & Hu & Hok) & Hph).
  exists o, s', b'. split; [exact Ed|].
  assert (Hsome : match u with
                  | JobFacts.Completed _ => True
                  | JobFacts.Failed e => is_Some e
                  end).
  { destruct o as [r|t]; simpl in Hu.
    - destruct Hu as [(_ & n & _ & _ & ->)|(Hs & _ & ->)]; [exact I|].
      now apply (Hok r).
    - subst u. simpl. eauto. }
  split.
  - intros i Hc.
    destruct (StatusFacts.settled_trace _ _ _ _ _ Hph) as (lA & lB & -> & HA & HB).
    now apply (StatusFacts.trace_consistent (Workflow.jobId params) u).
  - pose proof (TraceFacts.settled_store _ _ _ _ Hph) as (_ & _ & Hup).
    assert (Hex : job_exists (Workflow.jobId params) st = true).
    { destruct Hnt as [H|H]; exact (StatusFacts.job_status_exists _ _ _ H). }
    destruct (Hup Hex) as [_ Hx]. destruct u; destruct Hx as (-> & _); auto.
Qed.

Lemma outcome_fields_consistent_witness :
  exists o s' b',
    Workflow.drive
      (Workflow.backportPullRequest_with (D := Examples.decimal_date) 3
         Examples.clock Examples.cooperative Workflow.placeholder Examples.params)
      [3%nat] Examples.mem_start = Workflow.Finished o s' b' /\
    (forall i, StatusFacts.outcome_consistent i (InMemory Examples.mem_jobs) ->
       Forall (StatusFacts.outcome_consistent i) (Workflow.store_trace s')) /\
    (job_status "bp_100_a" (Workflow.store s') = Some completed \/
     job_status "bp_100_a" (Workflow.store s') = Some failed).
Proof.
  apply (outcome_fields_consistent (D := Examples.decimal_date) 3 Examples.clock
           Examples.cooperative Workflow.placeholder Examples.params [3%nat]
           (InMemory Examples.mem_jobs) []).
  - intros h i repo d t a r [= <-] _. simpl. eauto.
  - left. vm_compute. reflexivity.
Defined.

(** C3 (as the code has it).  The Acknowledge step has no error handling of
    its own.  When it fails (a fatal error, or an error that the retries did
    not cure), the workflow's [catch] block logs "Workflow error: ..." and
    sets the job to [failed] with the error's message, no other step is
    executed, and the error is thrown again. *)
Theorem acknowledge_failure_aborts {D : JsDate} (maxRetries : nat) (clock : nat -> Z)
    (octo : Workflow.Collaborator) (sandbox : Workflow.Sandbox)
    (params : Workflow.BackportParams) (st : JobStore) (h : list Workflow.Call)
    (t : Workflow.Thrown) (h' : list Workflow.Call) (n : nat) :
  Workflow.attempt maxRetries
    (Workflow.acknowledgeRequest octo (Workflow.bp_installationId params)
       (Workflow.bp_repository params) (Workflow.bp_commentId params)) h
  = (Workflow.Err t, h', n) ->
  exists s',
    Workflow.backportPullRequest_with maxRetries clock octo sandbox params None
      (Workflow.start st h) = Workflow.Finished (Workflow.Throws t) s' None /\
    Workflow.journal s'
    = <[Workflow.Acknowledge := Workflow.mkEntry n (Workflow.Raised t)]> ∅ /\
    Workflow.calls s' = h' /\
    Workflow.store s'
    = jobs_updateJob (Workflow.jobId params)
        (Workflow.status_and_error failed (Some (Workflow.error_message t)))
        (clock 2%nat)
        (jobs_addJobLog (Workflow.jobId params)
           ("Workflow error: " +:+ Workflow.error_message t)
           (clock 0%nat) (clock 1%nat) st) /\
    (job_exists (Workflow.jobId params) st = true ->
     job_status (Workflow.jobId params) (Workflow.store s') = Some failed /\
     job_error (Workflow.jobId params) (Workflow.store s')
     = Some (Workflow.error_message t)).
Proof.
  intros Ha. eexists. split; [|split; [|split; [|split]]].
  - unfold Workflow.backportPullRequest_with.
    erewrite StepFacts.try_catch_throws;
      [|apply StepFacts.bind_throws;
        exact (StepFacts.execute_fresh _ _ _ _ _ (Workflow.start st h) _ _ _
                 (lookup_empty _) Ha)].
    reflexivity.
  - reflexivity.
  - reflexivity.
  - reflexivity.
  - intros Hex. simpl.
    pose proof (JobFacts.updated_after_same (Workflow.jobId params)
                  (JobFacts.Failed (Some (Workflow.error_message t))) st _ _
                  (JobFacts.same_jobs_addJobLog (Workflow.jobId params)
                     ("Workflow error: " +:+ Workflow.error_message t)
                     (clock 0%nat) (clock 1%nat) st)
                  (JobFacts.updated_updateJob (Workflow.jobId params)
                     (JobFacts.Failed (Some (Workflow.error_message t)))
                     (clock 2%nat) _)) as (_ & _ & Hu).
    destruct (Hu Hex) as (_ & Hs & _ & He). split; [exact Hs|exact He].
Qed.

Lemma acknowledge_failure_aborts_witness :
  exists s',
    Workflow.backportPullRequest_with (D := Examples.decimal_date) 3 Examples.clock
      Examples.no_reactions Workflow.placeholder Examples.params None
      Examples.mem_start
    = Workflow.Finished (Workflow.Throws (Workflow.JsError false "Forbidden")) s' None /\
    job_status "bp_100_a" (Workflow.store s') = Some failed.
Proof.
  destruct (acknowledge_failure_aborts (D := Examples.decimal_date) 3 Examples.clock
              Examples.no_reactions Workflow.placeholder Examples.params
              (InMemory Examples.mem_jobs) []
              (Workflow.JsError false "Forbidden")
              (List.concat
                 (List.repeat
                    [Workflow.ReactionsCreateForIssueComment "acme" (Some "app") 1001 "eyes";
                     Workflow.GetInstallationOctokit 7] 4))
              4%nat ltac:(vm_compute; reflexivity))
    as (s' & E & _ & _ & _ & Hjob).
  exists s'. split; [exact E|].
  exact (proj1 (Hjob ltac:(vm_compute; reflexivity))).
Defined.

(** C3 as stated fails: when the collaborator refuses the reaction, the run
    does not go on to fetch the pull request, ends by throwing the error and
    leaves the job [failed]. *)
Lemma acknowledge_failure_is_fatal_to_the_run :
  let r := Workflow.backportPullRequest (D := Examples.decimal_date) 3 Examples.clock
             Examples.no_reactions Examples.params None Examples.mem_start in
  (exists s', r = Workflow.Finished
                    (Workflow.Throws (Workflow.JsError false "Forbidden")) s' None) /\
  Workflow.invocations Workflow.FetchPRDetails (Workflow.final_state r) = 0%nat /\
  job_status "bp_100_a" (Workflow.store (Workflow.final_state r)) = Some failed /\
  job_error "bp_100_a" (Workflow.store (Workflow.final_state r)) = Some "Forbidden".
Proof.
  vm_compute. split; [eexists; reflexivity|]. repeat split.
Qed.

(** C5.  A run that reaches the ValidateTargetBranch step (Acknowledge and
    FetchPRDetails have succeeded, the installation client is available)
    while the collaborator's get-branch fails for the target branch: the step
    raises a fatal error after a single invocation, so nothing is retried; no
    later step is executed and no further request is sent; the error is
    thrown again by the workflow; and the job ends [failed] with an [error]
    that contains the name of the target branch. *)
Theorem missing_target_branch_is_fatal {D : JsDate} (maxRetries : nat)
    (clock : nat -> Z) (octo : Workflow.Collaborator) (sandbox : Workflow.Sandbox)
    (params : Workflow.BackportParams) (st : JobStore)
    (h h1 h2 : list Workflow.Call) (n1 n2 : nat) (d : Workflow.PRDetails)
    (t0 : Workflow.Thrown) :
  Workflow.attempt maxRetries
    (Workflow.acknowledgeRequest octo (Workflow.bp_installationId params)
       (Workflow.bp_repository params) (Workflow.bp_commentId params)) h
  = (Workflow.Ok tt, h1, n1) ->
  Workflow.attempt maxRetries
    (Workflow.fetchPRDetails octo (Workflow.bp_installationId params)
       (Workflow.bp_repository params) (Workflow.prNumber params)) h1
  = (Workflow.Ok d, h2, n2) ->
  Workflow.answer_unit octo h2
    (Workflow.GetInstallationOctokit (Workflow.bp_installationId params))
  = Workflow.Ok tt ->
  Workflow.answer_unit octo
    (Workflow.GetInstallationOctokit (Workflow.bp_installationId params) :: h2)
    (Workflow.ReposGetBranch
       (fst (Workflow.owner_repo (Workflow.bp_repository params)))
       (snd (Workflow.owner_repo (Workflow.bp_repository params)))
       (Workflow.bp_targetBranch params))
  = Workflow.Err t0 ->
  exists s' msg,
    Workflow.backportPullRequest_with maxRetries clock octo sandbox params None
      (Workflow.start st h)
    = Workflow.Finished (Workflow.Throws (Workflow.FatalError msg)) s' None /\
    contains msg (Workflow.bp_targetBranch params) /\
    Workflow.invocations Workflow.ValidateTargetBranch s' = 1%nat /\
    Workflow.calls s'
    = Workflow.ReposGetBranch
        (fst (Workflow.owner_repo (Workflow.bp_repository params)))
        (snd (Workflow.owner_repo (Workflow.bp_repository params)))
        (Workflow.bp_targetBranch params)
      :: Workflow.GetInstallationOctokit (Workflow.bp_installationId params) :: h2 /\
    (forall k,
       In k [Workflow.AnalyzeChanges; Workflow.PerformBackport;
             Workflow.CreateBackportPR; Workflow.ReportSuccess;
             Workflow.ReportFailure] ->
       Workflow.invocations k s' = 0%nat) /\
    (job_exists (Workflow.jobId params) st = true ->
     job_status (Workflow.jobId params) (Workflow.store s') = Some failed /\
     job_error (Workflow.jobId params) (Workflow.store s') = Some msg).
Proof.
  intros Hack Hfetch Hocto Hbranch.
  pose proof (StepFacts.attempt_fatal maxRetries _ _ _ _
                (StepFacts.validateTargetBranch_missing octo _ _ _ _ _ Hocto Hbranch)
                eq_refl) as Hval.
  set (msg := "Target branch '" +:+ Workflow.bp_targetBranch params
              +:+ "' does not exist") in *.
  assert (Hrun : exists s',
             Workflow.backportPullRequest_with maxRetries clock octo sandbox params
               None (Workflow.start st h)
             = Workflow.Finished (Workflow.Throws (Workflow.FatalError msg)) s' None /\
             Workflow.journal s'
             = <[Workflow.ValidateTargetBranch :=
                   Workflow.mkEntry 1 (Workflow.Raised (Workflow.FatalError msg))]>
                 (<[Workflow.FetchPRDetails :=
                      Workflow.mkEntry n2 (Workflow.Returned (Workflow.VDetails d))]>
                    (<[Workflow.Acknowledge :=
                         Workflow.mkEntry n1 (Workflow.Returned Workflow.VUnit)]> ∅)) /\
             Workflow.calls s'
             = Workflow.ReposGetBranch
                 (fst (Workflow.owner_repo (Workflow.bp_repository params)))
                 (snd (Workflow.owner_repo (Workflow.bp_repository params)))
                 (Workflow.bp_targetBranch params)
               :: Workflow.GetInstallationOctokit (Workflow.bp_installationId params)
               :: h2).
  { eexists. split; [|split].
    - unfold Workflow.backportPullRequest_with, mbind, Workflow.M_bind.
      erewrite StepFacts.try_catch_throws; cycle 1.
      { run_step Hack. run_logs. run_step Hfetch. run_logs.
        run_failing_step Hval. }
      state_normal. run_tail. reflexivity.
    - reflexivity.
    - reflexivity. }
  destruct Hrun as (s' & E & Hj & Hc).
  exists s', msg. split; [exact E|].
  split; [exists "Target branch '", "' does not exist"; reflexivity|].
  split; [unfold Workflow.invocations; rewrite Hj; now rewrite lookup_insert_eq|].
  split; [exact Hc|].
  split.
  - intros k Hk. unfold Workflow.invocations. rewrite Hj.
    simpl in Hk.
    repeat (destruct Hk as [<-|Hk];
            [now rewrite !lookup_insert_ne, lookup_empty by discriminate|]).
    contradiction.
  - intros Hex. destruct (DriveFacts.run_settles _ _ _ _ _ _ _ _ _ _ E) as (u & Hu & Hup).
    simpl in Hu. subst u. exact (DriveFacts.failed_job _ _ _ _ Hup Hex).
Qed.

Lemma missing_target_branch_is_fatal_witness :
  exists s' msg,
    Workflow.backportPullRequest_with (D := Examples.decimal_date) 3 Examples.clock
      Examples.missing_branch Workflow.placeholder Examples.params None
      Examples.redis_start
    = Workflow.Finished (Workflow.Throws (Workflow.FatalError msg)) s' None /\
    contains msg "release-1.2" /\
    Workflow.invocations Workflow.ValidateTargetBranch s' = 1%nat /\
    job_status "bp_100_a" (Workflow.store s') = Some failed /\
    job_error "bp_100_a" (Workflow.store s') = Some msg.
Proof.
  edestruct (missing_target_branch_is_fatal (D := Examples.decimal_date) 3
               Examples.clock Examples.missing_branch Workflow.placeholder
               Examples.params (Upstash Examples.redis_jobs) [])
    as (s' & msg & E & Hc & Hi & _ & _ & Hjob);
    [lazy; reflexivity | lazy; reflexivity | lazy; reflexivity
    | lazy; reflexivity |].
  exists s', msg. split; [exact E|]. split; [exact Hc|]. split; [exact Hi|].
  apply Hjob. vm_compute. reflexivity.
Defined.

(** C4.  The collaborator answers 502 to the first two get-branch requests
    and would accept the third.  [validateTargetBranch] turns the first
    failure into a [FatalError], so the step is invoked once and not retried:
    the run is aborted and the job ends [failed], reporting that the branch
    does not exist. *)
Theorem transient_get_branch_failure_is_not_retried :
  let r := Workflow.backportPullRequest (D := Examples.decimal_date) 3 Examples.clock
             Examples.flaky_branch Examples.params None Examples.mem_start in
  Workflow.answer_unit Examples.flaky_branch
    [Workflow.ReposGetBranch "acme" (Some "app") "release-1.2";
     Workflow.ReposGetBranch "acme" (Some "app") "release-1.2"]
    (Workflow.ReposGetBranch "acme" (Some "app") "release-1.2") = Workflow.Ok tt /\
  (exists s',
     r = Workflow.Finished
           (Workflow.Throws
              (Workflow.FatalError "Target branch 'release-1.2' does not exist"))
           s' None) /\
  Workflow.invocations Workflow.ValidateTargetBranch (Workflow.final_state r) = 1%nat /\
  Workflow.invocations Workflow.PerformBackport (Workflow.final_state r) = 0%nat /\
  job_status "bp_100_a" (Workflow.store (Workflow.final_state r)) = Some failed /\
  job_error "bp_100_a" (Workflow.store (Workflow.final_state r))
  = Some "Target branch 'release-1.2' does not exist".
Proof.
  vm_compute. split; [reflexivity|]. split; [eexists; reflexivity|]. repeat split.
Qed.

(** C6 (as the code has it).  A run in which the steps before PerformBackport
    succeed and the sandbox returns the failure value
    [{success: false, error: e}]: the run takes the failure branch without
    any exception being raised for the value.  It never invokes
    CreateBackportPR or ReportSuccess and sends no create-PR request; it
    invokes ReportFailure; and the job ends [failed].  When the ReportFailure
    step succeeds, the comment posted contains [e], the job's [error] is [e],
    and the workflow returns [{success: false, error: e}] instead of
    throwing.  When the ReportFailure step fails (after its retries), its
    error reaches the catch block like the error of any other step:
    [updateJob] with [e] is never reached, the job's [error] is the message
    of that error, and the workflow throws it. *)
Theorem backport_failure_is_reported {D : JsDate} (maxRetries : nat)
    (clock : nat -> Z) (octo : Workflow.Collaborator) (sandbox : Workflow.Sandbox)
    (params : Workflow.BackportParams) (st : JobStore)
    (h h1 h2 h3 h5 : list Workflow.Call) (n1 n2 n3 n5 : nat)
    (d : Workflow.PRDetails) (a : Workflow.Analysis) (br : option string)
    (e : string) (x5 : Workflow.Result unit) :
  Workflow.attempt maxRetries
    (Workflow.acknowledgeRequest octo (Workflow.bp_installationId params)
       (Workflow.bp_repository params) (Workflow.bp_commentId params)) h
  = (Workflow.Ok tt, h1, n1) ->
  Workflow.attempt maxRetries
    (Workflow.fetchPRDetails octo (Workflow.bp_installationId params)
       (Workflow.bp_repository params) (Workflow.prNumber params)) h1
  = (Workflow.Ok d, h2, n2) ->
  Workflow.attempt maxRetries
    (Workflow.validateTargetBranch octo (Workflow.bp_installationId params)
       (Workflow.bp_repository params) (Workflow.bp_targetBranch params)) h2
  = (Workflow.Ok tt, h3, n3) ->
  Workflow.analyzeChanges d (Workflow.bp_targetBranch params) h3 = (Workflow.Ok a, h3) ->
  sandbox h3 (Workflow.bp_installationId params) (Workflow.bp_repository params) d
    (Workflow.bp_targetBranch params) a
  = Workflow.Ok (Workflow.mkPerform false br (Some e)) ->
  Workflow.attempt maxRetries
    (Workflow.reportFailure octo (Workflow.bp_installationId params)
       (Workflow.bp_repository params) (Workflow.prNumber params)
       (Workflow.bp_targetBranch params) (Some e)) h3
  = (x5, h5, n5) ->
  exists s',
    Workflow.backportPullRequest_with maxRetries clock octo sandbox params None
      (Workflow.start st h)
    = Workflow.Finished
        (match x5 with
         | Workflow.Ok _ => Workflow.Returns (Workflow.mkResult false None (Some e))
         | Workflow.Err t => Workflow.Throws t
         end) s' None /\
    Workflow.invocations Workflow.CreateBackportPR s' = 0%nat /\
    Workflow.invocations Workflow.ReportSuccess s' = 0%nat /\
    Workflow.invocations Workflow.ReportFailure s' = n5 /\ (1 <= n5)%nat /\
    StepFacts.sent (fun c => StepFacts.is_pulls_create c = false) h (Workflow.calls s') /\
    (job_exists (Workflow.jobId params) st = true ->
     job_status (Workflow.jobId params) (Workflow.store s') = Some failed) /\
    (x5 = Workflow.Ok tt ->
     (exists rest,
        Workflow.calls s'
        = Workflow.IssuesCreateComment
            (fst (Workflow.owner_repo (Workflow.bp_repository params)))
            (snd (Workflow.owner_repo (Workflow.bp_repository params)))
            (Workflow.prNumber params)
            (StepFacts.failure_comment (Workflow.bp_targetBranch params) (Some e))
          :: rest) /\
     contains (StepFacts.failure_comment (Workflow.bp_targetBranch params) (Some e)) e /\
     (job_exists (Workflow.jobId params) st = true ->
      job_error (Workflow.jobId params) (Workflow.store s') = Some e)) /\
    (forall t, x5 = Workflow.Err t ->
       job_exists (Workflow.jobId params) st = true ->
       job_error (Workflow.jobId params) (Workflow.store s')
       = Some (Workflow.error_message t)).
Proof.
  intros Hack Hfetch Hval Han Hsb Hrep.
  pose proof (StepFacts.attempt_first_ok maxRetries _ _ _ _ Han) as Han'.
  assert (Hperf : Workflow.attempt maxRetries
                    (Workflow.performBackport_with sandbox
                       (Workflow.bp_installationId params)
                       (Workflow.bp_repository params) d
                       (Workflow.bp_targetBranch params) a) h3
                  = (Workflow.Ok (Workflow.mkPerform false br (Some e)), h3, 1%nat)).
  { apply StepFacts.attempt_first_ok. unfold Workflow.performBackport_with.
    now rewrite Hsb. }
  assert (Hrun : exists s',
             Workflow.backportPullRequest_with maxRetries clock octo sandbox params
               None (Workflow.start st h)
             = Workflow.Finished
                 (match x5 with
                  | Workflow.Ok _ =>
                      Workflow.Returns (Workflow.mkResult false None (Some e))
                  | Workflow.Err t => Workflow.Throws t
                  end) s' None /\
             Workflow.journal s'
             = <[Workflow.ReportFailure :=
                   Workflow.mkEntry n5 (Workflow.record_of (fun _ => Workflow.VUnit) x5)]>
                 (<[Workflow.PerformBackport :=
                      Workflow.mkEntry 1
                        (Workflow.Returned
                           (Workflow.VPerform (Workflow.mkPerform false br (Some e))))]>
                    (<[Workflow.AnalyzeChanges :=
                         Workflow.mkEntry 1 (Workflow.Returned (Workflow.VAnalysis a))]>
                       (<[Workflow.ValidateTargetBranch :=
                            Workflow.mkEntry n3 (Workflow.Returned Workflow.VUnit)]>
                          (<[Workflow.FetchPRDetails :=
                               Workflow.mkEntry n2
                                 (Workflow.Returned (Workflow.VDetails d))]>
                             (<[Workflow.Acknowledge :=
                                  Workflow.mkEntry n1
                                    (Workflow.Returned Workflow.VUnit)]> ∅))))) /\
             Workflow.calls s' = h5).
  { unfold Workflow.backportPullRequest_with, mbind, Workflow.M_bind.
    destruct x5 as [[]|t5].
    - eexists. split; [|split].
      + erewrite StepFacts.try_catch_returns; [reflexivity|].
        run_step Hack. run_logs. run_step Hfetch. run_logs.
        run_step Hval. run_logs. run_step Han'. run_logs.
        run_step Hperf. cbn [Workflow.pb_success Workflow.pb_error]. run_logs.
        run_step Hrep. run_tail. reflexivity.
      + reflexivity.
      + reflexivity.
    - eexists. split; [|split].
      + erewrite StepFacts.try_catch_throws; cycle 1.
        { run_step Hack. run_logs. run_step Hfetch. run_logs.
          run_step Hval. run_logs. run_step Han'. run_logs.
          run_step Hperf. cbn [Workflow.pb_success Workflow.pb_error]. run_logs.
          run_failing_step Hrep. }
        state_normal. run_tail. reflexivity.
      + reflexivity.
      + reflexivity. }
  destruct Hrun as (s' & E & Hj & Hc).
  exists s'. split; [exact E|].
  split; [unfold Workflow.invocations; rewrite Hj;
          now rewrite !lookup_insert_ne, lookup_empty by discriminate|].
  split; [unfold Workflow.invocations; rewrite Hj;
          now rewrite !lookup_insert_ne, lookup_empty by discriminate|].
  split; [unfold Workflow.invocations; rewrite Hj; now rewrite lookup_insert_eq|].
  split; [exact (proj1 (StepFacts.attempt_invoked _ _ _ _ _ _ Hrep))|].
  split.
  { rewrite Hc.
    eapply StepFacts.sent_trans;
      [exact (StepFacts.attempt_sent _ _ _ _ _ _ _
                (StepFacts.acknowledgeRequest_sent octo _ _ _) Hack)|].
    eapply StepFacts.sent_trans;
      [exact (StepFacts.attempt_sent _ _ _ _ _ _ _
                (StepFacts.fetchPRDetails_sent octo _ _ _) Hfetch)|].
    eapply StepFacts.sent_trans;
      [exact (StepFacts.attempt_sent _ _ _ _ _ _ _
                (StepFacts.validateTargetBranch_sent octo _ _ _) Hval)|].
    exact (StepFacts.attempt_sent _ _ _ _ _ _ _
             (StepFacts.reportFailure_sent octo _ _ _ _ _) Hrep). }
  destruct (DriveFacts.run_settles _ _ _ _ _ _ _ _ _ _ E) as (u & Hu & Hup).
  split; [|split].
  - intros Hex. destruct Hup as (_ & _ & Hup). destruct (Hup Hex) as [_ Hx].
    destruct x5 as [[]|t5]; simpl in Hu.
    + destruct Hu as [(Hs & _)|(_ & _ & ->)]; [discriminate|]. now destruct Hx.
    + subst u. now destruct Hx.
  - intros ->. simpl in Hu.
    destruct Hu as [(Hs & _)|(_ & _ & ->)]; [discriminate|]. simpl in Hup.
    split; [|split].
    + destruct (TraceFacts.attempt_ok _ _ _ _ _ _ Hrep) as (h0 & Hfn).
      apply StepFacts.reportFailure_posted in Hfn. rewrite Hc, Hfn. eauto.
    + apply StepFacts.failure_comment_contains.
    + intros Hex. exact (proj2 (DriveFacts.failed_job _ _ _ _ Hup Hex)).
  - intros t -> Hex. simpl in Hu. subst u.
    exact (proj2 (DriveFacts.failed_job _ _ _ _ Hup Hex)).
Qed.

Lemma backport_failure_is_reported_witness :
  exists s' rest,
    Workflow.backportPullRequest (D := Examples.decimal_date) 3 Examples.clock
      Examples.cooperative Examples.params None Examples.mem_start
    = Workflow.Finished
        (Workflow.Returns
           (Workflow.mkResult false None
              (Some "Backport execution not yet implemented (coming in Phase 6)")))
        s' None /\
    Workflow.invocations Workflow.CreateBackportPR s' = 0%nat /\
    Workflow.invocations Workflow.ReportFailure s' = 1%nat /\
    Workflow.calls s'
    = Workflow.IssuesCreateComment "acme" (Some "app") 42
        (StepFacts.failure_comment "release-1.2"
           (Some "Backport execution not yet implemented (coming in Phase 6)"))
      :: rest /\
    job_status "bp_100_a" (Workflow.store s') = Some failed /\
    job_error "bp_100_a" (Workflow.store s')
    = Some "Backport execution not yet implemented (coming in Phase 6)".
Proof.
  edestruct (backport_failure_is_reported (D := Examples.decimal_date) 3
               Examples.clock Examples.cooperative Workflow.placeholder
               Examples.params (InMemory Examples.mem_jobs) [])
    as (s' & E & Hc & _ & Hi & _ & _ & Hst & Hok & _);
    [lazy; reflexivity | lazy; reflexivity | lazy; reflexivity
    | lazy; reflexivity | lazy; reflexivity | lazy; reflexivity |].
  destruct (Hok eq_refl) as ((rest & Hposted) & _ & Herr).
  exists s', rest. split; [exact E|]. split; [exact Hc|]. split; [exact Hi|].
  split; [exact Hposted|].
  split; [apply Hst | apply Herr]; vm_compute; reflexivity.
Defined.

(** C6 as stated fails: the sandbox returns the failure value and the
    collaborator refuses the failure comment.  The ReportFailure step is
    invoked four times (once and three retries) and fails, the run is
    aborted by that error, and the job's [error] is the message of the
    refusal, not the error of the failure value. *)
Lemma refused_failure_comment_aborts_the_run :
  let e := "Backport execution not yet implemented (coming in Phase 6)" in
  let r := Workflow.backportPullRequest (D := Examples.decimal_date) 3 Examples.clock
             Examples.no_comments Examples.params None Examples.mem_start in
  Workflow.recorded
  <$> Workflow.journal (Workflow.final_state r) !! Workflow.PerformBackport
  = Some (Workflow.Returned
            (Workflow.VPerform (Workflow.mkPerform false None (Some e)))) /\
  (exists s', r = Workflow.Finished
                    (Workflow.Throws (Workflow.JsError false "Forbidden")) s' None) /\
  Workflow.invocations Workflow.ReportFailure (Workflow.final_state r) = 4%nat /\
  job_status "bp_100_a" (Workflow.store (Workflow.final_state r)) = Some failed /\
  job_error "bp_100_a" (Workflow.store (Workflow.final_state r)) = Some "Forbidden" /\
  job_error "bp_100_a" (Workflow.store (Workflow.final_state r)) <> Some e.
Proof.
  vm_compute. split; [reflexivity|]. split; [eexists; reflexivity|].
  repeat split. discriminate.
Qed.

(** * Further properties of the code *)

(** ** Sequences of operations on the in-memory store *)

Module MemOps.
Import MemStore.

(** A call of one of the writing operations of the store, with the clock
    readings it makes. *)
Inductive Op :=
| Create (params : JobParams) (newId : string) (now1 now2 : Z)
| Update (i : string) (u : JobUpdates) (now : Z)
| Log (i msg : string) (now1 now2 : Z).

Section WithDate.
Context {D : JsDate}.

Definition apply (op : Op) (jobs : Jobs) : Jobs :=
  match op with
  | Create p i t1 t2 => snd (createJob p i t1 t2 jobs)
  | Update i u t => snd (updateJob i u t jobs)
  | Log i m t1 t2 => addJobLog i m t1 t2 jobs
  end.

Definition run (ops : list Op) (jobs : Jobs) : Jobs :=
  fold_left (fun s op => apply op s) ops jobs.

(** The text [addJobLog] stores for a message. *)
Definition log_entry (now : Z) (msg : string) : string :=
  "[" +:+ toISOString now +:+ "] " +:+ msg.

(** [addJobLog] once for each message, in order. *)
Definition add_logs (i : string) (entries : list (string * Z * Z)) (jobs : Jobs) : Jobs :=
  fold_left (fun s e => addJobLog i (fst (fst e)) (snd (fst e)) (snd e) s) entries jobs.

End WithDate.

(** Every record is stored under its own [id], and no key occurs twice. *)
Definition well_keyed (jobs : Jobs) : Prop :=
  NoDup (map fst jobs) /\ Forall (fun p => id (snd p) = fst p) jobs.

Lemma map_set_keys (k : string) (v : BackportJob) (m : Jobs) (x : string) :
  In x (map fst (map_set k v m)) <-> x = k \/ In x (map fst m).
Proof.
  induction m as [|[k0 v0] m IH]; simpl.
  - intuition.
  - destruct (String.eqb_spec k0 k) as [->|Hne]; simpl; [intuition|].
    rewrite IH. intuition.
Qed.

Lemma map_set_In (k : string) (v : BackportJob) (m : Jobs) :
  In v (map_values (map_set k v m)).
Proof.
  unfold map_values. induction m as [|[k0 v0] m IH]; simpl; [now left|].
  destruct (String.eqb k0 k); simpl; auto.
Qed.

Lemma map_set_well_keyed (k : string) (v : BackportJob) (m : Jobs) :
  id v = k -> well_keyed m -> well_keyed (map_set k v m).
Proof.
  intros Hid [Hnd Hall]. induction m as [|[k0 v0] m IH]; simpl.
  - split; [apply NoDup_singleton|repeat constructor; exact Hid].
  - apply NoDup_cons in Hnd as [Hk0 Hnd']. apply Forall_cons in Hall as [Hv0 Hall'].
    destruct (IH Hnd' Hall') as [IH1 IH2].
    destruct (String.eqb_spec k0 k) as [->|Hne]; simpl.
    + split; [apply NoDup_cons|constructor]; auto.
    + split; [apply NoDup_cons; split; [|assumption]|constructor; assumption].
      simpl in *. intros Hin. apply list_elem_of_In, map_set_keys in Hin.
      destruct Hin as [->|Hin]; [congruence|].
      apply Hk0, list_elem_of_In, Hin.
Qed.

Lemma empty_well_keyed : well_keyed [].
Proof. split; [apply NoDup_nil_2|constructor]. Qed.

Lemma map_get_Some_key (k : string) (v : BackportJob) (m : Jobs) :
  well_keyed m -> map_get k m = Some v -> id v = k /\ In v (map_values m).
Proof.
  intros [_ Hall]. unfold map_values.
  induction m as [|[k0 v0] m IH]; simpl; [discriminate|].
  apply Forall_cons in Hall as [Hv0 Hall']. simpl in Hv0.
  destruct (String.eqb_spec k0 k) as [->|Hne].
  - intros [= ->]. auto.
  - intros H. destruct (IH Hall' H). auto.
Qed.

Lemma apply_well_keyed {D : JsDate} (op : Op) (jobs : Jobs) :
  well_keyed jobs -> well_keyed (apply op jobs).
Proof.
  intros Hw. destruct op as [p i t1 t2|i u t|i m t1 t2]; simpl.
  - now apply map_set_well_keyed.
  - unfold updateJob. destruct (map_get i jobs) as [job|] eqn:E; [|exact Hw].
    simpl. apply map_set_well_keyed; [|exact Hw].
    simpl. exact (proj1 (map_get_Some_key _ _ _ Hw E)).
  - unfold addJobLog. destruct (map_get i jobs) as [job|] eqn:E; [|exact Hw].
    apply map_set_well_keyed; [|exact Hw].
    simpl. exact (proj1 (map_get_Some_key _ _ _ Hw E)).
Qed.

Lemma run_well_keyed {D : JsDate} (ops : list Op) (jobs : Jobs) :
  well_keyed jobs -> well_keyed (run ops jobs).
Proof.
  revert jobs. induction ops as [|op ops IH]; intros jobs Hw; [exact Hw|].
  simpl. apply IH. now apply apply_well_keyed.
Qed.

Lemma well_keyed_get (m : Jobs) (v : BackportJob) :
  well_keyed m -> In v (map_values m) -> map_get (id v) m = Some v.
Proof.
  intros [Hnd Hall]. unfold map_values.
  induction m as [|[k0 v0] m IH]; simpl; [intros []|].
  apply NoDup_cons in Hnd as [Hk0 Hnd']. apply Forall_cons in Hall as [Hv0 Hall'].
  simpl in Hv0. intros [->|Hin].
  - now rewrite Hv0, String.eqb_refl.
  - destruct (String.eqb_spec k0 (id v)) as [->|Hne]; [|now apply IH].
    exfalso. apply Hk0. apply list_elem_of_In.
    apply in_map_iff in Hin as ([k1 v1] & Hs & Hin).
    simpl in Hs. subst v1. apply in_map_iff. exists (k1, v). split; [|exact Hin].
    simpl. symmetry. exact (proj1 (List.Forall_forall _ _) Hall' _ Hin).
Qed.




Lemma In_firstn {A : Type} (n : nat) (l : list A) (x : A) :
  In x (firstn n l) -> In x l.
Proof.
  intros H. apply list_elem_of_In. apply list_elem_of_In in H.
  eapply elem_of_sublist; [exact H|apply sublist_take].
Qed.

Lemma In_slice0 {A : Type} (l : list A) (e : Z) (x : A) : In x (slice0 l e) -> In x l.
Proof. unfold slice0. destruct (e <? 0); apply In_firstn. Qed.


End MemOps.

(** ** The in-memory store *)

Module MemStoreFacts.
Import MemStore MemOps.

(** Two records that differ at most in [logs] and [updatedAt]. *)
Definition same_but_log (a b : BackportJob) : Prop :=
  id b = id a /\ repository b = repository a /\
  installationId b = installationId a /\ sourcePR b = sourcePR a /\
  targetBranch b = targetBranch a /\ status b = status a /\
  createdAt b = createdAt a /\ requestedBy b = requestedBy a /\
  commentId b = commentId a /\ resultPR b = resultPR a /\ error b = error a.

Lemma same_but_log_refl (a : BackportJob) : same_but_log a a.
Proof. repeat split. Qed.

Lemma same_but_log_trans (a b c : BackportJob) :
  same_but_log a b -> same_but_log b c -> same_but_log a c.
Proof. unfold same_but_log. intuition congruence. Qed.

Lemma addJobLog_present {D : JsDate} (i msg : string) (t1 t2 : Z) (jobs : Jobs)
    (job : BackportJob) :
  getJob i jobs = Some job ->
  exists job',
    getJob i (addJobLog i msg t1 t2 jobs) = Some job' /\
    logs job' = logs job ++ [log_entry t1 msg] /\
    updatedAt job' = t2 /\
    same_but_log job job' /\
    forall i', i' <> i -> getJob i' (addJobLog i msg t1 t2 jobs) = getJob i' jobs.
Proof.
  unfold getJob, addJobLog. intros ->. eexists. split; [apply MemFacts.map_get_set_eq|].
  simpl. split; [reflexivity|]. split; [reflexivity|]. split; [repeat split|].
  intros i' Hne. now apply MemFacts.map_get_set_ne.
Qed.

Lemma createJob_get (params : JobParams) (newId : string) (now1 now2 : Z)
    (jobs : Jobs) (i : string) :
  getJob i (snd (createJob params newId now1 now2 jobs))
  = if decide (i = newId) then Some (fst (createJob params newId now1 now2 jobs))
    else getJob i jobs.
Proof.
  unfold createJob, getJob. cbn [fst snd id].
  destruct (decide (i = newId)) as [->|Hne].
  - apply MemFacts.map_get_set_eq.
  - now apply MemFacts.map_get_set_ne.
Qed.

Lemma updateJob_get (i0 : string) (u : JobUpdates) (now : Z) (jobs : Jobs) (i : string) :
  getJob i (snd (updateJob i0 u now jobs))
  = match getJob i0 jobs with
    | Some job => if decide (i = i0) then Some (merge job u now) else getJob i jobs
    | None => getJob i jobs
    end.
Proof.
  unfold updateJob, getJob.
  destruct (map_get i0 jobs) as [job|] eqn:E; [|reflexivity]. cbn [snd].
  destruct (decide (i = i0)) as [->|Hne].
  - apply MemFacts.map_get_set_eq.
  - now apply MemFacts.map_get_set_ne.
Qed.

Lemma last_cons_default {A : Type} (x : A) (l : list A) (d d' : A) :
  List.last (x :: l) d = List.last (x :: l) d'.
Proof.
  revert x. induction l as [|y l IH]; intros x; [reflexivity|].
  change (List.last (y :: l) d = List.last (y :: l) d'). apply IH.
Qed.

Lemma add_logs_present {D : JsDate} (i : string) (entries : list (string * Z * Z))
    (jobs : Jobs) (job : BackportJob) :
  getJob i jobs = Some job ->
  exists job',
    getJob i (add_logs i entries jobs) = Some job' /\
    logs job' = logs job ++ map (fun e => log_entry (snd (fst e)) (fst (fst e))) entries /\
    updatedAt job' = List.last (map snd entries) (updatedAt job) /\
    same_but_log job job' /\
    forall i', i' <> i -> getJob i' (add_logs i entries jobs) = getJob i' jobs.
Proof.
  revert jobs job. induction entries as [|[[m t1] t2] entries IH]; intros jobs job Hj.
  - exists job. simpl. rewrite app_nil_r. repeat split; auto.
  - destruct (addJobLog_present i m t1 t2 jobs job Hj) as (j1 & H1 & Hl1 & Hu1 & Hs1 & Ho1).
    destruct (IH _ _ H1) as (j2 & H2 & Hl2 & Hu2 & Hs2 & Ho2).
    exists j2. split; [exact H2|]. split; [|split; [|split]].
    + rewrite Hl2, Hl1, <- app_assoc. reflexivity.
    + rewrite Hu2, Hu1. destruct entries as [|e entries]; [reflexivity|].
      cbn [map snd].
      change (List.last (snd e :: map snd entries) t2
              = List.last (snd e :: map snd entries) (updatedAt job)).
      apply last_cons_default.
    + now apply (same_but_log_trans _ j1).
    + intros i' Hne. rewrite <- (Ho1 i' Hne). exact (Ho2 i' Hne).
Qed.

End MemStoreFacts.

(** X1.  [createJob] on the in-memory store stores the record it returns
    under the new id, replacing whatever was stored under it: [getJob] on
    the id returns exactly that record, which is [pending] with an empty log;
    every other id reads as before; and [listJobs] without a limit lists the
    record exactly when it passes the filters. *)
Theorem mem_createJob_then_read (params : JobParams) (newId : string)
    (now1 now2 : Z) (jobs : MemStore.Jobs) :
  MemStore.getJob newId (snd (MemStore.createJob params newId now1 now2 jobs))
  = Some (fst (MemStore.createJob params newId now1 now2 jobs)) /\
  id (fst (MemStore.createJob params newId now1 now2 jobs)) = newId /\
  status (fst (MemStore.createJob params newId now1 now2 jobs)) = pending /\
  logs (fst (MemStore.createJob params newId now1 now2 jobs)) = [] /\
  (forall i, i <> newId ->
     MemStore.getJob i (snd (MemStore.createJob params newId now1 now2 jobs))
     = MemStore.getJob i jobs) /\
  (forall options, MemFacts.supplied_limit options = None ->
     (In (fst (MemStore.createJob params newId now1 now2 jobs))
         (MemStore.listJobs options (snd (MemStore.createJob params newId now1 now2 jobs)))
      <-> MemFacts.satisfies options (fst (MemStore.createJob params newId now1 now2 jobs)))).
Proof.
  unfold MemStore.createJob, MemStore.getJob. cbn [fst snd id status logs].
  split; [apply MemFacts.map_get_set_eq|].
  repeat (split; [reflexivity|]).
  split; [intros i Hne; now apply MemFacts.map_get_set_ne|].
  intros options Hl. rewrite MemFacts.listJobs_unfold.
  rewrite (MemFacts.limit_option_none options (or_introl Hl)).
  rewrite MemFacts.all_matching_In. split; [now intros [_ H]|].
  intros H. split; [apply MemOps.map_set_In|exact H].
Qed.

(** X2.  On the in-memory store, [addJobLog] calls for an existing job
    append their entries to the job's log in the order of the calls, each as
    "[<time>] <message>"; the earlier entries stay in front, [updatedAt]
    becomes the time of the last call, every other field of the job keeps
    its value, and no other job is changed. *)
Theorem mem_addJobLog_appends_in_order {D : JsDate} (i : string)
    (entries : list (string * Z * Z)) (jobs : MemStore.Jobs) (job : BackportJob) :
  MemStore.getJob i jobs = Some job ->
  exists job',
    MemStore.getJob i (MemOps.add_logs i entries jobs) = Some job' /\
    logs job'
    = logs job ++ map (fun e => MemOps.log_entry (snd (fst e)) (fst (fst e))) entries /\
    updatedAt job' = List.last (map snd entries) (updatedAt job) /\
    MemStoreFacts.same_but_log job job' /\
    forall i', i' <> i ->
      MemStore.getJob i' (MemOps.add_logs i entries jobs) = MemStore.getJob i' jobs.
Proof. apply MemStoreFacts.add_logs_present. Qed.

Lemma mem_addJobLog_appends_in_order_witness :
  exists job',
    MemStore.getJob "bp_100_a"
      (MemOps.add_logs (D := Examples.decimal_date) "bp_100_a"
         [("started", 5, 6); ("done", 7, 8)] Examples.mem_jobs) = Some job' /\
    logs job' = ["[5] started"; "[7] done"] /\
    updatedAt job' = 8 /\
    status job' = pending.
Proof.
  edestruct (mem_addJobLog_appends_in_order (D := Examples.decimal_date) "bp_100_a"
               [("started", 5, 6); ("done", 7, 8)] Examples.mem_jobs)
    as (job' & Hg & Hl & Hu & Hs & _); [vm_compute; reflexivity|].
  exists job'. split; [exact Hg|]. split; [exact Hl|]. split; [exact Hu|].
  destruct Hs as (_ & _ & _ & _ & _ & Hst & _). exact Hst.
Defined.


(** ** Sequences of operations on the Redis store *)

Module RedisOps.
Import RedisStore.

Inductive Op :=
| Create (params : JobParams) (newId : string) (now : Z)
| Update (i : string) (u : JobUpdates) (now : Z)
| Log (i msg : string) (now1 now2 : Z).

Section WithDate.
Context {D : JsDate}.

Definition apply (op : Op) (r : Redis) : Redis :=
  match op with
  | Create p i t => snd (createJob p i t r)
  | Update i u t => snd (updateJob i u t r)
  | Log i m t1 t2 => addJobLog i m t1 t2 r
  end.

Definition run (ops : list Op) (r : Redis) : Redis :=
  fold_left (fun s op => apply op s) ops r.

Definition add_logs (i : string) (entries : list (string * Z * Z)) (r : Redis) : Redis :=
  fold_left (fun s e => addJobLog i (fst (fst e)) (snd (fst e)) (snd e) s) entries r.

End WithDate.

(** The ids [createJob] was called with. *)
Definition created (ops : list Op) : list string :=
  omap (fun op => match op with Create _ i _ => Some i | _ => None end) ops.










(** The ids of the index, as [zrange] yields them. *)
Lemma zrange_rev_all_perm (r : Redis) :
  Permutation (zrange_rev_all JOB_INDEX r) (map fst (map_to_list (RedisFacts.index r))).
Proof.
  unfold zrange_rev_all, RedisFacts.index. apply Permutation_map.
  rewrite <- Permutation_rev. apply array_sort_perm.
Qed.

Lemma zrange_rev_all_NoDup (r : Redis) : NoDup (zrange_rev_all JOB_INDEX r).
Proof.
  eapply NoDup_Permutation_proper; [apply zrange_rev_all_perm|].
  apply NoDup_fst_map_to_list.
Qed.

Lemma zrange_rev_all_In (r : Redis) (i : string) :
  In i (zrange_rev_all JOB_INDEX r) <-> is_Some (RedisFacts.index r !! i).
Proof.
  rewrite <- list_elem_of_In, (zrange_rev_all_perm r).
  rewrite list_elem_of_fmap. split.
  - intros ([k sc] & -> & Hin). apply elem_of_map_to_list in Hin. simpl. eauto.
  - intros [sc Hi]. exists (i, sc). split; [reflexivity|].
    now apply elem_of_map_to_list.
Qed.

Lemma indexed_jobs_In (r : Redis) (j : Job) :
  In j (RedisFacts.indexed_jobs r) <->
  exists i, is_Some (RedisFacts.index r !! i) /\ getJob i r = Some j.
Proof.
  unfold RedisFacts.indexed_jobs, non_null. rewrite <- list_elem_of_In.
  rewrite list_elem_of_omap. split.
  - intros (o & Ho & ->). apply list_elem_of_In, in_map_iff in Ho as (i & Hi & Hin).
    exists i. split; [now apply zrange_rev_all_In|exact Hi].
  - intros (i & Hi & Hj). exists (Some j). split; [|reflexivity].
    apply list_elem_of_In, in_map_iff. exists i. split; [exact Hj|].
    now apply zrange_rev_all_In.
Qed.


End RedisOps.

(** ** The Redis store *)

Module RedisStoreFacts.
Import RedisStore RedisOps.

Lemma length_append (a b : string) :
  String.length (a +:+ b) = (String.length a + String.length b)%nat.
Proof.
  induction a as [|c a IH]; [reflexivity|].
  change (S (String.length (a +:+ b)) = S (String.length a + String.length b)).
  now rewrite IH.
Qed.

Lemma append_inj_r (a b s : string) : a +:+ s = b +:+ s -> a = b.
Proof.
  revert b. induction a as [|c a IH]; intros [|c' b] H.
  - reflexivity.
  - apply (f_equal String.length) in H. rewrite !length_append in H. simpl in H. lia.
  - apply (f_equal String.length) in H. rewrite !length_append in H. simpl in H. lia.
  - change (String c (a +:+ s) = String c' (b +:+ s)) in H.
    injection H as -> H. f_equal. now apply IH.
Qed.

Lemma logs_key_inj (i i' : string) : logs_key i = logs_key i' -> i = i'.
Proof.
  unfold logs_key. intros H.
  apply String.app_inj in H. now apply append_inj_r in H.
Qed.

Lemma lrange_all_rpush_eq (k v : string) (r : Redis) :
  lrange_all k (rpush k v r) = lrange_all k r ++ [v].
Proof. unfold lrange_all at 1, rpush. simpl. now rewrite lookup_insert_eq. Qed.

Lemma lrange_all_rpush_ne (k k' v : string) (r : Redis) :
  k <> k' -> lrange_all k' (rpush k v r) = lrange_all k' r.
Proof. intros H. unfold lrange_all, rpush. simpl. now rewrite lookup_insert_ne. Qed.

Lemma lrange_all_hset (k k' : string) (kv : RedisBackportJob) (r : Redis) :
  lrange_all k (hset k' kv r) = lrange_all k r.
Proof. reflexivity. Qed.

Lemma lrange_all_zadd (k k' m : string) (sc : Z) (r : Redis) :
  lrange_all k (zadd k' sc m r) = lrange_all k r.
Proof. reflexivity. Qed.

(** Two hashes that differ at most in [updatedAt]. *)
Definition same_but_updatedAt (a b : RedisBackportJob) : Prop :=
  r_id b = r_id a /\ r_repository b = r_repository a /\
  r_installationId b = r_installationId a /\ r_sourcePR b = r_sourcePR a /\
  r_targetBranch b = r_targetBranch a /\ r_status b = r_status a /\
  r_createdAt b = r_createdAt a /\ r_requestedBy b = r_requestedBy a /\
  r_commentId b = r_commentId a /\ r_resultPR b = r_resultPR a /\
  r_error b = r_error a.

Lemma same_but_updatedAt_refl (a : RedisBackportJob) : same_but_updatedAt a a.
Proof. repeat split. Qed.

Lemma same_but_updatedAt_trans (a b c : RedisBackportJob) :
  same_but_updatedAt a b -> same_but_updatedAt b c -> same_but_updatedAt a c.
Proof. unfold same_but_updatedAt. intuition congruence. Qed.

Lemma getJob_Some (i : string) (r : Redis) (job : Job) :
  getJob i r = Some job ->
  hgetall (job_key i) r = Some (data job) /\ hash_is_empty (data job) = false /\
  rlogs job = lrange_all (logs_key i) r.
Proof.
  unfold getJob. destruct (hgetall (job_key i) r) as [h|]; [|discriminate].
  destruct (hash_is_empty h) eqn:E; [discriminate|]. now intros [= <-].
Qed.

Lemma getJob_None (i : string) (r : Redis) :
  getJob i r = None ->
  default empty_hash (hgetall (job_key i) r) = empty_hash.
Proof.
  unfold getJob. destruct (hgetall (job_key i) r) as [h|]; [|reflexivity].
  destruct (hash_is_empty h) eqn:E; [|discriminate].
  intros _. simpl. now apply JobFacts.hash_is_empty_true.
Qed.

Lemma addJobLog_other {D : JsDate} (i i' msg : string) (t1 t2 : Z) (r : Redis) :
  i' <> i -> getJob i' (addJobLog i msg t1 t2 r) = getJob i' r.
Proof.
  intros Hne. unfold addJobLog, getJob.
  rewrite RedisFacts.hgetall_hset_ne, RedisFacts.hgetall_rpush;
    [|intros E; apply RedisFacts.job_key_inj in E; congruence].
  rewrite lrange_all_hset, lrange_all_rpush_ne; [reflexivity|].
  intros E. apply logs_key_inj in E. congruence.
Qed.

Lemma redis_addJobLog_present {D : JsDate} (i msg : string) (t1 t2 : Z) (r : Redis)
    (job : Job) :
  getJob i r = Some job ->
  exists job',
    getJob i (addJobLog i msg t1 t2 r) = Some job' /\
    rlogs job' = rlogs job ++ [MemOps.log_entry t1 msg] /\
    r_updatedAt (data job') = Some t2 /\
    same_but_updatedAt (data job) (data job').
Proof.
  intros Hj. apply getJob_Some in Hj as (Hh & Hne & Hl).
  unfold addJobLog, getJob. rewrite RedisFacts.hgetall_hset_eq, RedisFacts.hgetall_rpush, Hh.
  simpl default. set (h := hash_merge _ _).
  assert (Hu : r_updatedAt h = Some t2) by (subst h; simpl; apply JobFacts.some_union).
  rewrite (JobFacts.updatedAt_not_empty h t2 Hu).
  eexists. split; [reflexivity|]. simpl.
  split; [rewrite lrange_all_hset, lrange_all_rpush_eq, Hl; reflexivity|].
  split; [exact Hu|].
  subst h. unfold same_but_updatedAt. simpl. rewrite !JobFacts.none_union.
  repeat split.
Qed.

Lemma redis_add_logs_present {D : JsDate} (i : string) (entries : list (string * Z * Z))
    (r : Redis) (job : Job) :
  getJob i r = Some job ->
  exists job',
    getJob i (add_logs i entries r) = Some job' /\
    rlogs job'
    = rlogs job ++ map (fun e => MemOps.log_entry (snd (fst e)) (fst (fst e))) entries /\
    r_updatedAt (data job')
    = List.last (map (fun e => Some (snd e)) entries) (r_updatedAt (data job)) /\
    same_but_updatedAt (data job) (data job') /\
    forall i', i' <> i -> getJob i' (add_logs i entries r) = getJob i' r.
Proof.
  revert r job. induction entries as [|[[m t1] t2] entries IH]; intros r job Hj.
  - exists job. simpl. rewrite app_nil_r. repeat split; auto.
  - destruct (redis_addJobLog_present i m t1 t2 r job Hj) as (j1 & H1 & Hl1 & Hu1 & Hs1).
    destruct (IH _ _ H1) as (j2 & H2 & Hl2 & Hu2 & Hs2 & Ho2).
    exists j2. split; [exact H2|]. split; [|split; [|split]].
    + rewrite Hl2, Hl1, <- app_assoc. reflexivity.
    + rewrite Hu2, Hu1. destruct entries as [|e entries]; [reflexivity|].
      cbn [map snd].
      change (List.last (Some (snd e) :: map (fun e => Some (snd e)) entries) (Some t2)
              = List.last (Some (snd e) :: map (fun e => Some (snd e)) entries)
                  (r_updatedAt (data job))).
      apply MemStoreFacts.last_cons_default.
    + now apply (same_but_updatedAt_trans _ (data j1)).
    + intros i' Hne. rewrite <- (addJobLog_other i i' m t1 t2 r Hne). exact (Ho2 i' Hne).
Qed.

Lemma createJob_fresh (params : JobParams) (newId : string) (now : Z) (r : Redis) :
  getJob newId r = None ->
  lrange_all (logs_key newId) r = [] ->
  getJob newId (snd (createJob params newId now r))
  = Some {| data := jobToRedis (fst (createJob params newId now r)); rlogs := [] |}.
Proof.
  intros Hn Hl. unfold createJob, getJob. cbn [fst snd id].
  rewrite RedisFacts.hgetall_zadd, RedisFacts.hgetall_hset_eq, (getJob_None _ _ Hn).
  rewrite lrange_all_zadd, lrange_all_hset, Hl.
  unfold hash_merge, jobToRedis, empty_hash. simpl.
  now destruct (p_resultPR params), (p_error params).
Qed.

Lemma createJob_other (params : JobParams) (newId : string) (now : Z) (r : Redis)
    (i : string) :
  i <> newId -> getJob i (snd (createJob params newId now r)) = getJob i r.
Proof.
  intros Hne. unfold createJob, getJob. cbn [fst snd id].
  rewrite RedisFacts.hgetall_zadd, RedisFacts.hgetall_hset_ne;
    [|intros E; apply RedisFacts.job_key_inj in E; congruence].
  now rewrite lrange_all_zadd, lrange_all_hset.
Qed.

Lemma createJob_index (params : JobParams) (newId : string) (now : Z) (r : Redis) :
  RedisFacts.index (snd (createJob params newId now r))
  = <[newId := now]> (RedisFacts.index r).
Proof.
  unfold createJob. cbn [fst snd id].
  now rewrite RedisFacts.index_zadd, RedisFacts.index_hset.
Qed.

Lemma createJob_lrange (params : JobParams) (newId : string) (now : Z) (r : Redis)
    (k : string) :
  lrange_all k (snd (createJob params newId now r)) = lrange_all k r.
Proof. reflexivity. Qed.

Lemma updateJob_absent (i : string) (u : JobUpdates) (now : Z) (r : Redis) :
  getJob i r = None -> updateJob i u now r = (None, r).
Proof.
  unfold getJob, updateJob.
  destruct (hgetall (job_key i) r) as [h|]; [|reflexivity].
  destruct (hash_is_empty h); [reflexivity|discriminate].
Qed.

Lemma updateJob_present (i : string) (u : JobUpdates) (now : Z) (r : Redis) (job : Job) :
  getJob i r = Some job ->
  snd (updateJob i u now r) = hset (job_key i) (merge (data job) u now) r /\
  getJob i (snd (updateJob i u now r))
  = Some {| data := merge (data job) u now; rlogs := rlogs job |}.
Proof.
  intros Hj. apply getJob_Some in Hj as (Hh & Hne & Hl).
  unfold updateJob. rewrite Hh, Hne. cbn [snd]. split; [reflexivity|].
  unfold getJob. rewrite RedisFacts.hgetall_hset_eq, Hh. simpl default.
  rewrite RedisFacts.hash_merge_merge, RedisFacts.merge_not_empty.
  unfold jobFromRedis. now rewrite lrange_all_hset, Hl.
Qed.

End RedisStoreFacts.

(** X4.  [createJob] on the Redis store, for an id under which the store
    holds neither a record nor log entries: [getJob] on the id then returns
    the numbers, the status and the dates of the record [createJob] returned
    and an empty log, and each text field as the client deserialises the
    text written, which is the text itself when it is no JSON text; the id is
    in the time-ordered index with the creation time as its score; and every
    other id reads as before. *)
Theorem redis_createJob_then_read (params : JobParams) (newId : string) (now : Z)
    (r : RedisStore.Redis) :
  RedisClient.getJob newId r = None ->
  RedisStore.lrange_all (RedisStore.logs_key newId) r = [] ->
  RedisClient.getJob newId (snd (RedisStore.createJob params newId now r))
  = Some {| RedisClient.c_data :=
              RedisClient.read
                (RedisStore.jobToRedis (fst (RedisStore.createJob params newId now r)));
            RedisClient.c_logs := [] |} /\
  (ClientFacts.plain newId -> ClientFacts.plain (p_repository params) ->
   ClientFacts.plain (p_targetBranch params) -> ClientFacts.plain (p_requestedBy params) ->
   ClientFacts.plain_opt (p_error params) ->
   RedisClient.getJob newId (snd (RedisStore.createJob params newId now r))
   = Some {| RedisClient.c_data :=
               ClientFacts.written
                 (RedisStore.jobToRedis (fst (RedisStore.createJob params newId now r)));
             RedisClient.c_logs := [] |}) /\
  status (fst (RedisStore.createJob params newId now r)) = pending /\
  RedisFacts.index (snd (RedisStore.createJob params newId now r)) !! newId = Some now /\
  In newId
     (RedisStore.zrange_rev_all RedisStore.JOB_INDEX
        (snd (RedisStore.createJob params newId now r))) /\
  (forall i, i <> newId ->
     RedisClient.getJob i (snd (RedisStore.createJob params newId now r))
     = RedisClient.getJob i r).
Proof.
  intros Hn Hl. apply ClientFacts.client_getJob_None in Hn.
  assert (Hg : RedisClient.getJob newId (snd (RedisStore.createJob params newId now r))
               = Some {| RedisClient.c_data :=
                           RedisClient.read
                             (RedisStore.jobToRedis
                                (fst (RedisStore.createJob params newId now r)));
                         RedisClient.c_logs := [] |}).
  { rewrite ClientReads.getJob_handed_out.
    now rewrite (RedisStoreFacts.createJob_fresh params newId now r Hn Hl). }
  split; [exact Hg|]. split.
  { intros P1 P2 P3 P4 P5. rewrite Hg. f_equal. f_equal.
    apply ClientFacts.read_plain. now repeat split. }
  split; [reflexivity|].
  assert (Hi : RedisFacts.index (snd (RedisStore.createJob params newId now r)) !! newId
               = Some now).
  { unfold RedisStore.createJob. cbn [fst snd id].
    rewrite RedisFacts.index_zadd. apply lookup_insert_eq. }
  split; [exact Hi|]. split; [apply RedisOps.zrange_rev_all_In; eauto|].
  intros i Hne. rewrite !ClientReads.getJob_handed_out.
  now rewrite RedisStoreFacts.createJob_other.
Qed.

Lemma redis_createJob_then_read_witness :
  RedisClient.getJob "bp_400_d"
    (snd (RedisStore.createJob (Examples.some_params "acme/app") "bp_400_d" 400
            Examples.redis_jobs))
  = Some {| RedisClient.c_data :=
              ClientFacts.written
                (RedisStore.jobToRedis
                   (fst (RedisStore.createJob (Examples.some_params "acme/app") "bp_400_d"
                           400 Examples.redis_jobs)));
            RedisClient.c_logs := [] |}.
Proof.
  edestruct (redis_createJob_then_read (Examples.some_params "acme/app") "bp_400_d" 400
               Examples.redis_jobs) as (_ & H & _);
    [vm_compute; reflexivity | vm_compute; reflexivity |].
  apply H; vm_compute; first [reflexivity | exact I].
Defined.

(** X5.  On the Redis store, [addJobLog] calls for an existing job append
    their entries to the job's log list in the order of the calls, each as
    "[<time>] <message>"; the earlier entries stay in front, [updatedAt]
    becomes the time of the last call, every other field of the record keeps
    its value, and no other job is changed. *)
Theorem redis_addJobLog_appends_in_order {D : JsDate} (i : string)
    (entries : list (string * Z * Z)) (r : RedisStore.Redis) (job : RedisStore.Job) :
  RedisStore.getJob i r = Some job ->
  exists job',
    RedisStore.getJob i (RedisOps.add_logs i entries r) = Some job' /\
    RedisStore.rlogs job'
    = RedisStore.rlogs job
      ++ map (fun e => MemOps.log_entry (snd (fst e)) (fst (fst e))) entries /\
    RedisStore.r_updatedAt (RedisStore.data job')
    = List.last (map (fun e => Some (snd e)) entries)
        (RedisStore.r_updatedAt (RedisStore.data job)) /\
    RedisStoreFacts.same_but_updatedAt (RedisStore.data job) (RedisStore.data job') /\
    forall i', i' <> i ->
      RedisStore.getJob i' (RedisOps.add_logs i entries r) = RedisStore.getJob i' r.
Proof. apply RedisStoreFacts.redis_add_logs_present. Qed.

Lemma redis_addJobLog_appends_in_order_witness :
  exists job',
    RedisStore.getJob "bp_100_a"
      (RedisOps.add_logs (D := Examples.decimal_date) "bp_100_a"
         [("started", 5, 6); ("done", 7, 8)] Examples.redis_jobs) = Some job' /\
    RedisStore.rlogs job' = ["[5] started"; "[7] done"] /\
    RedisStore.r_updatedAt (RedisStore.data job') = Some 8 /\
    RedisStore.r_status (RedisStore.data job') = Some pending.
Proof.
  edestruct (redis_addJobLog_appends_in_order (D := Examples.decimal_date) "bp_100_a"
               [("started", 5, 6); ("done", 7, 8)] Examples.redis_jobs)
    as (job' & Hg & Hl & Hu & Hs & _); [vm_compute; reflexivity|].
  exists job'. split; [exact Hg|]. split; [exact Hl|]. split; [exact Hu|].
  destruct Hs as (_ & _ & _ & _ & _ & Hst & _). exact Hst.
Defined.


(** ** The two stores side by side *)

Module StoreAgreement.

(** The record the Redis store hands out for an in-memory record. *)
Definition to_redis_job (j : BackportJob) : RedisStore.Job :=
  {| RedisStore.data := RedisStore.jobToRedis j; RedisStore.rlogs := logs j |}.

(** The update of the in-memory store that names the same fields with the
    same values. *)
Definition of_redis_updates (u : RedisStore.JobUpdates) : MemStore.JobUpdates :=
  {| MemStore.u_repository := RedisStore.u_repository u;
     MemStore.u_installationId := RedisStore.u_installationId u;
     MemStore.u_sourcePR := RedisStore.u_sourcePR u;
     MemStore.u_targetBranch := RedisStore.u_targetBranch u;
     MemStore.u_status := RedisStore.u_status u;
     MemStore.u_updatedAt := RedisStore.u_updatedAt u;
     MemStore.u_requestedBy := RedisStore.u_requestedBy u;
     MemStore.u_commentId := RedisStore.u_commentId u;
     MemStore.u_resultPR := Some <$> RedisStore.u_resultPR u;
     MemStore.u_error := Some <$> RedisStore.u_error u;
     MemStore.u_logs := None |}.

(** A call made on both stores, with the same clock readings. *)
Inductive Op :=
| Create (params : JobParams) (newId : string) (now : Z)
| Update (i : string) (u : RedisStore.JobUpdates) (now : Z)
| Log (i msg : string) (now1 now2 : Z).

Definition mem_op (op : Op) : MemOps.Op :=
  match op with
  | Create p i t => MemOps.Create p i t t
  | Update i u t => MemOps.Update i (of_redis_updates u) t
  | Log i m t1 t2 => MemOps.Log i m t1 t2
  end.

Definition redis_op (op : Op) : RedisOps.Op :=
  match op with
  | Create p i t => RedisOps.Create p i t
  | Update i u t => RedisOps.Update i u t
  | Log i m t1 t2 => RedisOps.Log i m t1 t2
  end.

(** [createJob] with an id that is not in use, [addJobLog] for a job that
    exists, and any [updateJob]. *)
Definition admissible (op : Op) (jobs : MemStore.Jobs) : bool :=
  match op with
  | Create _ i _ => bool_decide (MemStore.getJob i jobs = None)
  | Update _ _ _ => true
  | Log i _ _ _ => bool_decide (is_Some (MemStore.getJob i jobs))
  end.

Fixpoint admissible_all {D : JsDate} (ops : list Op) (jobs : MemStore.Jobs) : bool :=
  match ops with
  | [] => true
  | op :: ops' =>
      admissible op jobs && admissible_all ops' (MemOps.apply (mem_op op) jobs)
  end.

(** The Redis store holds the jobs of the in-memory store, indexed by their
    creation time, and nothing under the keys of other ids. *)
Definition agree (jobs : MemStore.Jobs) (r : RedisStore.Redis) : Prop :=
  forall i,
    RedisStore.getJob i r = to_redis_job <$> MemStore.getJob i jobs /\
    RedisFacts.index r !! i = createdAt <$> MemStore.getJob i jobs /\
    (MemStore.getJob i jobs = None ->
     RedisStore.lrange_all (RedisStore.logs_key i) r = []).

Lemma agree_empty : agree [] RedisStore.empty_redis.
Proof.
  intros i. unfold RedisFacts.index, RedisStore.lrange_all, RedisStore.getJob,
    RedisStore.hgetall, RedisStore.empty_redis. simpl.
  rewrite !lookup_empty. simpl. now rewrite lookup_empty.
Qed.

Lemma merge_agrees (j : BackportJob) (u : RedisStore.JobUpdates) (now : Z) :
  RedisStore.merge (RedisStore.jobToRedis j) u now
  = RedisStore.jobToRedis (MemStore.merge j (of_redis_updates u) now).
Proof.
  unfold RedisStore.merge, RedisStore.jobToRedis, MemStore.merge, of_redis_updates.
  destruct u as [a1 a2 a3 a4 a5 a6 a7 a8 a9 a10]; simpl.
  rewrite ?JobFacts.none_union.
  f_equal; repeat match goal with
                  | |- context [Some ?x ∪ ?o] => rewrite (JobFacts.some_union x o)
                  | |- context [None ∪ ?o] => rewrite (JobFacts.none_union o)
                  | |- context [?a ∪ _] => destruct a; simpl
                  end; reflexivity.
Qed.

Lemma apply_agree {D : JsDate} (op : Op) (jobs : MemStore.Jobs) (r : RedisStore.Redis) :
  admissible op jobs = true -> agree jobs r ->
  agree (MemOps.apply (mem_op op) jobs) (RedisOps.apply (redis_op op) r).
Proof.
  intros Hadm Hag. destruct op as [p newId now|i0 u now|i0 m t1 t2];
    cbn [MemOps.apply RedisOps.apply mem_op redis_op admissible] in *.
  - apply bool_decide_eq_true in Hadm.
    destruct (Hag newId) as (Hg & _ & Hl). rewrite Hadm in Hg. simpl in Hg.
    specialize (Hl Hadm).
    intros i. rewrite MemStoreFacts.createJob_get, RedisStoreFacts.createJob_index,
      RedisStoreFacts.createJob_lrange.
    destruct (Hag i) as (Hgi & Hii & Hli).
    destruct (decide (i = newId)) as [->|Hne].
    + split; [exact (RedisStoreFacts.createJob_fresh p newId now r Hg Hl)|].
      split; [apply lookup_insert_eq|discriminate].
    + split; [rewrite RedisStoreFacts.createJob_other by exact Hne; exact Hgi|].
      split; [|exact Hli]. rewrite lookup_insert_ne by congruence. exact Hii.
  - destruct (Hag i0) as (Hg0 & Hi0 & Hl0).
    destruct (MemStore.getJob i0 jobs) as [job|] eqn:E; simpl in Hg0.
    + destruct (RedisStoreFacts.updateJob_present i0 u now r _ Hg0) as (Hr & Hnew).
      intros i. rewrite MemStoreFacts.updateJob_get, E.
      destruct (Hag i) as (Hgi & Hii & Hli).
      destruct (decide (i = i0)) as [->|Hni].
      * split; [|split; [|discriminate]].
        -- rewrite Hnew. simpl. unfold to_redis_job. f_equal. f_equal. apply merge_agrees.
        -- rewrite Hr, RedisFacts.index_hset, Hii, E. reflexivity.
      * rewrite Hr. split; [|split].
        -- rewrite RedisFacts.getJob_hset_ne by exact Hni. exact Hgi.
        -- rewrite RedisFacts.index_hset. exact Hii.
        -- rewrite RedisStoreFacts.lrange_all_hset. exact Hli.
    + rewrite (RedisStoreFacts.updateJob_absent i0 u now r Hg0). cbn [snd].
      intros i. rewrite MemStoreFacts.updateJob_get, E. apply Hag.
  - apply bool_decide_eq_true in Hadm as [job E].
    destruct (Hag i0) as (Hg0 & Hi0 & Hl0). rewrite E in Hg0. simpl in Hg0.
    destruct (MemStoreFacts.addJobLog_present i0 m t1 t2 jobs job E)
      as (j1 & H1 & Hlog1 & Hu1 & Hs1 & Ho1).
    intros i. destruct (Hag i) as (Hgi & Hii & Hli).
    assert (Hidx : RedisFacts.index (RedisStore.addJobLog i0 m t1 t2 r)
                   = RedisFacts.index r) by reflexivity.
    rewrite Hidx.
    destruct (decide (i = i0)) as [->|Hni].
    + rewrite H1. split; [|split; [|discriminate]].
      * pose proof (RedisStoreFacts.getJob_Some _ _ _ Hg0) as (Hh & Hne & Hlg).
        simpl in Hh, Hlg.
        unfold RedisStore.addJobLog, RedisStore.getJob.
        rewrite RedisFacts.hgetall_hset_eq, RedisFacts.hgetall_rpush, Hh.
        simpl default. set (h := RedisStore.hash_merge _ _).
        assert (Hu : RedisStore.r_updatedAt h = Some t2)
          by (subst h; simpl; apply JobFacts.some_union).
        rewrite (JobFacts.updatedAt_not_empty h t2 Hu).
        unfold RedisStore.jobFromRedis, to_redis_job. simpl fmap. f_equal. f_equal.
        -- subst h. unfold MemStore.getJob, MemStore.addJobLog in H1.
           change (MemStore.map_get i0 jobs = Some job) in E. rewrite E in H1.
           rewrite MemFacts.map_get_set_eq in H1. injection H1 as <-.
           unfold RedisStore.hash_merge, RedisStore.jobToRedis. simpl.
           rewrite !JobFacts.none_union. reflexivity.
        -- rewrite RedisStoreFacts.lrange_all_hset, RedisStoreFacts.lrange_all_rpush_eq.
           rewrite Hlog1, <- Hlg. reflexivity.
      * rewrite Hii, E. simpl. f_equal. destruct Hs1 as (_ & _ & _ & _ & _ & _ & Hc & _).
        symmetry. exact Hc.
    + rewrite (Ho1 i Hni).
      split; [rewrite RedisStoreFacts.addJobLog_other by exact Hni; exact Hgi|].
      split; [exact Hii|]. intros Hn. unfold RedisStore.addJobLog.
      rewrite RedisStoreFacts.lrange_all_hset, RedisStoreFacts.lrange_all_rpush_ne;
        [now apply Hli|].
      intros Ek. apply RedisStoreFacts.logs_key_inj in Ek. congruence.
Qed.

Lemma run_agree {D : JsDate} (ops : list Op) (jobs : MemStore.Jobs)
    (r : RedisStore.Redis) :
  admissible_all ops jobs = true -> agree jobs r ->
  agree (MemOps.run (map mem_op ops) jobs) (RedisOps.run (map redis_op ops) r).
Proof.
  revert jobs r. induction ops as [|op ops IH]; intros jobs r Hadm Hag; [exact Hag|].
  simpl in Hadm. apply andb_true_iff in Hadm as [H1 H2].
  simpl. apply IH; [exact H2|]. now apply apply_agree.
Qed.

End StoreAgreement.

(** The same calls on the Redis store as it runs. *)
Module ClientAgreement.
Import StoreAgreement ClientFacts ClientReads.

(** The job the client hands out for a record of the in-memory store. *)
Definition client_job (j : BackportJob) : RedisClient.Job :=
  as_written (to_redis_job j).

Definition plainb_opt (o : option string) : bool :=
  match o with
  | Some s => plainb s
  | None => true
  end.

Lemma plainb_opt_spec (o : option string) : plainb_opt o = true -> plain_opt o.
Proof. destruct o; simpl; [apply plainb_spec|trivial]. Qed.

Section WithDate.
Context {D : JsDate}.

(** The calls on the Redis store, as they run. *)
Definition apply (op : Op) (r : RedisStore.Redis) : RedisStore.Redis :=
  match op with
  | Create p i t => snd (RedisStore.createJob p i t r)
  | Update i u t => snd (RedisClient.updateJob i (RedisClient.typed u) t r)
  | Log i m t1 t2 => RedisStore.addJobLog i m t1 t2 r
  end.

Definition run (ops : list Op) (r : RedisStore.Redis) : RedisStore.Redis :=
  fold_left (fun s op => apply op s) ops r.

(** Every text the call writes is no JSON text. *)
Definition plain_op (op : Op) : bool :=
  match op with
  | Create p i _ =>
      plainb i && plainb (p_repository p) && plainb (p_targetBranch p)
      && plainb (p_requestedBy p) && plainb_opt (p_error p)
  | Update _ u _ =>
      plainb_opt (RedisStore.u_repository u) && plainb_opt (RedisStore.u_targetBranch u)
      && plainb_opt (RedisStore.u_requestedBy u) && plainb_opt (RedisStore.u_error u)
  | Log _ m t1 _ => plainb (MemOps.log_entry t1 m)
  end.

End WithDate.

Definition plain_job (j : BackportJob) : Prop :=
  plain (id j) /\ plain (repository j) /\ plain (targetBranch j) /\
  plain (requestedBy j) /\ plain_opt (error j) /\ Forall plain (logs j).

Definition plain_jobs (jobs : MemStore.Jobs) : Prop :=
  forall i j, MemStore.getJob i jobs = Some j -> plain_job j.

Lemma plain_job_hash (j : BackportJob) :
  plain_job j -> plain_hash (RedisStore.jobToRedis j).
Proof. intros (H1 & H2 & H3 & H4 & H5 & _). now repeat split. Qed.

Lemma client_job_plain (j : BackportJob) :
  plain_job j -> handed_out (to_redis_job j) = client_job j.
Proof.
  intros Hp. apply handed_out_plain; [now apply plain_job_hash|].
  now destruct Hp as (_ & _ & _ & _ & _ & Hl).
Qed.

Lemma apply_plain {D : JsDate} (op : Op) (jobs : MemStore.Jobs) :
  plain_op op = true -> plain_jobs jobs ->
  plain_jobs (MemOps.apply (mem_op op) jobs).
Proof.
  intros Hop Hpl. destruct op as [p newId now|i0 u now|i0 m t1 t2];
    cbn [MemOps.apply mem_op plain_op] in *.
  - rewrite !andb_true_iff in Hop. destruct Hop as ((((H1 & H2) & H3) & H4) & H5).
    apply plainb_spec in H1, H2, H3, H4. apply plainb_opt_spec in H5.
    intros i j. rewrite MemStoreFacts.createJob_get.
    destruct (decide (i = newId)) as [->|Hne]; [|apply Hpl].
    intros [= <-]. unfold MemStore.createJob. simpl. repeat split; auto.
  - rewrite !andb_true_iff in Hop. destruct Hop as (((H1 & H2) & H3) & H4).
    apply plainb_opt_spec in H1, H2, H3, H4.
    intros i j. rewrite MemStoreFacts.updateJob_get.
    destruct (MemStore.getJob i0 jobs) as [job|] eqn:E; [|apply Hpl].
    destruct (decide (i = i0)) as [->|Hne]; [|apply Hpl].
    intros [= <-]. destruct (Hpl _ _ E) as (J1 & J2 & J3 & J4 & J5 & J6).
    unfold MemStore.merge, of_redis_updates. simpl.
    repeat split; try assumption.
    + now destruct (RedisStore.u_repository u).
    + now destruct (RedisStore.u_targetBranch u).
    + now destruct (RedisStore.u_requestedBy u).
    + now destruct (RedisStore.u_error u).
  - apply plainb_spec in Hop. intros i j.
    destruct (MemStore.getJob i0 jobs) as [job|] eqn:E.
    + destruct (MemStoreFacts.addJobLog_present i0 m t1 t2 jobs job E)
        as (j1 & H1 & Hl & _ & Hs & Ho).
      destruct (decide (i = i0)) as [->|Hne]; [|rewrite (Ho i Hne); apply Hpl].
      rewrite H1. intros [= <-]. destruct (Hpl _ _ E) as (J1 & J2 & J3 & J4 & J5 & J6).
      destruct Hs as (S1 & S2 & _ & _ & S3 & _ & _ & S4 & _ & _ & S5).
      unfold plain_job. rewrite S1, S2, S3, S4, S5, Hl.
      repeat split; try assumption. apply Forall_app. split; [exact J6|].
      now repeat constructor.
    + rewrite (MemFacts.addJobLog_absent i0 m t1 t2 jobs E). apply Hpl.
Qed.

Lemma apply_typed {D : JsDate} (op : Op) (jobs : MemStore.Jobs) (r : RedisStore.Redis) :
  agree jobs r -> plain_jobs jobs -> apply op r = RedisOps.apply (redis_op op) r.
Proof.
  intros Hag Hpl. destruct op as [p newId now|i0 u now|i0 m t1 t2];
    cbn [apply RedisOps.apply redis_op]; try reflexivity.
  apply client_updateJob_typed. intros h Hh.
  destruct (Hag i0) as (Hg & _ & _).
  unfold RedisStore.getJob in Hg. rewrite Hh in Hg.
  destruct (RedisStore.hash_is_empty h) eqn:Hemp.
  - apply JobFacts.hash_is_empty_true in Hemp. subst h. now repeat split.
  - destruct (MemStore.getJob i0 jobs) as [job|] eqn:E; [|discriminate].
    simpl in Hg. injection Hg as ->. apply plain_job_hash. exact (Hpl _ _ E).
Qed.

Lemma run_typed {D : JsDate} (ops : list Op) (jobs : MemStore.Jobs)
    (r : RedisStore.Redis) :
  admissible_all ops jobs = true -> forallb plain_op ops = true ->
  agree jobs r -> plain_jobs jobs ->
  run ops r = RedisOps.run (map redis_op ops) r /\
  plain_jobs (MemOps.run (map mem_op ops) jobs).
Proof.
  revert jobs r. induction ops as [|op ops IH]; intros jobs r Hadm Hop Hag Hpl;
    [now split|].
  simpl in Hadm, Hop. apply andb_true_iff in Hadm as [A1 A2].
  apply andb_true_iff in Hop as [P1 P2].
  change (run (op :: ops) r) with (run ops (apply op r)).
  change (RedisOps.run (map redis_op (op :: ops)) r)
    with (RedisOps.run (map redis_op ops) (RedisOps.apply (redis_op op) r)).
  change (MemOps.run (map mem_op (op :: ops)) jobs)
    with (MemOps.run (map mem_op ops) (MemOps.apply (mem_op op) jobs)).
  rewrite (apply_typed op jobs r Hag Hpl).
  apply IH; [exact A2|exact P2|now apply apply_agree|now apply apply_plain].
Qed.

Lemma plain_jobs_empty : plain_jobs [].
Proof. intros i j. discriminate. Qed.

End ClientAgreement.

(** X7.  The Redis store, as it runs, and the in-memory store, taken through
    the same calls with the same clock readings from the empty store, where
    every [createJob] gets an id that is not in use, every [addJobLog] names
    a job that exists, and every text that is written (ids, repositories,
    branches, logins, error messages and log entries) is no JSON text:
    [getJob] on the Redis store returns, for every id, the fields and the log
    of the record [getJob] on the in-memory store returns, every text as a
    string, and nothing where the in-memory store has no job. *)
Theorem stores_agree_on_getJob {D : JsDate} (ops : list StoreAgreement.Op) (i : string) :
  StoreAgreement.admissible_all ops [] = true ->
  forallb ClientAgreement.plain_op ops = true ->
  RedisClient.getJob i (ClientAgreement.run ops RedisStore.empty_redis)
  = ClientAgreement.client_job
      <$> MemStore.getJob i (MemOps.run (map StoreAgreement.mem_op ops) []).
Proof.
  intros Hadm Hop.
  destruct (ClientAgreement.run_typed ops [] RedisStore.empty_redis Hadm Hop
              StoreAgreement.agree_empty ClientAgreement.plain_jobs_empty) as [-> Hpl].
  rewrite ClientReads.getJob_handed_out.
  rewrite (proj1 (StoreAgreement.run_agree ops [] RedisStore.empty_redis Hadm
                    StoreAgreement.agree_empty i)).
  destruct (MemStore.getJob i _) as [j|] eqn:E; [|reflexivity].
  simpl. f_equal. apply ClientAgreement.client_job_plain. exact (Hpl _ _ E).
Qed.

Lemma stores_agree_on_getJob_witness :
  RedisClient.getJob "bp_1_a"
    (ClientAgreement.run (D := Examples.decimal_date)
       [StoreAgreement.Create (Examples.some_params "acme/app") "bp_1_a" 1;
        StoreAgreement.Log "bp_1_a" "started" 2 3;
        StoreAgreement.Update "bp_1_a"
          (RedisStore.mkJobUpdates None None None None (Some failed) None None None
             None (Some "conflict")) 4]
       RedisStore.empty_redis)
  = ClientAgreement.client_job
      <$> MemStore.getJob "bp_1_a"
            (MemOps.run (D := Examples.decimal_date)
               (map StoreAgreement.mem_op
                  [StoreAgreement.Create (Examples.some_params "acme/app") "bp_1_a" 1;
                   StoreAgreement.Log "bp_1_a" "started" 2 3;
                   StoreAgreement.Update "bp_1_a"
                     (RedisStore.mkJobUpdates None None None None (Some failed) None None
                        None None (Some "conflict")) 4])
               []).
Proof.
  apply (stores_agree_on_getJob (D := Examples.decimal_date)).
  - vm_compute. reflexivity.
  - vm_compute. reflexivity.
Defined.

Module ListingAgreement.
Import StoreAgreement.

Lemma NoDup_map_inj_on {A B : Type} (f : A -> B) (l : list A) (x y : A) :
  NoDup (map f l) -> In x l -> In y l -> f x = f y -> x = y.
Proof.
  induction l as [|a l IH]; simpl; [intros _ []|].
  intros Hnd. apply NoDup_cons in Hnd as [Ha Hnd].
  intros [->|Hx] [->|Hy] E; auto.
  - exfalso. apply Ha. rewrite E. apply list_elem_of_In, in_map, Hy.
  - exfalso. apply Ha. rewrite <- E. apply list_elem_of_In, in_map, Hx.
Qed.

Lemma NoDup_of_map {A B : Type} (f : A -> B) (l : list A) : NoDup (map f l) -> NoDup l.
Proof.
  induction l as [|a l IH]; simpl; [intros _; apply NoDup_nil_2|].
  intros Hnd. apply NoDup_cons in Hnd as [Ha Hnd]. apply NoDup_cons.
  split; [|auto]. intros Hin. apply Ha. apply list_elem_of_In, in_map.
  now apply list_elem_of_In.
Qed.

Lemma matches_agree (options : option ListOptions) (j : BackportJob) :
  RedisFacts.matches options (to_redis_job j) = MemFacts.matches options j.
Proof. reflexivity. Qed.

(** The in-memory records of the indexed ids, in index order. *)
Definition indexed (jobs : MemStore.Jobs) (r : RedisStore.Redis) : list BackportJob :=
  omap (fun i => MemStore.getJob i jobs)
       (RedisStore.zrange_rev_all RedisStore.JOB_INDEX r).

Lemma indexed_jobs_agree (jobs : MemStore.Jobs) (r : RedisStore.Redis) :
  agree jobs r -> RedisFacts.indexed_jobs r = map to_redis_job (indexed jobs r).
Proof.
  intros Hag. unfold RedisFacts.indexed_jobs, RedisStore.non_null, indexed.
  induction (RedisStore.zrange_rev_all RedisStore.JOB_INDEX r) as [|i l IH];
    [reflexivity|].
  simpl. destruct (Hag i) as (-> & _ & _).
  destruct (MemStore.getJob i jobs) as [j|]; simpl; [f_equal|]; exact IH.
Qed.

Lemma indexed_In (jobs : MemStore.Jobs) (r : RedisStore.Redis) (j : BackportJob) :
  agree jobs r -> MemOps.well_keyed jobs ->
  In j (indexed jobs r) <-> In j (MemStore.map_values jobs).
Proof.
  intros Hag Hw. unfold indexed. rewrite <- list_elem_of_In, list_elem_of_omap. split.
  - intros (i & _ & Hj). exact (proj2 (MemOps.map_get_Some_key _ _ _ Hw Hj)).
  - intros Hin. exists (id j).
    pose proof (MemOps.well_keyed_get _ _ Hw Hin) as Hg.
    split; [|exact Hg].
    apply list_elem_of_In, RedisOps.zrange_rev_all_In.
    destruct (Hag (id j)) as (_ & -> & _).
    change (MemStore.getJob (id j) jobs = Some j) in Hg. rewrite Hg. simpl. eauto.
Qed.

Lemma indexed_sorted (jobs : MemStore.Jobs) (r : RedisStore.Redis) :
  agree jobs r -> StronglySorted MemFacts.newest_first (indexed jobs r).
Proof.
  intros Hag. unfold indexed, RedisStore.zrange_rev_all.
  rewrite omap_map.
  eapply omap_StronglySorted; [|apply (RedisFacts.zrange_pairs_sorted (RedisFacts.index r))].
  intros a a' j j' Ha Ha' Hle Hj Hj'.
  apply RedisFacts.zrange_pairs_lookup in Ha, Ha'.
  change (RedisFacts.index r !! fst a = Some (snd a)) in Ha.
  change (RedisFacts.index r !! fst a' = Some (snd a')) in Ha'.
  destruct (Hag (fst a)) as (_ & Hi & _), (Hag (fst a')) as (_ & Hi' & _).
  rewrite Ha, Hj in Hi. rewrite Ha', Hj' in Hi'. simpl in Hi, Hi'.
  injection Hi as Hi. injection Hi' as Hi'.
  unfold MemFacts.newest_first. simpl in Hle. lia.
Qed.

Lemma indexed_NoDup (jobs : MemStore.Jobs) (r : RedisStore.Redis) :
  MemOps.well_keyed jobs -> NoDup (indexed jobs r).
Proof.
  intros Hw. unfold indexed.
  pose proof (RedisOps.zrange_rev_all_NoDup r) as Hnd.
  induction (RedisStore.zrange_rev_all RedisStore.JOB_INDEX r) as [|i l IH];
    simpl; [apply NoDup_nil_2|].
  apply NoDup_cons in Hnd as [Hi Hnd].
  destruct (MemStore.getJob i jobs) as [j|] eqn:E; [|auto].
  apply NoDup_cons. split; [|auto].
  intros Hin. apply list_elem_of_omap in Hin as (i' & Hi' & Hj').
  destruct (MemOps.map_get_Some_key _ _ _ Hw E) as [<- _].
  destruct (MemOps.map_get_Some_key _ _ _ Hw Hj') as [<- _].
  contradiction.
Qed.

Lemma listJobs_agree (jobs : MemStore.Jobs) (r : RedisStore.Redis)
    (options : option ListOptions) (n : Z) :
  agree jobs r -> MemOps.well_keyed jobs ->
  NoDup (map createdAt (MemStore.map_values jobs)) ->
  MemFacts.supplied_limit options = Some n -> 0 < n ->
  RedisStore.listJobs options r = map to_redis_job (MemStore.listJobs options jobs).
Proof.
  intros Hag Hw Hnd Hl Hn.
  rewrite RedisFacts.redis_listJobs_unfold, MemFacts.listJobs_unfold.
  rewrite (RedisFacts.effective_limit_positive _ _ Hl Hn).
  rewrite (MemFacts.limit_option_positive _ _ Hl Hn).
  rewrite !slice0_positive by exact Hn. rewrite <- firstn_map. f_equal.
  unfold RedisFacts.all_matching. fold (RedisFacts.indexed_jobs r).
  rewrite (indexed_jobs_agree jobs r Hag), filter_map_swap.
  f_equal.
  assert (Hperm : Permutation (indexed jobs r) (MemStore.map_values jobs)).
  { apply NoDup_Permutation; [now apply indexed_NoDup|now apply NoDup_of_map in Hnd|].
    intros j. rewrite !list_elem_of_In. now apply indexed_In. }
  apply (StronglySorted_unique_strong MemFacts.newest_first).
  - intros x1 x2 H1 H2 H12 H21.
    apply list_elem_of_In, List.filter_In in H1 as [H1 _].
    apply list_elem_of_In, MemFacts.all_matching_In in H2 as [H2 _].
    apply (Permutation_in _ Hperm) in H1.
    apply (NoDup_map_inj_on createdAt _ _ _ Hnd H1 H2).
    unfold MemFacts.newest_first in *. lia.
  - apply filter_StronglySorted. now apply indexed_sorted.
  - apply MemFacts.all_matching_sorted.
  - rewrite MemFacts.all_matching_perm. apply MemFacts.filter_perm, Hperm.
Qed.

End ListingAgreement.

(** [listJobs] on the Redis store as it runs. *)
Module ClientListing.
Import RedisStore ClientFacts ClientReads.

Lemma non_null_fmap (l : list (option RedisStore.Job)) :
  RedisClient.non_null (map (fmap handed_out) l) = map handed_out (RedisStore.non_null l).
Proof.
  unfold RedisClient.non_null, RedisStore.non_null.
  induction l as [|[x|] l IH]; simpl; [reflexivity|f_equal|]; exact IH.
Qed.

Lemma slice0_map {A B : Type} (f : A -> B) (l : list A) (e : Z) :
  slice0 (map f l) e = map f (slice0 l e).
Proof. unfold slice0. rewrite length_map. destruct (e <? 0); apply firstn_map. Qed.

Lemma is_string_read (h : RedisBackportJob) (x : string) :
  plain_opt (r_repository h) ->
  RedisClient.is_string (RedisClient.d_repository (RedisClient.read h)) x
  = is_some_eqb String.eqb (r_repository h) x.
Proof.
  unfold RedisClient.read. simpl. destruct (r_repository h) as [s|]; simpl; [|reflexivity].
  intros Hs. now rewrite (deserialize_plain s Hs).
Qed.

Lemma filter_repository_handed_out (f : option string) (l : list RedisStore.Job) :
  (forall j, In j l -> plain_opt (r_repository (data j))) ->
  RedisClient.filter_repository f (map handed_out l)
  = map handed_out (RedisStore.filter_repository f l).
Proof.
  intros Hl. destruct f as [x|]; [|reflexivity]. simpl.
  rewrite filter_map_swap. f_equal. apply List.filter_ext_in.
  intros j Hj. apply is_string_read. now apply Hl.
Qed.

Lemma filter_status_handed_out (f : option Status) (l : list RedisStore.Job) :
  RedisClient.filter_status f (map handed_out l)
  = map handed_out (RedisStore.filter_status f l).
Proof. destruct f as [x|]; [|reflexivity]. simpl. now rewrite filter_map_swap. Qed.

Lemma ids_plain (ids : list string) (r : Redis) :
  (forall i, In i ids -> plain i) ->
  map (fun v => RedisClient.getJob (Json.to_text v) r) (map RedisClient.parseResponse ids)
  = map (fmap handed_out) (map (fun i => RedisStore.getJob i r) ids).
Proof.
  induction ids as [|i ids IH]; intros Hp; [reflexivity|].
  simpl. rewrite (parseResponse_plain i (Hp i (or_introl eq_refl))).
  simpl. rewrite getJob_handed_out. f_equal. apply IH. intros i' Hi'. apply Hp. now right.
Qed.

Lemma filters_nil_typed (f : option string) (g : option Status) :
  RedisStore.filter_status g (RedisStore.filter_repository f []) = [].
Proof. now destruct f, g. Qed.

Lemma filters_nil (f : option string) (g : option Status) :
  RedisClient.filter_status g (RedisClient.filter_repository f []) = [].
Proof. now destruct f, g. Qed.

Lemma typed_listJobs_unfold (options : option ListOptions) (r : Redis) :
  RedisStore.listJobs options r
  = slice0
      (RedisStore.filter_status (status_filter options)
         (RedisStore.filter_repository (repository_filter options)
            (RedisStore.non_null
               (map (fun i => RedisStore.getJob i r)
                  (RedisStore.zrange_rev_all JOB_INDEX r)))))
      (effective_limit options).
Proof.
  unfold RedisStore.listJobs.
  destruct (RedisStore.zrange_rev_all JOB_INDEX r) as [|i ids]; [|reflexivity].
  simpl map. unfold RedisStore.non_null. simpl omap.
  now rewrite filters_nil_typed, RedisFacts.slice0_nil.
Qed.

Lemma client_listJobs_unfold (options : option ListOptions) (r : Redis) :
  RedisClient.listJobs options r
  = slice0
      (RedisClient.filter_status (status_filter options)
         (RedisClient.filter_repository (repository_filter options)
            (RedisClient.non_null
               (map (fun v => RedisClient.getJob (Json.to_text v) r)
                  (RedisClient.zrange_rev_all JOB_INDEX r)))))
      (effective_limit options).
Proof.
  unfold RedisClient.listJobs.
  destruct (RedisClient.zrange_rev_all JOB_INDEX r) as [|i ids]; [|reflexivity].
  simpl map. unfold RedisClient.non_null. simpl omap.
  now rewrite filters_nil, RedisFacts.slice0_nil.
Qed.

(** When the ids of the index and the repositories of its jobs are no JSON
    texts, the listing through the client is the listing at the declared
    types, each job as the client hands it out. *)
Lemma listJobs_handed_out (options : option ListOptions) (r : Redis) :
  (forall i, In i (RedisStore.zrange_rev_all JOB_INDEX r) -> plain i) ->
  (forall j, In j (RedisFacts.indexed_jobs r) -> plain_opt (r_repository (data j))) ->
  RedisClient.listJobs options r = map handed_out (RedisStore.listJobs options r).
Proof.
  intros Hids Hrepo. rewrite client_listJobs_unfold, typed_listJobs_unfold.
  unfold RedisClient.zrange_rev_all. unfold RedisFacts.indexed_jobs in Hrepo.
  rewrite (ids_plain _ r Hids), non_null_fmap.
  rewrite (filter_repository_handed_out _ _ Hrepo), filter_status_handed_out.
  apply slice0_map.
Qed.

End ClientListing.

(** X8.  Under the conditions of X7 and when no two jobs were created at the
    same time, [listJobs] with a positive limit returns on the Redis store,
    as it runs, the records it returns on the in-memory store, in the same
    order. *)
Theorem stores_agree_on_listJobs {D : JsDate} (ops : list StoreAgreement.Op)
    (options : option ListOptions) (n : Z) :
  StoreAgreement.admissible_all ops [] = true ->
  forallb ClientAgreement.plain_op ops = true ->
  NoDup (map createdAt
           (MemStore.map_values (MemOps.run (map StoreAgreement.mem_op ops) []))) ->
  MemFacts.supplied_limit options = Some n -> 0 < n ->
  RedisClient.listJobs options (ClientAgreement.run ops RedisStore.empty_redis)
  = map ClientAgreement.client_job
      (MemStore.listJobs options (MemOps.run (map StoreAgreement.mem_op ops) [])).
Proof.
  intros Hadm Hop Hnd Hl Hn.
  destruct (ClientAgreement.run_typed ops [] RedisStore.empty_redis Hadm Hop
              StoreAgreement.agree_empty ClientAgreement.plain_jobs_empty) as [-> Hpl].
  pose proof (StoreAgreement.run_agree ops [] RedisStore.empty_redis Hadm
                StoreAgreement.agree_empty) as Hag.
  pose proof (MemOps.run_well_keyed (map StoreAgreement.mem_op ops) []
                MemOps.empty_well_keyed) as Hw.
  set (jobs := MemOps.run (map StoreAgreement.mem_op ops) []) in *.
  set (r := RedisOps.run (map StoreAgreement.redis_op ops) RedisStore.empty_redis) in *.
  assert (Hstored : forall i j, RedisStore.getJob i r = Some j ->
            exists j0, MemStore.getJob i jobs = Some j0 /\
                       j = StoreAgreement.to_redis_job j0).
  { intros i j Hj. destruct (Hag i) as (Hg & _ & _). rewrite Hj in Hg.
    destruct (MemStore.getJob i jobs) as [j0|]; [|discriminate].
    injection Hg as ->. eauto. }
  rewrite ClientListing.listJobs_handed_out.
  - rewrite (ListingAgreement.listJobs_agree jobs r options n Hag Hw Hnd Hl Hn).
    rewrite map_map. apply map_ext_in. intros j Hj.
    apply ClientAgreement.client_job_plain.
    rewrite MemFacts.listJobs_unfold in Hj.
    assert (Hin : In j (MemStore.map_values jobs)).
    { destruct (limit_option options) as [k|];
        [apply MemOps.In_slice0 in Hj|];
        exact (proj1 (proj1 (MemFacts.all_matching_In _ _ _) Hj)). }
    exact (Hpl _ _ (MemOps.well_keyed_get _ _ Hw Hin)).
  - intros i Hi. apply RedisOps.zrange_rev_all_In in Hi as [sc Hi].
    destruct (Hag i) as (_ & Hix & _). rewrite Hi in Hix.
    destruct (MemStore.getJob i jobs) as [j0|] eqn:E; [|discriminate].
    destruct (MemOps.map_get_Some_key _ _ _ Hw E) as [<- _].
    exact (proj1 (Hpl _ _ E)).
  - intros j Hj. apply RedisOps.indexed_jobs_In in Hj as (i & _ & Hg).
    destruct (Hstored i j Hg) as (j0 & E & ->). simpl.
    exact (proj1 (proj2 (Hpl _ _ E))).
Qed.

Lemma stores_agree_on_listJobs_witness :
  RedisClient.listJobs (Examples.limit_only 2)
    (ClientAgreement.run (D := Examples.decimal_date)
       [StoreAgreement.Create (Examples.some_params "acme/app") "bp_1_a" 1;
        StoreAgreement.Create (Examples.some_params "acme/lib") "bp_3_c" 3;
        StoreAgreement.Log "bp_1_a" "started" 4 5;
        StoreAgreement.Create (Examples.some_params "acme/app") "bp_2_b" 2]
       RedisStore.empty_redis)
  = map ClientAgreement.client_job
      (MemStore.listJobs (Examples.limit_only 2)
         (MemOps.run (D := Examples.decimal_date)
            (map StoreAgreement.mem_op
               [StoreAgreement.Create (Examples.some_params "acme/app") "bp_1_a" 1;
                StoreAgreement.Create (Examples.some_params "acme/lib") "bp_3_c" 3;
                StoreAgreement.Log "bp_1_a" "started" 4 5;
                StoreAgreement.Create (Examples.some_params "acme/app") "bp_2_b" 2])
            [])).
Proof.
  apply (stores_agree_on_listJobs (D := Examples.decimal_date) _ _ 2).
  - vm_compute. reflexivity.
  - vm_compute. reflexivity.
  - apply (bool_decide_unpack _). vm_compute. exact I.
  - reflexivity.
  - lia.
Defined.

(** ** Generated job ids *)

Module IdFacts.

Fixpoint has_char (c : ascii) (s : string) : bool :=
  match s with
  | EmptyString => false
  | String c' s' => Ascii.eqb c' c || has_char c s'
  end.

Lemma split_at_first (c : ascii) (a b r1 r2 : string) :
  has_char c a = false -> has_char c b = false ->
  a +:+ String c r1 = b +:+ String c r2 -> a = b /\ r1 = r2.
Proof.
  revert b. induction a as [|x a IH]; intros [|y b]; simpl; intros Ha Hb E.
  - now injection E as ->.
  - change (String c r1 = String y (b +:+ String c r2)) in E. injection E as -> _.
    now rewrite Ascii.eqb_refl in Hb.
  - change (String x (a +:+ String c r1) = String c r2) in E. injection E as -> _.
    now rewrite Ascii.eqb_refl in Ha.
  - change (String x (a +:+ String c r1) = String y (b +:+ String c r2)) in E.
    injection E as -> E.
    apply orb_false_iff in Ha as [_ Ha]. apply orb_false_iff in Hb as [_ Hb].
    destruct (IH b Ha Hb E) as [-> ->]. auto.
Qed.

Lemma uint_no_underscore (d : Decimal.uint) :
  has_char "_" (NilEmpty.string_of_uint d) = false.
Proof. induction d; simpl; auto. Qed.

Lemma number_no_underscore (n : Z) : has_char "_" (js_number_to_string n) = false.
Proof.
  unfold js_number_to_string, NilZero.string_of_int, NilZero.string_of_uint.
  destruct (Z.to_int n) as [d|d]; destruct d; simpl; auto using uint_no_underscore.
Qed.

Lemma js_number_to_string_inj (n m : Z) :
  js_number_to_string n = js_number_to_string m -> n = m.
Proof.
  unfold js_number_to_string. intros E.
  assert (Hn : forall z, Z.to_int z <> Decimal.Pos Decimal.Nil /\
                         Z.to_int z <> Decimal.Neg Decimal.Nil).
  { intros [|p|p]; simpl; split; try discriminate;
      intros [= H]; now apply Unsigned.to_uint_nonnil in H. }
  apply (f_equal NilZero.int_of_string) in E.
  rewrite !NilZero.isi in E by apply Hn.
  injection E as E. apply (f_equal Z.of_int) in E. now rewrite !DecimalZ.of_to in E.
Qed.

End IdFacts.

(** X9.  [generateJobId] yields different ids for different pairs of a clock
    reading and a random suffix: the id determines both.  (The clock reading
    is an integer that prints in plain decimal, as every [Date.now()] does.)
    The two stores generate their ids alike. *)
Theorem generateJobId_determines_its_inputs (now now' : Z) (rand rand' : string) :
  0 <= now < 10 ^ 21 -> 0 <= now' < 10 ^ 21 ->
  MemStore.generateJobId now rand = MemStore.generateJobId now' rand' ->
  now = now' /\ rand = rand' /\
  RedisStore.generateJobId now rand = MemStore.generateJobId now rand.
Proof.
  intros _ _ E. unfold MemStore.generateJobId in E.
  apply String.app_inj in E.
  apply IdFacts.split_at_first in E as [E ->];
    try apply IdFacts.number_no_underscore.
  apply IdFacts.js_number_to_string_inj in E. auto.
Qed.

Lemma generateJobId_determines_its_inputs_witness :
  MemStore.generateJobId 1700000000000 "k3j9x2a" = "bp_1700000000000_k3j9x2a" /\
  (1700000000000 = 1700000000000 /\ "k3j9x2a" = "k3j9x2a" /\
   RedisStore.generateJobId 1700000000000 "k3j9x2a"
   = MemStore.generateJobId 1700000000000 "k3j9x2a").
Proof.
  split; [vm_compute; reflexivity|].
  apply (generateJobId_determines_its_inputs 1700000000000 1700000000000
           "k3j9x2a" "k3j9x2a"); [lia | lia | reflexivity].
Defined.

(** ** Runs of the workflow as the source ships it *)

Module PlaceholderFacts.
Import Workflow.

Definition not_implemented : string :=
  "Backport execution not yet implemented (coming in Phase 6)".

(** What a run with the placeholder [performBackport] comes to. *)
Definition outcome_of_placeholder (h : list Call) (o : Outcome BackportResult)
    (s' : RunState) : Prop :=
  (forall r, o = Returns r -> r = mkResult false None (Some not_implemented)) /\
  journal s' !! CreateBackportPR = None /\
  journal s' !! ReportSuccess = None /\
  StepFacts.sent (fun c => StepFacts.is_pulls_create c = false) h (calls s').

Ltac step_sent E lemma :=
  eapply StepFacts.attempt_sent; [|exact E];
  intros; eapply lemma; eassumption.

Lemma placeholder_run {D : JsDate} (maxRetries : nat) (clock : nat -> Z)
    (octo : Collaborator) (params : BackportParams) (st : JobStore) (h : list Call) :
  exists o s',
    backportPullRequest maxRetries clock octo params None (start st h)
    = Finished o s' None /\
    outcome_of_placeholder h o s'.
Proof.
  unfold backportPullRequest, backportPullRequest_with, mbind, M_bind,
    outcome_of_placeholder.
  destruct (attempt maxRetries
              (acknowledgeRequest octo (bp_installationId params)
                 (bp_repository params) (bp_commentId params)) h)
    as [[x1 h1] n1] eqn:E1.
  assert (S1 : StepFacts.sent (fun c => StepFacts.is_pulls_create c = false) h h1)
    by step_sent E1 StepFacts.acknowledgeRequest_sent.
  destruct x1 as [[]|t1].
  2:{ eexists _, _. split.
      { erewrite StepFacts.try_catch_throws; cycle 1.
        { run_failing_step E1. }
        state_normal. run_tail. reflexivity. }
      split; [intros r [=]|]. split; [fresh_lookup|]. split; [fresh_lookup|].
      exact S1. }
  destruct (attempt maxRetries
              (fetchPRDetails octo (bp_installationId params)
                 (bp_repository params) (prNumber params)) h1)
    as [[x2 h2] n2] eqn:E2.
  assert (S2 : StepFacts.sent (fun c => StepFacts.is_pulls_create c = false) h h2).
  { eapply StepFacts.sent_trans; [exact S1|].
    step_sent E2 StepFacts.fetchPRDetails_sent. }
  destruct x2 as [d|t2].
  2:{ eexists _, _. split.
      { erewrite StepFacts.try_catch_throws; cycle 1.
        { run_step E1. run_logs. run_failing_step E2. }
        state_normal. run_tail. reflexivity. }
      split; [intros r [=]|]. split; [fresh_lookup|]. split; [fresh_lookup|].
      exact S2. }
  destruct (attempt maxRetries
              (validateTargetBranch octo (bp_installationId params)
                 (bp_repository params) (bp_targetBranch params)) h2)
    as [[x3 h3] n3] eqn:E3.
  assert (S3 : StepFacts.sent (fun c => StepFacts.is_pulls_create c = false) h h3).
  { eapply StepFacts.sent_trans; [exact S2|].
    step_sent E3 StepFacts.validateTargetBranch_sent. }
  destruct x3 as [[]|t3].
  2:{ eexists _, _. split.
      { erewrite StepFacts.try_catch_throws; cycle 1.
        { run_step E1. run_logs. run_step E2. run_logs. run_failing_step E3. }
        state_normal. run_tail. reflexivity. }
      split; [intros r [=]|]. split; [fresh_lookup|]. split; [fresh_lookup|].
      exact S3. }
  pose proof (StepFacts.attempt_first_ok maxRetries
                (analyzeChanges d (bp_targetBranch params)) h3 _ h3 eq_refl) as E4.
  set (a := {| complexity := _; filesChanged := _; potentialConflicts := _;
               recommendations := _ |}) in E4.
  pose proof (StepFacts.attempt_first_ok maxRetries
                (performBackport_with placeholder (bp_installationId params)
                   (bp_repository params) d (bp_targetBranch params) a) h3 _ h3 eq_refl)
    as E5.
  destruct (attempt maxRetries
              (reportFailure octo (bp_installationId params) (bp_repository params)
                 (prNumber params) (bp_targetBranch params) (Some not_implemented)) h3)
    as [[x6 h6] n6] eqn:E6.
  assert (S6 : StepFacts.sent (fun c => StepFacts.is_pulls_create c = false) h h6).
  { eapply StepFacts.sent_trans; [exact S3|].
    step_sent E6 StepFacts.reportFailure_sent. }
  destruct x6 as [[]|t6].
  - eexists _, _. split.
    { erewrite StepFacts.try_catch_returns; [reflexivity|].
      run_step E1. run_logs. run_step E2. run_logs. run_step E3. run_logs.
      run_step E4. run_logs. run_step E5.
      cbn [pb_success pb_error]. run_logs. run_step E6. run_tail. reflexivity. }
    split; [intros r [= <-]; reflexivity|].
    split; [fresh_lookup|]. split; [fresh_lookup|]. exact S6.
  - eexists _, _. split.
    { erewrite StepFacts.try_catch_throws; cycle 1.
      { run_step E1. run_logs. run_step E2. run_logs. run_step E3. run_logs.
        run_step E4. run_logs. run_step E5.
        cbn [pb_success pb_error]. run_logs. run_failing_step E6. }
      state_normal. run_tail. reflexivity. }
    split; [intros r [=]|]. split; [fresh_lookup|]. split; [fresh_lookup|].
    exact S6.
Qed.

End PlaceholderFacts.

(** X10.  The workflow as the source ships it, with the placeholder
    [performBackport]: whatever the collaborator answers and however often
    the run is interrupted and driven again, the run finishes; it never
    invokes CreateBackportPR or ReportSuccess and sends no create-PR request;
    when it returns a value, the value is
    [{success: false, error: "Backport execution not yet implemented ..."}];
    and the job of the run ends [failed], its [resultPR] as it was. *)
Theorem shipped_workflow_never_completes {D : JsDate} (maxRetries : nat)
    (clock : nat -> Z) (octo : Workflow.Collaborator)
    (params : Workflow.BackportParams) (interruptions : list nat)
    (st : JobStore) (h : list Workflow.Call) :
  exists o s' b',
    Workflow.drive (Workflow.backportPullRequest maxRetries clock octo params)
      interruptions (Workflow.start st h) = Workflow.Finished o s' b' /\
    (forall r, o = Workflow.Returns r ->
       r = Workflow.mkResult false None (Some PlaceholderFacts.not_implemented)) /\
    Workflow.invocations Workflow.CreateBackportPR s' = 0%nat /\
    Workflow.invocations Workflow.ReportSuccess s' = 0%nat /\
    StepFacts.sent (fun c => StepFacts.is_pulls_create c = false) h (Workflow.calls s') /\
    (job_exists (Workflow.jobId params) st = true ->
     job_status (Workflow.jobId params) (Workflow.store s') = Some failed /\
     job_resultPR (Workflow.jobId params) (Workflow.store s')
     = job_resultPR (Workflow.jobId params) st).
Proof.
  pose proof (ReplayFacts.replayable_backportPullRequest maxRetries clock octo
                Workflow.placeholder params) as Hp.
  assert (Hw := TraceFacts.writes_backportPullRequest (fun _ => True) maxRetries
                  clock octo Workflow.placeholder params
                  ltac:(intros ? ? ? ? ? ? ? ? ?; exact I)).
  assert (Hj : TraceFacts.journal_ok (fun _ => True)
                 (Workflow.journal (Workflow.start st h))).
  { intros ? ? ? ? ?. exact I. }
  destruct (DriveFacts.drive_replays _ interruptions (Workflow.start st h) Hp)
    as (o & s' & b' & s0 & Ed & E0 & [Hjj Hcc] & _).
  destruct (DriveFacts.drive_writes _ _ _ _ interruptions _ Hw Hp Hj)
    as (o1 & s1 & b1 & w & Ed1 & (u & -> & Hu & _) & Hph).
  unfold Workflow.backportPullRequest in *.
  rewrite Ed in Ed1. injection Ed1 as <- <- <-.
  destruct (PlaceholderFacts.placeholder_run maxRetries clock octo params st h)
    as (o2 & s2 & E2 & Hr & Hc1 & Hc2 & Hs).
  unfold Workflow.backportPullRequest in E2.
  rewrite E0 in E2. injection E2 as <- <-.
  exists o, s', b'. split; [exact Ed|]. split; [exact Hr|].
  split; [unfold Workflow.invocations; now rewrite Hjj, Hc1|].
  split; [unfold Workflow.invocations; now rewrite Hjj, Hc2|].
  split; [now rewrite Hcc|].
  intros Hex. pose proof (TraceFacts.settled_store _ _ _ _ Hph) as (_ & _ & Hup).
  destruct (Hup Hex) as [_ Hx].
  destruct o as [r|t]; simpl in Hu.
  - rewrite (Hr r eq_refl) in Hu. destruct Hu as [(Hs1 & _)|(_ & _ & ->)]; [discriminate|].
    destruct Hx as (? & ? & _). auto.
  - subst u. destruct Hx as (? & ? & _). auto.
Qed.

(** ** The success branch of the workflow *)

Module SuccessFacts.
Import Workflow.

Definition backport_title (branch : string) (sourcePR : Z) : string :=
  "[Backport " +:+ branch +:+ "] Changes from #" +:+ js_number_to_string sourcePR.

Definition backport_body (branch : string) (sourcePR : Z) : string :=
  "This is an automated backport of #" +:+ js_number_to_string sourcePR
  +:+ " to `" +:+ branch +:+ "`." +:+ nl +:+ nl +:+ "Created by agent-backport.".

Definition success_comment (branch : string) (resultPR : Z) : string :=
  "✅ Successfully backported to `" +:+ branch +:+ "`!" +:+ nl +:+ nl
  +:+ "See #" +:+ js_number_to_string resultPR.

Section WithCollaborator.
Context (octo : Collaborator).

Lemma createBackportPR_posted (i : Z) (repo : string) (n : Z) (branch : string)
    (b : option string) (h0 h1 : list Call) (k : Z) :
  createBackportPR octo i repo n branch b h0 = (Ok k, h1) ->
  h1 = PullsCreate (fst (owner_repo repo)) (snd (owner_repo repo))
         (backport_title branch n) b branch (backport_body branch n)
       :: GetInstallationOctokit i :: h0 /\
  answer_number octo (GetInstallationOctokit i :: h0)
    (PullsCreate (fst (owner_repo repo)) (snd (owner_repo repo))
       (backport_title branch n) b branch (backport_body branch n)) = Ok k.
Proof.
  unfold createBackportPR, mbind, Collab_bind, collab_bind,
    getInstallationOctokit, request, backport_title, backport_body.
  destruct (answer_unit octo h0 (GetInstallationOctokit i)); [|discriminate].
  destruct (owner_repo repo) as [owner r]. simpl fst. simpl snd.
  intros [= E <-]. auto.
Qed.

Lemma reportSuccess_posted (i : Z) (repo : string) (n k : Z) (branch : string)
    (h0 h1 : list Call) :
  reportSuccess octo i repo n k branch h0 = (Ok tt, h1) ->
  h1 = IssuesCreateComment (fst (owner_repo repo)) (snd (owner_repo repo)) n
         (success_comment branch k)
       :: GetInstallationOctokit i :: h0.
Proof.
  unfold reportSuccess, mbind, Collab_bind, collab_bind,
    getInstallationOctokit, request, success_comment.
  destruct (answer_unit octo h0 (GetInstallationOctokit i)); [|discriminate].
  destruct (owner_repo repo) as [owner r]. now intros [= _ <-].
Qed.

End WithCollaborator.

Lemma append_nil_r (s : string) : s +:+ "" = s.
Proof.
  induction s as [|c s IH]; [reflexivity|].
  change (String c (s +:+ "") = String c s). now rewrite IH.
Qed.

Lemma contains_at_end (a s : string) : contains (a +:+ s) s.
Proof. exists a, "". now rewrite append_nil_r. Qed.

Lemma success_comment_names_the_pr (branch : string) (k : Z) :
  contains (success_comment branch k) ("#" +:+ js_number_to_string k).
Proof.
  unfold success_comment.
  change ("See #" +:+ js_number_to_string k)
    with ("See " +:+ ("#" +:+ js_number_to_string k)).
  do 5 apply StepFacts.contains_later. apply contains_at_end.
Qed.

End SuccessFacts.

(** X11.  A run in which the steps before PerformBackport succeed, the
    sandbox reports success with a branch, and the collaborator accepts the
    create-PR request (answering the number [n]) and the comment: the
    create-PR request asks for the backport branch as head and the target
    branch as base, under the title "[Backport <target>] Changes from
    #<source>"; the comment posted last names the new pull request as "#n";
    ReportFailure is never invoked; the workflow returns
    [{success: true, resultPR: n}]; and the job ends [completed] with
    [resultPR = n], its [error] as it was. *)
Theorem successful_backport_is_recorded {D : JsDate} (maxRetries : nat)
    (clock : nat -> Z) (octo : Workflow.Collaborator) (sandbox : Workflow.Sandbox)
    (params : Workflow.BackportParams) (st : JobStore)
    (h h1 h2 h3 h4 h5 : list Workflow.Call) (n1 n2 n3 n4 n5 : nat)
    (d : Workflow.PRDetails) (a : Workflow.Analysis) (br e : option string) (n : Z) :
  Workflow.attempt maxRetries
    (Workflow.acknowledgeRequest octo (Workflow.bp_installationId params)
       (Workflow.bp_repository params) (Workflow.bp_commentId params)) h
  = (Workflow.Ok tt, h1, n1) ->
  Workflow.attempt maxRetries
    (Workflow.fetchPRDetails octo (Workflow.bp_installationId params)
       (Workflow.bp_repository params) (Workflow.prNumber params)) h1
  = (Workflow.Ok d, h2, n2) ->
  Workflow.attempt maxRetries
    (Workflow.validateTargetBranch octo (Workflow.bp_installationId params)
       (Workflow.bp_repository params) (Workflow.bp_targetBranch params)) h2
  = (Workflow.Ok tt, h3, n3) ->
  Workflow.analyzeChanges d (Workflow.bp_targetBranch params) h3 = (Workflow.Ok a, h3) ->
  sandbox h3 (Workflow.bp_installationId params) (Workflow.bp_repository params) d
    (Workflow.bp_targetBranch params) a
  = Workflow.Ok (Workflow.mkPerform true br e) ->
  Workflow.attempt maxRetries
    (Workflow.createBackportPR octo (Workflow.bp_installationId params)
       (Workflow.bp_repository params) (Workflow.prNumber params)
       (Workflow.bp_targetBranch params) br) h3
  = (Workflow.Ok n, h4, n4) ->
  Workflow.attempt maxRetries
    (Workflow.reportSuccess octo (Workflow.bp_installationId params)
       (Workflow.bp_repository params) (Workflow.prNumber params) n
       (Workflow.bp_targetBranch params)) h4
  = (Workflow.Ok tt, h5, n5) ->
  exists s',
    Workflow.backportPullRequest_with maxRetries clock octo sandbox params None
      (Workflow.start st h)
    = Workflow.Finished (Workflow.Returns (Workflow.mkResult true (Some n) None)) s' None /\
    Workflow.invocations Workflow.ReportFailure s' = 0%nat /\
    (exists rest,
       h4 = Workflow.PullsCreate
              (fst (Workflow.owner_repo (Workflow.bp_repository params)))
              (snd (Workflow.owner_repo (Workflow.bp_repository params)))
              (SuccessFacts.backport_title (Workflow.bp_targetBranch params)
                 (Workflow.prNumber params))
              br (Workflow.bp_targetBranch params)
              (SuccessFacts.backport_body (Workflow.bp_targetBranch params)
                 (Workflow.prNumber params))
            :: rest) /\
    (exists rest,
       Workflow.calls s'
       = Workflow.IssuesCreateComment
           (fst (Workflow.owner_repo (Workflow.bp_repository params)))
           (snd (Workflow.owner_repo (Workflow.bp_repository params)))
           (Workflow.prNumber params)
           (SuccessFacts.success_comment (Workflow.bp_targetBranch params) n)
         :: rest) /\
    contains (SuccessFacts.success_comment (Workflow.bp_targetBranch params) n)
      ("#" +:+ js_number_to_string n) /\
    (job_exists (Workflow.jobId params) st = true ->
     job_status (Workflow.jobId params) (Workflow.store s') = Some completed /\
     job_resultPR (Workflow.jobId params) (Workflow.store s') = Some n /\
     job_error (Workflow.jobId params) (Workflow.store s')
     = job_error (Workflow.jobId params) st).
Proof.
  intros Hack Hfetch Hval Han Hsb Hcreate Hreport.
  pose proof (StepFacts.attempt_first_ok maxRetries _ _ _ _ Han) as Han'.
  assert (Hperf : Workflow.attempt maxRetries
                    (Workflow.performBackport_with sandbox
                       (Workflow.bp_installationId params)
                       (Workflow.bp_repository params) d
                       (Workflow.bp_targetBranch params) a) h3
                  = (Workflow.Ok (Workflow.mkPerform true br e), h3, 1%nat)).
  { apply StepFacts.attempt_first_ok. unfold Workflow.performBackport_with.
    now rewrite Hsb. }
  assert (Hrun : exists s',
             Workflow.backportPullRequest_with maxRetries clock octo sandbox params
               None (Workflow.start st h)
             = Workflow.Finished
                 (Workflow.Returns (Workflow.mkResult true (Some n) None)) s' None /\
             Workflow.journal s' !! Workflow.ReportFailure = None /\
             Workflow.calls s' = h5).
  { unfold Workflow.backportPullRequest_with, mbind, Workflow.M_bind.
    eexists. split; [|split].
    - erewrite StepFacts.try_catch_returns; [reflexivity|].
      run_step Hack. run_logs. run_step Hfetch. run_logs.
      run_step Hval. run_logs. run_step Han'. run_logs.
      run_step Hperf. cbn [Workflow.pb_success Workflow.pb_branch]. run_logs.
      run_step Hcreate. run_step Hreport. run_tail. reflexivity.
    - fresh_lookup.
    - reflexivity. }
  destruct Hrun as (s' & E & Hj & Hc).
  exists s'. split; [exact E|].
  split; [unfold Workflow.invocations; now rewrite Hj|].
  split.
  { destruct (TraceFacts.attempt_ok _ _ _ _ _ _ Hcreate) as (h0 & Hfn).
    apply SuccessFacts.createBackportPR_posted in Hfn as [-> _]. eauto. }
  split.
  { destruct (TraceFacts.attempt_ok _ _ _ _ _ _ Hreport) as (h0 & Hfn).
    apply SuccessFacts.reportSuccess_posted in Hfn. rewrite Hc, Hfn. eauto. }
  split; [apply SuccessFacts.success_comment_names_the_pr|].
  intros Hex.
  destruct (DriveFacts.run_settles _ _ _ _ _ _ _ _ _ _ E) as (u & Hu & Hup).
  simpl in Hu. destruct Hu as [(_ & k & [= <-] & _ & ->)|(Hs & _)]; [|discriminate].
  destruct Hup as (_ & _ & Hup). destruct (Hup Hex) as [_ Hx]. exact Hx.
Qed.

Lemma successful_backport_is_recorded_witness :
  exists s',
    Workflow.backportPullRequest_with (D := Examples.decimal_date) 3 Examples.clock
      Examples.cooperative Examples.clean_backport Examples.params None
      Examples.redis_start
    = Workflow.Finished (Workflow.Returns (Workflow.mkResult true (Some 77) None)) s' None /\
    job_status "bp_100_a" (Workflow.store s') = Some completed /\
    job_resultPR "bp_100_a" (Workflow.store s') = Some 77.
Proof.
  edestruct (successful_backport_is_recorded (D := Examples.decimal_date) 3
               Examples.clock Examples.cooperative Examples.clean_backport
               Examples.params (Upstash Examples.redis_jobs) [])
    as (s' & E & _ & _ & _ & _ & Hjob);
    [lazy; reflexivity | lazy; reflexivity | lazy; reflexivity | lazy; reflexivity
    | lazy; reflexivity | lazy; reflexivity | lazy; reflexivity |].
  exists s'. split; [exact E|].
  destruct (Hjob ltac:(vm_compute; reflexivity)) as (Hs & Hr & _). auto.
Defined.

(** X12.  A run in which the pull request has been created (the collaborator
    answered the create-PR request with the number [n]) but the ReportSuccess
    step fails with [t]: the [catch] block takes over.  The workflow throws
    [t], and the job ends [failed] with the message of [t] as its [error];
    the number of the pull request that exists is not recorded: [resultPR] is
    as it was before the run. *)
Theorem created_pr_is_lost_when_the_report_fails {D : JsDate} (maxRetries : nat)
    (clock : nat -> Z) (octo : Workflow.Collaborator) (sandbox : Workflow.Sandbox)
    (params : Workflow.BackportParams) (st : JobStore)
    (h h1 h2 h3 h4 h5 : list Workflow.Call) (n1 n2 n3 n4 n5 : nat)
    (d : Workflow.PRDetails) (a : Workflow.Analysis) (br e : option string) (n : Z)
    (t : Workflow.Thrown) :
  Workflow.attempt maxRetries
    (Workflow.acknowledgeRequest octo (Workflow.bp_installationId params)
       (Workflow.bp_repository params) (Workflow.bp_commentId params)) h
  = (Workflow.Ok tt, h1, n1) ->
  Workflow.attempt maxRetries
    (Workflow.fetchPRDetails octo (Workflow.bp_installationId params)
       (Workflow.bp_repository params) (Workflow.prNumber params)) h1
  = (Workflow.Ok d, h2, n2) ->
  Workflow.attempt maxRetries
    (Workflow.validateTargetBranch octo (Workflow.bp_installationId params)
       (Workflow.bp_repository params) (Workflow.bp_targetBranch params)) h2
  = (Workflow.Ok tt, h3, n3) ->
  Workflow.analyzeChanges d (Workflow.bp_targetBranch params) h3 = (Workflow.Ok a, h3) ->
  sandbox h3 (Workflow.bp_installationId params) (Workflow.bp_repository params) d
    (Workflow.bp_targetBranch params) a
  = Workflow.Ok (Workflow.mkPerform true br e) ->
  Workflow.attempt maxRetries
    (Workflow.createBackportPR octo (Workflow.bp_installationId params)
       (Workflow.bp_repository params) (Workflow.prNumber params)
       (Workflow.bp_targetBranch params) br) h3
  = (Workflow.Ok n, h4, n4) ->
  Workflow.attempt maxRetries
    (Workflow.reportSuccess octo (Workflow.bp_installationId params)
       (Workflow.bp_repository params) (Workflow.prNumber params) n
       (Workflow.bp_targetBranch params)) h4
  = (Workflow.Err t, h5, n5) ->
  exists s' h0,
    Workflow.backportPullRequest_with maxRetries clock octo sandbox params None
      (Workflow.start st h)
    = Workflow.Finished (Workflow.Throws t) s' None /\
    Workflow.answer_number octo
      (Workflow.GetInstallationOctokit (Workflow.bp_installationId params) :: h0)
      (Workflow.PullsCreate
         (fst (Workflow.owner_repo (Workflow.bp_repository params)))
         (snd (Workflow.owner_repo (Workflow.bp_repository params)))
         (SuccessFacts.backport_title (Workflow.bp_targetBranch params)
            (Workflow.prNumber params))
         br (Workflow.bp_targetBranch params)
         (SuccessFacts.backport_body (Workflow.bp_targetBranch params)
            (Workflow.prNumber params)))
    = Workflow.Ok n /\
    Workflow.invocations Workflow.CreateBackportPR s' = n4 /\
    (job_exists (Workflow.jobId params) st = true ->
     job_status (Workflow.jobId params) (Workflow.store s') = Some failed /\
     job_error (Workflow.jobId params) (Workflow.store s')
     = Some (Workflow.error_message t) /\
     job_resultPR (Workflow.jobId params) (Workflow.store s')
     = job_resultPR (Workflow.jobId params) st).
Proof.
  intros Hack Hfetch Hval Han Hsb Hcreate Hreport.
  pose proof (StepFacts.attempt_first_ok maxRetries _ _ _ _ Han) as Han'.
  assert (Hperf : Workflow.attempt maxRetries
                    (Workflow.performBackport_with sandbox
                       (Workflow.bp_installationId params)
                       (Workflow.bp_repository params) d
                       (Workflow.bp_targetBranch params) a) h3
                  = (Workflow.Ok (Workflow.mkPerform true br e), h3, 1%nat)).
  { apply StepFacts.attempt_first_ok. unfold Workflow.performBackport_with.
    now rewrite Hsb. }
  assert (Hrun : exists s',
             Workflow.backportPullRequest_with maxRetries clock octo sandbox params
               None (Workflow.start st h)
             = Workflow.Finished (Workflow.Throws t) s' None /\
             Workflow.journal s' !! Workflow.CreateBackportPR
             = Some (Workflow.mkEntry n4 (Workflow.Returned (Workflow.VNumber n)))).
  { unfold Workflow.backportPullRequest_with, mbind, Workflow.M_bind.
    eexists. split.
    - erewrite StepFacts.try_catch_throws; cycle 1.
      { run_step Hack. run_logs. run_step Hfetch. run_logs.
        run_step Hval. run_logs. run_step Han'. run_logs.
        run_step Hperf. cbn [Workflow.pb_success Workflow.pb_branch]. run_logs.
        run_step Hcreate. run_failing_step Hreport. }
      state_normal. run_tail. reflexivity.
    - simpl. rewrite lookup_insert_ne by discriminate. apply lookup_insert_eq. }
  destruct Hrun as (s' & E & Hj).
  destruct (TraceFacts.attempt_ok _ _ _ _ _ _ Hcreate) as (h0 & Hfn).
  apply SuccessFacts.createBackportPR_posted in Hfn as [_ Hans].
  exists s', h0. split; [exact E|]. split; [exact Hans|].
  split; [unfold Workflow.invocations; now rewrite Hj|].
  intros Hex.
  destruct (DriveFacts.run_settles _ _ _ _ _ _ _ _ _ _ E) as (u & Hu & Hup).
  simpl in Hu. subst u.
  destruct Hup as (_ & _ & Hup). destruct (Hup Hex) as [_ (Hs & Hr & He)].
  auto.
Qed.

Lemma created_pr_is_lost_when_the_report_fails_witness :
  exists s',
    Workflow.backportPullRequest_with (D := Examples.decimal_date) 0 Examples.clock
      Examples.no_comments Examples.clean_backport Examples.params None
      Examples.mem_start
    = Workflow.Finished
        (Workflow.Throws (Workflow.JsError false "Forbidden")) s' None /\
    job_status "bp_100_a" (Workflow.store s') = Some failed /\
    job_resultPR "bp_100_a" (Workflow.store s') = None.
Proof.
  edestruct (created_pr_is_lost_when_the_report_fails (D := Examples.decimal_date) 0
               Examples.clock Examples.no_comments Examples.clean_backport
               Examples.params (InMemory Examples.mem_jobs) [])
    as (s' & h0 & E & _ & _ & Hjob);
    [lazy; reflexivity | lazy; reflexivity | lazy; reflexivity | lazy; reflexivity
    | lazy; reflexivity | lazy; reflexivity | lazy; reflexivity |].
  exists s'. split; [exact E|].
  destruct (Hjob ltac:(vm_compute; reflexivity)) as (Hs & _ & Hr). auto.
Defined.

(** ** What a run writes to the job store, record by record *)

Module FrameFacts.
Import Workflow.

(** The record behind an id, whichever store is in place. *)
Inductive Stored :=
| MemRecord (j : BackportJob)
| RedisRecord (j : RedisStore.Job).

Definition stored (i : string) (st : JobStore) : option Stored :=
  match st with
  | InMemory jobs => MemRecord <$> MemStore.getJob i jobs
  | Upstash r => RedisRecord <$> RedisStore.getJob i r
  end.

(** [b] is [a] with, at most, another [status], [resultPR], [error] and
    [updatedAt], and with further entries at the end of its log. *)
Definition extends (a b : Stored) : Prop :=
  match a, b with
  | MemRecord j, MemRecord j' =>
      id j' = id j /\ repository j' = repository j /\
      installationId j' = installationId j /\ sourcePR j' = sourcePR j /\
      targetBranch j' = targetBranch j /\ createdAt j' = createdAt j /\
      requestedBy j' = requestedBy j /\ commentId j' = commentId j /\
      exists new, logs j' = logs j ++ new
  | RedisRecord j, RedisRecord j' =>
      RedisStore.r_id (RedisStore.data j') = RedisStore.r_id (RedisStore.data j) /\
      RedisStore.r_repository (RedisStore.data j')
      = RedisStore.r_repository (RedisStore.data j) /\
      RedisStore.r_installationId (RedisStore.data j')
      = RedisStore.r_installationId (RedisStore.data j) /\
      RedisStore.r_sourcePR (RedisStore.data j')
      = RedisStore.r_sourcePR (RedisStore.data j) /\
      RedisStore.r_targetBranch (RedisStore.data j')
      = RedisStore.r_targetBranch (RedisStore.data j) /\
      RedisStore.r_createdAt (RedisStore.data j')
      = RedisStore.r_createdAt (RedisStore.data j) /\
      RedisStore.r_requestedBy (RedisStore.data j')
      = RedisStore.r_requestedBy (RedisStore.data j) /\
      RedisStore.r_commentId (RedisStore.data j')
      = RedisStore.r_commentId (RedisStore.data j) /\
      exists new, RedisStore.rlogs j' = RedisStore.rlogs j ++ new
  | _, _ => False
  end.

(** A record of the Redis store whose text fields are no JSON texts: the
    client hands them out as they were written, and [updateJob] through the
    client writes what [RedisStore.updateJob] writes
    ([ClientReads.client_updateJob_typed]). *)
Definition read_as_written (a : Stored) : Prop :=
  match a with
  | MemRecord _ => True
  | RedisRecord j => ClientFacts.plain_hash (RedisStore.data j)
  end.

(** From [st] to [st'] only the job [jobId] was written to, and only in the
    way [extends] allows. *)
Definition touches_only (jobId : string) (st st' : JobStore) : Prop :=
  (forall i, i <> jobId -> stored i st' = stored i st) /\
  (forall a, stored jobId st = Some a ->
     exists b, stored jobId st' = Some b /\ extends a b).

Lemma extends_refl (a : Stored) : extends a a.
Proof.
  destruct a; simpl; repeat split; exists []; now rewrite app_nil_r.
Qed.

Lemma extends_trans (a b c : Stored) : extends a b -> extends b c -> extends a c.
Proof.
  destruct a, b, c; simpl; try contradiction;
    intros (? & ? & ? & ? & ? & ? & ? & ? & n1 & Hn1)
           (? & ? & ? & ? & ? & ? & ? & ? & n2 & Hn2);
    repeat split; try congruence;
    exists (n1 ++ n2); rewrite Hn2, Hn1; now rewrite app_assoc.
Qed.

Lemma touches_only_refl (jobId : string) (st : JobStore) : touches_only jobId st st.
Proof. split; [reflexivity|]. intros a Ha. exists a. split; [exact Ha|apply extends_refl]. Qed.

Lemma touches_only_trans (jobId : string) (st1 st2 st3 : JobStore) :
  touches_only jobId st1 st2 -> touches_only jobId st2 st3 -> touches_only jobId st1 st3.
Proof.
  intros [Ho1 Hj1] [Ho2 Hj2]. split.
  - intros i Hi. now rewrite (Ho2 i Hi), (Ho1 i Hi).
  - intros a Ha. destruct (Hj1 a Ha) as (b & Hb & Hab).
    destruct (Hj2 b Hb) as (c & Hc & Hbc).
    exists c. split; [exact Hc|]. now apply (extends_trans a b c).
Qed.

Lemma touches_only_addJobLog {D : JsDate} (jobId msg : string) (t1 t2 : Z)
    (st : JobStore) :
  touches_only jobId st (jobs_addJobLog jobId msg t1 t2 st).
Proof.
  destruct st as [jobs|r]; simpl.
  - destruct (MemStore.getJob jobId jobs) as [job|] eqn:E.
    + destruct (MemStoreFacts.addJobLog_present jobId msg t1 t2 jobs job E)
        as (j1 & H1 & Hl & _ & Hs & Ho).
      split; [intros i Hi; simpl; now rewrite (Ho i Hi)|].
      simpl. rewrite E, H1. intros a [= <-]. eexists. split; [reflexivity|].
      destruct Hs as (? & ? & ? & ? & ? & ? & ? & ? & ? & _).
      simpl. repeat split; try assumption. eauto.
    + rewrite (MemFacts.addJobLog_absent jobId msg t1 t2 jobs E).
      apply (touches_only_refl jobId (InMemory jobs)).
  - split.
    + intros i Hi. simpl. now rewrite RedisStoreFacts.addJobLog_other.
    + simpl. destruct (RedisStore.getJob jobId r) as [job|] eqn:E; [|discriminate].
      destruct (RedisStoreFacts.redis_addJobLog_present jobId msg t1 t2 r job E)
        as (j1 & H1 & Hl & _ & Hs).
      rewrite H1. intros a [= <-]. eexists. split; [reflexivity|].
      destruct Hs as (? & ? & ? & ? & ? & ? & ? & ? & ? & _).
      simpl. repeat split; try assumption. eauto.
Qed.

(** An update that names at most [status], [resultPR] and [error]. *)
Definition outcome_update (u : MemStore.JobUpdates) : Prop :=
  MemStore.u_repository u = None /\ MemStore.u_installationId u = None /\
  MemStore.u_sourcePR u = None /\ MemStore.u_targetBranch u = None /\
  MemStore.u_requestedBy u = None /\ MemStore.u_commentId u = None /\
  MemStore.u_logs u = None.

Lemma touches_only_updateJob (jobId : string) (u : MemStore.JobUpdates) (now : Z)
    (st : JobStore) :
  outcome_update u -> touches_only jobId st (jobs_updateJob jobId u now st).
Proof.
  intros (U1 & U2 & U3 & U4 & U5 & U6 & U7). destruct st as [jobs|r]; simpl.
  - pose proof (MemFacts.updateJob_meets_spec jobId u now jobs) as H.
    unfold MemFacts.updateJob_spec in H.
    destruct (MemStore.getJob jobId jobs) as [job|] eqn:E.
    + destruct H as (upd & jobs' & Hupd & Hg & Hid & Hc & _ & H1 & H2 & H3 & H4 & _
                     & H5 & H6 & _ & _ & H7 & Ho).
      rewrite U1 in H1. rewrite U2 in H2. rewrite U3 in H3. rewrite U4 in H4.
      rewrite U5 in H5. rewrite U6 in H6. rewrite U7 in H7.
      rewrite Hupd. simpl in *.
      split; [intros i Hi; simpl; now rewrite (Ho i Hi)|].
      simpl. rewrite Hg, E. intros a [= <-]. eexists. split; [reflexivity|].
      simpl. repeat split; try assumption. exists []. now rewrite app_nil_r.
    + rewrite H. apply (touches_only_refl jobId (InMemory jobs)).
  - pose proof (RedisFacts.redis_updateJob_meets_spec jobId (to_redis_updates u) now r)
      as H.
    unfold RedisFacts.updateJob_spec in H.
    destruct (RedisStore.getJob jobId r) as [job|] eqn:E.
    + destruct H as (upd & r' & Hupd & Hg & Hid & Hc & _ & H1 & H2 & H3 & H4 & _
                     & H5 & H6 & _ & _ & H7 & _ & _ & Ho).
      rewrite Hupd.
      unfold to_redis_updates in H1, H2, H3, H4, H5, H6.
      simpl in H1, H2, H3, H4, H5, H6.
      rewrite U1 in H1. rewrite U2 in H2. rewrite U3 in H3. rewrite U4 in H4.
      rewrite U5 in H5. rewrite U6 in H6. simpl in *.
      split; [intros i Hi; simpl; now rewrite (Ho i Hi)|].
      simpl. rewrite Hg, E. intros a [= <-]. eexists. split; [reflexivity|].
      simpl. repeat split; try assumption. exists []. rewrite app_nil_r. exact H7.
    + rewrite H. apply (touches_only_refl jobId (Upstash r)).
Qed.

(** Workflow code that writes to the job [jobId] only. *)
Definition Frames {A : Type} (jobId : string) (p : M A) : Prop :=
  forall b s, touches_only jobId (store s) (store (final_state (p b s))).

Lemma frames_ret {A : Type} (jobId : string) (a : A) : Frames jobId (ret a).
Proof. intros b s. apply touches_only_refl. Qed.

Lemma frames_throw {A : Type} (jobId : string) (t : Thrown) : Frames jobId (@throw A t).
Proof. intros b s. apply touches_only_refl. Qed.

Lemma frames_bind {A B : Type} (jobId : string) (p : M A) (f : A -> M B) :
  Frames jobId p -> (forall a, Frames jobId (f a)) -> Frames jobId (bind p f).
Proof.
  intros Hp Hf b s. unfold bind. specialize (Hp b s).
  destruct (p b s) as [[a|t] s1 b1|s1]; simpl in *; [|exact Hp|exact Hp].
  eapply touches_only_trans; [exact Hp|apply Hf].
Qed.

Lemma frames_try_catch {A : Type} (jobId : string) (p : M A) (h : Thrown -> M A) :
  Frames jobId p -> (forall t, Frames jobId (h t)) -> Frames jobId (try_catch p h).
Proof.
  intros Hp Hh b s. unfold try_catch. specialize (Hp b s).
  destruct (p b s) as [[a|t] s1 b1|s1]; simpl in *; [exact Hp| |exact Hp].
  eapply touches_only_trans; [exact Hp|apply Hh].
Qed.

Lemma frames_if {A : Type} (jobId : string) (c : bool) (p q : M A) :
  Frames jobId p -> Frames jobId q -> Frames jobId (if c then p else q).
Proof. now destruct c. Qed.

Lemma frames_execute {A : Type} (jobId : string) (maxRetries : nat) (name : StepName)
    (inj : A -> StepValue) (proj : StepValue -> option A) (fn : Collab A) :
  Frames jobId (execute maxRetries name inj proj fn).
Proof.
  intros b s. unfold execute.
  destruct (journal s !! name) as [e|].
  - destruct (recorded e) as [v|t]; [destruct (proj v)|]; apply touches_only_refl.
  - destruct b as [[|n]|]; try apply touches_only_refl;
      destruct (attempt maxRetries fn (calls s)) as [[x h'] k];
      apply touches_only_refl.
Qed.

Lemma frames_addJobLog {D : JsDate} (clock : nat -> Z) (jobId msg : string) :
  Frames jobId (addJobLog clock jobId msg).
Proof. intros b s. apply touches_only_addJobLog. Qed.

Lemma frames_updateJob (clock : nat -> Z) (jobId : string) (u : MemStore.JobUpdates) :
  outcome_update u -> Frames jobId (updateJob clock jobId u).
Proof. intros Hu b s. now apply touches_only_updateJob. Qed.

Lemma frames_backportPullRequest {D : JsDate} (maxRetries : nat) (clock : nat -> Z)
    (octo : Collaborator) (sandbox : Sandbox) (params : BackportParams) :
  Frames (jobId params) (backportPullRequest_with maxRetries clock octo sandbox params).
Proof.
  unfold backportPullRequest_with.
  repeat first
    [ apply frames_try_catch
    | apply frames_bind
    | apply frames_if
    | apply frames_ret
    | apply frames_throw
    | apply frames_addJobLog
    | apply frames_updateJob; repeat split
    | apply frames_execute
    | intros ? ].
Qed.

Lemma frames_drive {A : Type} (jobId : string) (p : M A) (interruptions : list nat)
    (s : RunState) :
  Frames jobId p ->
  touches_only jobId (store s) (store (final_state (drive p interruptions s))).
Proof.
  intros Hp. revert s. induction interruptions as [|n l IH]; intros s; simpl.
  - apply Hp.
  - specialize (Hp (Some n) s).
    destruct (p (Some n) s) as [o s' b'|s1]; [exact Hp|].
    eapply touches_only_trans; [exact Hp|apply IH].
Qed.

End FrameFacts.

(** X13.  A run of the backport workflow, interrupted and driven again any
    number of times, writes to no job but its own: the record of every other
    id, in full, is what it was before the run.  Of its own job it changes
    at most [status], [resultPR], [error] and [updatedAt], and it adds
    entries at the end of the log: [id], [repository], [installationId],
    [sourcePR], [targetBranch], [createdAt], [requestedBy] and [commentId]
    keep their values, and the log entries present before the run stay in
    front, in their order.  On the Redis store the run's [updateJob] writes
    the record back as the client read it, and this is stated for a job
    whose stored text fields are no JSON texts. *)
Theorem run_touches_only_its_job {D : JsDate} (maxRetries : nat) (clock : nat -> Z)
    (octo : Workflow.Collaborator) (sandbox : Workflow.Sandbox)
    (params : Workflow.BackportParams) (interruptions : list nat)
    (s : Workflow.RunState) :
  (forall i, i <> Workflow.jobId params ->
     FrameFacts.stored i
       (Workflow.store
          (Workflow.final_state
             (Workflow.drive
                (Workflow.backportPullRequest_with maxRetries clock octo sandbox params)
                interruptions s)))
     = FrameFacts.stored i (Workflow.store s)) /\
  (forall a, FrameFacts.stored (Workflow.jobId params) (Workflow.store s) = Some a ->
     FrameFacts.read_as_written a ->
     exists b,
       FrameFacts.stored (Workflow.jobId params)
         (Workflow.store
            (Workflow.final_state
               (Workflow.drive
                  (Workflow.backportPullRequest_with maxRetries clock octo sandbox params)
                  interruptions s)))
       = Some b /\
       FrameFacts.extends a b).
Proof.
  destruct (FrameFacts.frames_drive (Workflow.jobId params) _ interruptions s
              (FrameFacts.frames_backportPullRequest maxRetries clock octo sandbox params))
    as [Hothers Hown].
  split; [exact Hothers|]. intros a Ha _. exact (Hown a Ha).
Qed.

Lemma run_touches_only_its_job_witness :
  exists a b,
    FrameFacts.stored "bp_100_a" (Upstash Examples.redis_jobs) = Some a /\
    FrameFacts.stored "bp_100_a"
      (Workflow.store
         (Workflow.final_state
            (Workflow.drive
               (Workflow.backportPullRequest_with (D := Examples.decimal_date) 3
                  Examples.clock Examples.missing_branch Workflow.placeholder
                  Examples.params)
               [1%nat] Examples.redis_start)))
    = Some b /\
    FrameFacts.extends a b.
Proof.
  destruct (FrameFacts.stored "bp_100_a" (Upstash Examples.redis_jobs)) as [a|] eqn:E;
    [|vm_compute in E; discriminate].
  destruct (proj2 (run_touches_only_its_job (D := Examples.decimal_date) 3 Examples.clock
                     Examples.missing_branch Workflow.placeholder Examples.params
                     [1%nat] Examples.redis_start) a E) as (b & Hb & Hab).
  - vm_compute in E. injection E as <-. vm_compute. repeat split.
  - exists a, b. repeat split; assumption.
Defined.

(** X14.  The job record reports the outcome of its run, however often the
    run was interrupted and driven again.  When the workflow returns
    [{success: true, resultPR}], the job is [completed] with that [resultPR];
    when it returns [{success: false, error}], the job is [failed] with that
    [error]; when it throws, the job is [failed] with the message of the
    thrown error ("Unknown error" for a value that is not an [Error]).  In
    the two failing cases [resultPR] is as it was before the run, and in the
    first [error] is.  The status, [resultPR] and [error] of every other job
    are as before. *)
Theorem job_record_reports_the_outcome {D : JsDate} (maxRetries : nat)
    (clock : nat -> Z) (octo : Workflow.Collaborator) (sandbox : Workflow.Sandbox)
    (params : Workflow.BackportParams) (interruptions : list nat)
    (st : JobStore) (h : list Workflow.Call) :
  job_exists (Workflow.jobId params) st = true ->
  exists o s' b',
    Workflow.drive
      (Workflow.backportPullRequest_with maxRetries clock octo sandbox params)
      interruptions (Workflow.start st h) = Workflow.Finished o s' b' /\
    match o with
    | Workflow.Returns r =>
        if Workflow.success r
        then job_status (Workflow.jobId params) (Workflow.store s') = Some completed /\
             is_Some (Workflow.br_resultPR r) /\
             job_resultPR (Workflow.jobId params) (Workflow.store s')
             = Workflow.br_resultPR r /\
             job_error (Workflow.jobId params) (Workflow.store s')
             = job_error (Workflow.jobId params) st
        else job_status (Workflow.jobId params) (Workflow.store s') = Some failed /\
             job_resultPR (Workflow.jobId params) (Workflow.store s')
             = job_resultPR (Workflow.jobId params) st /\
             forall e, Workflow.br_error r = Some e ->
               job_error (Workflow.jobId params) (Workflow.store s') = Some e
    | Workflow.Throws t =>
        job_status (Workflow.jobId params) (Workflow.store s') = Some failed /\
        job_resultPR (Workflow.jobId params) (Workflow.store s')
        = job_resultPR (Workflow.jobId params) st /\
        job_error (Workflow.jobId params) (Workflow.store s')
        = Some (Workflow.error_message t)
    end /\
    forall i, i <> Workflow.jobId params ->
      job_status i (Workflow.store s') = job_status i st /\
      job_resultPR i (Workflow.store s') = job_resultPR i st /\
      job_error i (Workflow.store s') = job_error i st.
Proof.
  intros Hex.
  pose proof (ReplayFacts.replayable_backportPullRequest maxRetries clock octo
                sandbox params) as Hp.
  assert (Hw := TraceFacts.writes_backportPullRequest (fun _ => True) maxRetries
                  clock octo sandbox params ltac:(intros ? ? ? ? ? ? ? ? ?; exact I)).
  assert (Hj : TraceFacts.journal_ok (fun _ => True)
                 (Workflow.journal (Workflow.start st h))).
  { intros ? ? ? ? ?. exact I. }
  destruct (DriveFacts.drive_writes _ _ _ _ interruptions _ Hw Hp Hj)
    as (o & s' & b' & w & Ed & (u & -> & Hu & _) & Hph).
  exists o, s', b'. split; [exact Ed|].
  pose proof (TraceFacts.settled_store _ _ _ _ Hph) as (_ & Ho & Hup).
  destruct (Hup Hex) as [_ Hx]. split.
  - destruct o as [r|t]; simpl in Hu.
    + destruct Hu as [(-> & n & Hn & _ & ->)|(-> & _ & ->)].
      * destruct Hx as (? & ? & ?). rewrite Hn. repeat split; eauto.
      * destruct Hx as (? & ? & He). repeat split; try assumption.
        intros e Hbe. rewrite He, Hbe. reflexivity.
    + subst u. destruct Hx as (? & ? & ?). auto.
  - intros i Hi. destruct (Ho i Hi) as (? & ? & ? & _). auto.
Qed.

Lemma job_record_reports_the_outcome_witness :
  exists o s' b',
    Workflow.drive
      (Workflow.backportPullRequest_with (D := Examples.decimal_date) 3 Examples.clock
         Examples.no_comments Examples.clean_backport Examples.params)
      [2%nat; 7%nat] Examples.redis_start = Workflow.Finished o s' b' /\
    match o with
    | Workflow.Returns r => True
    | Workflow.Throws t =>
        job_status "bp_100_a" (Workflow.store s') = Some failed /\
        job_error "bp_100_a" (Workflow.store s') = Some (Workflow.error_message t)
    end.
Proof.
  destruct (job_record_reports_the_outcome (D := Examples.decimal_date) 3
              Examples.clock Examples.no_comments Examples.clean_backport
              Examples.params [2%nat; 7%nat] (Upstash Examples.redis_jobs) []
              ltac:(vm_compute; reflexivity))
    as (o & s' & b' & Ed & Ho & _).
  exists o, s', b'. split; [exact Ed|].
  destruct o as [r|t]; [exact I|]. destruct Ho as (? & _ & ?). auto.
Defined.

(** ** The log a run writes *)

Module LogFacts.
Import Workflow.

Definition job_logs (i : string) (st : JobStore) : option (list string) :=
  match st with
  | InMemory jobs => logs <$> MemStore.getJob i jobs
  | Upstash r => RedisStore.rlogs <$> RedisStore.getJob i r
  end.

Section WithDate.
Context {D : JsDate}.

(** [addJobLog] for each message in turn; every call reads the clock twice. *)
Fixpoint log_all (clock : nat -> Z) (i : string) (msgs : list string) (tick : nat)
    (st : JobStore) : JobStore :=
  match msgs with
  | [] => st
  | m :: ms =>
      log_all clock i ms (S (S tick))
        (jobs_addJobLog i m (clock tick) (clock (S tick)) st)
  end.

Fixpoint stamped (clock : nat -> Z) (msgs : list string) (tick : nat) : list string :=
  match msgs with
  | [] => []
  | m :: ms => MemOps.log_entry (clock tick) m :: stamped clock ms (S (S tick))
  end.

Lemma job_logs_addJobLog (i msg : string) (t1 t2 : Z) (st : JobStore) (old : list string) :
  job_logs i st = Some old ->
  job_logs i (jobs_addJobLog i msg t1 t2 st) = Some (old ++ [MemOps.log_entry t1 msg]).
Proof.
  destruct st as [jobs|r]; simpl.
  - destruct (MemStore.getJob i jobs) as [job|] eqn:E; [|discriminate].
    intros [= <-].
    destruct (MemStoreFacts.addJobLog_present i msg t1 t2 jobs job E)
      as (j1 & -> & Hl & _).
    simpl. now rewrite Hl.
  - destruct (RedisStore.getJob i r) as [job|] eqn:E; [|discriminate].
    intros [= <-].
    destruct (RedisStoreFacts.redis_addJobLog_present i msg t1 t2 r job E)
      as (j1 & -> & Hl & _).
    simpl. now rewrite Hl.
Qed.

Lemma job_logs_log_all (clock : nat -> Z) (i : string) (msgs : list string)
    (tick : nat) (st : JobStore) (old : list string) :
  job_logs i st = Some old ->
  job_logs i (log_all clock i msgs tick st) = Some (old ++ stamped clock msgs tick).
Proof.
  revert tick st old. induction msgs as [|m ms IH]; intros tick st old Ho; simpl.
  - now rewrite app_nil_r.
  - rewrite (IH _ _ _ (job_logs_addJobLog i m _ _ st old Ho)).
    now rewrite <- app_assoc.
Qed.

End WithDate.

Lemma job_logs_updateJob (i : string) (u : MemStore.JobUpdates) (now : Z)
    (st : JobStore) (old : list string) :
  MemStore.u_logs u = None ->
  job_logs i st = Some old -> job_logs i (jobs_updateJob i u now st) = Some old.
Proof.
  intros Hu. destruct st as [jobs|r]; simpl.
  - pose proof (MemFacts.updateJob_meets_spec i u now jobs) as H.
    unfold MemFacts.updateJob_spec in H.
    destruct (MemStore.getJob i jobs) as [job|] eqn:E; [|discriminate].
    destruct H as (upd & jobs' & Hupd & Hg & _ & _ & _ & _ & _ & _ & _ & _
                   & _ & _ & _ & _ & H7 & _).
    rewrite Hu in H7. simpl in H7. rewrite Hupd. simpl. rewrite Hg. simpl.
    intros [= <-]. now rewrite H7.
  - pose proof (RedisFacts.redis_updateJob_meets_spec i (to_redis_updates u) now r) as H.
    unfold RedisFacts.updateJob_spec in H.
    destruct (RedisStore.getJob i r) as [job|] eqn:E; [|discriminate].
    destruct H as (upd & r' & Hupd & Hg & _ & _ & _ & _ & _ & _ & _ & _
                   & _ & _ & _ & _ & H7 & _).
    rewrite Hupd. simpl. rewrite Hg. simpl. intros [= <-]. now rewrite H7.
Qed.

End LogFacts.

(** X15.  The log of a run that ends in the failure branch (the steps before
    PerformBackport succeed, the sandbox returns [{success: false, error: e}],
    the failure comment is accepted): the run appends ten entries to the log
    of its job, in this order and each stamped with the clock reading of its
    [addJobLog] call: "Request acknowledged", "Fetching PR details...",
    "PR title: <title>", "Commits: <number of commits>", "Validating target
    branch: <branch>", "Target branch exists", "Analyzing changes...",
    "Analysis complete. Complexity: <complexity>", "Performing backport in
    sandbox...", "Backport failed: <e>".  The entries the log held before the
    run stay in front. *)
Theorem failed_backport_log {D : JsDate} (maxRetries : nat)
    (clock : nat -> Z) (octo : Workflow.Collaborator) (sandbox : Workflow.Sandbox)
    (params : Workflow.BackportParams) (st : JobStore)
    (h h1 h2 h3 h5 : list Workflow.Call) (n1 n2 n3 n5 : nat)
    (d : Workflow.PRDetails) (a : Workflow.Analysis) (br : option string)
    (e : string) (old : list string) :
  Workflow.attempt maxRetries
    (Workflow.acknowledgeRequest octo (Workflow.bp_installationId params)
       (Workflow.bp_repository params) (Workflow.bp_commentId params)) h
  = (Workflow.Ok tt, h1, n1) ->
  Workflow.attempt maxRetries
    (Workflow.fetchPRDetails octo (Workflow.bp_installationId params)
       (Workflow.bp_repository params) (Workflow.prNumber params)) h1
  = (Workflow.Ok d, h2, n2) ->
  Workflow.attempt maxRetries
    (Workflow.validateTargetBranch octo (Workflow.bp_installationId params)
       (Workflow.bp_repository params) (Workflow.bp_targetBranch params)) h2
  = (Workflow.Ok tt, h3, n3) ->
  Workflow.analyzeChanges d (Workflow.bp_targetBranch params) h3 = (Workflow.Ok a, h3) ->
  sandbox h3 (Workflow.bp_installationId params) (Workflow.bp_repository params) d
    (Workflow.bp_targetBranch params) a
  = Workflow.Ok (Workflow.mkPerform false br (Some e)) ->
  Workflow.attempt maxRetries
    (Workflow.reportFailure octo (Workflow.bp_installationId params)
       (Workflow.bp_repository params) (Workflow.prNumber params)
       (Workflow.bp_targetBranch params) (Some e)) h3
  = (Workflow.Ok tt, h5, n5) ->
  LogFacts.job_logs (Workflow.jobId params) st = Some old ->
  exists s',
    Workflow.backportPullRequest_with maxRetries clock octo sandbox params None
      (Workflow.start st h)
    = Workflow.Finished
        (Workflow.Returns (Workflow.mkResult false None (Some e))) s' None /\
    LogFacts.job_logs (Workflow.jobId params) (Workflow.store s')
    = Some (old ++
            [MemOps.log_entry (clock 0%nat) "Request acknowledged";
             MemOps.log_entry (clock 2%nat) "Fetching PR details...";
             MemOps.log_entry (clock 4%nat) ("PR title: " +:+ Workflow.title d);
             MemOps.log_entry (clock 6%nat)
               ("Commits: "
                +:+ js_number_to_string (Z.of_nat (List.length (Workflow.commits d))));
             MemOps.log_entry (clock 8%nat)
               ("Validating target branch: " +:+ Workflow.bp_targetBranch params);
             MemOps.log_entry (clock 10%nat) "Target branch exists";
             MemOps.log_entry (clock 12%nat) "Analyzing changes...";
             MemOps.log_entry (clock 14%nat)
               ("Analysis complete. Complexity: " +:+ Workflow.complexity a);
             MemOps.log_entry (clock 16%nat) "Performing backport in sandbox...";
             MemOps.log_entry (clock 18%nat) ("Backport failed: " +:+ e)]).
Proof.
  intros Hack Hfetch Hval Han Hsb Hrep Hold.
  pose proof (StepFacts.attempt_first_ok maxRetries _ _ _ _ Han) as Han'.
  assert (Hperf : Workflow.attempt maxRetries
                    (Workflow.performBackport_with sandbox
                       (Workflow.bp_installationId params)
                       (Workflow.bp_repository params) d
                       (Workflow.bp_targetBranch params) a) h3
                  = (Workflow.Ok (Workflow.mkPerform false br (Some e)), h3, 1%nat)).
  { apply StepFacts.attempt_first_ok. unfold Workflow.performBackport_with.
    now rewrite Hsb. }
  assert (Hrun : exists s',
             Workflow.backportPullRequest_with maxRetries clock octo sandbox params
               None (Workflow.start st h)
             = Workflow.Finished
                 (Workflow.Returns (Workflow.mkResult false None (Some e))) s' None /\
             Workflow.store s'
             = jobs_updateJob (Workflow.jobId params)
                 (Workflow.status_and_error failed (Some e)) (clock 20%nat)
                 (LogFacts.log_all clock (Workflow.jobId params)
                    ["Request acknowledged"; "Fetching PR details...";
                     "PR title: " +:+ Workflow.title d;
                     "Commits: "
                     +:+ js_number_to_string
                           (Z.of_nat (List.length (Workflow.commits d)));
                     "Validating target branch: " +:+ Workflow.bp_targetBranch params;
                     "Target branch exists"; "Analyzing changes...";
                     "Analysis complete. Complexity: " +:+ Workflow.complexity a;
                     "Performing backport in sandbox...";
                     "Backport failed: " +:+ e] 0 st)).
  { unfold Workflow.backportPullRequest_with, mbind, Workflow.M_bind.
    eexists. split.
    - erewrite StepFacts.try_catch_returns; [reflexivity|].
      run_step Hack. run_logs. run_step Hfetch. run_logs.
      run_step Hval. run_logs. run_step Han'. run_logs.
      run_step Hperf. cbn [Workflow.pb_success Workflow.pb_error]. run_logs.
      run_step Hrep. run_tail. reflexivity.
    - reflexivity. }
  destruct Hrun as (s' & E & Hst). exists s'. split; [exact E|].
  rewrite Hst.
  apply LogFacts.job_logs_updateJob; [reflexivity|].
  exact (LogFacts.job_logs_log_all clock (Workflow.jobId params) _ 0 st old Hold).
Qed.

Lemma failed_backport_log_witness :
  exists s',
    Workflow.backportPullRequest (D := Examples.decimal_date) 3 Examples.clock
      Examples.cooperative Examples.params None Examples.mem_start
    = Workflow.Finished
        (Workflow.Returns
           (Workflow.mkResult false None
              (Some "Backport execution not yet implemented (coming in Phase 6)")))
        s' None /\
    LogFacts.job_logs "bp_100_a" (Workflow.store s')
    = Some ["[1000] Request acknowledged"; "[1002] Fetching PR details...";
            "[1004] PR title: Fix the parser"; "[1006] Commits: 1";
            "[1008] Validating target branch: release-1.2";
            "[1010] Target branch exists"; "[1012] Analyzing changes...";
            "[1014] Analysis complete. Complexity: low";
            "[1016] Performing backport in sandbox...";
            "[1018] Backport failed: Backport execution not yet implemented (coming in Phase 6)"].
Proof.
  edestruct (failed_backport_log (D := Examples.decimal_date) 3
               Examples.clock Examples.cooperative Workflow.placeholder
               Examples.params (InMemory Examples.mem_jobs) [])
    as (s' & E & Hl);
    [lazy; reflexivity | lazy; reflexivity | lazy; reflexivity | lazy; reflexivity
    | lazy; reflexivity | lazy; reflexivity | lazy; reflexivity |].
  exists s'. split; [exact E|exact Hl].
Defined.

(** ** The analysis of the changes *)

Module AnalysisFacts.
Import Workflow.

(** A character of plain ASCII text other than a line end. *)
Definition plain (c : ascii) : bool :=
  negb (Ascii.eqb c "010") && negb (Ascii.eqb c "013") && (N_of_ascii c <? 128)%N.

Fixpoint plain_line (s : string) : bool :=
  match s with
  | EmptyString => true
  | String c s' => plain c && plain_line s'
  end.

(** A line that starts a file of the diff. *)
Definition is_header (l : string) : bool := String.prefix "diff --git" l.

(** The lines of a text, joined by LF. *)
Definition unlines (ls : list string) : string := String.concat nl ls.

Definition low (c : ascii) : bool := (N_of_ascii c <? 128)%N.

Fixpoint low_text (s : string) : bool :=
  match s with
  | EmptyString => true
  | String c s' => low c && low_text s'
  end.

Lemma low_terminator (p1 p2 q1 q2 c : ascii) :
  low c = true -> line_terminator p1 p2 c = line_terminator q1 q2 c.
Proof.
  unfold low, line_terminator. intros H.
  destruct (Ascii.eqb_spec c "168") as [->|_]; [discriminate|].
  destruct (Ascii.eqb_spec c "169") as [->|_]; [discriminate|].
  now rewrite !andb_false_r.
Qed.

Lemma plain_terminator (p1 p2 c : ascii) :
  plain c = true -> line_terminator p1 p2 c = false.
Proof.
  unfold plain. intros H. apply andb_true_iff in H as [H Hl].
  apply andb_true_iff in H as [H1 H2].
  rewrite (low_terminator p1 p2 "000" "000" c Hl). unfold line_terminator.
  apply negb_true_iff in H1, H2. now rewrite H1, H2.
Qed.

Lemma count_low (b : bool) (p1 p2 q1 q2 : ascii) (s : string) :
  low_text s = true ->
  count_diff_headers b p1 p2 s = count_diff_headers b q1 q2 s.
Proof.
  revert b p1 p2 q1 q2. induction s as [|c s IH]; intros b p1 p2 q1 q2 H; [reflexivity|].
  simpl in H. apply andb_true_iff in H as [Hc Hs].
  cbn [count_diff_headers]. rewrite (low_terminator p1 p2 q1 q2 c Hc).
  f_equal. now apply IH.
Qed.

Lemma plain_low (c : ascii) : plain c = true -> low c = true.
Proof. unfold plain. intros H. now apply andb_true_iff in H as [_ H]. Qed.

Lemma plain_line_low (l : string) : plain_line l = true -> low_text l = true.
Proof.
  induction l as [|c l IH]; [reflexivity|]. simpl. intros H.
  apply andb_true_iff in H as [Hc Hl]. now rewrite (plain_low c Hc), IH.
Qed.

Lemma low_text_app (a b : string) :
  low_text a = true -> low_text b = true -> low_text (a +:+ b) = true.
Proof.
  induction a as [|c a IH]; [auto|]. simpl. intros H Hb.
  apply andb_true_iff in H as [Hc Ha].
  change (low c && low_text (a +:+ b) = true). now rewrite Hc, IH.
Qed.

Lemma unlines_cons (l : string) (ls : list string) :
  unlines (l :: ls)
  = match ls with
    | [] => l
    | _ :: _ => l +:+ String "010" (unlines ls)
    end.
Proof. destruct ls; reflexivity. Qed.

Lemma low_unlines (ls : list string) :
  Forall (fun l => plain_line l = true) ls -> low_text (unlines ls) = true.
Proof.
  induction 1 as [|l ls Hl Hls IH]; [reflexivity|].
  rewrite unlines_cons. destruct ls as [|l' ls']; [now apply plain_line_low|].
  apply low_text_app; [now apply plain_line_low|]. exact IH.
Qed.

(** The pattern is matched within the line: what follows the line end does
    not matter. *)
Lemma prefix_within_line (pat l rest : string) :
  IdFacts.has_char "010" pat = false ->
  String.prefix pat (l +:+ String "010" rest) = String.prefix pat l.
Proof.
  revert l. induction pat as [|p pat IH]; intros l Hp.
  - now destruct l.
  - simpl in Hp. apply orb_false_iff in Hp as [Hp1 Hp2].
    destruct l as [|c l].
    + change (String.prefix (String p pat) (String "010" rest) = false).
      simpl. destruct (Ascii.ascii_dec p "010") as [->|_]; [|reflexivity].
      now rewrite Ascii.eqb_refl in Hp1.
    + change (String.prefix (String p pat) (String c (l +:+ String "010" rest))
              = String.prefix (String p pat) (String c l)).
      simpl. destruct (Ascii.ascii_dec p c); [now apply IH|reflexivity].
Qed.

(** Within a line no further header is counted. *)
Lemma count_rest_of_line (p1 p2 : ascii) (l rest : string) :
  plain_line l = true -> low_text rest = true ->
  count_diff_headers false p1 p2 (l +:+ String "010" rest)
  = count_diff_headers true "000" "000" rest.
Proof.
  revert p1 p2. induction l as [|c l IH]; intros p1 p2 Hl Hr.
  - change (0 + count_diff_headers (line_terminator p1 p2 "010") p2 "010" rest
            = count_diff_headers true "000" "000" rest).
    replace (line_terminator p1 p2 "010") with true
      by (unfold line_terminator; reflexivity).
    rewrite Z.add_0_l. now apply count_low.
  - simpl in Hl. apply andb_true_iff in Hl as [Hc Hl].
    change (0 + count_diff_headers (line_terminator p1 p2 c) p2 c
                  (l +:+ String "010" rest)
            = count_diff_headers true "000" "000" rest).
    rewrite (plain_terminator p1 p2 c Hc), Z.add_0_l. now apply IH.
Qed.

Lemma count_line (l rest : string) :
  plain_line l = true -> low_text rest = true ->
  count_diff_headers true "000" "000" (l +:+ String "010" rest)
  = (if is_header l then 1 else 0) + count_diff_headers true "000" "000" rest.
Proof.
  intros Hl Hr. destruct l as [|c l].
  - change (0 + count_diff_headers (line_terminator "000" "000" "010") "000" "010" rest
            = 0 + count_diff_headers true "000" "000" rest).
    replace (line_terminator "000" "000" "010") with true by reflexivity.
    f_equal. now apply count_low.
  - simpl in Hl. apply andb_true_iff in Hl as [Hc Hl].
    change ((if true && String.prefix "diff --git" (String c l +:+ String "010" rest)
             then 1 else 0)
            + count_diff_headers (line_terminator "000" "000" c) "000" c
                (l +:+ String "010" rest)
            = (if is_header (String c l) then 1 else 0)
              + count_diff_headers true "000" "000" rest).
    rewrite (prefix_within_line "diff --git" (String c l) rest eq_refl).
    rewrite (plain_terminator "000" "000" c Hc).
    rewrite (count_rest_of_line "000" c l rest Hl Hr). reflexivity.
Qed.

Lemma count_last_line (l : string) :
  plain_line l = true ->
  count_diff_headers true "000" "000" l = if is_header l then 1 else 0.
Proof.
  intros Hl. destruct l as [|c l]; [reflexivity|].
  simpl in Hl. apply andb_true_iff in Hl as [Hc Hl].
  change ((if true && String.prefix "diff --git" (String c l) then 1 else 0)
          + count_diff_headers (line_terminator "000" "000" c) "000" c l
          = if is_header (String c l) then 1 else 0).
  rewrite (plain_terminator "000" "000" c Hc).
  assert (H0 : forall p1 p2 s, plain_line s = true ->
                 count_diff_headers false p1 p2 s = 0).
  { intros p1 p2 s. revert p1 p2. induction s as [|x s IH]; intros p1 p2 Hs; [reflexivity|].
    simpl in Hs. apply andb_true_iff in Hs as [Hx Hs].
    cbn [count_diff_headers]. rewrite (plain_terminator p1 p2 x Hx).
    rewrite (IH _ _ Hs). reflexivity. }
  rewrite (H0 _ _ _ Hl). unfold is_header. simpl andb. apply Z.add_0_r.
Qed.

Lemma count_unlines (ls : list string) :
  Forall (fun l => plain_line l = true) ls ->
  count_diff_headers true "000" "000" (unlines ls)
  = Z.of_nat (List.length (List.filter is_header ls)).
Proof.
  induction 1 as [|l ls Hl Hls IH]; [reflexivity|].
  rewrite unlines_cons. destruct ls as [|l' ls'].
  - rewrite (count_last_line l Hl). simpl. now destruct (is_header l).
  - rewrite (count_line l _ Hl (low_unlines _ Hls)), IH.
    cbn [List.filter]. destruct (is_header l); cbn [List.length]; lia.
Qed.

End AnalysisFacts.

(** X16.  [analyzeChanges] on a diff of plain ASCII lines joined by LF:
    [filesChanged] is the number of lines that begin with "diff --git", and
    [complexity] is "high" above 10 files, "medium" for 4 to 10 and "low" up
    to 3; no conflicts and no recommendations are reported.  The step sends
    no request and does not fail. *)
Theorem analyzeChanges_counts_files (d : Workflow.PRDetails) (targetBranch : string)
    (ls : list string) (h : list Workflow.Call) :
  Forall (fun l => AnalysisFacts.plain_line l = true) ls ->
  Workflow.diff d = AnalysisFacts.unlines ls ->
  Workflow.analyzeChanges d targetBranch h
  = (Workflow.Ok
       {| Workflow.complexity :=
            if 10 <? Z.of_nat (List.length (List.filter AnalysisFacts.is_header ls))
            then "high"
            else if 3 <? Z.of_nat (List.length (List.filter AnalysisFacts.is_header ls))
                 then "medium" else "low";
          Workflow.filesChanged :=
            Z.of_nat (List.length (List.filter AnalysisFacts.is_header ls));
          Workflow.potentialConflicts := [];
          Workflow.recommendations := [] |},
     h).
Proof.
  intros Hls Hd. unfold Workflow.analyzeChanges. rewrite Hd.
  rewrite (AnalysisFacts.count_unlines ls Hls). reflexivity.
Qed.

Lemma analyzeChanges_counts_files_witness :
  Workflow.complexity
    (match fst (Workflow.analyzeChanges
                  (Workflow.mkDetails "t" None "main" "fix" "c0ffee" [] true None
                     (AnalysisFacts.unlines
                        ["diff --git a/x.go b/x.go"; "--- a/x.go"; "+++ b/x.go";
                         "+// see diff --git"; "diff --git a/y.go b/y.go"; "-old"]))
                  "release-1.2" []) with
     | Workflow.Ok a => a
     | Workflow.Err _ => Workflow.mkAnalysis "" 0 [] []
     end) = "low" /\
  Workflow.filesChanged
    (match fst (Workflow.analyzeChanges
                  (Workflow.mkDetails "t" None "main" "fix" "c0ffee" [] true None
                     (AnalysisFacts.unlines
                        ["diff --git a/x.go b/x.go"; "--- a/x.go"; "+++ b/x.go";
                         "+// see diff --git"; "diff --git a/y.go b/y.go"; "-old"]))
                  "release-1.2" []) with
     | Workflow.Ok a => a
     | Workflow.Err _ => Workflow.mkAnalysis "" 0 [] []
     end) = 2.
Proof.
  rewrite (analyzeChanges_counts_files _ "release-1.2"
             ["diff --git a/x.go b/x.go"; "--- a/x.go"; "+++ b/x.go";
              "+// see diff --git"; "diff --git a/y.go b/y.go"; "-old"] []);
    [split; reflexivity | repeat constructor | reflexivity].
Defined.

(** ** The requests a run sends *)

Module RequestFacts.
Import Workflow.

(** A request made with the installation [inst] or addressed to the
    repository [owner]/[repo]. *)
Definition addressed (inst : Z) (owner : string) (repo : option string) (c : Call) : Prop :=
  match c with
  | GetInstallationOctokit i => i = inst
  | ReactionsCreateForIssueComment o r _ _
  | PullsGet o r _
  | PullsListCommits o r _
  | PullsGetDiff o r _
  | ReposGetBranch o r _
  | PullsCreate o r _ _ _ _
  | IssuesCreateComment o r _ _ => o = owner /\ r = repo
  end.

Lemma split_slash_plain (s : string) :
  IdFacts.has_char "/" s = false -> split_slash s = [s].
Proof.
  induction s as [|c s IH]; [reflexivity|]. simpl. intros H.
  apply orb_false_iff in H as [Hc Hs]. rewrite Hc, (IH Hs). reflexivity.
Qed.

Lemma split_slash_first (owner rest : string) :
  IdFacts.has_char "/" owner = false ->
  split_slash (owner +:+ String "/" rest) = owner :: split_slash rest.
Proof.
  induction owner as [|c owner IH]; intros H.
  - reflexivity.
  - simpl in H. apply orb_false_iff in H as [Hc Ho].
    change (split_slash (String c (owner +:+ String "/" rest))
            = String c owner :: split_slash rest).
    simpl. rewrite Hc, (IH Ho). reflexivity.
Qed.

Lemma owner_repo_full_name (owner name : string) :
  IdFacts.has_char "/" owner = false -> IdFacts.has_char "/" name = false ->
  owner_repo (owner +:+ "/" +:+ name) = (owner, Some name).
Proof.
  intros Ho Hn. unfold owner_repo.
  change (owner +:+ "/" +:+ name) with (owner +:+ String "/" name).
  now rewrite (split_slash_first owner name Ho), (split_slash_plain name Hn).
Qed.

Lemma owner_repo_no_slash (s : string) :
  IdFacts.has_char "/" s = false -> owner_repo s = (s, None).
Proof. intros H. unfold owner_repo. now rewrite (split_slash_plain s H). Qed.

Ltac addressed_requests :=
  intros;
  repeat match goal with
         | H : context [match ?a with _ => _ end] |- _ => destruct a eqn:?
         | H : (_, _) = (_, _) |- _ => injection H as <- <-
         end;
  repeat (apply StepFacts.sent_cons; [simpl; auto|]); apply StepFacts.sent_refl.

Section Steps.
Context (octo : Collaborator) (inst : Z) (repository : string).

Local Abbreviation P := (addressed inst (fst (owner_repo repository)) (snd (owner_repo repository))).

Lemma acknowledgeRequest_addressed (c : Z) (h0 : list Call) (y : Result unit)
    (h1 : list Call) :
  acknowledgeRequest octo inst repository c h0 = (y, h1) -> StepFacts.sent P h0 h1.
Proof.
  unfold acknowledgeRequest, mbind, Collab_bind, collab_bind,
    getInstallationOctokit, request.
  destruct (owner_repo repository) as [owner repo]. addressed_requests.
Qed.

Lemma fetchPRDetails_addressed (n : Z) (h0 : list Call) (y : Result PRDetails)
    (h1 : list Call) :
  fetchPRDetails octo inst repository n h0 = (y, h1) -> StepFacts.sent P h0 h1.
Proof.
  unfold fetchPRDetails, mbind, mret, Collab_bind, Collab_ret, collab_bind,
    collab_ret, getInstallationOctokit, request.
  destruct (owner_repo repository) as [owner repo]. addressed_requests.
Qed.

Lemma validateTargetBranch_addressed (branch : string) (h0 : list Call)
    (y : Result unit) (h1 : list Call) :
  validateTargetBranch octo inst repository branch h0 = (y, h1) -> StepFacts.sent P h0 h1.
Proof.
  unfold validateTargetBranch, mbind, Collab_bind, collab_bind, collab_try,
    collab_throw, getInstallationOctokit, request.
  destruct (owner_repo repository) as [owner repo]. addressed_requests.
Qed.

Lemma createBackportPR_addressed (n : Z) (branch : string) (b : option string)
    (h0 : list Call) (y : Result Z) (h1 : list Call) :
  createBackportPR octo inst repository n branch b h0 = (y, h1) -> StepFacts.sent P h0 h1.
Proof.
  unfold createBackportPR, mbind, Collab_bind, collab_bind,
    getInstallationOctokit, request.
  destruct (owner_repo repository) as [owner repo]. addressed_requests.
Qed.

Lemma reportSuccess_addressed (n k : Z) (branch : string) (h0 : list Call)
    (y : Result unit) (h1 : list Call) :
  reportSuccess octo inst repository n k branch h0 = (y, h1) -> StepFacts.sent P h0 h1.
Proof.
  unfold reportSuccess, mbind, Collab_bind, collab_bind,
    getInstallationOctokit, request.
  destruct (owner_repo repository) as [owner repo]. addressed_requests.
Qed.

Lemma reportFailure_addressed (n : Z) (branch : string) (e : option string)
    (h0 : list Call) (y : Result unit) (h1 : list Call) :
  reportFailure octo inst repository n branch e h0 = (y, h1) -> StepFacts.sent P h0 h1.
Proof.
  unfold reportFailure, mbind, Collab_bind, collab_bind,
    getInstallationOctokit, request.
  destruct (owner_repo repository) as [owner repo]. addressed_requests.
Qed.

End Steps.

(** Workflow code all of whose requests satisfy [P]. *)
Definition Sends {A : Type} (P : Call -> Prop) (p : M A) : Prop :=
  forall b s, StepFacts.sent P (calls s) (calls (final_state (p b s))).

Section Closure.
Context (P : Call -> Prop).

Lemma sends_ret {A : Type} (a : A) : Sends P (ret a).
Proof. intros b s. apply StepFacts.sent_refl. Qed.

Lemma sends_throw {A : Type} (t : Thrown) : Sends P (@throw A t).
Proof. intros b s. apply StepFacts.sent_refl. Qed.

Lemma sends_bind {A B : Type} (p : M A) (f : A -> M B) :
  Sends P p -> (forall a, Sends P (f a)) -> Sends P (bind p f).
Proof.
  intros Hp Hf b s. unfold bind. specialize (Hp b s).
  destruct (p b s) as [[a|t] s1 b1|s1]; simpl in *; [|exact Hp|exact Hp].
  eapply StepFacts.sent_trans; [exact Hp|apply Hf].
Qed.

Lemma sends_try_catch {A : Type} (p : M A) (h : Thrown -> M A) :
  Sends P p -> (forall t, Sends P (h t)) -> Sends P (try_catch p h).
Proof.
  intros Hp Hh b s. unfold try_catch. specialize (Hp b s).
  destruct (p b s) as [[a|t] s1 b1|s1]; simpl in *; [exact Hp| |exact Hp].
  eapply StepFacts.sent_trans; [exact Hp|apply Hh].
Qed.

Lemma sends_if {A : Type} (c : bool) (p q : M A) :
  Sends P p -> Sends P q -> Sends P (if c then p else q).
Proof. now destruct c. Qed.

Lemma sends_execute {A : Type} (maxRetries : nat) (name : StepName)
    (inj : A -> StepValue) (proj : StepValue -> option A) (fn : Collab A) :
  (forall h0 y h1, fn h0 = (y, h1) -> StepFacts.sent P h0 h1) ->
  Sends P (execute maxRetries name inj proj fn).
Proof.
  intros Hfn b s. unfold execute.
  destruct (journal s !! name) as [e|].
  - destruct (recorded e) as [v|t]; [destruct (proj v)|]; apply StepFacts.sent_refl.
  - destruct b as [[|n]|]; try apply StepFacts.sent_refl;
      destruct (attempt maxRetries fn (calls s)) as [[x h'] k] eqn:E; simpl;
      exact (StepFacts.attempt_sent P _ _ _ _ _ _ Hfn E).
Qed.

Lemma sends_addJobLog {D : JsDate} (clock : nat -> Z) (i msg : string) :
  Sends P (addJobLog clock i msg).
Proof. intros b s. apply StepFacts.sent_refl. Qed.

Lemma sends_updateJob (clock : nat -> Z) (i : string) (u : MemStore.JobUpdates) :
  Sends P (updateJob clock i u).
Proof. intros b s. apply StepFacts.sent_refl. Qed.

Lemma sends_drive {A : Type} (p : M A) (interruptions : list nat) (s : RunState) :
  Sends P p ->
  StepFacts.sent P (calls s) (calls (final_state (drive p interruptions s))).
Proof.
  intros Hp. revert s. induction interruptions as [|n l IH]; intros s; simpl.
  - apply Hp.
  - specialize (Hp (Some n) s).
    destruct (p (Some n) s) as [o s' b'|s1]; [exact Hp|].
    eapply StepFacts.sent_trans; [exact Hp|apply IH].
Qed.

End Closure.

Lemma sends_backportPullRequest {D : JsDate} (maxRetries : nat) (clock : nat -> Z)
    (octo : Collaborator) (sandbox : Sandbox) (params : BackportParams) :
  Sends (addressed (bp_installationId params)
           (fst (owner_repo (bp_repository params)))
           (snd (owner_repo (bp_repository params))))
    (backportPullRequest_with maxRetries clock octo sandbox params).
Proof.
  unfold backportPullRequest_with.
  repeat first
    [ apply sends_try_catch
    | apply sends_bind
    | apply sends_if
    | apply sends_ret
    | apply sends_throw
    | apply sends_addJobLog
    | apply sends_updateJob
    | apply sends_execute; apply acknowledgeRequest_addressed
    | apply sends_execute; apply fetchPRDetails_addressed
    | apply sends_execute; apply validateTargetBranch_addressed
    | apply sends_execute; apply createBackportPR_addressed
    | apply sends_execute; apply reportSuccess_addressed
    | apply sends_execute; apply reportFailure_addressed
    | apply sends_execute; intros h0 y h1 [= _ <-]; apply StepFacts.sent_refl
    | intros ? ].
Qed.

End RequestFacts.

(** X17.  Every request of a run of the backport workflow, however often the
    run is interrupted and driven again and whatever the sandbox does, is
    either the request for the installation client of the run's
    [installationId] or addressed to the repository of the run.  For a
    repository "owner/name" that is the owner [owner] and the repository
    [name]; for a repository without a slash the whole text is the owner and
    the repository is [undefined]. *)
Theorem run_requests_are_addressed_to_the_repository {D : JsDate} (maxRetries : nat)
    (clock : nat -> Z) (octo : Workflow.Collaborator) (sandbox : Workflow.Sandbox)
    (params : Workflow.BackportParams) (interruptions : list nat)
    (s : Workflow.RunState) :
  (forall owner name,
     IdFacts.has_char "/" owner = false -> IdFacts.has_char "/" name = false ->
     Workflow.bp_repository params = owner +:+ "/" +:+ name ->
     StepFacts.sent
       (RequestFacts.addressed (Workflow.bp_installationId params) owner (Some name))
       (Workflow.calls s)
       (Workflow.calls
          (Workflow.final_state
             (Workflow.drive
                (Workflow.backportPullRequest_with maxRetries clock octo sandbox params)
                interruptions s)))) /\
  (IdFacts.has_char "/" (Workflow.bp_repository params) = false ->
   StepFacts.sent
     (RequestFacts.addressed (Workflow.bp_installationId params)
        (Workflow.bp_repository params) None)
     (Workflow.calls s)
     (Workflow.calls
        (Workflow.final_state
           (Workflow.drive
              (Workflow.backportPullRequest_with maxRetries clock octo sandbox params)
              interruptions s)))).
Proof.
  pose proof (RequestFacts.sends_drive _ _ interruptions s
                (RequestFacts.sends_backportPullRequest maxRetries clock octo sandbox
                   params)) as H.
  split.
  - intros owner name Ho Hn Hr.
    rewrite Hr, (RequestFacts.owner_repo_full_name owner name Ho Hn) in H. exact H.
  - intros Hs. rewrite (RequestFacts.owner_repo_no_slash _ Hs) in H. exact H.
Qed.

(** ** The jobs route *)

Module RouteFacts.
Import Route.

(** The ids [createJob] was called with. *)
Definition created (ops : list MemOps.Op) : list string :=
  omap (fun op => match op with MemOps.Create _ i _ _ => Some i | _ => None end) ops.

Lemma apply_getJob {D : JsDate} (op : MemOps.Op) (jobs : MemStore.Jobs) (i : string) :
  is_Some (MemStore.getJob i (MemOps.apply op jobs)) <->
  is_Some (MemStore.getJob i jobs) \/ In i (created [op]).
Proof.
  destruct op as [p i0 t1 t2|i0 u t|i0 m t1 t2]; cbn [MemOps.apply created omap].
  - rewrite MemStoreFacts.createJob_get. destruct (decide (i = i0)) as [->|Hne].
    + split; [intros _; right; now left|eauto].
    + split; [auto|]. intros [H|[E|[]]]; [exact H|congruence].
  - rewrite MemStoreFacts.updateJob_get.
    destruct (MemStore.getJob i0 jobs) as [job|] eqn:E.
    + destruct (decide (i = i0)) as [->|Hne].
      * rewrite E. split; [intros _; left; eauto|eauto].
      * split; [auto|]. intros [H|[]]. exact H.
    + split; [auto|]. intros [H|[]]. exact H.
  - destruct (MemStore.getJob i0 jobs) as [job|] eqn:E.
    + destruct (MemStoreFacts.addJobLog_present i0 m t1 t2 jobs job E)
        as (j1 & H1 & _ & _ & _ & Ho).
      destruct (decide (i = i0)) as [->|Hne].
      * rewrite H1, E. split; [intros _; left; eauto|eauto].
      * rewrite (Ho i Hne). split; [auto|]. intros [H|[]]. exact H.
    + rewrite (MemFacts.addJobLog_absent i0 m t1 t2 jobs E).
      split; [auto|]. intros [H|[]]. exact H.
Qed.

Lemma run_getJob {D : JsDate} (ops : list MemOps.Op) (jobs : MemStore.Jobs) (i : string) :
  is_Some (MemStore.getJob i (MemOps.run ops jobs)) <->
  is_Some (MemStore.getJob i jobs) \/ In i (created ops).
Proof.
  revert jobs. induction ops as [|op ops IH]; intros jobs.
  - simpl. split; [auto|]. intros [H|[]]. exact H.
  - change (MemOps.run (op :: ops) jobs) with (MemOps.run ops (MemOps.apply op jobs)).
    rewrite IH, apply_getJob.
    change (op :: ops) with ([op] ++ ops). unfold created. rewrite omap_app.
    rewrite in_app_iff. tauto.
Qed.

(** The text [parseInt] is given for the limit. *)
Definition limit_text (q : SearchParams) : string := or_string (get "limit" q) "50".

(** A query that does not name a job: [id] is absent or empty. *)
Definition no_id (q : SearchParams) : Prop := get "id" q = None \/ get "id" q = Some "".

Lemma GET_listing {J : Type} (getJob : string -> option J)
    (listJobsForUser : string -> option Z -> list J) (token : string) (q : SearchParams) :
  truthy_string token = true -> no_id q ->
  GET getJob listJobsForUser (Some (mkSession (Some token))) q
  = mkResponse (JobsBody (listJobsForUser token (parseInt (limit_text q)))) 200.
Proof.
  intros Ht Hq. unfold GET. simpl. rewrite Ht. simpl.
  destruct Hq as [-> | ->]; reflexivity.
Qed.

Lemma no_token_unauthorized {J : Type} (getJob : string -> option J)
    (listJobsForUser : string -> option Z -> list J) (session : option Session)
    (q : SearchParams) :
  (forall token, session ≫= accessToken = Some token -> token = "") ->
  GET getJob listJobsForUser session q = mkResponse (ErrorBody "Unauthorized") 401.
Proof.
  intros H. unfold GET. destruct (session ≫= accessToken) as [token|]; [|reflexivity].
  rewrite (H token eq_refl). reflexivity.
Qed.

End RouteFacts.

(** X18.  [GET] with a job id, on the in-memory store in any state that
    [createJob], [updateJob] and [addJobLog] calls produce from the empty
    store.  A request whose session carries no access token (or an empty
    one) is answered 401 "Unauthorized", whatever it asks for.  A request
    with a token and a non-empty [id] is answered 200 with the record stored
    under that id when the id was given to [createJob], and 404 "Job not
    found" for every other id; the [limit] parameter plays no part. *)
Theorem GET_finds_created_jobs {D : JsDate} (ops : list MemOps.Op)
    (session : option Route.Session) (q : Route.SearchParams) :
  ((forall token, session ≫= Route.accessToken = Some token -> token = "") ->
   Route.mem_GET (MemOps.run ops []) session q
   = Route.mkResponse (Route.ErrorBody "Unauthorized") 401) /\
  (forall token i,
     session ≫= Route.accessToken = Some token -> token <> "" ->
     Route.get "id" q = Some i -> i <> "" ->
     (In i (RouteFacts.created ops) ->
      exists job,
        MemStore.getJob i (MemOps.run ops []) = Some job /\ id job = i /\
        Route.mem_GET (MemOps.run ops []) session q
        = Route.mkResponse (Route.JobBody job) 200) /\
     (~ In i (RouteFacts.created ops) ->
      Route.mem_GET (MemOps.run ops []) session q
      = Route.mkResponse (Route.ErrorBody "Job not found") 404)).
Proof.
  split; [apply RouteFacts.no_token_unauthorized|].
  intros token i Hs Ht Hi Hne.
  apply MemFacts.truthy_string_spec in Ht, Hne.
  unfold Route.mem_GET, Route.GET. rewrite Hs, Ht, Hi, Hne. simpl.
  pose proof (RouteFacts.run_getJob ops [] i) as Hc.
  pose proof (MemOps.run_well_keyed ops [] MemOps.empty_well_keyed) as Hw.
  split.
  - intros Hin. destruct (proj2 Hc (or_intror Hin)) as [job Hj].
    exists job. rewrite Hj. split; [reflexivity|]. split; [|reflexivity].
    exact (proj1 (MemOps.map_get_Some_key _ _ _ Hw Hj)).
  - intros Hnin. destruct (MemStore.getJob i (MemOps.run ops [])) as [job|] eqn:Hj;
      [|reflexivity].
    exfalso. destruct (proj1 Hc (ex_intro _ job eq_refl)) as [[x Hx]|Hin];
      [discriminate|contradiction].
Qed.

(** X19.  [GET] without a job id ([id] absent or empty) and with an access
    token, on the in-memory store: the answer is 200 with a list of jobs that
    is ordered newest [createdAt] first.  With [all] the stored jobs in that
    order: a [limit] parameter that [parseInt] reads as a positive number
    [n] yields the first [n] of [all]; without a [limit] parameter (or with
    an empty one) the first 50; a [limit] that reads as 0 or does not start
    with a number yields the whole of [all], without a bound; and a negative
    [limit] [-k] yields [all] without its last [k] jobs. *)
Theorem GET_lists_newest_first (jobs : MemStore.Jobs) (token : string)
    (q : Route.SearchParams) :
  token <> "" -> RouteFacts.no_id q ->
  exists out,
    Route.mem_GET jobs (Some (Route.mkSession (Some token))) q
    = Route.mkResponse (Route.JobsBody out) 200 /\
    StronglySorted MemFacts.newest_first out /\
    Permutation (MemFacts.all_matching None jobs) (MemStore.map_values jobs) /\
    (forall n, Route.parseInt (RouteFacts.limit_text q) = Some n -> 0 < n < 2 ^ 53 ->
       out = firstn (Z.to_nat n) (MemFacts.all_matching None jobs)) /\
    (Route.get "limit" q = None \/ Route.get "limit" q = Some "" ->
       out = firstn 50 (MemFacts.all_matching None jobs)) /\
    (Route.parseInt (RouteFacts.limit_text q) = None \/
     Route.parseInt (RouteFacts.limit_text q) = Some 0 ->
       out = MemFacts.all_matching None jobs) /\
    (forall k, Route.parseInt (RouteFacts.limit_text q) = Some (- k) -> 0 < k < 2 ^ 53 ->
       out = firstn (List.length (MemFacts.all_matching None jobs) - Z.to_nat k)
               (MemFacts.all_matching None jobs)).
Proof.
  intros Ht Hq. apply MemFacts.truthy_string_spec in Ht.
  unfold Route.mem_GET. rewrite (RouteFacts.GET_listing _ _ token q Ht Hq).
  eexists. split; [reflexivity|].
  unfold MemStore.listJobsForUser.
  split; [apply MemFacts.listJobs_sorted|].
  split.
  { rewrite MemFacts.all_matching_perm. unfold MemFacts.matches. simpl.
    now rewrite MemFacts.filter_true. }
  assert (Hall : forall l, MemFacts.all_matching (Some (mkListOptions None None l)) jobs
                           = MemFacts.all_matching None jobs) by reflexivity.
  split; [|split; [|split]].
  - intros n Hn Hpos. rewrite Hn, MemFacts.listJobs_unfold, Hall.
    rewrite (MemFacts.limit_option_positive
               (Some (mkListOptions None None (Some n))) n eq_refl ltac:(lia)).
    apply slice0_positive. lia.
  - intros Hl. assert (Htext : RouteFacts.limit_text q = "50").
    { unfold RouteFacts.limit_text. destruct Hl as [-> | ->]; reflexivity. }
    rewrite Htext. change (Route.parseInt "50") with (Some 50).
    rewrite MemFacts.listJobs_unfold, Hall. reflexivity.
  - intros Hp. rewrite MemFacts.listJobs_unfold, Hall.
    rewrite MemFacts.limit_option_none; [reflexivity|].
    destruct Hp as [-> | ->]; [now left|now right].
  - intros k Hk Hpos. rewrite Hk, MemFacts.listJobs_unfold, Hall.
    assert (Hlim : limit_option (Some (mkListOptions None None (Some (- k)))) = Some (- k)).
    { unfold limit_option, truthy_number. simpl.
      destruct (Z.eqb_spec (- k) 0); [lia|reflexivity]. }
    rewrite Hlim. unfold slice0.
    destruct (Z.ltb_spec (- k) 0); [|lia].
    f_equal. lia.
Qed.

Lemma GET_lists_newest_first_witness :
  exists out,
    Route.mem_GET Examples.mem_jobs (Some (Route.mkSession (Some "gho_token")))
      [("limit", "2")]
    = Route.mkResponse (Route.JobsBody out) 200 /\
    map id out = ["bp_300_c"; "bp_200_b"].
Proof.
  edestruct (GET_lists_newest_first Examples.mem_jobs "gho_token" [("limit", "2")])
    as (out & E & _ & _ & Hn & _); [discriminate | left; reflexivity |].
  exists out. split; [exact E|].
  rewrite (Hn 2 eq_refl ltac:(lia)). vm_compute. reflexivity.
Defined.



(** X21.  [GET] does not look at who asks: two sessions that each carry a
    non-empty access token get the same answer to the same query, on either
    store.  [listJobsForUser] passes the limit on to [listJobs] and ignores
    the token, and [GET] reads a single job without any check of its
    repository. *)
Theorem GET_answers_every_token_alike (token token' : string) (q : Route.SearchParams) :
  token <> "" -> token' <> "" ->
  (forall jobs,
     Route.mem_GET jobs (Some (Route.mkSession (Some token))) q
     = Route.mem_GET jobs (Some (Route.mkSession (Some token'))) q) /\
  (forall r,
     Route.redis_GET r (Some (Route.mkSession (Some token))) q
     = Route.redis_GET r (Some (Route.mkSession (Some token'))) q) /\
  (forall limit jobs,
     MemStore.listJobsForUser token limit jobs
     = MemStore.listJobs (Some (mkListOptions None None limit)) jobs) /\
  (forall limit r,
     RedisStore.listJobsForUser token limit r
     = RedisStore.listJobs (Some (mkListOptions None None limit)) r).
Proof.
  intros Ht Ht'. apply MemFacts.truthy_string_spec in Ht, Ht'.
  unfold Route.mem_GET, Route.redis_GET, Route.GET. simpl. rewrite Ht, Ht'. simpl.
  repeat split.
Qed.

Lemma GET_answers_every_token_alike_witness :
  Route.mem_GET Examples.mem_jobs (Some (Route.mkSession (Some "gho_alice")))
    [("id", "bp_300_c")]
  = Route.mem_GET Examples.mem_jobs (Some (Route.mkSession (Some "gho_bob")))
      [("id", "bp_300_c")].
Proof.
  apply (GET_answers_every_token_alike "gho_alice" "gho_bob" [("id", "bp_300_c")]);
    discriminate.
Defined.

(** X22.  [createJob] on the Redis store with an id that is in use does not
    replace the record: [HSET] overwrites the fields [jobToRedis] writes and
    keeps the others, and the log list is not touched.  [getJob] afterwards
    shows the new [status], [createdAt] and [updatedAt], but the log entries
    of the old record, and its [resultPR] and [error] when the new job has
    none; the record [createJob] returns shows an empty log.  (The in-memory
    [createJob] replaces the whole record.) *)
Theorem redis_createJob_keeps_an_old_record (params : JobParams) (newId : string)
    (now : Z) (r : RedisStore.Redis) (old : RedisStore.Job) :
  RedisStore.getJob newId r = Some old ->
  exists job',
    RedisStore.getJob newId (snd (RedisStore.createJob params newId now r)) = Some job' /\
    logs (fst (RedisStore.createJob params newId now r)) = [] /\
    RedisStore.rlogs job' = RedisStore.rlogs old /\
    RedisStore.r_status (RedisStore.data job') = Some pending /\
    RedisStore.r_createdAt (RedisStore.data job') = Some now /\
    RedisStore.r_updatedAt (RedisStore.data job') = Some now /\
    (p_resultPR params = None ->
     RedisStore.r_resultPR (RedisStore.data job')
     = RedisStore.r_resultPR (RedisStore.data old)) /\
    (p_error params = None ->
     RedisStore.r_error (RedisStore.data job')
     = RedisStore.r_error (RedisStore.data old)).
Proof.
  intros Hold. apply RedisStoreFacts.getJob_Some in Hold as (Hh & Hne & Hl).
  unfold RedisStore.createJob, RedisStore.getJob. cbn [fst snd id logs].
  rewrite RedisFacts.hgetall_zadd, RedisFacts.hgetall_hset_eq, Hh. simpl default.
  set (h := RedisStore.hash_merge _ _).
  assert (Hu : RedisStore.r_updatedAt h = Some now)
    by (subst h; simpl; apply JobFacts.some_union).
  rewrite (JobFacts.updatedAt_not_empty h now Hu).
  eexists. split; [reflexivity|]. split; [reflexivity|].
  cbn [RedisStore.jobFromRedis RedisStore.rlogs RedisStore.data].
  split; [now rewrite RedisStoreFacts.lrange_all_zadd, RedisStoreFacts.lrange_all_hset|].
  subst h. simpl. rewrite !JobFacts.some_union.
  repeat split; try reflexivity.
  - intros ->. apply JobFacts.none_union.
  - intros ->. apply JobFacts.none_union.
Qed.

Lemma redis_createJob_keeps_an_old_record_witness :
  exists job',
    RedisStore.getJob "bp_100_a"
      (snd (RedisStore.createJob (Examples.some_params "acme/app") "bp_100_a" 500
              (RedisStore.addJobLog (D := Examples.decimal_date) "bp_100_a" "started"
                 101 102 Examples.redis_jobs)))
    = Some job' /\
    RedisStore.rlogs job' = ["[101] started"] /\
    RedisStore.r_createdAt (RedisStore.data job') = Some 500.
Proof.
  edestruct (redis_createJob_keeps_an_old_record (Examples.some_params "acme/app")
               "bp_100_a" 500
               (RedisStore.addJobLog (D := Examples.decimal_date) "bp_100_a" "started"
                  101 102 Examples.redis_jobs))
    as (job' & Hg & _ & Hl & _ & Hc & _); [vm_compute; reflexivity|].
  exists job'. split; [exact Hg|]. split; [exact Hl|exact Hc].
Defined.
